(** * dlquery: a shallow embedding of the query core

    The development follows the Python sources
    [dlquery/collection.py], [dlquery/dlquery.py] and [dlquery/utils.py]:
    the node tree ([Element]), the lookup compiler ([LookupCls]), the
    recursive finder ([Element.find_]), the projector
    ([Element.filter_result]), the indexed accessor ([DLQuery.get]) and the
    wildcard converter ([convert_wildcard_to_regex]).

    Python objects that are shared through references (the [Element] nodes,
    reached both from [parent.children] and from [child.parent]) live in an
    explicit store addressed by allocation order. *)

From Stdlib Require Import ZArith String Ascii List Bool Lia.
From Stdlib Require Import DecimalString.
From stdpp Require Import base list.

Import ListNotations.
Set Warnings "-register-all".
Local Open Scope string_scope.
Local Open Scope list_scope.

(** ** Python values *)

(** Keys of a dictionary as JSON and YAML decoding produce them. *)
Inductive pykey : Type :=
| KNone
| KBool (b : bool)
| KInt (z : Z)
| KStr (s : string).

(** Raw nested data.  A dictionary is its item list in insertion order; a
    set is listed in its iteration order; [PFloat] carries the bit pattern
    of the float, [PObject] the repr of any other object. *)
Inductive pyval : Type :=
| PNone
| PBool (b : bool)
| PInt (z : Z)
| PFloat (bits : Z)
| PStr (s : string)
| PDict (items : list (pykey * pyval))
| PList (l : list pyval)
| PTuple (l : list pyval)
| PSet (l : list pyval)
| PObject (repr : string).

(** Python exceptions that the modelled code can raise. *)
Inductive exn : Type :=
| TypeError
| ValueError
| IndexError
| AttributeError
| re_error
| RegexConversionError (pattern regex_pattern : string)
| LookupClsError (text : string)
| OtherError (name : string).

Inductive res (A : Type) : Type :=
| Ok (a : A)
| Raise (e : exn).
Arguments Ok {A} a.
Arguments Raise {A} e.

#[global] Instance res_ret : MRet res := fun A a => Ok a.
#[global] Instance res_bind : MBind res := fun A B f m =>
  match m with
  | Ok a => f a
  | Raise e => Raise e
  end.

(** ** The node tree: [Result] and [Element] *)

Module Tree.

(** One [Element] object.  [type_] is the attribute [type]; [children] is
    [None] or a [List] of references to the child objects. *)
Record Element : Type := mkElement {
  data : pyval;
  index : pykey;
  parent : option nat;
  type_ : string;
  children : option (list nat);
  value : option pyval
}.

(** The store of [Element] objects; a reference is the position at which
    the object was allocated. *)
Abbreviation heap := (list Element).

(** Python's [lst or None] for a list. *)
Definition list_or_None {A} (lst : list A) : option (list A) :=
  match lst with
  | [] => None
  | _ :: _ => Some lst
  end.

Definition string_of_nat (n : nat) : string :=
  NilEmpty.string_of_uint (Nat.to_uint n).

(** ['__index__{}'.format(i)] *)
Definition index_label (i : nat) : pykey :=
  KStr (String.append "__index__" (string_of_nat i)).

(** [type(data).__name__] for the scalar branch of [_build]. *)
Definition scalar_type_name (d : pyval) : string :=
  match d with
  | PNone => "NoneType"
  | PBool _ => "bool"
  | PInt _ => "int"
  | PFloat _ => "float"
  | PStr _ => "str"
  | _ => "object"
  end.

(** The loop [for index, val in data.items()] of [_build]: every iteration
    constructs a child and appends its reference to [lst]. *)
Definition build_items
    (init : pyval -> pykey -> option nat -> heap -> nat * heap)
    (self : nat) (items : list (pykey * pyval)) (acc : list nat * heap)
  : list nat * heap :=
  fold_left
    (fun acc kv =>
       let r := init (snd kv) (fst kv) (Some self) (snd acc) in
       (fst acc ++ [fst r], snd r))
    items acc.

(** The loop [for i, item in enumerate(data)] of [_build]. *)
Definition build_enum
    (init : pyval -> pykey -> option nat -> heap -> nat * heap)
    (self : nat) (l : list pyval) (acc : nat * (list nat * heap))
  : nat * (list nat * heap) :=
  fold_left
    (fun acc item =>
       let i := fst acc in
       let r := init item (index_label i) (Some self) (snd (snd acc)) in
       (S i, (fst (snd acc) ++ [fst r], snd r)))
    l acc.

(** [self.children = lst or None] *)
Definition set_children (self : nat) (lst : list nat) (h : heap) : heap :=
  match h !! self with
  | Some o =>
      <[self := mkElement (data o) (index o) (parent o) (type_ o)
                          (list_or_None lst) (value o)]> h
  | None => h
  end.

(** [Element.__init__(data, index, parent)]: allocates the object, then
    runs [_build], which constructs the children top-down.  Returns the
    reference of the new object and the store after construction. *)
Fixpoint Element_init (d : pyval) (idx : pykey) (par : option nat) (h : heap)
  {struct d} : nat * heap :=
  let self := length h in
  let obj ty v := mkElement d idx par ty None v in
  match d with
  | PDict items =>
      let h0 := h ++ [obj "dict" None] in
      let r := build_items
                 (fun v k p h' => Element_init v k p h') self items ([], h0) in
      (self, set_children self (fst r) (snd r))
  | PList l | PTuple l | PSet l =>
      let h0 := h ++ [obj "list" None] in
      let r := build_enum
                 (fun v k p h' => Element_init v k p h') self l (0, ([], h0)) in
      (self, set_children self (fst (snd r)) (snd (snd r)))
  | PNone | PBool _ | PInt _ | PFloat _ | PStr _ =>
      (self, h ++ [obj (scalar_type_name d) (Some d)])
  | PObject _ =>
      (self, h ++ [obj "object" (Some d)])
  end.

(** [Element(data)]: the tree over [data], rooted at reference [0]. *)
Definition Element_new (d : pyval) : nat * heap :=
  Element_init d (KStr "") None [].

(** *** Shape of the store built by [Element_init] *)

(** Number of [Element] objects that the construction over [d] allocates. *)
Fixpoint size (d : pyval) : nat :=
  match d with
  | PDict items => S (list_sum (map (fun kv => size (snd kv)) items))
  | PList l | PTuple l | PSet l => S (list_sum (map size l))
  | _ => 1
  end.

Fixpoint enumerate_from (i : nat) (l : list pyval) : list (pykey * pyval) :=
  match l with
  | [] => []
  | v :: r => (index_label i, v) :: enumerate_from (S i) r
  end.

(** Index label and raw value of every child that [_build] constructs. *)
Definition children_of (d : pyval) : list (pykey * pyval) :=
  match d with
  | PDict items => items
  | PList l | PTuple l | PSet l => enumerate_from 0 l
  | _ => []
  end.

Definition is_container (d : pyval) : bool :=
  match d with
  | PDict _ | PList _ | PTuple _ | PSet _ => true
  | _ => false
  end.

(** The attribute [type] that [_build] assigns. *)
Definition type_name (d : pyval) : string :=
  match d with
  | PDict _ => "dict"
  | PList _ | PTuple _ | PSet _ => "list"
  | _ => scalar_type_name d
  end.

(** References of the children when the first one is allocated at [c]. *)
Fixpoint child_ids (kvs : list (pykey * pyval)) (c : nat) : list nat :=
  match kvs with
  | [] => []
  | kv :: r => c :: child_ids r (c + size (snd kv))
  end.

(** The object that construction over [d] leaves at reference [self]. *)
Definition node_of (d : pyval) (idx : pykey) (par : option nat) (self : nat)
  : Element :=
  mkElement d idx par (type_name d)
            (list_or_None (child_ids (children_of d) (S self)))
            (if is_container d then None else Some d).

(** [Subtree H d idx par id]: the store [H] holds, from reference [id] on,
    the objects constructed over [d] with index [idx] and parent [par]. *)
Inductive Subtree (H : heap) : pyval -> pykey -> option nat -> nat -> Prop :=
| Subtree_node d idx par id :
    H !! id = Some (node_of d idx par id) ->
    Subtrees H id (children_of d) (S id) ->
    Subtree H d idx par id
with Subtrees (H : heap) : nat -> list (pykey * pyval) -> nat -> Prop :=
| Subtrees_nil p c : Subtrees H p [] c
| Subtrees_cons p k v r c :
    Subtree H v k (Some p) c ->
    Subtrees H p r (c + size v) ->
    Subtrees H p ((k, v) :: r) c.

Scheme Subtree_mind := Minimality for Subtree Sort Prop
  with Subtrees_mind := Minimality for Subtrees Sort Prop.
Combined Scheme Subtree_mutind from Subtree_mind, Subtrees_mind.

(** Objects allocated for a run of children. *)
Definition sizes (kvs : list (pykey * pyval)) : nat :=
  list_sum (map (fun kv => size (snd kv)) kvs).

End Tree.

(** ** Python strings *)

(** A [str] is modelled by a [string] of 8-bit characters: a character
    stands for the code point of its number, so the strings are those of
    code points below 256.  White space and case mapping are those of
    Python on these code points. *)

Module Str.

Definition chr_in (c : ascii) (cs : string) : bool :=
  existsb (Ascii.eqb c) (list_ascii_of_string cs).

Definition newline : ascii := "010"%char.

(** [str.isspace] on the characters that [str.strip] removes. *)
Definition is_space (c : ascii) : bool :=
  let n := nat_of_ascii c in
  ((Nat.leb 9 n) && (Nat.leb n 13)) || ((Nat.leb 28 n) && (Nat.leb n 32))
  || Nat.eqb n 133 || Nat.eqb n 160.

Definition is_digit (c : ascii) : bool :=
  let n := nat_of_ascii c in (Nat.leb 48 n) && (Nat.leb n 57).

Definition is_upper (c : ascii) : bool :=
  let n := nat_of_ascii c in (Nat.leb 65 n) && (Nat.leb n 90).

Definition is_lower (c : ascii) : bool :=
  let n := nat_of_ascii c in (Nat.leb 97 n) && (Nat.leb n 122).

(** The cased letters beyond ASCII among the code points below 256:
    192-214 and 216-222 are capitals, 224-246 and 248-254 their small
    letters. *)
Definition is_upper_latin1 (c : ascii) : bool :=
  let n := nat_of_ascii c in
  ((Nat.leb 192 n) && (Nat.leb n 214)) || ((Nat.leb 216 n) && (Nat.leb n 222)).

Definition is_lower_latin1 (c : ascii) : bool :=
  let n := nat_of_ascii c in
  ((Nat.leb 224 n) && (Nat.leb n 246)) || ((Nat.leb 248 n) && (Nat.leb n 254)).

(** [str.lower] on one character; a character stands for the code point
    of its number. *)
Definition lower_chr (c : ascii) : ascii :=
  if is_upper c || is_upper_latin1 c
  then ascii_of_nat (nat_of_ascii c + 32) else c.

(** The capital of a character when it lies below 256: 181 and 255,
    whose capitals lie beyond, and 223 stay. *)
Definition upper_chr (c : ascii) : ascii :=
  if is_lower c || is_lower_latin1 c
  then ascii_of_nat (nat_of_ascii c - 32) else c.

Fixpoint map_chr (f : ascii -> ascii) (s : string) : string :=
  match s with
  | EmptyString => EmptyString
  | String c t => String (f c) (map_chr f t)
  end.

(** [str.lower] *)
Definition lower (s : string) : string := map_chr lower_chr s.

Fixpoint drop (n : nat) (s : string) : string :=
  match n, s with
  | S n', String _ t => drop n' t
  | _, _ => s
  end.

(** [s[i:j]] for [0 <= i <= j] *)
Definition slice (i j : nat) (s : string) : string :=
  String.substring i (j - i) s.

Fixpoint lstrip (s : string) : string :=
  match s with
  | String c t => if is_space c then lstrip t else s
  | EmptyString => EmptyString
  end.

Fixpoint rstrip (s : string) : string :=
  match s with
  | EmptyString => EmptyString
  | String c t =>
      match rstrip t with
      | EmptyString => if is_space c then EmptyString else String c EmptyString
      | t' => String c t'
      end
  end.

(** [str.strip()] *)
Definition strip (s : string) : string := rstrip (lstrip s).

(** [str.replace(old, new)] for a non-empty [old]: occurrences are taken
    left to right without overlap; [skip] counts the characters of a
    taken occurrence that remain to be passed over. *)
Fixpoint replace_from (old new : string) (skip : nat) (s : string) : string :=
  match s with
  | EmptyString => EmptyString
  | String c t =>
      match skip with
      | S k => replace_from old new k t
      | O =>
          if String.prefix old s
          then String.append new (replace_from old new (String.length old - 1) t)
          else String c (replace_from old new 0 t)
      end
  end.

Definition replace (old new s : string) : string := replace_from old new 0 s.

(** [str.count(c)] for a single character *)
Fixpoint count (c : ascii) (s : string) : nat :=
  match s with
  | EmptyString => 0
  | String a t => (if Ascii.eqb a c then 1 else 0) + count c t
  end.

(** [str.split(c)] for a single character *)
Fixpoint split (c : ascii) (s : string) : list string :=
  match s with
  | EmptyString => [EmptyString]
  | String a t =>
      if Ascii.eqb a c then EmptyString :: split c t
      else match split c t with
           | w :: ws => String a w :: ws
           | [] => [String a EmptyString]
           end
  end.

(** [str.split(c, maxsplit=1)] *)
Fixpoint split1 (c : ascii) (s : string) : list string :=
  match s with
  | EmptyString => [EmptyString]
  | String a t =>
      if Ascii.eqb a c then [EmptyString; t]
      else match split1 c t with
           | w :: ws => String a w :: ws
           | [] => [String a EmptyString]
           end
  end.

(** [sub in s] *)
Fixpoint contains (sub s : string) : bool :=
  String.prefix sub s
  || match s with
     | EmptyString => false
     | String _ t => contains sub t
     end.

(** [''.join(lst)] *)
Definition join (lst : list string) : string := String.concat "" lst.

Definition option_eqb_chr (o : option ascii) (c : ascii) : bool :=
  match o with
  | Some a => Ascii.eqb a c
  | None => false
  end.

Definition first_chr (s : string) : option ascii :=
  match s with
  | String c _ => Some c
  | EmptyString => None
  end.

Fixpoint last_chr (s : string) : option ascii :=
  match s with
  | EmptyString => None
  | String c EmptyString => Some c
  | String _ t => last_chr t
  end.

(** [re.escape]: the characters of
    [()[]{}?*+-|^$\.&~# \t\n\r\v\f] get a backslash in front. *)
Definition is_special (c : ascii) : bool :=
  chr_in c "()[]{}?*+-|^$\.&~# "
  || (let n := nat_of_ascii c in (Nat.leb 9 n) && (Nat.leb n 13)).

Fixpoint re_escape (s : string) : string :=
  match s with
  | EmptyString => EmptyString
  | String c t =>
      if is_special c then String "\"%char (String c (re_escape t))
      else String c (re_escape t)
  end.

End Str.

(** ** Python's [re] on the fragment that dlquery's own patterns use *)

Module Re.
Import Str.

(** Abstract syntax of a pattern.  [Cls neg rs] is a bracket class given
    by its ranges; [Grp name r] is a capturing group ([name] is empty for
    an unnamed one). *)
Inductive regex : Type :=
| Eps
| Chr (c : ascii)
| Any
| Cls (neg : bool) (rs : list (ascii * ascii))
| Bol
| Eol
| Seq (r1 r2 : regex)
| Alt (r1 r2 : regex)
| Star (r : regex)
| Grp (name : string) (r : regex).

(** A position of the matcher: offset in the subject, what is left of the
    subject, and the spans captured so far. *)
Record mstate : Type := mkState {
  pos : nat;
  rest : string;
  caps : list (string * (nat * nat))
}.

Definition advance (s : mstate) (t : string) : mstate :=
  mkState (S (pos s)) t (caps s).

Definition chr_eq (ic : bool) (c a : ascii) : bool :=
  if ic then Ascii.eqb (lower_chr c) (lower_chr a) else Ascii.eqb c a.

Definition in_range (a : ascii) (r : ascii * ascii) : bool :=
  Nat.leb (nat_of_ascii (fst r)) (nat_of_ascii a)
  && Nat.leb (nat_of_ascii a) (nat_of_ascii (snd r)).

Definition in_class (ic : bool) (rs : list (ascii * ascii)) (a : ascii) : bool :=
  if ic
  then existsb (in_range (lower_chr a)) rs || existsb (in_range (upper_chr a)) rs
  else existsb (in_range a) rs.

Definition one_chr (test : ascii -> bool) (s : mstate) : list mstate :=
  match rest s with
  | String a t => if test a then [advance s t] else []
  | EmptyString => []
  end.

(** Greedy repetition of [step]: as many rounds as possible first; a
    round that does not move forward is not repeated. *)
Fixpoint star (step : mstate -> list mstate) (n : nat) (s : mstate)
  : list mstate :=
  match n with
  | O => [s]
  | S n' =>
      flat_map (fun s' => if Nat.ltb (pos s) (pos s') then star step n' s' else [])
               (step s)
      ++ [s]
  end.

(** Backtracking matcher: all the positions at which [r] can stop when
    started at [s], in the order in which Python's engine tries them
    (greedy repetition, left alternative first).  [ic] is [re.IGNORECASE]. *)
Fixpoint run (ic : bool) (r : regex) (s : mstate) {struct r} : list mstate :=
  match r with
  | Eps => [s]
  | Chr c => one_chr (chr_eq ic c) s
  | Any => one_chr (fun a => negb (Ascii.eqb a newline)) s
  | Cls neg rs => one_chr (fun a => xorb neg (in_class ic rs a)) s
  | Bol => if Nat.eqb (pos s) 0 then [s] else []
  | Eol =>
      match rest s with
      | EmptyString => [s]
      | String a EmptyString => if Ascii.eqb a newline then [s] else []
      | _ => []
      end
  | Seq r1 r2 => flat_map (run ic r2) (run ic r1 s)
  | Alt r1 r2 => run ic r1 s ++ run ic r2 s
  | Star r' => star (run ic r') (S (String.length (rest s))) s
  | Grp name r' =>
      map (fun s' => mkState (pos s') (rest s') ((name, (pos s, pos s')) :: caps s'))
          (run ic r' s)
  end.

(** A [Match] object. *)
Record Match : Type := mkMatch {
  m_string : string;
  m_start : nat;
  m_end : nat;
  m_caps : list (string * (nat * nat))
}.

(** [Match.group()] *)
Definition group0 (m : Match) : string := slice (m_start m) (m_end m) (m_string m).

Fixpoint assoc (name : string) (l : list (string * (nat * nat))) : option (nat * nat) :=
  match l with
  | [] => None
  | (n, span) :: r => if String.eqb n name then Some span else assoc name r
  end.

(** [Match.group(name)]; a group that took no part gives [None]. *)
Definition group (name : string) (m : Match) : option string :=
  match assoc name (m_caps m) with
  | Some (i, j) => Some (slice i j (m_string m))
  | None => None
  end.

(** First match starting at offset [p] or later; [s] is the subject from
    offset [p] on. *)
Fixpoint search_at (ic : bool) (r : regex) (whole : string) (p : nat) (s : string)
  : option Match :=
  match run ic r (mkState p s []) with
  | m :: _ => Some (mkMatch whole p (pos m) (caps m))
  | [] =>
      match s with
      | EmptyString => None
      | String _ t => search_at ic r whole (S p) t
      end
  end.

(** A compiled pattern: the [IGNORECASE] flag and the syntax tree. *)
Definition Pattern : Type := bool * regex.

(** [Pattern.search(string)] *)
Definition search (c : Pattern) (s : string) : option Match :=
  search_at (fst c) (snd c) s 0 s.

(** [Pattern.match(string)] *)
Definition match_ (c : Pattern) (s : string) : option Match :=
  match run (fst c) (snd c) (mkState 0 s []) with
  | m :: _ => Some (mkMatch s 0 (pos m) (caps m))
  | [] => None
  end.

(** [Pattern.finditer(string)]: successive non-overlapping matches. *)
Fixpoint finditer_from (fuel : nat) (c : Pattern) (whole : string) (p : nat)
  : list Match :=
  match fuel with
  | O => []
  | S f =>
      if Nat.ltb (String.length whole) p then []
      else match search_at (fst c) (snd c) whole p (drop p whole) with
           | None => []
           | Some m =>
               m :: finditer_from f c whole
                      (if Nat.ltb (m_start m) (m_end m) then m_end m
                       else S (m_end m))
           end
  end.

Definition finditer (c : Pattern) (s : string) : list Match :=
  finditer_from (S (String.length s)) c s 0.

(** *** Reading a pattern string *)

(** In [re.VERBOSE] mode white space and [#] comments are skipped. *)
Fixpoint skip_line (s : string) : string :=
  match s with
  | EmptyString => EmptyString
  | String c t => if Ascii.eqb c newline then t else skip_line t
  end.

Fixpoint skip_blank (fuel : nat) (s : string) : string :=
  match fuel, s with
  | S f, String c t =>
      if is_space c then skip_blank f t
      else if Ascii.eqb c "#" then skip_blank f (skip_line t)
      else s
  | _, _ => s
  end.

Definition skip (vb : bool) (s : string) : string :=
  if vb then skip_blank (String.length s) s else s.

(** The name of [(?P<name>...)] up to the closing [>]. *)
Fixpoint read_name (s : string) : option (string * string) :=
  match s with
  | EmptyString => None
  | String c t =>
      if Ascii.eqb c ">" then Some (EmptyString, t)
      else match read_name t with
           | Some (n, t') => Some (String c n, t')
           | None => None
           end
  end.

Definition is_alnum (c : ascii) : bool := is_digit c || is_upper c || is_lower c.

(** The ranges of a bracket class, up to the closing bracket. *)
Fixpoint read_class (first : bool) (s : string) : option (list (ascii * ascii) * string) :=
  match s with
  | EmptyString => None
  | String c t =>
      if Ascii.eqb c "]" && negb first then Some ([], t)
      else if Ascii.eqb c "\" then
        match t with
        | String e t' =>
            if is_alnum e then None
            else match read_class false t' with
                 | Some (rs, t'') => Some ((e, e) :: rs, t'')
                 | None => None
                 end
        | EmptyString => None
        end
      else
        match t with
        | String "-" (String hi t') =>
            if Ascii.eqb hi "]" then
              (* a trailing [-] is a literal *)
              match read_class false t with
              | Some (rs, t'') => Some ((c, c) :: rs, t'')
              | None => None
              end
            else if Ascii.eqb hi "\" then None
            else if Nat.ltb (nat_of_ascii hi) (nat_of_ascii c) then None
            else match read_class false t' with
                 | Some (rs, t'') => Some ((c, hi) :: rs, t'')
                 | None => None
                 end
        | _ =>
            match read_class false t with
            | Some (rs, t'') => Some ((c, c) :: rs, t'')
            | None => None
            end
        end
  end.

Definition is_quantifier (c : ascii) : bool := chr_in c "*+?{".

(** A repetition sign after an atom; a second sign (lazy or possessive
    repetition, or a repeated repetition) is not read. *)
Definition read_quantifier (vb : bool) (a : regex) (s : string)
  : option (regex * string) :=
  match skip vb s with
  | String c t =>
      if is_quantifier c then
        let after := skip vb t in
        match first_chr after with
        | Some c' => if is_quantifier c' then None
                     else if Ascii.eqb c "*" then Some (Star a, after)
                     else if Ascii.eqb c "+" then Some (Seq a (Star a), after)
                     else if Ascii.eqb c "?" then Some (Alt a Eps, after)
                     else None
        | None => if Ascii.eqb c "*" then Some (Star a, after)
                  else if Ascii.eqb c "+" then Some (Seq a (Star a), after)
                  else if Ascii.eqb c "?" then Some (Alt a Eps, after)
                  else None
        end
      else Some (a, String c t)
  | EmptyString => Some (a, EmptyString)
  end.

(** [^] and [$] take no repetition sign: [re.compile] answers "nothing
    to repeat". *)
Definition is_anchor (c : ascii) : bool := Ascii.eqb c "^" || Ascii.eqb c "$".

Definition repeated (vb : bool) (s : string) : bool :=
  match first_chr (skip vb s) with
  | Some q => is_quantifier q
  | None => false
  end.

Definition expect_close (r : option (regex * string)) (wrap : regex -> regex)
  : option (regex * string) :=
  match r with
  | Some (body, String ")" t) => Some (wrap body, t)
  | _ => None
  end.

(** Recursive descent over alternatives, sequences and atoms.  [None]
    stands for a pattern that [re.compile] rejects or that lies outside
    the fragment read here. *)
Fixpoint parse_alt (fuel : nat) (vb : bool) (s : string) : option (regex * string) :=
  match fuel with
  | O => None
  | S f =>
      match parse_seq f vb s with
      | Some (r1, String "|" t) =>
          match parse_alt f vb t with
          | Some (r2, t') => Some (Alt r1 r2, t')
          | None => None
          end
      | other => other
      end
  end
with parse_seq (fuel : nat) (vb : bool) (s : string) : option (regex * string) :=
  match fuel with
  | O => None
  | S f =>
      match skip vb s with
      | EmptyString => Some (Eps, EmptyString)
      | String c t =>
          if Ascii.eqb c "|" || Ascii.eqb c ")" then Some (Eps, String c t)
          else
            match parse_atom f vb (String c t) with
            | Some (a, t1) =>
                if is_anchor c && repeated vb t1 then None
                else
                  match read_quantifier vb a t1 with
                  | Some (a', t2) =>
                      match parse_seq f vb t2 with
                      | Some (Eps, t3) => Some (a', t3)
                      | Some (r, t3) => Some (Seq a' r, t3)
                      | None => None
                      end
                  | None => None
                  end
            | None => None
            end
      end
  end
with parse_atom (fuel : nat) (vb : bool) (s : string) : option (regex * string) :=
  match fuel with
  | O => None
  | S f =>
      match s with
      | EmptyString => None
      | String "(" (String "?" (String "P" (String "<" t))) =>
          match read_name t with
          | Some (name, t') => expect_close (parse_alt f vb t') (Grp name)
          | None => None
          end
      | String "(" (String "?" (String ":" t)) =>
          expect_close (parse_alt f vb t) (fun r => r)
      | String "(" (String "?" _) => None
      | String "(" t => expect_close (parse_alt f vb t) (Grp EmptyString)
      | String "[" (String "^" t) =>
          match read_class true t with
          | Some (rs, t') => Some (Cls true rs, t')
          | None => None
          end
      | String "[" t =>
          match read_class true t with
          | Some (rs, t') => Some (Cls false rs, t')
          | None => None
          end
      | String "." t => Some (Any, t)
      | String "^" t => Some (Bol, t)
      | String "$" t => Some (Eol, t)
      | String "\" (String e t) =>
          if is_alnum e then None else Some (Chr e, t)
      | String "\" EmptyString => None
      | String c t => if is_quantifier c then None else Some (Chr c, t)
      end
  end.

(** [re.compile(pattern)]; [vb] is [re.VERBOSE].  The only inline flag
    read is a leading [(?i)].  The fragment read is: literals, escaped
    signs, [.], [^], [$], bracket classes of characters and ranges,
    groups (plain, named, [(?:...)]), alternation and one greedy [*], [+]
    or [?] after an atom.  Counted repetition, a brace taken literally,
    lazy repetition and the escaped letter classes lie outside it and
    give [None] like a pattern that [re.compile] rejects.  The patterns
    that the source itself compiles lie within the fragment; a pattern
    of the caller is compiled through a [ReLib]. *)
Definition compile (vb : bool) (p : string) : option Pattern :=
  let s := skip vb p in
  let ic := String.prefix "(?i)" s in
  let body := if ic then drop 4 s else s in
  match parse_alt (4 * String.length body + 8) vb body with
  | Some (r, EmptyString) => Some (ic, r)
  | _ => None
  end.

(** The matcher is at offset [pos s] of the subject [whole]. *)
Definition in_subject (whole : string) (s : mstate) : Prop :=
  rest s = Str.drop (pos s) whole.

(** What the code needs from [re] for patterns that come from the
    caller: [re.compile], which fails on an invalid pattern, and
    [bool(pattern.search(string))]. *)
Record ReLib : Type := mkReLib {
  pattern_obj : Type;
  re_compile : string -> option pattern_obj;
  re_search : pattern_obj -> string -> bool
}.

(** The matcher above as an instance. *)
Definition PyRe : ReLib :=
  mkReLib Pattern (compile false)
          (fun c s => match search c s with Some _ => true | None => false end).

(** [re.search(pattern, string, flags)] and friends for a pattern that is
    written in the source. *)
Definition search_str (vb : bool) (p s : string) : res (option Match) :=
  match compile vb p with
  | Some c => Ok (search c s)
  | None => Raise re_error
  end.

Definition match_str (vb : bool) (p s : string) : res (option Match) :=
  match compile vb p with
  | Some c => Ok (match_ c s)
  | None => Raise re_error
  end.

Definition finditer_str (vb : bool) (p s : string) : res (list Match) :=
  match compile vb p with
  | Some c => Ok (finditer c s)
  | None => Raise re_error
  end.

End Re.

(** ** [dlquery/utils.py] *)

Module Utils.

(** Lines 69-76 of [convert_wildcard_to_regex]: the value of
    [regex_pattern] that is handed to [re.compile]. *)
Definition wildcard_fragment (pattern : string) (closed : bool) : string :=
  let regex_pattern := Str.replace "." "\." pattern in
  let regex_pattern := Str.replace "+" "\+" regex_pattern in
  let regex_pattern := Str.replace "?" "_replacetodot_" regex_pattern in
  let regex_pattern := Str.replace "*" "_replacetodotasterisk_" regex_pattern in
  let regex_pattern := Str.replace "_replacetodot_" "." regex_pattern in
  let regex_pattern := Str.replace "_replacetodotasterisk_" ".*" regex_pattern in
  let regex_pattern := Str.replace "[!" "[^" regex_pattern in
  if closed then String.append "^" (String.append regex_pattern "$")
  else regex_pattern.

(** The conversion as the specification words it, character by
    character: [.] and [+] are escaped, [?] becomes [.], [*] becomes [.*];
    then [[!] is rewritten to [[^]. *)
Definition translate_chr (c : ascii) : string :=
  if Ascii.eqb c "." then "\."
  else if Ascii.eqb c "+" then "\+"
  else if Ascii.eqb c "?" then "."
  else if Ascii.eqb c "*" then ".*"
  else String c EmptyString.

Fixpoint flat_map_chr (f : ascii -> string) (s : string) : string :=
  match s with
  | EmptyString => EmptyString
  | String c t => String.append (f c) (flat_map_chr f t)
  end.

Definition wildcard_translation (pattern : string) : string :=
  Str.replace "[!" "[^" (flat_map_chr translate_chr pattern).

(** The two placeholders of lines 71-74. *)
Definition P1 : string := "_replacetodot_".
Definition P2 : string := "_replacetodotasterisk_".

(** The text after lines 69-72, block by block. *)
Definition blk4 (c : ascii) : string :=
  if Ascii.eqb c "." then "\."
  else if Ascii.eqb c "+" then "\+"
  else if Ascii.eqb c "?" then P1
  else if Ascii.eqb c "*" then P2
  else String c EmptyString.

(** The text after line 73. *)
Definition blk5 (c : ascii) : string :=
  if Ascii.eqb c "." then "\."
  else if Ascii.eqb c "+" then "\+"
  else if Ascii.eqb c "?" then "."
  else if Ascii.eqb c "*" then P2
  else String c EmptyString.

(** The letters that the two placeholders share. *)
Definition word : string := "replacetodot".

(** A block either is its own character or starts with a character that
    does not occur in [word]. *)
Definition clear_of_word (blk : ascii -> string) : Prop :=
  forall a, blk a = String a EmptyString
            \/ exists h tl, blk a = String h tl /\ Str.chr_in h word = false.

Section WithRe.
Variable re : Re.ReLib.

(** [convert_wildcard_to_regex(pattern, closed=False)] *)
Definition convert_wildcard_to_regex (pattern : string) (closed : bool)
  : res string :=
  let regex_pattern := wildcard_fragment pattern closed in
  match Re.re_compile re regex_pattern with
  | Some _ => Ok regex_pattern
  | None => Raise (RegexConversionError pattern regex_pattern)
  end.

End WithRe.

End Utils.

(** ** [LookupCls] *)

Module Lookup.

(** The [functools.partial] objects that [parse_other_] returns:
    [partial(getattr(CustomValidation, custom_name), valid=valid,
    on_exception=False)], [partial(OpValidation.compare_number, op=op,
    other=other, on_exception=False)] and the same for
    [OpValidation.compare]. *)
Inductive pfunc : Type :=
| CustomValidation_partial (custom_name : string) (valid : bool)
| compare_number_partial (op other : string)
| compare_partial (op other : string).

(** What [LookupCls.parse] returns: a pattern string or a callable. *)
Inductive parsed : Type :=
| PatternStr (pattern : string)
| Callable (f : pfunc).

Record LookupCls : Type := mkLookupCls {
  lookup : string;
  left : parsed;
  right : option parsed
}.

Definition pat : string := "_i?(text|wildcard|regex)[(].+[)]".

Definition vpat : string := "
                _(?P<options>i?)                    # options
                (?P<method>text|wildcard|regex)     # method is wildcard or regex
                [(]
                (?P<pattern>.+)                     # wildcard or regex pattern
                [)]
            ".

Definition vpat1_ : string := "
                (?i)(?P<custom_name>
                is_empty|is_not_empty|
                is_mac_address|is_not_mac_address|
                is_ip_address|is_not_ip_address|
                is_ipv4_address|is_not_ipv4_address|
                is_ipv6_address|is_not_ipv6_address|
                is_true|is_not_true|
                is_false|is_not_false)
                [(][)]$
            ".

Definition vpat2_ : string := "
                (?i)(?P<op>lt|le|gt|ge|eq|ne)
                [(]
                (?P<other>([0-9]+)?[.]?[0-9]+)
                [)]$
            ".

Definition vpat3_ : string := "
                (?i)(?P<op>eq|ne)
                [(]
                (?P<other>.*[^0-9].*)
                [)]$
            ".

(** Some fragment of the list is not the empty string. *)
Definition has_nonempty (lst : list string) : Prop :=
  exists x, In x lst /\ x <> EmptyString.

(** [match.group(name)] of a group that the pattern always sets. *)
Definition group_of (name : string) (m : Re.Match) : res string :=
  match Re.group name m with
  | Some g => Ok g
  | None => Raise AttributeError
  end.

Section WithRe.
Variable re : Re.ReLib.

(** The inner function [parse_] of [LookupCls.parse]. *)
Definition parse_ (text_ : string) : res (string * bool) :=
  match_ ← Re.search_str true vpat text_;
  match match_ with
  | None => Raise AttributeError
  | Some m =>
      options ← group_of "options" m;
      method ← group_of "method" m;
      pattern_ ← group_of "pattern" m;
      let options_ := Str.lower options in
      let method_ := Str.lower method in
      let ignorecase_ := Str.contains "i" options_ in
      if String.eqb method_ "wildcard" then
        pattern_ ← Utils.convert_wildcard_to_regex re pattern_ false;
        Ok (pattern_, ignorecase_)
      else if String.eqb method_ "text" then
        Ok (Str.re_escape pattern_, ignorecase_)
      else Ok (pattern_, ignorecase_)
  end.

(** The inner function [parse_other_] of [LookupCls.parse]. *)
Definition parse_other_ (text_ : string) : res parsed :=
  let data_ := Str.lower text_ in
  match1_ ← Re.match_str true vpat1_ data_;
  match match1_ with
  | Some m =>
      custom_name ← group_of "custom_name" m;
      let valid := if Str.contains "_not_" custom_name then false else true in
      let custom_name := Str.replace "not_" "" custom_name in
      Ok (Callable (CustomValidation_partial custom_name valid))
  | None =>
      match2_ ← Re.match_str true vpat2_ data_;
      match match2_ with
      | Some m =>
          op ← group_of "op" m;
          other ← group_of "other" m;
          Ok (Callable (compare_number_partial op other))
      | None =>
          match3_ ← Re.match_str true vpat3_ data_;
          match match3_ with
          | Some m =>
              op ← group_of "op" m;
              other ← group_of "other" m;
              Ok (Callable (compare_partial op other))
          | None =>
              Ok (PatternStr
                    (String.append "^" (String.append (Str.re_escape text_) "$")))
          end
      end
  end.

(** The body of [for node in re.finditer(pat, text)]; the loop state is
    [(lst, start, is_ignorecase)]. *)
Fixpoint parse_loop (text : string) (nodes : list Re.Match)
    (st : list string * nat * bool) : res (list string * nat * bool) :=
  match nodes with
  | [] => Ok st
  | node :: nodes' =>
      let '(lst, start, is_ignorecase) := st in
      let predata := Str.slice start (Re.m_start node) text in
      let lst := lst ++ [Str.re_escape predata] in
      let data := Re.group0 node in
      r ← parse_ data;
      let lst := lst ++ [fst r] in
      parse_loop text nodes' (lst, Re.m_end node, is_ignorecase || snd r)
  end.

(** [LookupCls.parse(text)] *)
Definition parse (text : string) : res parsed :=
  found ← Re.search_str false pat text;
  match found with
  | None => parse_other_ text
  | Some _ =>
      nodes ← Re.finditer_str false pat text;
      st ← parse_loop text nodes ([], 0, false);
      let '(lst, start, is_ignorecase) := (st : list string * nat * bool) in
      let lst :=
        match lst with
        | [] => lst
        | _ => lst ++ [Str.re_escape (Str.drop start text)]
        end in
      let pattern := Str.join lst in
      match pattern with
      | EmptyString => Raise (LookupClsError text)
      | _ =>
          let ss := if Str.option_eqb_chr (Str.first_chr pattern) "^"%char then "" else "^" in
          let es := if Str.option_eqb_chr (Str.last_chr pattern) "$"%char then "" else "$" in
          let ic := if is_ignorecase then "(?i)" else "" in
          Ok (PatternStr
                (String.append ic (String.append ss (String.append pattern es))))
      end
  end.

(** [LookupCls(lookup)]: [__init__] followed by [process]. *)
Definition process (lookup : string) : res LookupCls :=
  match Str.split1 "=" lookup with
  | left :: lst =>
      l ← parse left;
      match lst with
      | [] => Ok (mkLookupCls lookup l None)
      | r0 :: _ =>
          r ← parse r0;
          Ok (mkLookupCls lookup l (Some r))
      end
  | [] => Raise ValueError
  end.

(** The validators of [dlquery.validation] are called through this
    interface: [validate f data] is the truth value of [f(data)]. *)
Variable validate : pfunc -> pyval -> res bool.

(** Property [is_right]: [bool(self.right)] *)
Definition is_right (lk : LookupCls) : bool :=
  match right lk with
  | None => false
  | Some (PatternStr EmptyString) => false
  | Some _ => true
  end.

(** [re.search(pattern, data)] on a compiled side of the lookup *)
Definition search_side (side : parsed) (data : string) : res bool :=
  match side with
  | PatternStr p =>
      match Re.re_compile re p with
      | Some c => Ok (Re.re_search re c data)
      | None => Raise re_error
      end
  | Callable _ => Raise TypeError
  end.

(** [LookupCls.is_left_matched(data)] *)
Definition is_left_matched (lk : LookupCls) (data : pykey) : res bool :=
  match data with
  | KStr s => search_side (left lk) s
  | _ => Ok false
  end.

(** [LookupCls.is_right_matched(data)] *)
Definition is_right_matched (lk : LookupCls) (data : pyval) : res bool :=
  if negb (is_right lk) then Ok true
  else
    match right lk with
    | Some (Callable f) => validate f data
    | Some side =>
        match data with
        | PStr s => search_side side s
        | _ => Ok false
        end
    | None => Ok true
    end.

End WithRe.

End Lookup.

(** ** Python dictionaries *)

Module PyDict.

(** Key equality as [dict] lookup sees it: [True == 1] and [False == 0]. *)
Definition key_eqb (a b : pykey) : bool :=
  match a, b with
  | KNone, KNone => true
  | KBool x, KBool y => Bool.eqb x y
  | KInt x, KInt y => Z.eqb x y
  | KBool x, KInt y | KInt y, KBool x => Z.eqb (if x then 1 else 0)%Z y
  | KStr x, KStr y => String.eqb x y
  | _, _ => false
  end.

(** [d.get(key)], [None] of the model when the key is absent. *)
Fixpoint get (key : pykey) (d : list (pykey * pyval)) : option pyval :=
  match d with
  | [] => None
  | (k, v) :: r => if key_eqb k key then Some v else get key r
  end.

(** [key in d] *)
Definition contains (key : pykey) (d : list (pykey * pyval)) : bool :=
  match get key d with
  | Some _ => true
  | None => false
  end.

(** [d[key] = v]: an existing key keeps its place. *)
Fixpoint set (key : pykey) (v : pyval) (d : list (pykey * pyval))
  : list (pykey * pyval) :=
  match d with
  | [] => [(key, v)]
  | (k, w) :: r => if key_eqb k key then (k, v) :: r else (k, w) :: set key v r
  end.

(** [dict.fromkeys(columns)] *)
Definition fromkeys (columns : list pykey) : list (pykey * pyval) :=
  fold_left (fun d k => set k PNone d) columns [].

Definition keys (d : list (pykey * pyval)) : list pykey := map fst d.

(** Keys up to the equality of [dict]: a bool is its integer. *)
Definition canon (k : pykey) : pykey :=
  match k with
  | KBool b => KInt (if b then 1 else 0)
  | _ => k
  end.

(** No two entries of the dictionary have equal keys. *)
Fixpoint uniq (d : list (pykey * pyval)) : Prop :=
  match d with
  | [] => True
  | (k, _) :: r => contains k r = false /\ uniq r
  end.

(** Python's [d.get(key, None)] *)
Definition value_of (pdata : list (pykey * pyval)) (k : pykey) : pyval :=
  match get k pdata with
  | Some v => v
  | None => PNone
  end.

End PyDict.

(** ** The recursive finder and the projector *)

Module Finder.
Import Tree Lookup.

(** How a call ended. *)
Inductive outcome : Type :=
| Returned
| Raised (e : exn).

(** The [result] list that [find_] appends to, and a ghost record
    [probed] of the children whose [index] was handed to
    [is_left_matched]. *)
Record fstate : Type := mkFstate {
  result : list nat;
  probed : list nat
}.

Definition is_dict (o : Element) : bool := String.eqb (type_ o) "dict".
Definition is_list (o : Element) : bool := String.eqb (type_ o) "list".

(** [has_children], [is_element]: [bool(self.children)] *)
Definition has_children (o : Element) : bool :=
  match children o with
  | Some (_ :: _) => true
  | _ => false
  end.
Definition is_element (o : Element) : bool := has_children o.

(** What the external select-statement parser hands to the projector. *)
Record SelectParser : Type := mkSelectParser {
  predicate : option (pyval -> res bool);
  is_zero_select : bool;
  is_all_select : bool;
  columns : list pykey
}.

Section WithLookup.
Variable re : Re.ReLib.
Variable validate : pfunc -> pyval -> res bool.
Variable H : heap.
Variable lookup_obj : LookupCls.

(** The test of one child of a dict node, lines 235-240 of [find_]. *)
Definition probe (c : nat) (child : Element) (st : fstate) : fstate * outcome :=
  let st := mkFstate (result st) (probed st ++ [c]) in
  match is_left_matched re lookup_obj (index child) with
  | Raise e => (st, Raised e)
  | Ok false => (st, Returned)
  | Ok true =>
      if is_right lookup_obj then
        match is_right_matched re validate lookup_obj (data child) with
        | Raise e => (st, Raised e)
        | Ok true => (mkFstate (result st ++ [c]) (probed st), Returned)
        | Ok false => (st, Returned)
        end
      else (mkFstate (result st ++ [c]) (probed st), Returned)
  end.

(** The exception, if any, that the test of lines 235-240 raises on
    [child]. *)
Definition raised (child : Element) : option exn :=
  match is_left_matched re lookup_obj (index child) with
  | Raise e => Some e
  | Ok false => None
  | Ok true =>
      if is_right lookup_obj then
        match is_right_matched re validate lookup_obj (data child) with
        | Raise e => Some e
        | Ok _ => None
        end
      else None
  end.

(** The loop [for child in node.children] of [find_]; [rec] is the
    recursive call [self.find_(child, lookup_obj, result)]. *)
Fixpoint find_children
    (rec : nat -> fstate -> option (fstate * outcome))
    (node_is_list : bool) (cs : list nat) (st : fstate)
  : option (fstate * outcome) :=
  match cs with
  | [] => Some (st, Returned)
  | c :: cs' =>
      match H !! c with
      | None => None
      | Some child =>
          if node_is_list then
            if is_element child then
              match rec c st with
              | Some (st', Returned) => find_children rec node_is_list cs' st'
              | other => other
              end
            else find_children rec node_is_list cs' st
          else
            match probe c child st with
            | (st', Returned) =>
                if is_element child then
                  match rec c st' with
                  | Some (st'', Returned) =>
                      find_children rec node_is_list cs' st''
                  | other => other
                  end
                else find_children rec node_is_list cs' st'
            | stop => Some stop
            end
      end
  end.

(** [Element.find_(node, lookup_obj, result)].  [None] only when [fuel]
    runs out or a reference dangles. *)
Fixpoint find_ (fuel : nat) (node : nat) (st : fstate)
  : option (fstate * outcome) :=
  match fuel with
  | O => None
  | S f =>
      match H !! node with
      | None => None
      | Some n =>
          if is_dict n || is_list n then
            match children n with
            | None => Some (st, Raised TypeError)
            | Some cs => find_children (find_ f) (is_list n) cs st
            end
          else Some (st, Returned)
      end
  end.

(** What [find_] does on account of the object [c] itself: nothing when
    [c] has no parent or hangs under a list node, the test [probe]
    otherwise. *)
Definition visit (c : nat) (st : fstate) : fstate * outcome :=
  match H !! c with
  | None => (st, Returned)
  | Some child =>
      match parent child with
      | None => (st, Returned)
      | Some p =>
          match H !! p with
          | None => (st, Returned)
          | Some n => if is_list n then (st, Returned) else probe c child st
          end
      end
  end.

(** [visit] over a run of references, stopping at the first exception. *)
Fixpoint sweep (ids : list nat) (st : fstate) : fstate * outcome :=
  match ids with
  | [] => (st, Returned)
  | c :: r =>
      match visit c st with
      | (st', Returned) => sweep r st'
      | stop => stop
      end
  end.

(** [c] hangs under a node that is not of list type: the finder hands
    the index of [c] to [is_left_matched]. *)
Definition tested (c : nat) : bool :=
  match H !! c with
  | None => false
  | Some child =>
      match parent child with
      | None => false
      | Some p =>
          match H !! p with
          | None => false
          | Some n => negb (is_list n)
          end
      end
  end.

Definition holds (r : res bool) : bool :=
  match r with
  | Ok true => true
  | _ => false
  end.

(** The condition of lines 235-240 under which a child is appended. *)
Definition accepts (child : Element) : bool :=
  holds (is_left_matched re lookup_obj (index child))
  && (negb (is_right lookup_obj)
      || holds (is_right_matched re validate lookup_obj (data child))).

(** [c] is a child of a dict node whose index matches the left pattern
    and whose data passes the right specification when there is one. *)
Definition matches (c : nat) : bool :=
  match H !! c with
  | None => false
  | Some child =>
      match parent child with
      | None => false
      | Some p =>
          match H !! p with
          | None => false
          | Some n => is_dict n && accepts child
          end
      end
  end.

(** [c] is tested and accepted. *)
Definition selects (c : nat) : bool :=
  match H !! c with
  | None => false
  | Some child => tested c && accepts child
  end.

(** The loop of [find_] under a list node, spelled out: a child is
    recursed into when it has children and is otherwise passed over. *)
Fixpoint recurse_only
    (rec : nat -> fstate -> option (fstate * outcome))
    (cs : list nat) (st : fstate) : option (fstate * outcome) :=
  match cs with
  | [] => Some (st, Returned)
  | c :: cs' =>
      match H !! c with
      | None => None
      | Some child =>
          if is_element child then
            match rec c st with
            | Some (st', Returned) => recurse_only rec cs' st'
            | other => other
            end
          else recurse_only rec cs' st
      end
  end.

(** [record.parent.data] *)
Definition parent_data (record : nat) : res pyval :=
  match H !! record with
  | None => Raise AttributeError
  | Some o =>
      match parent o with
      | None => Raise AttributeError
      | Some p =>
          match H !! p with
          | None => Raise AttributeError
          | Some n => Ok (data n)
          end
      end
  end.

(** The parent's record when it is a dictionary. *)
Definition parent_record (record : nat) : list (pykey * pyval) :=
  match parent_data record with
  | Ok (PDict items) => items
  | _ => []
  end.

Definition record_data (record : nat) : res pyval :=
  match H !! record with
  | None => Raise AttributeError
  | Some o => Ok (data o)
  end.

(** The loop of lines 199-202: keep the records whose parent data
    satisfies the predicate. *)
Fixpoint filter_records (pred : pyval -> res bool) (records : list nat)
  : res (list nat) :=
  match records with
  | [] => Ok []
  | record :: r =>
      pd ← parent_data record;
      is_found ← pred pd;
      lst ← filter_records pred r;
      Ok (if (is_found : bool) then record :: lst else lst)
  end.

(** The loop [for key in new_data] of lines 216-218. *)
Fixpoint fill_columns (pdata : list (pykey * pyval)) (ks : list pykey)
    (acc : list (pykey * pyval) * bool) : list (pykey * pyval) * bool :=
  match ks with
  | [] => acc
  | key :: ks' =>
      let is_added := snd acc && PyDict.contains key pdata in
      let v := match PyDict.get key pdata with Some v => v | None => PNone end in
      fill_columns pdata ks' (PyDict.set key v (fst acc), is_added)
  end.

(** One iteration of the column-select loop, lines 214-219. *)
Definition select_columns (cols : list pykey) (item : nat) : res (list pyval) :=
  pd ← parent_data item;
  match pd with
  | PDict pdata =>
      let new_data := PyDict.fromkeys cols in
      let r := fill_columns pdata (PyDict.keys new_data) (new_data, true) in
      Ok (if snd r then [PDict (fst r)] else [])
  | _ => Raise AttributeError
  end.

Fixpoint map_res {A B} (f : A -> res B) (l : list A) : res (list B) :=
  match l with
  | [] => Ok []
  | a :: r =>
      b ← f a;
      bs ← map_res f r;
      Ok (b :: bs)
  end.

(** [Element.filter_result(records, select_statement)], from the parsed
    select statement on. *)
Definition filter_result (records : list nat) (select_obj : SelectParser)
  : res (list pyval) :=
  lst ← match predicate select_obj with
        | Some pred => filter_records pred records
        | None => Ok records
        end;
  if is_zero_select select_obj then map_res record_data lst
  else if is_all_select select_obj then map_res parent_data lst
  else
    rows ← map_res (select_columns (columns select_obj)) lst;
    Ok (concat rows).

End WithLookup.

(** Column-select projection as the specification words it: the record
    of the named columns, each bound to the parent's value, emitted only
    when the parent record has every column. *)
Definition column_record (cols : list pykey) (pdata : list (pykey * pyval))
  : list pyval :=
  if forallb (fun k => PyDict.contains k pdata) cols
  then [PDict (map (fun k => (k, match PyDict.get k pdata with
                                 | Some v => v
                                 | None => PNone
                                 end))
                   (PyDict.keys (PyDict.fromkeys cols)))]
  else [].

(** [a] is a proper ancestor of [c] along the [parent] attributes. *)
Inductive ancestor (H : heap) : nat -> nat -> Prop :=
| ancestor_parent c o p :
    H !! c = Some o -> parent o = Some p -> ancestor H p c
| ancestor_step a c o p :
    H !! c = Some o -> parent o = Some p -> ancestor H a p -> ancestor H a c.

(** [a] occurs before [c] in [l]. *)
Definition precedes (l : list nat) (a c : nat) : Prop :=
  exists l1 l2 l3, l = l1 ++ a :: l2 ++ c :: l3.

(** [Element.find(lookup, select)] on the node [self] of store [H];
    the select statement comes parsed.  The recursion of [find_] is given
    one unit of fuel per object of the store. *)
Definition find (re : Re.ReLib) (validate : pfunc -> pyval -> res bool)
    (H : heap) (self : nat) (lookup : string) (select_obj : SelectParser)
  : option (res (list pyval)) :=
  match process re lookup with
  | Raise e => Some (Raise e)
  | Ok lkup_obj =>
      match find_ re validate H lkup_obj (length H) self (mkFstate [] []) with
      | None => None
      | Some (_, Raised e) => Some (Raise e)
      | Some (st, Returned) => Some (filter_result H (result st) select_obj)
      end
  end.

End Finder.

(** ** [DLQuery.get] *)

Module DLQuery.

Local Open Scope Z_scope.

Definition digit_val (c : ascii) : Z := Z.of_nat (nat_of_ascii c) - 48.

(** Digits of an [int] literal after the first one; single underscores
    may separate digits. *)
Fixpoint int_digits (acc : Z) (after_underscore : bool) (s : string) : option Z :=
  match s with
  | EmptyString => if after_underscore then None else Some acc
  | String c t =>
      if Str.is_digit c then int_digits (10 * acc + digit_val c) false t
      else if Ascii.eqb c "_" then
        if after_underscore then None else int_digits acc true t
      else None
  end.

Definition int_unsigned (s : string) : option Z :=
  match s with
  | String c t => if Str.is_digit c then int_digits (digit_val c) false t else None
  | EmptyString => None
  end.

(** The white space that [int] passes over at the ends of a string: tab
    to carriage return, the space, and the two spaces above 127 (133 and
    160).  The separators 28 to 31, which [str.strip] removes, are no
    white space for [int]. *)
Definition is_int_space (c : ascii) : bool :=
  let n := nat_of_ascii c in
  ((Nat.leb 9 n) && (Nat.leb n 13)) || Nat.eqb n 32
  || Nat.eqb n 133 || Nat.eqb n 160.

Fixpoint int_lstrip (s : string) : string :=
  match s with
  | String c t => if is_int_space c then int_lstrip t else s
  | EmptyString => EmptyString
  end.

Fixpoint int_rstrip (s : string) : string :=
  match s with
  | EmptyString => EmptyString
  | String c t =>
      match int_rstrip t with
      | EmptyString => if is_int_space c then EmptyString else String c EmptyString
      | t' => String c t'
      end
  end.

Definition int_strip (s : string) : string := int_rstrip (int_lstrip s).

(** The number of decimal digits of a string, and the most that [int]
    converts: [sys.int_max_str_digits] of CPython 3.11. *)
Fixpoint count_digits (s : string) : nat :=
  match s with
  | EmptyString => O
  | String c t => (if Str.is_digit c then 1 else 0)%nat + count_digits t
  end.

Definition int_max_str_digits : nat := 4300.

(** Python's [int(s)] for a string: surrounding white space, an optional
    sign, decimal digits; [ValueError] for anything else and for more
    digits than the limit. *)
Definition py_int (s : string) : res Z :=
  let body := int_strip s in
  let r := match body with
           | String "-" t => option_map Z.opp (int_unsigned t)
           | String "+" t => int_unsigned t
           | _ => int_unsigned body
           end in
  match r with
  | Some z =>
      if Nat.leb (count_digits body) int_max_str_digits then Ok z
      else Raise ValueError
  | None => Raise ValueError
  end.

Definition len (l : list pyval) : Z := Z.of_nat (length l).

(** [l[i]] for an integer [i] *)
Definition getitem (l : list pyval) (i : Z) : res pyval :=
  let j := if i <? 0 then i + len l else i in
  if (j <? 0) || (len l <=? j) then Raise IndexError
  else match nth_error l (Z.to_nat j) with
       | Some v => Ok v
       | None => Raise IndexError
       end.

(** [slice(i, j, k).indices(length)] *)
Definition slice_indices (length : Z) (i j k : option Z) : res (Z * Z * Z) :=
  let step := match k with Some s => s | None => 1 end in
  if step =? 0 then Raise ValueError
  else
    let lower := if step <? 0 then -1 else 0 in
    let upper := if step <? 0 then length - 1 else length in
    let clip (o : option Z) (dflt : Z) :=
      match o with
      | None => dflt
      | Some s => if s <? 0 then Z.max (s + length) lower else Z.min s upper
      end in
    let start := clip i (if step <? 0 then upper else lower) in
    let stop := clip j (if step <? 0 then lower else upper) in
    Ok (start, stop, step).

(** The elements at [cur, cur + step, ...] short of [stop]. *)
Fixpoint take_range (fuel : nat) (l : list pyval) (cur stop step : Z)
  : list pyval :=
  match fuel with
  | O => []
  | S f =>
      if (if 0 <? step then cur <? stop else stop <? cur) then
        match nth_error l (Z.to_nat cur) with
        | Some v => v :: take_range f l (cur + step) stop step
        | None => []
        end
      else []
  end.

(** [l[slice(i, j, k)]] *)
Definition getslice (l : list pyval) (i j k : option Z) : res (list pyval) :=
  r ← slice_indices (len l) i j k;
  let '(start, stop, step) := (r : Z * Z * Z) in
  Ok (take_range (length l) l start stop step).

Definition pattern : string := "-?[0-9]+$".

(** [re.match(pattern, s) or s == ''] *)
Definition chk (s : string) : res bool :=
  m ← Re.match_str false pattern (Str.strip s);
  Ok (match m with Some _ => true | None => String.eqb s "" end).

(** [int(x) if x else None] *)
Definition int_or_None (x : string) : res (option Z) :=
  match x with
  | EmptyString => Ok None
  | _ => z ← py_int x; Ok (Some z)
  end.

(** [self.data[slice_obj]] after the conversions of lines 145-148 and
    162-166. *)
Definition slice_of (wrap : list pyval -> pyval) (l : list pyval)
    (parts : list string) : res pyval :=
  bounds ← Finder.map_res int_or_None parts;
  match bounds with
  | [i; j] => r ← getslice l i j None; Ok (wrap r)
  | [i; j; k] => r ← getslice l i j k; Ok (wrap r)
  | _ => Raise ValueError
  end.

(** The [try] block of [get] when [self.data] is a list or a tuple with
    elements [l]; [wrap] rebuilds a list or a tuple from a slice. *)
Definition get_list (wrap : list pyval -> pyval) (l : list pyval)
    (index : pykey) (default : pyval) (on_exception : bool) : res pyval :=
  match index with
  | KInt z => getitem l z
  | KBool b => getitem l (if b then 1 else 0)
  | KStr index =>
      m ← Re.match_str false pattern (Str.strip index);
      match m with
      | Some _ => z ← py_int index; getitem l z
      | None =>
          let count := Str.count ":" index in
          if Nat.eqb count 1 || Nat.eqb count 2 then
            let parts := map Str.strip (Str.split ":" index) in
            chks ← Finder.map_res chk parts;
            if existsb (fun b => b) chks then slice_of wrap l parts
            else if on_exception then Raise TypeError else Ok default
          else if on_exception then Raise TypeError else Ok default
      end
  | KNone => Ok default
  end.

(** The [try] block of [get]. *)
Definition get_body (data : pyval) (index : pykey) (default : pyval)
    (on_exception : bool) : res pyval :=
  match data with
  | PList l => get_list PList l index default on_exception
  | PTuple l => get_list PTuple l index default on_exception
  | PDict items =>
      Ok (match PyDict.get index items with Some v => v | None => default end)
  | _ => Raise AttributeError
  end.

(** [DLQuery(data).get(index, default=None, on_exception=False)] *)
Definition get (data : pyval) (index : pykey) (default : pyval)
    (on_exception : bool) : res pyval :=
  match get_body data index default on_exception with
  | Ok v => Ok v
  | Raise ex => if on_exception then Raise ex else Ok default
  end.

(** [["a", "b", "c", "d"]] and [["a", "b", "c"]] *)
Definition abcd : pyval := PList [PStr "a"; PStr "b"; PStr "c"; PStr "d"].
Definition abc : pyval := PList [PStr "a"; PStr "b"; PStr "c"].

End DLQuery.

(** ** Sample inputs *)

Module Samples.
Import Lookup Finder.

(** No validator is reachable from a lookup without predicate call. *)
Definition no_validators : pfunc -> pyval -> res bool := fun _ _ => Ok false.

(** [{"a": {"a": 1, "b": 2}, "c": [{"a": "x"}]}] *)
Definition sample_data : pyval :=
  PDict [(KStr "a", PDict [(KStr "a", PInt 1); (KStr "b", PInt 2)]);
         (KStr "c", PList [PDict [(KStr "a", PStr "x")]])].

(** [LookupCls("a")] *)
Definition sample_lookup : LookupCls := mkLookupCls "a" (PatternStr "^a$") None.

(** Columns [a] and [b] selected for the two matches of [sample_lookup]
    that lie under [{"a": 1, "b": 2}] and under [{"a": "x"}]. *)
Definition sample_select : SelectParser :=
  mkSelectParser None false false [KStr "a"; KStr "b"].

End Samples.

(** ** [List], and the accessors of [Element] *)

Module Access.
Import Tree.

Local Open Scope Z_scope.

(** [l[i]] for an integer [i] on a list of anything. *)
Definition getitem {A} (l : list A) (i : Z) : res A :=
  let n := Z.of_nat (length l) in
  let j := if i <? 0 then i + n else i in
  if (j <? 0) || (n <=? j) then Raise IndexError
  else match nth_error l (Z.to_nat j) with
       | Some v => Ok v
       | None => Raise IndexError
       end.

(** Class [List]: properties [total], [is_empty], [first] and [last]. *)
Definition total {A} (self : list A) : nat := length self.

Definition is_empty {A} (self : list A) : bool := Nat.eqb (total self) 0.

Definition ListIndexError : exn := OtherError "ListIndexError".

Definition first {A} (self : list A) : res A :=
  if negb (is_empty self) then getitem self 0 else Raise ListIndexError.

Definition last {A} (self : list A) : res A :=
  if negb (is_empty self) then getitem self (-1) else Raise ListIndexError.

(** The second argument of [isinstance]: a class, or an object that is
    not a class (the [None] in the tuple of [is_scalar]). *)
Inductive classinfo : Type :=
| class_int
| class_float
| class_bool
| class_str
| not_a_class.

(** [isinstance(v, c)] for one entry [c]; [bool] is a subclass of [int]. *)
Definition instance_of (v : pyval) (c : classinfo) : res bool :=
  match c with
  | class_int => Ok (match v with PInt _ | PBool _ => true | _ => false end)
  | class_float => Ok (match v with PFloat _ => true | _ => false end)
  | class_bool => Ok (match v with PBool _ => true | _ => false end)
  | class_str => Ok (match v with PStr _ => true | _ => false end)
  | not_a_class => Raise TypeError
  end.

(** [isinstance(v, (c1, ..., cn))]: the entries are tried from the left,
    up to the first one that holds or raises. *)
Fixpoint isinstance (v : pyval) (classes : list classinfo) : res bool :=
  match classes with
  | [] => Ok false
  | c :: r =>
      b ← instance_of v c;
      if (b : bool) then Ok true else isinstance v r
  end.

(** Property [is_leaf] *)
Definition is_leaf (o : Element) : bool := negb (Finder.has_children o).

(** Property [is_scalar]:
    [isinstance(self.data, (int, float, bool, str, None))] *)
Definition is_scalar (o : Element) : res bool :=
  isinstance (data o) [class_int; class_float; class_bool; class_str; not_a_class].

Definition KeyError : exn := OtherError "KeyError".

(** [len(d)] *)
Definition py_len (d : pyval) : res nat :=
  match d with
  | PDict items => Ok (length items)
  | PList l | PTuple l | PSet l => Ok (length l)
  | PStr s => Ok (String.length s)
  | _ => Raise TypeError
  end.

(** [d.keys()] *)
Definition py_keys (d : pyval) : res (list pykey) :=
  match d with
  | PDict items => Ok (PyDict.keys items)
  | _ => Raise AttributeError
  end.

(** [d[index]] for a key or an integer position; [PObject] stands for an
    object without [__getitem__]. *)
Definition subscript (d : pyval) (index : pykey) : res pyval :=
  match d with
  | PDict items =>
      match PyDict.get index items with
      | Some v => Ok v
      | None => Raise KeyError
      end
  | PList l | PTuple l =>
      match index with
      | KInt z => getitem l z
      | KBool b => getitem l (if b then 1 else 0)
      | _ => Raise TypeError
      end
  | PStr s =>
      match index with
      | KInt z => c ← getitem (list_ascii_of_string s) z; Ok (PStr (String c EmptyString))
      | KBool b =>
          c ← getitem (list_ascii_of_string s) (if b then 1 else 0);
          Ok (PStr (String c EmptyString))
      | _ => Raise TypeError
      end
  | _ => Raise TypeError
  end.

(** [range(n)] as the keys that [__iter__] yields *)
Definition range (n : nat) : list pykey :=
  map (fun i => KInt (Z.of_nat i)) (seq 0 n).

(** [Element.__iter__], run to the end *)
Definition iter (o : Element) : res (list pykey) :=
  if String.eqb (type_ o) "dict" then py_keys (data o)
  else if String.eqb (type_ o) "list" then
    n ← py_len (data o); Ok (range n)
  else Raise TypeError.

(** [Element.__getitem__] *)
Definition getitem_ (o : Element) (index : pykey) : res pyval :=
  if negb (String.eqb (type_ o) "dict" || String.eqb (type_ o) "list")
  then Raise TypeError
  else subscript (data o) index.

End Access.

(** ** Lookup sides without directive *)

Module Literal.

(** The syntax tree of [re.escape(text) + '$']: the characters of [text]
    one after the other, then the end anchor. *)
Fixpoint chain (text : string) : Re.regex :=
  match text with
  | EmptyString => Re.Eol
  | String c t => Re.Seq (Re.Chr c) (chain t)
  end.

(** The syntax tree of ['^{}$'.format(re.escape(text))] *)
Definition literal (text : string) : Re.regex := Re.Seq Re.Bol (chain text).

(** [text + '\n'] *)
Definition line (text : string) : string :=
  String.append text (String Str.newline EmptyString).

(** [s == text or s == text + '\n'] *)
Definition is_text_or_line (text s : string) : bool :=
  String.eqb s text || String.eqb s (line text).

(** Every match of [r] passes over an opening parenthesis: a sufficient
    syntactic test. *)
Fixpoint needs_paren (r : Re.regex) : bool :=
  match r with
  | Re.Chr c => Ascii.eqb c "("
  | Re.Cls false [(lo, hi)] => Ascii.eqb lo "(" && Ascii.eqb hi "("
  | Re.Seq r1 r2 => needs_paren r1 || needs_paren r2
  | Re.Alt r1 r2 => needs_paren r1 && needs_paren r2
  | Re.Grp _ r' => needs_paren r'
  | _ => false
  end.

(** [n] characters in front of [s]. *)
Fixpoint pad (n : nat) (s : string) : string :=
  match n with
  | O => s
  | S n' => String "x" (pad n' s)
  end.

(** The text that follows an atom of an escaped text does not start with
    a repetition sign. *)
Definition unquantified (s : string) : Prop :=
  match s with
  | String c _ => Re.is_quantifier c = false
  | EmptyString => True
  end.

End Literal.

(** ** Index strings of [DLQuery.get] *)

Module Index.
Import Str.

Local Open Scope Z_scope.

(** [[0-9]] *)
Definition digit : Re.regex := Re.Cls false [("0"%char, "9"%char)].

(** The syntax tree of the pattern [-?[0-9]+$] of [get]. *)
Definition int_pattern : Re.regex :=
  Re.Seq (Re.Alt (Re.Chr "-") Re.Eps)
         (Re.Seq (Re.Seq digit (Re.Star digit)) Re.Eol).

(** Digits up to the end of the string, or up to one final newline. *)
Fixpoint digits_end (s : string) : bool :=
  match s with
  | EmptyString => true
  | String c t =>
      if is_digit c then digits_end t
      else Ascii.eqb c newline && String.eqb t EmptyString
  end.

(** One digit or more, then the end. *)
Definition digits1_end (s : string) : bool :=
  match s with
  | String c t => is_digit c && digits_end t
  | EmptyString => false
  end.

(** The strings that [-?[0-9]+$] matches from their start. *)
Definition accepted (s : string) : bool :=
  match s with
  | String c t => if Ascii.eqb c "-" then digits1_end t else digits1_end s
  | EmptyString => false
  end.

Fixpoint all_digits (s : string) : bool :=
  match s with
  | EmptyString => true
  | String c t => is_digit c && all_digits t
  end.

(** An optional minus sign and one decimal digit or more. *)
Definition is_int_literal (s : string) : bool :=
  match s with
  | String c t =>
      if Ascii.eqb c "-" then negb (String.eqb t EmptyString) && all_digits t
      else all_digits s
  | EmptyString => false
  end.

(** The number that a run of decimal digits denotes after [acc]. *)
Fixpoint digits_value (acc : Z) (s : string) : Z :=
  match s with
  | EmptyString => acc
  | String c t => digits_value (10 * acc + DLQuery.digit_val c) t
  end.

(** The number that an integer literal denotes. *)
Definition literal_value (s : string) : Z :=
  match s with
  | String c t =>
      if Ascii.eqb c "-" then - digits_value 0 t else digits_value 0 s
  | EmptyString => 0
  end.

(** At most [int_max_str_digits] decimal digits: the strings that [int]
    does not refuse for their length. *)
Definition short (p : string) : bool :=
  Nat.leb (DLQuery.count_digits p) DLQuery.int_max_str_digits.

(** [int] reads the string as [str.strip] leaves it: the white space of
    [int] at its ends is all that [strip] removes (no separator 28 to 31
    stands there), and its digits are not too many. *)
Definition int_reads (s : string) : bool :=
  String.eqb (DLQuery.int_strip s) (strip s) && short (strip s).

(** What [int] reads in a stripped string: the sign comes off the first
    character. *)
Definition signed (body : string) : option Z :=
  match body with
  | String c t =>
      if Ascii.eqb c "-" then option_map Z.opp (DLQuery.int_unsigned t)
      else if Ascii.eqb c "+" then DLQuery.int_unsigned t
      else DLQuery.int_unsigned body
  | EmptyString => None
  end.

(** A component of a slice string: empty, or an integer literal. *)
Definition is_slice_part (p : string) : bool :=
  String.eqb p EmptyString || is_int_literal p.

(** The bound that a component stands for: [int(p) if p else None]. *)
Definition part_value (p : string) : option Z :=
  if String.eqb p EmptyString then None else Some (literal_value p).

(** No character of the string is white space. *)
Fixpoint no_space (s : string) : bool :=
  match s with
  | EmptyString => true
  | String c t => negb (is_space c) && no_space t
  end.

(** [i + ':' + j] *)
Definition colon (i j : string) : string := String.append i (String ":" j).

End Index.

(** ** [utils.Printer] *)

Module Printer.

(** The characters at which [str.splitlines] ends a line. *)
Definition is_linebreak (c : ascii) : bool :=
  let n := nat_of_ascii c in
  (Nat.leb 10 n && Nat.leb n 13) || (Nat.leb 28 n && Nat.leb n 30)
  || Nat.eqb n 133.

Definition carriage_return : ascii := "013"%char.

(** [str.splitlines()]: a carriage return followed by a newline is one
    line break; there is no empty line after a final line break. *)
Fixpoint splitlines (s : string) : list string :=
  match s with
  | EmptyString => []
  | String c t =>
      if is_linebreak c then
        EmptyString ::
          match t with
          | String c' t' =>
              if Ascii.eqb c carriage_return && Ascii.eqb c' Str.newline
              then splitlines t' else splitlines t
          | EmptyString => splitlines t
          end
      else
        match splitlines t with
        | w :: ws => String c w :: ws
        | [] => [String c EmptyString]
        end
  end.

(** [c * n] *)
Fixpoint times (c : ascii) (n : nat) : string :=
  match n with
  | O => EmptyString
  | S n' => String c (times c n')
  end.

(** [s.ljust(width)] *)
Definition ljust (width : nat) (s : string) : string :=
  String.append s (times " " (width - String.length s)).

(** [max(len(str(i)) for i in lines)] *)
Definition max_len (lines : list string) : res nat :=
  match lines with
  | [] => Raise ValueError
  | _ => Ok (fold_right (fun s m => Nat.max (String.length s) m) 0 lines)
  end.

(** ['+-{}-+'.format('-' * width)] *)
Definition border (width : nat) : string :=
  String.append "+-" (String.append (times "-" width) "-+").

(** ['| {} |'.format(item.ljust(width))] *)
Definition row (width : nat) (item : string) : string :=
  String.append "| " (String.append (ljust width item) " |").

Definition truthy (s : string) : bool := negb (String.eqb s EmptyString).

(** [Printer.print(data, header, footer, failure_msg, print_func)]:
    the arguments of the successive calls of [print_func].  [data] lists
    [str(item)] for the items of a list or tuple, and is the singleton for
    any other object; [header], [footer] and [failure_msg] are strings. *)
Definition print (data : list string) (header footer failure_msg : string)
  : res (list string) :=
  let headers := splitlines header in
  let footers := splitlines footer in
  let lst := flat_map splitlines data in
  width ← max_len (lst ++ headers ++ footers);
  Ok ([border width]
      ++ (if truthy header then map (row width) headers ++ [border width] else [])
      ++ map (row width) lst ++ [border width]
      ++ (if truthy footer then map (row width) footers ++ [border width] else [])
      ++ (if truthy failure_msg then [failure_msg] else [])).

(** The lines of the box, without the failure message. *)
Definition box (width : nat) (lst headers footers : list string) (header footer : string)
  : list string :=
  [border width]
  ++ (if truthy header then map (row width) headers ++ [border width] else [])
  ++ map (row width) lst ++ [border width]
  ++ (if truthy footer then map (row width) footers ++ [border width] else []).

End Printer.

(** ** [ObjectDict] *)

Module ObjectDict.

(** Values as [ObjectDict._build] tells them apart: an [ObjectDict] is
    kept apart from a plain [dict]; [OGenerator forward items] is the
    generator expression that [_build] returns for a tuple, not yet
    consumed; a set is listed by its elements. *)
Inductive oval : Type :=
| ONone
| OBool (b : bool)
| OInt (z : Z)
| OFloat (bits : Z)
| OStr (s : string)
| OObject (repr : string)
| OObjectDict (items : list (pykey * oval))
| ODict (items : list (pykey * oval))
| OList (l : list oval)
| OSet (l : list oval)
| OTuple (l : list oval)
| OGenerator (forward : bool) (items : list oval).

(** A list comprehension whose body can run out of fuel. *)
Fixpoint map_opt {A B} (f : A -> option B) (l : list A) : option (list B) :=
  match l with
  | [] => Some []
  | a :: r =>
      match f a, map_opt f r with
      | Some b, Some bs => Some (b :: bs)
      | _, _ => None
      end
  end.

(** [[[i, f(j)] for i, j in value.items()]] *)
Definition map_items (f : oval -> option oval) (items : list (pykey * oval))
  : option (list (pykey * oval)) :=
  map_opt (fun kv => match f (snd kv) with
                     | Some v => Some (fst kv, v)
                     | None => None
                     end) items.

(** [ObjectDict._build(value, forward)].  In the branch of a plain dict
    with [forward] set, [self.__class__(lst)] runs [__init__] and
    [update], which builds every value of [lst] once more. *)
Fixpoint build (fuel : nat) (forward : bool) (value : oval) : option oval :=
  match fuel with
  | O => None
  | S f =>
      match value with
      | OObjectDict items =>
          if forward then Some value
          else option_map ODict (map_items (build f forward) items)
      | ODict items =>
          match map_items (build f forward) items with
          | Some lst =>
              if forward
              then option_map OObjectDict (map_items (build f true) lst)
              else Some (ODict lst)
          | None => None
          end
      | OList l => option_map OList (map_opt (build f forward) l)
      | OSet l => option_map OSet (map_opt (build f forward) l)
      | OTuple l => Some (OGenerator forward l)
      | _ => Some value
      end
  end.

(** [ObjectDict(d)] for a dict [d] with the given items: [__init__]
    stores the items and [update] builds every value. *)
Definition ObjectDict_new (fuel : nat) (items : list (pykey * oval)) : option oval :=
  option_map OObjectDict (map_items (build fuel true) items).

(** [self.to_dict()]: [data = dict(self)], then
    [self._build(data, forward=False)]. *)
Definition to_dict (fuel : nat) (self : oval) : option oval :=
  match self with
  | OObjectDict items => build fuel false (ODict items)
  | _ => None
  end.

(** The conversion in one pass over the value, as the docstring of
    [_build] words it: dicts become [ObjectDict]s ([forward]) or
    [ObjectDict]s become dicts (not [forward]), through dicts, lists and
    sets. *)
Fixpoint convert (forward : bool) (v : oval) : oval :=
  match v with
  | OObjectDict items =>
      if forward then v
      else ODict (map (fun kv => (fst kv, convert forward (snd kv))) items)
  | ODict items =>
      (if forward then OObjectDict else ODict)
        (map (fun kv => (fst kv, convert forward (snd kv))) items)
  | OList l => OList (map (convert forward) l)
  | OSet l => OSet (map (convert forward) l)
  | OTuple l => OGenerator forward l
  | _ => v
  end.

(** Nesting depth through dicts, lists and sets. *)
Fixpoint depth (v : oval) : nat :=
  match v with
  | OObjectDict items | ODict items =>
      S (list_max (map (fun kv => depth (snd kv)) items))
  | OList l | OSet l => S (list_max (map depth l))
  | _ => 0
  end.

(** No tuple and no [ObjectDict] is reached through dicts, lists and
    sets. *)
Fixpoint plain (v : oval) : bool :=
  match v with
  | OObjectDict _ | OTuple _ => false
  | ODict items => forallb (fun kv => plain (snd kv)) items
  | OList l | OSet l => forallb plain l
  | _ => true
  end.

End ObjectDict.

(** ** Wildcards as glob patterns *)

Module Glob.
Import Str.

(** The characters, other than the wildcards, that a wildcard pattern
    hands unchanged to [re] as active signs. *)
Definition is_active (c : ascii) : bool := chr_in c "()[{|^$\".

(** No character of the pattern is an active sign. *)
Fixpoint passive (p : string) : bool :=
  match p with
  | EmptyString => true
  | String c t => negb (is_active c) && passive t
  end.

(** What one character of such a pattern stands for. *)
Definition atom (c : ascii) : Re.regex :=
  if Ascii.eqb c "?" then Re.Any
  else if Ascii.eqb c "*" then Re.Star Re.Any
  else Re.Chr c.

(** The syntax tree of the converted pattern after its [^]. *)
Fixpoint gchain (p : string) : Re.regex :=
  match p with
  | EmptyString => Re.Eol
  | String c t => Re.Seq (atom c) (gchain t)
  end.

(** Glob matching as the docstring of [convert_wildcard_to_regex] words
    it: [?] is any single character, [*] any number of characters, every
    other character is itself.  "Any character" is any but the newline,
    and the end tolerates one final newline, as [.] and [$] do. *)
Fixpoint glob (p : string) : string -> bool :=
  match p with
  | EmptyString =>
      fun s => String.eqb s EmptyString
               || String.eqb s (String newline EmptyString)
  | String c t =>
      if Ascii.eqb c "?" then
        fun s => match s with
                 | String a s' => negb (Ascii.eqb a newline) && glob t s'
                 | EmptyString => false
                 end
      else if Ascii.eqb c "*" then
        fix any (s : string) : bool :=
          glob t s
          || match s with
             | String a s' => negb (Ascii.eqb a newline) && any s'
             | EmptyString => false
             end
      else
        fun s => match s with
                 | String a s' => Ascii.eqb a c && glob t s'
                 | EmptyString => false
                 end
  end.

(** The list is not empty. *)
Definition inhabited {A} (l : list A) : bool :=
  match l with
  | [] => false
  | _ :: _ => true
  end.

(** Any number of characters, then [rest]: the inner loop of [glob]. *)
Fixpoint glob_any (rest : string -> bool) (s : string) : bool :=
  rest s
  || match s with
     | String a s' => negb (Ascii.eqb a newline) && glob_any rest s'
     | EmptyString => false
     end.

End Glob.

(** ** Directives of a lookup side *)

Module Directive.
Import Str.

(** ['_' + options + method + '(' + payload + ')'] *)
Definition directive (options method payload : string) : string :=
  String.append "_"
    (String.append options
       (String.append method (String "(" (String.append payload ")")))).

(** The directive up to a point of its payload:
    ['_' + options + method + '(' + start] *)
Definition opened (options method start : string) : string :=
  String.append "_"
    (String.append options (String.append method (String "(" start))).

(** No character of the string is a newline. *)
Fixpoint no_newline (s : string) : bool :=
  match s with
  | EmptyString => true
  | String c t => negb (Ascii.eqb c newline) && no_newline t
  end.

(** [text|wildcard|regex] *)
Definition method_alt : Re.regex :=
  Re.Alt (Re.Seq (Re.Chr "t") (Re.Seq (Re.Chr "e") (Re.Seq (Re.Chr "x") (Re.Chr "t"))))
    (Re.Alt
       (Re.Seq (Re.Chr "w")
          (Re.Seq (Re.Chr "i")
             (Re.Seq (Re.Chr "l")
                (Re.Seq (Re.Chr "d")
                   (Re.Seq (Re.Chr "c")
                      (Re.Seq (Re.Chr "a") (Re.Seq (Re.Chr "r") (Re.Chr "d"))))))))
       (Re.Seq (Re.Chr "r")
          (Re.Seq (Re.Chr "e") (Re.Seq (Re.Chr "g") (Re.Seq (Re.Chr "e") (Re.Chr "x")))))).

(** [.+] and [[)]] *)
Definition some_chrs : Re.regex := Re.Seq Re.Any (Re.Star Re.Any).
Definition closing : Re.regex := Re.Cls false [(")"%char, ")"%char)].

(** The syntax tree of [LookupCls.parse]'s [pat] up to its payload. *)
Definition pat_tail : Re.regex := Re.Seq some_chrs closing.
Definition pat_regex : Re.regex :=
  Re.Seq (Re.Chr "_")
    (Re.Seq (Re.Alt (Re.Chr "i") Re.Eps)
       (Re.Seq (Re.Grp "" method_alt)
          (Re.Seq (Re.Cls false [("("%char, "("%char)]) pat_tail))).

(** The syntax tree of [parse_]'s [vpat]. *)
Definition vpat_tail : Re.regex := Re.Seq (Re.Grp "pattern" some_chrs) closing.
Definition vpat_regex : Re.regex :=
  Re.Seq (Re.Chr "_")
    (Re.Seq (Re.Grp "options" (Re.Alt (Re.Chr "i") Re.Eps))
       (Re.Seq (Re.Grp "method" method_alt)
          (Re.Seq (Re.Cls false [("("%char, "("%char)]) vpat_tail))).

(** [options] is empty or [i], [method] one of the three methods. *)
Definition is_head (options method : string) : Prop :=
  (options = "" \/ options = "i")
  /\ (method = "text" \/ method = "wildcard" \/ method = "regex").

(** Lines 566-570 of [LookupCls.parse]: the joined pattern between the
    anchors that it lacks, after the flag. *)
Definition format_pattern (is_ignorecase : bool) (pattern : string) : string :=
  let ss := if option_eqb_chr (first_chr pattern) "^"%char then "" else "^" in
  let es := if option_eqb_chr (last_chr pattern) "$"%char then "" else "$" in
  let ic := if is_ignorecase then "(?i)" else "" in
  String.append ic (String.append ss (String.append pattern es)).

End Directive.

(** ** Operators and numbers on a lookup side *)

Module Operator.
Import Str.

(** [op + '(' + other + ')'] *)
Definition call (op other : string) : string :=
  String.append op (String "(" (String.append other ")")).

(** Every character of the string passes the test. *)
Fixpoint every (test : ascii -> bool) (s : string) : bool :=
  match s with
  | EmptyString => true
  | String c t => test c && every test t
  end.

(** The strings that [([0-9]+)?[.]?[0-9]+] matches as a whole: decimal
    digits with at most one dot, which is not the last character. *)
Fixpoint is_number (s : string) : bool :=
  match s with
  | EmptyString => false
  | String c t =>
      if is_digit c then String.eqb t EmptyString || is_number t
      else Ascii.eqb c "." && negb (String.eqb t EmptyString)
           && every is_digit t
  end.

(** [lt|le|gt|ge|eq|ne] and [eq|ne] *)
Definition is_op (op : string) : bool :=
  existsb (String.eqb op) ["lt"; "le"; "gt"; "ge"; "eq"; "ne"].

Definition is_eq_op (op : string) : bool :=
  String.eqb op "eq" || String.eqb op "ne".

Definition ops6 : Re.regex :=
  Re.Alt (Re.Seq (Re.Chr "l") (Re.Chr "t"))
    (Re.Alt (Re.Seq (Re.Chr "l") (Re.Chr "e"))
       (Re.Alt (Re.Seq (Re.Chr "g") (Re.Chr "t"))
          (Re.Alt (Re.Seq (Re.Chr "g") (Re.Chr "e"))
             (Re.Alt (Re.Seq (Re.Chr "e") (Re.Chr "q"))
                (Re.Seq (Re.Chr "n") (Re.Chr "e")))))).

Definition ops2 : Re.regex :=
  Re.Alt (Re.Seq (Re.Chr "e") (Re.Chr "q")) (Re.Seq (Re.Chr "n") (Re.Chr "e")).

(** [[0-9]+] *)
Definition digits1 : Re.regex := Re.Seq Index.digit (Re.Star Index.digit).

(** [([0-9]+)?[.]?[0-9]+] *)
Definition number : Re.regex :=
  Re.Seq (Re.Alt (Re.Grp "" digits1) Re.Eps)
    (Re.Seq (Re.Alt (Re.Cls false [("."%char, "."%char)]) Re.Eps) digits1).

(** [.*[^0-9].*] *)
Definition not_number : Re.regex :=
  Re.Seq (Re.Star Re.Any)
    (Re.Seq (Re.Cls true [("0"%char, "9"%char)]) (Re.Star Re.Any)).

(** The end of [vpat2_] and [vpat3_]: the group [other], then [[)]$]. *)
Definition operand (body : Re.regex) : Re.regex :=
  Re.Seq (Re.Grp "other" body) (Re.Seq Directive.closing Re.Eol).

(** The syntax trees of [vpat2_] and [vpat3_]. *)
Definition vpat2_regex : Re.regex :=
  Re.Seq (Re.Grp "op" ops6)
    (Re.Seq (Re.Cls false [("("%char, "("%char)]) (operand number)).

Definition vpat3_regex : Re.regex :=
  Re.Seq (Re.Grp "op" ops2)
    (Re.Seq (Re.Cls false [("("%char, "("%char)]) (operand not_number)).

(** The names of the groups of a pattern. *)
Fixpoint names (r : Re.regex) : list string :=
  match r with
  | Re.Grp name r' => name :: names r'
  | Re.Seq r1 r2 | Re.Alt r1 r2 => names r1 ++ names r2
  | Re.Star r' => names r'
  | _ => []
  end.

(** From [s] the matcher has read [u] and recorded the groups [new]. *)
Definition reads (u : string) (new : list (string * (nat * nat)))
    (s s' : Re.mstate) : Prop :=
  Re.rest s = String.append u (Re.rest s')
  /\ Re.pos s' = Re.pos s + String.length u
  /\ Re.caps s' = new ++ Re.caps s.

End Operator.

(** ** Facts about the node tree *)

Module TreeFacts.
Import Tree.

Lemma size_pos d : 0 < size d.
Proof. destruct d; simpl; lia. Qed.

Lemma enumerate_from_size i l :
  sizes (enumerate_from i l) = list_sum (map size l).
Proof.
  unfold sizes.
  revert i; induction l as [|v r IH]; intros i; simpl; [reflexivity|].
  now rewrite IH.
Qed.

Lemma size_children d : size d = S (sizes (children_of d)).
Proof.
  destruct d; simpl; try reflexivity; now rewrite enumerate_from_size.
Qed.

Lemma sizes_cons kv r : sizes (kv :: r) = size (snd kv) + sizes r.
Proof. reflexivity. Qed.

Lemma In_size_le (kvs : list (pykey * pyval)) kv :
  In kv kvs -> size (snd kv) <= sizes kvs.
Proof.
  induction kvs as [|a r IH]; simpl; [tauto|].
  rewrite sizes_cons.
  intros [->|Hin]; [lia|]. specialize (IH Hin). lia.
Qed.

(** Induction on raw data through the children that [_build] visits. *)
Lemma pyval_children_ind (P : pyval -> Prop) :
  (forall d, (forall k v, In (k, v) (children_of d) -> P v) -> P d) ->
  forall d, P d.
Proof.
  intros Hstep d.
  remember (size d) as n eqn:Hn.
  revert d Hn. induction n as [n IH] using lt_wf_ind.
  intros d ->. apply Hstep. intros k v Hin.
  apply (IH (size v)); [|reflexivity].
  rewrite (size_children d).
  pose proof (In_size_le _ _ Hin) as Hle. simpl in Hle. lia.
Qed.

(** *** The store that [Element_init] builds *)

(** A subtree only depends on the references it occupies. *)
Lemma Subtree_ext_mut (H H' : heap) :
  (forall d idx par id, Subtree H d idx par id ->
     (forall i, id <= i < id + size d -> H' !! i = H !! i) ->
     Subtree H' d idx par id)
  /\ (forall p kvs c, Subtrees H p kvs c ->
     (forall i, c <= i < c + sizes kvs -> H' !! i = H !! i) ->
     Subtrees H' p kvs c).
Proof.
  apply Subtree_mutind.
  - intros d idx par id Hnode _ IH Hagree.
    constructor.
    + rewrite Hagree; [exact Hnode|]. pose proof (size_pos d). lia.
    + apply IH. intros i Hi. apply Hagree. rewrite (size_children d). lia.
  - constructor.
  - intros p k v r c _ IHv _ IHr Hagree.
    rewrite sizes_cons in Hagree. simpl in Hagree.
    constructor.
    + apply IHv. intros i Hi. apply Hagree. lia.
    + apply IHr. intros i Hi. apply Hagree. lia.
Qed.

Lemma Subtree_app H hs d idx par id :
  Subtree H d idx par id -> id + size d <= length H ->
  Subtree (H ++ hs) d idx par id.
Proof.
  intros Hs Hlen. apply (proj1 (Subtree_ext_mut H (H ++ hs))); [exact Hs|].
  intros i Hi. apply lookup_app_l. lia.
Qed.

(** What one construction does to the store. *)
Definition init_ok (v : pyval) : Prop :=
  forall k p (h : heap), exists hs,
    Element_init v k p h = (length h, h ++ hs)
    /\ length hs = size v
    /\ Subtree (h ++ hs) v k p (length h).

Lemma build_items_ok (kvs : list (pykey * pyval)) :
  (forall k v, In (k, v) kvs -> init_ok v) ->
  forall self lst (h : heap), exists hs,
    build_items (fun v k p h' => Element_init v k p h') self kvs (lst, h)
    = (lst ++ child_ids kvs (length h), h ++ hs)
    /\ length hs = sizes kvs
    /\ Subtrees (h ++ hs) self kvs (length h).
Proof.
  induction kvs as [|[k v] r IH]; intros Hall self lst h.
  - exists []. simpl. rewrite !app_nil_r. repeat split. constructor.
  - destruct (Hall k v (or_introl eq_refl) k (Some self) h)
      as (hs1 & Hinit & Hlen1 & Hsub1).
    destruct (IH (fun k' v' Hin => Hall k' v' (or_intror Hin))
                 self (lst ++ [length h]) (h ++ hs1))
      as (hs2 & Hrest & Hlen2 & Hsub2).
    exists (hs1 ++ hs2).
    unfold build_items in *. simpl. rewrite Hinit. simpl.
    rewrite Hrest. rewrite length_app, Hlen1 in *.
    rewrite <- !app_assoc. simpl. repeat split.
    + rewrite length_app, sizes_cons. simpl. lia.
    + rewrite <- app_assoc in Hsub2. constructor; [|exact Hsub2].
      rewrite app_assoc. apply Subtree_app; [exact Hsub1|].
      rewrite length_app. lia.
Qed.

Lemma build_enum_items init self l i lst (h : heap) :
  build_enum init self l (i, (lst, h))
  = (i + length l, build_items init self (enumerate_from i l) (lst, h)).
Proof.
  unfold build_enum, build_items.
  revert i lst h. induction l as [|v r IH]; intros i lst h; simpl.
  - now rewrite Nat.add_0_r.
  - rewrite IH. f_equal. lia.
Qed.

Lemma set_children_alloc (h hs : heap) o lst :
  set_children (length h) lst ((h ++ [o]) ++ hs)
  = h ++ mkElement (data o) (index o) (parent o) (type_ o)
                   (list_or_None lst) (value o) :: hs.
Proof.
  unfold set_children. rewrite <- app_assoc. simpl.
  rewrite list_lookup_middle by reflexivity.
  rewrite insert_app_r_alt by lia. now rewrite Nat.sub_diag.
Qed.

Lemma Element_init_container d idx par (h : heap) :
  is_container d = true ->
  (forall k v, In (k, v) (children_of d) -> init_ok v) ->
  exists hs,
    Element_init d idx par h = (length h, h ++ hs)
    /\ length hs = size d
    /\ Subtree (h ++ hs) d idx par (length h).
Proof.
  intros Hc Hall.
  set (o := mkElement d idx par (type_name d) None None).
  destruct (build_items_ok (children_of d) Hall (length h) [] (h ++ [o]))
    as (hs & Hloop & Hlen & Hsub).
  exists (node_of d idx par (length h) :: hs).
  assert (Hrun : Element_init d idx par h
                 = (length h, set_children (length h)
                      (child_ids (children_of d) (S (length h)))
                      ((h ++ [o]) ++ hs))).
  { rewrite length_app in Hloop. simpl in Hloop.
    rewrite Nat.add_1_r in Hloop.
    subst o.
    destruct d; try discriminate Hc; simpl in Hloop |- *;
      rewrite ?build_enum_items; simpl; now rewrite Hloop. }
  rewrite Hrun, set_children_alloc. split; [|split].
  - unfold node_of. simpl. now rewrite Hc.
  - simpl. rewrite Hlen. now rewrite (size_children d).
  - constructor.
    + now rewrite list_lookup_middle.
    + rewrite length_app in Hsub. simpl in Hsub.
      rewrite Nat.add_1_r in Hsub.
      apply (proj2 (Subtree_ext_mut ((h ++ [o]) ++ hs) _) _ _ _ Hsub).
      intros i Hi. rewrite <- app_assoc. simpl.
      rewrite !lookup_app_r by lia.
      destruct (i - length h) as [|j] eqn:Hj; [lia|reflexivity].
Qed.

(** The construction over [d] allocates [size d] objects from the next
    free reference on, and leaves the subtree of [d] there. *)
Lemma Element_init_ok d : init_ok d.
Proof.
  induction d as [d IH] using pyval_children_ind.
  intros idx par h.
  destruct (is_container d) eqn:Hc.
  - now apply Element_init_container.
  - exists [node_of d idx par (length h)].
    destruct d; try discriminate Hc; simpl; (split; [|split]);
      try reflexivity;
      (constructor; [now rewrite list_lookup_middle|constructor]).
Qed.

Lemma Element_new_ok d :
  exists H, Element_new d = (0, H) /\ length H = size d
            /\ Subtree H d (KStr "") None 0.
Proof.
  destruct (Element_init_ok d (KStr "") None []) as (hs & Hrun & Hlen & Hsub).
  exists hs. simpl in *. auto.
Qed.

(** *** Every object but the root hangs under its parent *)

(** [child_link H i]: reference [i] holds a constructed child whose
    [parent] attribute names an object that lists [i] among its children. *)
Definition child_link (H : heap) (i : nat) : Prop :=
  exists d idx p dp idxp parp,
    Subtree H d idx (Some p) i
    /\ Subtree H dp idxp parp p
    /\ In i (child_ids (children_of dp) (S p))
    /\ In (idx, d) (children_of dp).

Lemma Subtree_cover_mut (H : heap) :
  (forall d idx par id, Subtree H d idx par id ->
     forall i, id < i < id + size d -> child_link H i)
  /\ (forall p kvs c, Subtrees H p kvs c ->
     forall i, c <= i < c + sizes kvs ->
       (exists d idx, Subtree H d idx (Some p) i
                      /\ In i (child_ids kvs c) /\ In (idx, d) kvs)
       \/ child_link H i).
Proof.
  apply Subtree_mutind.
  - intros d idx par id Hnode Hsubs IH i Hi.
    assert (Hi' : S id <= i < S id + sizes (children_of d)).
    { rewrite (size_children d) in Hi. lia. }
    destruct (IH i Hi') as [(d' & idx' & Hs & Hin & Hin')|Hl]; [|exact Hl].
    exists d', idx', id, d, idx, par.
    split; [exact Hs|]. split; [now constructor|]. now split.
  - intros p c i Hi. unfold sizes in Hi. simpl in Hi. lia.
  - intros p k v r c Hv IHv Hr IHr i Hi.
    rewrite sizes_cons in Hi. simpl in Hi.
    destruct (Nat.eq_dec i c) as [->|Hne].
    { left. exists v, k. simpl. auto. }
    destruct (Nat.lt_ge_cases i (c + size v)) as [Hlt|Hge].
    { right. apply IHv. lia. }
    assert (Hi' : c + size v <= i < c + size v + sizes r) by lia.
    destruct (IHr i Hi') as [(d' & idx' & Hs & Hin & Hin')|Hl]; [|now right].
    left. exists d', idx'. simpl. auto.
Qed.

Lemma child_ids_lower kvs c i : In i (child_ids kvs c) -> c <= i.
Proof.
  revert c; induction kvs as [|kv r IH]; intros c; simpl; [tauto|].
  intros [->|Hin]; [lia|]. apply IH in Hin. lia.
Qed.

Lemma child_ids_NoDup kvs c : List.NoDup (child_ids kvs c).
Proof.
  revert c; induction kvs as [|kv r IH]; intros c; simpl; constructor.
  - intros Hin. apply child_ids_lower in Hin.
    pose proof (size_pos (snd kv)). lia.
  - apply IH.
Qed.

Lemma child_ids_length kvs c : length (child_ids kvs c) = length kvs.
Proof. revert c; induction kvs; intros c; simpl; auto. Qed.

Lemma list_or_None_Some {A} (l cs : list A) :
  list_or_None l = Some cs -> cs = l /\ l <> [].
Proof. destruct l; simpl; [discriminate|]. intros [= <-]. now split. Qed.

Lemma list_or_None_In {A} (l : list A) x :
  In x l -> list_or_None l = Some l.
Proof. destruct l; simpl; [tauto|reflexivity]. Qed.

Lemma Subtree_lookup H d idx par id :
  Subtree H d idx par id -> H !! id = Some (node_of d idx par id).
Proof. now inversion 1. Qed.

(** Every reference of the store built over [d] holds a constructed
    node: the root, or a linked child. *)
Lemma Element_new_nodes d (H : heap) i o :
  snd (Element_new d) = H -> H !! i = Some o ->
  (i = 0 /\ o = node_of d (KStr "") None 0)
  \/ (0 < i /\ child_link H i).
Proof.
  intros HH Hlk.
  destruct (Element_new_ok d) as (H' & Hrun & Hlen & Hsub).
  rewrite Hrun in HH. simpl in HH. subst H'.
  destruct i as [|i].
  - left. split; [reflexivity|].
    apply Subtree_lookup in Hsub. congruence.
  - right. split; [lia|].
    apply (proj1 (Subtree_cover_mut H) _ _ _ _ Hsub).
    apply lookup_lt_Some in Hlk. lia.
Qed.

(** C9. In the tree built over any data value, no node has a present but
    empty [children] list; a node without children (a scalar or opaque
    leaf, or a node built from an empty dict, list, tuple or set) has
    [children] equal to [None]; the root has no parent; and every other
    node is listed exactly once in the [children] of the node that its
    [parent] attribute names. *)
Theorem children_never_empty_and_listed_once (d : pyval) (i : nat) (o : Element) :
  snd (Element_new d) !! i = Some o ->
  children o <> Some []
  /\ (is_container (data o) = false \/ data o = PDict [] \/ data o = PList []
      \/ data o = PTuple [] \/ data o = PSet [] -> children o = None)
  /\ (i = fst (Element_new d) -> parent o = None)
  /\ (i <> fst (Element_new d) ->
      exists p po cs,
        parent o = Some p
        /\ snd (Element_new d) !! p = Some po
        /\ children po = Some cs
        /\ count_occ Nat.eq_dec cs i = 1).
Proof.
  intros Hlk.
  assert (Hroot : fst (Element_new d) = 0).
  { destruct (Element_new_ok d) as (H' & -> & _). reflexivity. }
  rewrite Hroot.
  assert (Hshape : exists d' idx' par', o = node_of d' idx' par' i).
  { destruct (Element_new_nodes d _ i o eq_refl Hlk)
      as [[-> ->]|[_ (d' & idx' & p & _ & _ & _ & Hs & _)]]; [eauto|].
    apply Subtree_lookup in Hs. rewrite Hlk in Hs. injection Hs as ->. eauto. }
  destruct Hshape as (d' & idx' & par' & Ho).
  split; [|split; [|split]].
  - subst o. simpl. intros Hc. apply list_or_None_Some in Hc.
    destruct Hc as [<- Hn]. now apply Hn.
  - subst o. simpl. intros Hleaf.
    assert (Hk : children_of d' = []).
    { destruct Hleaf as [Hl|[->|[->|[->| ->]]]]; try reflexivity.
      destruct d'; try discriminate Hl; reflexivity. }
    now rewrite Hk.
  - intros ->.
    destruct (Element_new_nodes d _ 0 o eq_refl Hlk) as [[_ ->]|[Hlt _]];
      [reflexivity|lia].
  - intros Hne.
    destruct (Element_new_nodes d _ i o eq_refl Hlk)
      as [[-> _]|[_ (d1 & idx1 & p & dp & idxp & parp & Hs & Hp & Hin & _)]];
      [congruence|].
    apply Subtree_lookup in Hs, Hp. rewrite Hlk in Hs. injection Hs as ->.
    exists p, (node_of dp idxp parp p), (child_ids (children_of dp) (S p)).
    split; [reflexivity|]. split; [exact Hp|]. split.
    + simpl. now apply list_or_None_In with (x := i).
    + apply NoDup_count_occ'; [apply child_ids_NoDup|exact Hin].
Qed.

Lemma children_never_empty_and_listed_once_witness :
  let d := PDict [(KStr "a", PList [PInt 1]); (KStr "b", PDict [])] in
  let o := mkElement (PInt 1) (KStr "__index__0") (Some 1) "int" None
                     (Some (PInt 1)) in
  children o <> Some []
  /\ (is_container (data o) = false \/ data o = PDict [] \/ data o = PList []
      \/ data o = PTuple [] \/ data o = PSet [] -> children o = None)
  /\ (2 = fst (Element_new d) -> parent o = None)
  /\ (2 <> fst (Element_new d) ->
      exists p po cs,
        parent o = Some p
        /\ snd (Element_new d) !! p = Some po
        /\ children po = Some cs
        /\ count_occ Nat.eq_dec cs 2 = 1).
Proof.
  intros d o.
  apply (children_never_empty_and_listed_once d 2 o).
  reflexivity.
Defined.

End TreeFacts.

(** ** Facts about the finder *)

Module FinderFacts.
Import Tree TreeFacts Lookup Finder.

Section WithLookup.
Variable re : Re.ReLib.
Variable validate : pfunc -> pyval -> res bool.
Variable H : heap.
Variable lk : LookupCls.

Local Abbreviation find_ := (Finder.find_ re validate H lk).
Local Abbreviation find_children := (Finder.find_children re validate H lk).
Local Abbreviation sweep := (Finder.sweep re validate H lk).
Local Abbreviation visit := (Finder.visit re validate H lk).
Local Abbreviation probe := (Finder.probe re validate lk).

Lemma sweep_app l1 l2 st :
  sweep (l1 ++ l2) st
  = match sweep l1 st with
    | (st', Returned) => sweep l2 st'
    | stop => stop
    end.
Proof.
  revert st; induction l1 as [|c r IH]; intros st; simpl; [reflexivity|].
  destruct (visit c st) as [st' [|e]]; [apply IH|reflexivity].
Qed.

Lemma node_of_kind d idx par id :
  is_dict (node_of d idx par id) || is_list (node_of d idx par id)
  = is_container d.
Proof. destruct d; reflexivity. Qed.

Lemma node_of_is_element d idx par id :
  is_element (node_of d idx par id)
  = match children_of d with [] => false | _ => true end.
Proof.
  unfold is_element, has_children, node_of. simpl.
  destruct (children_of d); reflexivity.
Qed.

Lemma child_ids_or_None kvs c :
  kvs <> [] -> list_or_None (child_ids kvs c) = Some (child_ids kvs c).
Proof. destruct kvs; [congruence|reflexivity]. Qed.

Lemma visit_child d idx p c n st :
  H !! c = Some (node_of d idx (Some p) c) -> H !! p = Some n ->
  visit c st
  = if is_list n then (st, Returned) else probe c (node_of d idx (Some p) c) st.
Proof.
  intros Hc Hp. unfold Finder.visit. rewrite Hc. cbn [parent node_of].
  now rewrite Hp.
Qed.

(** On a constructed subtree the finder does exactly a [sweep] over the
    references below the subtree's root, in allocation order. *)
Lemma find__sweep_mut :
  (forall d idx par id, Subtree H d idx par id ->
     forall fuel st, size d <= fuel ->
       children_of d <> [] \/ is_container d = false ->
       find_ fuel id st = Some (sweep (seq (S id) (size d - 1)) st))
  /\ (forall p kvs c, Subtrees H p kvs c ->
     forall f st n, H !! p = Some n -> is_dict n || is_list n = true ->
       sizes kvs <= f ->
       find_children (find_ f) (is_list n) (child_ids kvs c) st
       = Some (sweep (seq c (sizes kvs)) st)).
Proof.
  apply Subtree_mutind.
  - intros d idx par id Hnode _ IH fuel st Hfuel Hkids.
    destruct fuel as [|f]; [pose proof (size_pos d); lia|].
    simpl. rewrite Hnode, node_of_kind.
    assert (Hsz : size d - 1 = sizes (children_of d))
      by (rewrite (size_children d); lia).
    destruct (is_container d) eqn:Hc.
    + destruct Hkids as [Hkids|Hkids]; [|discriminate].
      unfold node_of at 1. cbn [children].
      rewrite (child_ids_or_None _ _ Hkids), Hsz.
      apply (IH f st _ Hnode); [now rewrite node_of_kind|lia].
    + rewrite Hsz.
      destruct d; try discriminate Hc; reflexivity.
  - intros p c f st n _ _ _. reflexivity.
  - intros p k v r c Hv IHv Hr IHr f st n Hp Hkind Hf.
    rewrite sizes_cons in Hf |- *. cbn [snd] in Hf |- *.
    pose proof (Subtree_lookup _ _ _ _ _ Hv) as Hc.
    pose proof (size_pos v) as Hpos.
    replace (size v + sizes r) with (1 + ((size v - 1) + sizes r)) by lia.
    rewrite seq_app, seq_app. cbn [seq app Finder.sweep].
    replace (c + 1 + (size v - 1)) with (c + size v) by lia.
    replace (c + 1) with (S c) by lia.
    cbn [child_ids Finder.find_children snd]. rewrite Hc.
    rewrite (visit_child _ _ _ _ _ st Hc Hp).
    rewrite node_of_is_element.
    assert (Hleaf : children_of v = [] -> size v - 1 = 0).
    { intros E. rewrite (size_children v), E. reflexivity. }
    assert (Hrec : forall st', children_of v <> [] ->
              find_ f c st' = Some (sweep (seq (S c) (size v - 1)) st')).
    { intros st' Hne. apply IHv; [lia|now left]. }
    assert (Hrest : forall st',
              find_children (find_ f) (is_list n) (child_ids r (c + size v)) st'
              = Some (sweep (seq (c + size v) (sizes r)) st')).
    { intros st'. apply (IHr f st' n Hp Hkind). lia. }
    clear IHr IHv Hkind.
    destruct (is_list n).
    + destruct (children_of v) as [|kv kvs] eqn:Hk.
      * rewrite (Hleaf eq_refl). cbn [seq app]. apply Hrest.
      * rewrite Hrec by congruence. rewrite sweep_app.
        destruct (sweep (seq (S c) (size v - 1)) st) as [st1 [|e]];
          [apply Hrest|reflexivity].
    + destruct (probe c (node_of v k (Some p) c) st) as [st0 [|e]];
        [|reflexivity].
      destruct (children_of v) as [|kv kvs] eqn:Hk.
      * rewrite (Hleaf eq_refl). cbn [seq app]. apply Hrest.
      * rewrite Hrec by congruence. rewrite sweep_app.
        destruct (sweep (seq (S c) (size v - 1)) st0) as [st1 [|e]];
          [apply Hrest|reflexivity].
Qed.

Local Abbreviation tested := (Finder.tested H).
Local Abbreviation accepts := (Finder.accepts re validate lk).

Lemma probe_spec c child st :
  exists o : bool, probe c child st
            = (mkFstate (result st ++ (if o then [c] else [])) (probed st ++ [c]),
               snd (probe c child st))
            /\ (o = true -> accepts child = true)
            /\ (snd (probe c child st) = Returned -> o = accepts child).
Proof.
  unfold Finder.probe, Finder.accepts, holds.
  destruct (is_left_matched re lk (index child)) as [[|]|e]; simpl.
  - destruct (is_right lk); simpl.
    + destruct (is_right_matched re validate lk (data child)) as [[|]|e]; simpl.
      * exists true. auto.
      * exists false. rewrite app_nil_r. repeat split; congruence.
      * exists false. rewrite app_nil_r. repeat split; congruence.
    + exists true. auto.
  - exists false. rewrite app_nil_r. repeat split; congruence.
  - exists false. rewrite app_nil_r. repeat split; congruence.
Qed.

(** What a visit adds to the two lists. *)
Lemma visit_spec c st :
  exists ps rs,
    fst (visit c st) = mkFstate (result st ++ rs) (probed st ++ ps)
    /\ (ps = [] \/ (ps = [c] /\ tested c = true))
    /\ (rs = [] \/ (rs = [c] /\ ps = [c]))
    /\ (snd (visit c st) = Returned -> ps = if tested c then [c] else []).
Proof.
  unfold Finder.visit, Finder.tested.
  assert (Hnone : exists ps rs,
             st = mkFstate (result st ++ rs) (probed st ++ ps)
             /\ (ps = [] \/ (ps = [c] /\ false = true))
             /\ (rs = [] \/ (rs = [c] /\ ps = [c]))
             /\ (Returned = Returned -> ps = [])).
  { exists [], []. rewrite !app_nil_r. destruct st; auto. }
  destruct (H !! c) as [child|]; [|exact Hnone].
  destruct (parent child) as [p|]; [|exact Hnone].
  destruct (H !! p) as [n|]; [|exact Hnone].
  destruct (is_list n); [exact Hnone|]. simpl negb.
  destruct (probe_spec c child st) as (o & -> & _ & _). simpl.
  exists [c], (if o then [c] else []).
  split; [reflexivity|]. split; [now right|].
  split; [destruct o; auto|reflexivity].
Qed.

(** What a sweep adds to the two lists: only tested references of the
    run are probed, only probed ones are appended, and a sweep that
    returns has probed every tested reference of the run. *)
Lemma sweep_spec ids st :
  exists ps rs,
    fst (sweep ids st) = mkFstate (result st ++ rs) (probed st ++ ps)
    /\ (forall c, In c ps -> In c ids /\ tested c = true)
    /\ (forall c, In c rs -> In c ps)
    /\ (snd (sweep ids st) = Returned ->
        ps = List.filter tested ids).
Proof.
  revert st; induction ids as [|c r IH]; intros st.
  - exists [], []. simpl. rewrite !app_nil_r. destruct st; simpl.
    repeat split; tauto.
  - simpl.
    destruct (visit_spec c st) as (ps1 & rs1 & Hst & Hps & Hrs & Hret).
    destruct (visit c st) as [st1 o1]. simpl in *. subst st1.
    destruct o1 as [|e].
    + destruct (IH (mkFstate (result st ++ rs1) (probed st ++ ps1)))
        as (ps2 & rs2 & Hst2 & Hin2 & Hsub2 & Hret2).
      exists (ps1 ++ ps2), (rs1 ++ rs2). simpl in Hst2.
      rewrite Hst2, <- !app_assoc. split; [reflexivity|].
      split; [|split].
      * intros c' Hc. apply in_app_or in Hc as [Hc|Hc].
        -- destruct Hps as [->|[-> Ht]]; [destruct Hc|].
           destruct Hc as [->|[]]. split; [now left|exact Ht].
        -- destruct (Hin2 c' Hc). split; [now right|assumption].
      * intros c' Hc. apply in_or_app.
        apply in_app_or in Hc as [Hc|Hc]; [left|right; now apply Hsub2].
        destruct Hrs as [->|[-> ->]]; [destruct Hc|exact Hc].
      * intros Hr. rewrite (Hret eq_refl), (Hret2 Hr).
        destruct (tested c); reflexivity.
    + exists ps1, rs1. split; [reflexivity|]. split; [|split].
      * intros c' Hc.
        destruct Hps as [->|[-> Ht]]; [destruct Hc|].
        destruct Hc as [->|[]]. split; [now left|exact Ht].
      * intros c' Hc. destruct Hrs as [->|[-> ->]]; [destruct Hc|exact Hc].
      * discriminate.
Qed.

Local Abbreviation selects := (Finder.selects re validate H lk).
Local Abbreviation raised := (Finder.raised re validate lk).

(** The test of a child by what the two matchers answer: the child is
    logged, appended when both accept it, and the loop stops when one of
    them raises. *)
Lemma probe_raised c child st :
  probe c child st
  = (mkFstate (result st ++ (if accepts child then [c] else []))
              (probed st ++ [c]),
     match raised child with
     | Some e => Raised e
     | None => Returned
     end).
Proof.
  unfold Finder.probe, Finder.raised, Finder.accepts, holds.
  destruct (is_left_matched re lk (index child)) as [[|]|e]; simpl;
    [|now rewrite app_nil_r|now rewrite app_nil_r].
  destruct (is_right lk); simpl; [|reflexivity].
  destruct (is_right_matched re validate lk (data child)) as [[|]|e]; simpl;
    [reflexivity|now rewrite app_nil_r|now rewrite app_nil_r].
Qed.

Lemma raised_not_accepted child e :
  raised child = Some e -> accepts child = false.
Proof.
  unfold Finder.raised, Finder.accepts, holds.
  destruct (is_left_matched re lk (index child)) as [[|]|e']; simpl;
    [|discriminate|reflexivity].
  destruct (is_right lk); simpl; [|discriminate].
  destruct (is_right_matched re validate lk (data child)) as [[|]|e'];
    [discriminate|discriminate|reflexivity].
Qed.

Lemma visit_tested c st :
  visit c st
  = match H !! c with
    | Some child => if tested c then probe c child st else (st, Returned)
    | None => (st, Returned)
    end.
Proof.
  unfold Finder.visit, Finder.tested.
  destruct (H !! c) as [child|]; [|reflexivity].
  destruct (parent child) as [p|]; [|reflexivity].
  destruct (H !! p) as [n|]; [|reflexivity].
  now destruct (is_list n).
Qed.

(** A sweep by what the matchers answer: the appended references are
    the logged ones that both matchers accept, in order; a sweep that
    returns met no exception, and a sweep that stops on an exception
    stops at the first logged child whose test raises, with the exception
    of that test. *)
Lemma sweep_tests ids st :
  exists ps,
    fst (sweep ids st)
    = mkFstate (result st ++ List.filter selects ps) (probed st ++ ps)
    /\ (snd (sweep ids st) = Returned ->
        forall c o, In c ps -> H !! c = Some o -> raised o = None)
    /\ (forall e, snd (sweep ids st) = Raised e ->
        exists ps0 c o,
          ps = ps0 ++ [c] /\ H !! c = Some o /\ raised o = Some e
          /\ forall c' o', In c' ps0 -> H !! c' = Some o' -> raised o' = None).
Proof.
  revert st; induction ids as [|c r IH]; intros st.
  - exists []. simpl. rewrite !app_nil_r. destruct st; simpl.
    split; [reflexivity|]. split; [intros _ c o []|discriminate].
  - cbn [Finder.sweep]. rewrite visit_tested.
    destruct (H !! c) as [child|] eqn:Hc; [|apply IH].
    destruct (tested c) eqn:Ht; [|apply IH].
    rewrite probe_raised.
    assert (Hsel : selects c = accepts child).
    { unfold Finder.selects. now rewrite Hc, Ht. }
    destruct (raised child) as [e|] eqn:Hr.
    + exists [c]. cbn [fst snd List.filter]. rewrite Hsel.
      rewrite (raised_not_accepted child e Hr), app_nil_r.
      split; [reflexivity|]. split; [discriminate|].
      intros e' He'. injection He' as <-.
      exists [], c, child. repeat split; try assumption. intros c' o' [].
    + destruct (IH (mkFstate (result st ++ (if accepts child then [c] else []))
                             (probed st ++ [c])))
        as (ps & Hst & Hret & Hexn).
      exists (c :: ps). cbn [result probed] in Hst.
      split; [|split].
      * rewrite Hst. cbn [List.filter]. rewrite Hsel.
        destruct (accepts child); cbn [app]; now rewrite <- !app_assoc.
      * intros Hout c' o' [<-|Hin] Ho'.
        -- rewrite Hc in Ho'. injection Ho' as <-. exact Hr.
        -- exact (Hret Hout c' o' Hin Ho').
      * intros e He. destruct (Hexn e He) as (ps0 & c1 & o1 & -> & Ho1 & Hr1 & Hbefore).
        exists (c :: ps0), c1, o1. repeat split; try assumption.
        intros c' o' [<-|Hin] Ho'.
        -- rewrite Hc in Ho'. injection Ho' as <-. exact Hr.
        -- exact (Hbefore c' o' Hin Ho').
Qed.

Section Total.
Hypothesis left_total : forall k, exists b, is_left_matched re lk k = Ok b.
Hypothesis right_total :
  forall v, exists b, is_right_matched re validate lk v = Ok b.

Lemma probe_total c child st :
  probe c child st
  = (mkFstate (result st ++ (if accepts child then [c] else []))
              (probed st ++ [c]), Returned).
Proof.
  destruct (probe_spec c child st) as (o & Hp & _ & Ho).
  assert (Hret : snd (probe c child st) = Returned).
  { unfold Finder.probe.
    destruct (left_total (index child)) as [bl ->].
    destruct (right_total (data child)) as [br ->].
    destruct bl, (is_right lk), br; reflexivity. }
  rewrite Hp, Hret, (Ho Hret). reflexivity.
Qed.

(** When neither matcher raises, a sweep appends exactly the selected
    references of the run, in the order of the run. *)
Lemma sweep_total ids st :
  sweep ids st
  = (mkFstate (result st ++ List.filter selects ids)
              (probed st ++ List.filter tested ids), Returned).
Proof.
  revert st; induction ids as [|c r IH]; intros st; simpl.
  - rewrite !app_nil_r. now destruct st.
  - unfold Finder.visit, Finder.selects, Finder.tested.
    destruct (H !! c) as [child|]; [|apply IH].
    destruct (parent child) as [p|]; [|apply IH].
    destruct (H !! p) as [n|]; [|apply IH].
    destruct (is_list n); simpl; [apply IH|].
    rewrite probe_total, IH. simpl.
    destruct (accepts child); simpl; now rewrite <- !app_assoc.
Qed.

End Total.

Lemma find_children_list rec cs st :
  find_children rec true cs st = Finder.recurse_only H rec cs st.
Proof.
  revert st; induction cs as [|c r IH]; intros st; simpl; [reflexivity|].
  destruct (H !! c) as [child|]; [|reflexivity].
  destruct (is_element child); [|apply IH].
  destruct (rec c st) as [[st' [|e]]|]; [apply IH|reflexivity|reflexivity].
Qed.

End WithLookup.

(** *** The finder on a constructed tree *)

Lemma find__built re validate lk d (H : heap) st :
  snd (Element_new d) = H ->
  Finder.find_ re validate H lk (length H) 0 st
  = Some (if is_container d
             && match children_of d with [] => true | _ => false end
          then (st, Raised TypeError)
          else Finder.sweep re validate H lk (seq 1 (size d - 1)) st).
Proof.
  intros HH.
  destruct (Element_new_ok d) as (H' & Hrun & Hlen & Hsub).
  rewrite Hrun in HH. simpl in HH. subst H'. rewrite Hlen.
  destruct (is_container d) eqn:Hc; simpl.
  - destruct (children_of d) as [|kv r] eqn:Hk.
    + pose proof (size_pos d) as Hpos.
      destruct (size d) as [|f]; [lia|]. simpl.
      rewrite (Subtree_lookup _ _ _ _ _ Hsub), node_of_kind, Hc.
      unfold node_of. simpl. now rewrite Hk.
    + apply (proj1 (find__sweep_mut re validate H lk) _ _ _ _ Hsub);
        [lia|left; congruence].
  - apply (proj1 (find__sweep_mut re validate H lk) _ _ _ _ Hsub);
      [lia|now right].
Qed.

(** The object named by a [parent] attribute is a constructed container
    that lists the child, and was allocated before it. *)
Lemma built_parent d (H : heap) c o p :
  snd (Element_new d) = H -> H !! c = Some o -> parent o = Some p ->
  exists dp idxp parp,
    H !! p = Some (node_of dp idxp parp p)
    /\ children_of dp <> []
    /\ p < c
    /\ In c (child_ids (children_of dp) (S p)).
Proof.
  intros HH Hc Hp.
  destruct (Element_new_nodes d H c o HH Hc)
    as [[_ ->]|[_ (d1 & idx1 & p1 & dp & idxp & parp & Hs & Hsp & Hin & _)]];
    [discriminate|].
  apply Subtree_lookup in Hs, Hsp. rewrite Hc in Hs. injection Hs as ->.
  simpl in Hp. injection Hp as ->.
  exists dp, idxp, parp. split; [exact Hsp|]. split.
  - intros E. rewrite E in Hin. destruct Hin.
  - split; [|exact Hin]. apply child_ids_lower in Hin. lia.
Qed.

Lemma container_kind dp idxp parp p :
  children_of dp <> [] ->
  let n := node_of dp idxp parp p in
  is_dict n = negb (is_list n)
  /\ (is_dict n = true -> type_ n = "dict" /\ exists items, data n = PDict items).
Proof.
  intros Hk. destruct dp; simpl in *; try congruence; split;
    try reflexivity; try discriminate; eauto.
Qed.

Lemma built_tested d (H : heap) c :
  snd (Element_new d) = H -> Finder.tested H c = true ->
  exists o p n items,
    H !! c = Some o /\ parent o = Some p /\ H !! p = Some n
    /\ type_ n = "dict" /\ data n = PDict items.
Proof.
  intros HH Ht. unfold Finder.tested in Ht.
  destruct (H !! c) as [o|] eqn:Hc; [|discriminate].
  destruct (parent o) as [p|] eqn:Hp; [|discriminate].
  destruct (built_parent d H c o p HH Hc Hp)
    as (dp & idxp & parp & Hn & Hk & _ & _).
  rewrite Hn in Ht.
  destruct (container_kind dp idxp parp p Hk) as [Hdl Hd].
  rewrite <- Hdl in Ht. destruct (Hd Ht) as [Hty [items Hdata]].
  exists o, p, (node_of dp idxp parp p), items. auto.
Qed.

Lemma built_tested_dict d (H : heap) c o p n :
  snd (Element_new d) = H ->
  H !! c = Some o -> parent o = Some p -> H !! p = Some n ->
  Finder.tested H c = is_dict n.
Proof.
  intros HH Hc Hp Hn. unfold Finder.tested. rewrite Hc, Hp, Hn.
  destruct (built_parent d H c o p HH Hc Hp)
    as (dp & idxp & parp & Hn' & Hk & _ & _).
  rewrite Hn in Hn'. injection Hn' as ->.
  now destruct (container_kind dp idxp parp p Hk) as [-> _].
Qed.

Lemma built_selects re validate lk d (H : heap) c :
  snd (Element_new d) = H ->
  Finder.selects re validate H lk c = Finder.matches re validate H lk c.
Proof.
  intros HH. unfold Finder.selects, Finder.matches.
  destruct (H !! c) as [o|] eqn:Hc; [|reflexivity].
  destruct (parent o) as [p|] eqn:Hp.
  - destruct (H !! p) as [n|] eqn:Hn.
    + now rewrite (built_tested_dict d H c o p n HH Hc Hp Hn).
    + unfold Finder.tested. now rewrite Hc, Hp, Hn.
  - unfold Finder.tested. now rewrite Hc, Hp.
Qed.

(** The finder returns or raises on every constructed tree: the fuel
    that [find] supplies suffices. *)
Lemma find_returns re validate d lookup select_obj :
  exists r,
    Finder.find re validate (snd (Element_new d)) 0 lookup select_obj = Some r.
Proof.
  unfold Finder.find. destruct (process re lookup) as [lk|e]; [|eauto].
  rewrite (find__built re validate lk d _ _ eq_refl).
  destruct (is_container d && _); [eauto|].
  destruct (Finder.sweep _ _ _ _ _ _) as [st [|e]]; eauto.
Qed.

(** On a tree whose root is an empty dict, list, tuple or set, [find_]
    iterates over [children], which is [None], and raises [TypeError]. *)
Lemma empty_root_raises re validate lk st :
  Finder.find_ re validate (snd (Element_new (PDict []))) lk 1 0 st
  = Some (st, Raised TypeError)
  /\ Finder.find_ re validate (snd (Element_new (PList []))) lk 1 0 st
     = Some (st, Raised TypeError).
Proof. split; reflexivity. Qed.

Lemma built_node_shape d (H : heap) i o :
  snd (Element_new d) = H -> H !! i = Some o ->
  exists d' idx' par', o = node_of d' idx' par' i.
Proof.
  intros HH Hlk.
  destruct (Element_new_nodes d H i o HH Hlk)
    as [[-> ->]|[_ (d' & idx' & p & _ & _ & _ & Hs & _)]]; [eauto|].
  apply Subtree_lookup in Hs. rewrite Hlk in Hs. injection Hs as ->. eauto.
Qed.

Lemma built_root d (H : heap) :
  snd (Element_new d) = H ->
  fst (Element_new d) = 0 /\ length H = size d
  /\ H !! 0 = Some (node_of d (KStr "") None 0).
Proof.
  intros HH. destruct (Element_new_ok d) as (H' & Hrun & Hlen & Hsub).
  rewrite Hrun in HH |- *. simpl in *. subst H'.
  repeat split; [exact Hlen|now apply Subtree_lookup].
Qed.

Lemma ancestor_lt d (H : heap) a c :
  snd (Element_new d) = H -> ancestor H a c -> a < c.
Proof.
  intros HH Hanc. induction Hanc as [c o p Hc Hp|a c o p Hc Hp _ IH].
  - destruct (built_parent d H c o p HH Hc Hp) as (_ & _ & _ & _ & _ & Hlt & _).
    exact Hlt.
  - destruct (built_parent d H c o p HH Hc Hp) as (_ & _ & _ & _ & _ & Hlt & _).
    lia.
Qed.

Lemma child_ids_increasing kvs c i j a b :
  i < j -> child_ids kvs c !! i = Some a -> child_ids kvs c !! j = Some b ->
  a < b.
Proof.
  revert c i j; induction kvs as [|kv r IH]; intros c i j Hij Hi Hj;
    [discriminate|].
  destruct j as [|j]; [lia|]. simpl in Hj.
  destruct i as [|i]; simpl in Hi.
  - injection Hi as <-.
    assert (Hin : In b (child_ids r (c + size (snd kv)))).
    { apply list_elem_of_In, list_elem_of_lookup. eauto. }
    apply child_ids_lower in Hin. pose proof (size_pos (snd kv)). lia.
  - apply (IH (c + size (snd kv)) i j); [lia|assumption|assumption].
Qed.

Lemma precedes_filter_seq (f : nat -> bool) s n a c :
  a < c -> In a (List.filter f (seq s n)) -> In c (List.filter f (seq s n)) ->
  precedes (List.filter f (seq s n)) a c.
Proof.
  intros Hac Ha Hc.
  apply filter_In in Ha as [Ha Hfa]. apply filter_In in Hc as [Hc Hfc].
  apply in_seq in Ha, Hc.
  replace n with ((a - s) + (1 + ((c - a - 1) + (1 + (s + n - c - 1)))))
    by lia.
  rewrite !seq_app. simpl seq.
  replace (s + (a - s)) with a by lia.
  replace (a + 1 + (c - a - 1)) with c by lia.
  rewrite !List.filter_app. simpl List.filter. rewrite ?Hfa, ?Hfc.
  eexists _, _, _. reflexivity.
Qed.

(** C10. Every reference that [find_] appends to [result] has a parent
    object, and the parent's raw data is a dictionary; so [record.parent.data],
    which the projector reads for all-select output, column lookups and the
    filter predicate, is a dictionary for every record.  This holds for
    every data tree and every lookup, also when a matcher raises. *)
Theorem found_records_are_children_of_dicts
    (re : Re.ReLib) (validate : pfunc -> pyval -> res bool)
    (lk : LookupCls) (d : pyval) :
  exists st out,
    Finder.find_ re validate (snd (Element_new d)) lk
                 (length (snd (Element_new d))) (fst (Element_new d))
                 (mkFstate [] [])
    = Some (st, out)
    /\ forall c, In c (result st) ->
         exists o p n items,
           snd (Element_new d) !! c = Some o
           /\ parent o = Some p
           /\ snd (Element_new d) !! p = Some n
           /\ data n = PDict items
           /\ Finder.parent_data (snd (Element_new d)) c = Ok (PDict items).
Proof.
  remember (snd (Element_new d)) as H eqn:HH. symmetry in HH.
  destruct (built_root d H HH) as (-> & _ & _).
  rewrite (find__built re validate lk d H _ HH).
  destruct (is_container d && _).
  - exists (mkFstate [] []), (Raised TypeError). split; [reflexivity|].
    intros c [].
  - destruct (sweep_spec re validate H lk (seq 1 (size d - 1)) (mkFstate [] []))
      as (ps & rs & Hst & Hps & Hrs & _).
    destruct (Finder.sweep _ _ _ _ _ _) as [st out]. simpl in Hst. subst st.
    exists (mkFstate rs ps), out. split; [reflexivity|].
    intros c Hc. simpl in Hc.
    destruct (Hps c (Hrs c Hc)) as [_ Ht].
    destruct (built_tested d H c HH Ht) as (o & p & n & items & Ho & Hp & Hn & _ & Hd).
    exists o, p, n, items. repeat split; try assumption.
    unfold Finder.parent_data. now rewrite Ho, Hp, Hn, Hd.
Qed.

(** C1. In a run of [find_] over the tree of any data value, every child
    whose index label is handed to [is_left_matched] hangs under a node of
    type dict; a child of a list node is therefore never tested, and since
    only tested children are appended, never appended on account of its
    label.  A run that returns has tested every child of every dict node.
    Under a list node the loop only recurses, and only into children that
    have children themselves.  The test is the one of the two matchers:
    the appended children are the tested ones whose index label
    [is_left_matched] accepts and whose data [is_right_matched] accepts
    when the lookup has a right side, in the order of the tests; in a run
    that returns no test has raised, and a run that raises either stands
    at an empty root container, with nothing tested, or has stopped at
    the first child whose test raises, with the exception of that
    test. *)
Theorem list_children_are_only_recursed_into
    (re : Re.ReLib) (validate : pfunc -> pyval -> res bool)
    (lk : LookupCls) (d : pyval) :
  exists st out,
    Finder.find_ re validate (snd (Element_new d)) lk
                 (length (snd (Element_new d))) (fst (Element_new d))
                 (mkFstate [] [])
    = Some (st, out)
    /\ (forall c, In c (probed st) ->
          exists o p n,
            snd (Element_new d) !! c = Some o /\ parent o = Some p
            /\ snd (Element_new d) !! p = Some n /\ type_ n = "dict")
    /\ (forall c, In c (result st) -> In c (probed st))
    /\ (out = Returned ->
        forall c o p n,
          snd (Element_new d) !! c = Some o -> parent o = Some p ->
          snd (Element_new d) !! p = Some n -> type_ n = "dict" ->
          In c (probed st))
    /\ (forall fuel node n cs st0,
          snd (Element_new d) !! node = Some n -> type_ n = "list" ->
          children n = Some cs ->
          Finder.find_ re validate (snd (Element_new d)) lk (S fuel) node st0
          = Finder.recurse_only (snd (Element_new d))
              (Finder.find_ re validate (snd (Element_new d)) lk fuel) cs st0)
    /\ result st
       = List.filter (Finder.selects re validate (snd (Element_new d)) lk)
                     (probed st)
    /\ (forall c o,
          In c (probed st) -> snd (Element_new d) !! c = Some o ->
          (In c (result st) <-> Finder.accepts re validate lk o = true))
    /\ (out = Returned ->
        forall c o,
          In c (probed st) -> snd (Element_new d) !! c = Some o ->
          Finder.raised re validate lk o = None)
    /\ (forall e, out = Raised e ->
        (probed st = [] /\ e = TypeError /\ children_of d = [])
        \/ exists ps c o,
             probed st = ps ++ [c]
             /\ snd (Element_new d) !! c = Some o
             /\ Finder.raised re validate lk o = Some e
             /\ forall c' o',
                  In c' ps -> snd (Element_new d) !! c' = Some o' ->
                  Finder.raised re validate lk o' = None).
Proof.
  remember (snd (Element_new d)) as H eqn:HH. symmetry in HH.
  destruct (built_root d H HH) as (-> & Hlen & _).
  rewrite (find__built re validate lk d H _ HH).
  assert (Hlist : forall fuel node n cs st0,
            H !! node = Some n -> type_ n = "list" -> children n = Some cs ->
            Finder.find_ re validate H lk (S fuel) node st0
            = Finder.recurse_only H (Finder.find_ re validate H lk fuel) cs st0).
  { intros fuel node n cs st0 Hn Hty Hcs. simpl. rewrite Hn.
    unfold is_dict, is_list. rewrite Hty, Hcs. simpl.
    apply find_children_list. }
  destruct (is_container d && _) eqn:Hempty.
  - exists (mkFstate [] []), (Raised TypeError). split; [reflexivity|].
    split; [intros c []|]. split; [intros c []|]. split; [discriminate|].
    split; [exact Hlist|]. split; [reflexivity|]. split; [intros c o []|].
    split; [discriminate|].
    intros e He. injection He as <-. left. repeat split.
    apply andb_prop in Hempty as [_ Hk]. now destruct (children_of d).
  - destruct (sweep_spec re validate H lk (seq 1 (size d - 1)) (mkFstate [] []))
      as (ps & rs & Hst & Hps & Hrs & Hall).
    destruct (sweep_tests re validate H lk (seq 1 (size d - 1)) (mkFstate [] []))
      as (ps' & Hst' & Hret & Hexn).
    destruct (Finder.sweep _ _ _ _ _ _) as [st out]. simpl in Hst, Hall.
    cbn [fst snd result probed app] in Hst', Hret, Hexn.
    subst st. injection Hst' as -> ->.
    exists (mkFstate (List.filter (Finder.selects re validate H lk) ps') ps'), out.
    split; [reflexivity|]. cbn [result probed].
    split; [|split; [exact Hrs|split; [|split; [exact Hlist|]]]].
    + intros c Hc. destruct (Hps c Hc) as [_ Ht].
      destruct (built_tested d H c HH Ht)
        as (o & p & n & items & Ho & Hp & Hn & Hty & _).
      exists o, p, n. auto.
    + intros Hout c o p n Ho Hp Hn Hty. rewrite (Hall Hout).
      apply filter_In. split.
      * apply in_seq.
        destruct (built_parent d H c o p HH Ho Hp) as (_ & _ & _ & _ & _ & Hlt & _).
        apply lookup_lt_Some in Ho. lia.
      * rewrite (built_tested_dict d H c o p n HH Ho Hp Hn).
        unfold is_dict. now rewrite Hty.
    + split; [reflexivity|]. split; [|split; [exact Hret|]].
      * intros c o Hc Ho. destruct (Hps c Hc) as [_ Ht].
        rewrite filter_In. unfold Finder.selects. rewrite Ho, Ht. simpl.
        tauto.
      * intros e He. right. exact (Hexn e He).
Qed.

(** With matchers that do not raise, the finder returns (or stops on the
    empty root container) with exactly the accepted children of dict
    nodes in [result], in allocation order. *)
Lemma find__total
    (re : Re.ReLib) (validate : pfunc -> pyval -> res bool)
    (lk : LookupCls) (d : pyval) (H : heap) :
  snd (Element_new d) = H ->
  (forall k, exists b, is_left_matched re lk k = Ok b) ->
  (forall v, exists b, is_right_matched re validate lk v = Ok b) ->
  exists st out,
    Finder.find_ re validate H lk (length H) 0 (mkFstate [] []) = Some (st, out)
    /\ result st = List.filter (Finder.matches re validate H lk) (seq 0 (length H)).
Proof.
  intros HH Hleft Hright.
  destruct (built_root d H HH) as (_ & Hlen & Hroot).
  rewrite (find__built re validate lk d H _ HH).
  set (R := List.filter (Finder.matches re validate H lk) (seq 0 (length H))).
  assert (Hm0 : Finder.matches re validate H lk 0 = false).
  { unfold Finder.matches. now rewrite Hroot. }
  assert (HR : R = List.filter (Finder.selects re validate H lk)
                               (seq 1 (size d - 1))).
  { unfold R. rewrite Hlen. pose proof (size_pos d) as Hpos.
    replace (size d) with (S (size d - 1)) at 1 by lia.
    simpl. rewrite Hm0. apply List.filter_ext. intros c.
    symmetry. now apply built_selects with (d := d). }
  destruct (is_container d && _) eqn:Hempty.
  - exists (mkFstate [] []), (Raised TypeError). split; [reflexivity|].
    rewrite HR. apply andb_prop in Hempty as [_ Hk].
    destruct (children_of d) eqn:E; [|discriminate].
    rewrite (size_children d), E. reflexivity.
  - rewrite (sweep_total re validate H lk Hleft Hright). cbn [result probed app].
    eexists _, _. split; [reflexivity|]. cbn [result]. now rewrite <- HR.
Qed.

(** C2. With a lookup whose matchers do not raise, the [result] of
    [find_] over the tree of any data value lists exactly the children of
    dict nodes that the lookup accepts, at every depth (so also those below
    an accepted or a rejected node), in the order in which the tree was
    built: an accepted node comes before every accepted node of its own
    subtree, and accepted siblings come in the order of [children]. *)
Theorem find__collects_every_match_in_preorder
    (re : Re.ReLib) (validate : pfunc -> pyval -> res bool)
    (lk : LookupCls) (d : pyval) :
  (forall k, exists b, is_left_matched re lk k = Ok b) ->
  (forall v, exists b, is_right_matched re validate lk v = Ok b) ->
  exists st out,
    Finder.find_ re validate (snd (Element_new d)) lk
                 (length (snd (Element_new d))) (fst (Element_new d))
                 (mkFstate [] [])
    = Some (st, out)
    /\ result st
       = List.filter (Finder.matches re validate (snd (Element_new d)) lk)
                     (seq 0 (length (snd (Element_new d))))
    /\ (forall c, Finder.matches re validate (snd (Element_new d)) lk c = true ->
          In c (result st))
    /\ (forall a c, In a (result st) -> In c (result st) ->
          ancestor (snd (Element_new d)) a c -> precedes (result st) a c)
    /\ (forall node n cs i j a b,
          snd (Element_new d) !! node = Some n -> children n = Some cs ->
          cs !! i = Some a -> cs !! j = Some b -> i < j ->
          In a (result st) -> In b (result st) -> precedes (result st) a b).
Proof.
  intros Hleft Hright.
  remember (snd (Element_new d)) as H eqn:HH. symmetry in HH.
  destruct (find__total re validate lk d H HH Hleft Hright) as (st & out & Hrun & HR).
  destruct (built_root d H HH) as (-> & Hlen & Hroot).
  exists st, out. split; [exact Hrun|]. split; [exact HR|].
  rewrite HR. split; [|split].
  - intros c Hc. apply filter_In. split; [|exact Hc].
    apply in_seq. unfold Finder.matches in Hc.
    destruct (H !! c) eqn:E; [|discriminate].
    apply lookup_lt_Some in E. lia.
  - intros a c Ha Hc Hanc. apply precedes_filter_seq; try assumption.
    now apply ancestor_lt with (d := d) (H := H).
  - intros node n cs i j a b Hn Hcs Hi Hj Hij Ha Hb.
    apply precedes_filter_seq; try assumption.
    destruct (built_node_shape d H node n HH Hn) as (d' & idx' & par' & ->).
    simpl in Hcs. apply list_or_None_Some in Hcs as [-> _].
    now apply (child_ids_increasing (children_of d') (S node) i j).
Qed.

End FinderFacts.

(** ** Facts about the indexed accessor *)

Module DLQueryFacts.
Import DLQuery.

(** The examples of the accessor: a slice, an index out of range, a
    missing key. *)
Lemma get_examples (default : pyval) :
  get abcd (KStr "1:3") default false = Ok (PList [PStr "b"; PStr "c"])
  /\ get abc (KStr "5") default false = Ok default
  /\ get abc (KStr "-1") default false = Ok (PStr "c")
  /\ get abcd (KStr "::2") default false = Ok (PList [PStr "a"; PStr "c"])
  /\ get abcd (KStr "1:x") default false = Ok default
  /\ get abcd (KStr "1:2:3:4") default false = Ok default
  /\ get (PDict [(KStr "x", PInt 1)]) (KStr "y") (PInt 42) false = Ok (PInt 42).
Proof. repeat split; vm_compute; reflexivity. Qed.

Lemma get_dict items index default on_exception :
  get (PDict items) index default on_exception
  = Ok (match PyDict.get index items with Some v => v | None => default end).
Proof. reflexivity. Qed.

Lemma getitem_out_of_range l z :
  (z < - len l \/ len l <= z)%Z -> getitem l z = Raise IndexError.
Proof.
  intros Hz. unfold getitem.
  destruct (z <? 0)%Z eqn:Hneg.
  - apply Z.ltb_lt in Hneg.
    destruct ((z + len l <? 0)%Z || (len l <=? z + len l)%Z) eqn:E;
      [reflexivity|].
    apply orb_false_elim in E as [E1 E2].
    apply Z.ltb_ge in E1. apply Z.leb_gt in E2. lia.
  - apply Z.ltb_ge in Hneg.
    destruct ((z <? 0)%Z || (len l <=? z)%Z) eqn:E; [reflexivity|].
    apply orb_false_elim in E as [E1 E2]. apply Z.leb_gt in E2.
    unfold len in *. lia.
Qed.

(** A string index that matches the accessor's integer pattern indexes
    positionally; an index out of range gives the default. *)
Lemma get_list_integer_string l s m z default :
  Re.match_str false pattern (Str.strip s) = Ok (Some m) ->
  py_int s = Ok z ->
  get (PList l) (KStr s) default false
  = Ok (match getitem l z with Ok v => v | Raise _ => default end).
Proof.
  intros Hm Hz. unfold get, get_body, get_list. rewrite Hm. simpl.
  rewrite Hz. simpl. destruct (getitem l z); reflexivity.
Qed.

(** A string index that does not match the integer pattern and has
    neither one nor two colons gives the default. *)
Lemma get_list_colon_count l s default :
  Re.match_str false pattern (Str.strip s) = Ok None ->
  Str.count ":" s <> 1 -> Str.count ":" s <> 2 ->
  get (PList l) (KStr s) default false = Ok default.
Proof.
  intros Hm H1 H2. unfold get, get_body, get_list. rewrite Hm. simpl.
  destruct (Nat.eqb_spec (Str.count ":" s) 1) as [E|_]; [contradiction|].
  destruct (Nat.eqb_spec (Str.count ":" s) 2) as [E|_]; [contradiction|].
  reflexivity.
Qed.

(** With one or two colons: a component that [int] rejects gives the
    default; when every component converts, and at least one is empty or
    matches the integer pattern, the slice is returned (the default for a
    zero step). *)
Lemma get_list_slice_string l s default :
  Re.match_str false pattern (Str.strip s) = Ok None ->
  Str.count ":" s = 1 \/ Str.count ":" s = 2 ->
  (forall e,
     Finder.map_res int_or_None (map Str.strip (Str.split ":" s)) = Raise e ->
     get (PList l) (KStr s) default false = Ok default)
  /\ (forall chks bounds,
        Finder.map_res chk (map Str.strip (Str.split ":" s)) = Ok chks ->
        existsb (fun b => b) chks = true ->
        Finder.map_res int_or_None (map Str.strip (Str.split ":" s)) = Ok bounds ->
        get (PList l) (KStr s) default false
        = Ok (match bounds with
              | [i; j] =>
                  match getslice l i j None with
                  | Ok r => PList r
                  | Raise _ => default
                  end
              | [i; j; k] =>
                  match getslice l i j k with
                  | Ok r => PList r
                  | Raise _ => default
                  end
              | _ => default
              end)).
Proof.
  intros Hm Hcount.
  assert (Hc : Nat.eqb (Str.count ":" s) 1 || Nat.eqb (Str.count ":" s) 2 = true).
  { destruct Hcount as [-> | ->]; reflexivity. }
  split.
  - intros e He. unfold get, get_body, get_list. rewrite Hm. simpl.
    rewrite Hc.
    destruct (Finder.map_res chk _) as [chks|e']; simpl; [|reflexivity].
    destruct (existsb _ chks); [|reflexivity].
    unfold slice_of. rewrite He. reflexivity.
  - intros chks bounds Hchk Hany Hb. unfold get, get_body, get_list.
    rewrite Hm. simpl. rewrite Hc, Hchk. simpl. rewrite Hany.
    unfold slice_of. rewrite Hb. simpl.
    destruct bounds as [|i [|j [|k [|x r]]]]; try reflexivity.
    destruct (getslice l i j k); reflexivity.
Qed.

(** C3. The string ["+1"] is not an integer for the accessor: its own
    pattern [-?[0-9]+$] rejects it, and as a bare index it yields the
    default.  As a slice component it is nevertheless converted:
    [get(["a","b","c","d"], "+1:3")] returns [["b","c"]] instead of the
    default, because the components are checked with [any] and then
    converted with [int], which accepts the sign.  With both components
    signed, ["+1:+3"], the default is returned.  So whichever strings are
    counted as integers, the accessor either fails to index positionally
    with one of them or returns a slice for a component that is none. *)
Theorem get_slice_component_not_validated (default : pyval) :
  chk "+1" = Ok false
  /\ py_int "+1" = Ok 1%Z
  /\ get abcd (KStr "+1") default false = Ok default
  /\ get abcd (KStr "+1:3") default false = Ok (PList [PStr "b"; PStr "c"])
  /\ get abcd (KStr "+1:+3") default false = Ok default
  /\ forall is_integer : string -> bool,
       ~ ((forall s z, is_integer s = true -> py_int s = Ok z ->
             get abcd (KStr s) PNone false
             = Ok (match getitem [PStr "a"; PStr "b"; PStr "c"; PStr "d"] z with
                   | Ok v => v
                   | Raise _ => PNone
                   end))
          /\ (forall i j, i <> EmptyString -> is_integer i = false ->
                get abcd (KStr (String.append i (String ":" j))) PNone false
                = Ok PNone)).
Proof.
  do 5 (split; [vm_compute; reflexivity|]).
  intros is_integer [Hint Hslice].
  destruct (is_integer "+1") eqn:E.
  - specialize (Hint "+1" 1%Z E eq_refl). vm_compute in Hint. discriminate.
  - specialize (Hslice "+1" "3" ltac:(discriminate) E).
    vm_compute in Hslice. discriminate.
Qed.

End DLQueryFacts.

(** ** Facts about the matcher *)

Module ReFacts.
Import Re.

Lemma drop_step n w a t :
  Str.drop n w = String a t -> Str.drop (S n) w = t.
Proof.
  revert w; induction n as [|n IH]; intros w; destruct w as [|c w].
  - discriminate.
  - simpl. now intros [= _ ->].
  - discriminate.
  - intros E. apply (IH w E).
Qed.

Lemma substring_nonempty i n w a t :
  Str.drop i w = String a t -> String.substring i (S n) w <> EmptyString.
Proof.
  revert w; induction i as [|i IH]; intros w; destruct w as [|c w]; simpl.
  - discriminate.
  - intros _. discriminate.
  - discriminate.
  - apply IH.
Qed.

Section Run.
Variable whole : string.
Variable ic : bool.

Local Abbreviation in_subject := (Re.in_subject whole).

Lemma in_one_chr test s s' :
  In s' (one_chr test s) ->
  exists a t, rest s = String a t /\ s' = advance s t.
Proof.
  unfold one_chr. destruct (rest s) as [|a t]; [intros []|].
  destruct (test a); [|intros []]. intros [<-|[]]. eauto.
Qed.

Lemma one_chr_in_subject test s s' :
  in_subject s -> In s' (one_chr test s) ->
  in_subject s' /\ pos s' = S (pos s).
Proof.
  intros Hs Hin. apply in_one_chr in Hin as (a & t & Hr & ->).
  split; [|reflexivity]. unfold in_subject in *. simpl.
  symmetry. apply drop_step with (a := a). congruence.
Qed.

(** The matcher only moves forward inside the subject. *)
Lemma run_in_subject r : forall s s',
  in_subject s -> In s' (run ic r s) -> in_subject s' /\ pos s <= pos s'.
Proof.
  induction r as [|c| |neg rs| | |r1 IH1 r2 IH2|r1 IH1 r2 IH2|r IH|name r IH];
    intros s s' Hs Hin; cbn [run] in Hin.
  - destruct Hin as [<-|[]]. auto.
  - destruct (one_chr_in_subject _ _ _ Hs Hin). split; [assumption|lia].
  - destruct (one_chr_in_subject _ _ _ Hs Hin). split; [assumption|lia].
  - destruct (one_chr_in_subject _ _ _ Hs Hin). split; [assumption|lia].
  - destruct (Nat.eqb (pos s) 0); [|destruct Hin].
    destruct Hin as [<-|[]]. auto.
  - destruct (rest s) as [|a [|b t]]; try destruct (Ascii.eqb a Str.newline);
      try destruct Hin as [<-|[]]; try destruct Hin; auto.
  - apply in_flat_map in Hin as (s1 & H1 & H2).
    destruct (IH1 _ _ Hs H1) as [Hs1 Hle1].
    destruct (IH2 _ _ Hs1 H2) as [Hs2 Hle2]. split; [assumption|lia].
  - apply in_app_or in Hin as [Hin|Hin]; [now apply IH1|now apply IH2].
  - remember (S (String.length (rest s))) as n eqn:Hn. clear Hn.
    revert s Hs Hin. induction n as [|n IHn]; intros s Hs Hin; simpl in Hin.
    + destruct Hin as [<-|[]]. auto.
    + apply in_app_or in Hin as [Hin|[<-|[]]]; [|auto].
      apply in_flat_map in Hin as (s1 & H1 & H2).
      destruct (IH _ _ Hs H1) as [Hs1 Hle1].
      destruct (Nat.ltb (pos s) (pos s1)); [|destruct H2].
      destruct (IHn _ Hs1 H2) as [Hs2 Hle2]. split; [assumption|lia].
  - apply in_map_iff in Hin as (s1 & <- & H1).
    destruct (IH _ _ Hs H1) as [Hs1 Hle1]. split; assumption.
Qed.

Lemma in_run_grp name r s s' :
  In s' (run ic (Grp name r) s) ->
  exists s1, In s1 (run ic r s)
             /\ s' = mkState (pos s1) (rest s1)
                             ((name, (pos s, pos s1)) :: caps s1).
Proof. simpl. intros Hin. apply in_map_iff in Hin as (s1 & <- & H1). eauto. Qed.

(** A group around [.+] that is followed by a one-character class
    captures at least one character. *)
Lemma dot_plus_group_nonempty name cls neg s m :
  in_subject s ->
  In m (run ic (Seq (Grp name (Seq Any (Star Any))) (Cls neg cls)) s) ->
  exists i j, assoc name (caps m) = Some (i, j)
              /\ Str.slice i j whole <> EmptyString.
Proof.
  intros Hs Hin. simpl run in Hin. apply in_flat_map in Hin as (s5 & H5 & Hm).
  change (In s5 (run ic (Grp name (Seq Any (Star Any))) s)) in H5.
  apply in_run_grp in H5 as (s' & Hs' & ->).
  apply in_one_chr in Hm as (a & t & _ & ->). simpl caps.
  exists (pos s), (pos s'). simpl. rewrite String.eqb_refl.
  split; [reflexivity|].
  simpl in Hs'. apply in_flat_map in Hs' as (sa & Ha & Hstar).
  pose proof Ha as Ha'. apply in_one_chr in Ha' as (a' & t' & Hrest & _).
  destruct (one_chr_in_subject _ _ _ Hs Ha) as [Hsa Hpos].
  change (In s' (run ic (Star Any) sa)) in Hstar.
  destruct (run_in_subject (Star Any) _ _ Hsa Hstar) as [_ Hle].
  unfold Str.slice.
  replace (pos s' - pos s) with (S (pos s' - pos s - 1)) by lia.
  apply substring_nonempty with (a := a') (t := t').
  unfold in_subject in Hs. congruence.
Qed.

End Run.

Lemma search_at_run ic r whole p s m :
  Re.in_subject whole (mkState p s []) ->
  search_at ic r whole p s = Some m ->
  exists p' s' st,
    Re.in_subject whole (mkState p' s' [])
    /\ In st (run ic r (mkState p' s' []))
    /\ m = mkMatch whole p' (pos st) (caps st).
Proof.
  revert p; induction s as [|c t IH]; intros p Hs; simpl.
  - destruct (run ic r (mkState p "" [])) as [|st l] eqn:E; [discriminate|].
    intros [= <-]. exists p, EmptyString, st. rewrite E. simpl. auto.
  - destruct (run ic r (mkState p (String c t) [])) as [|st l] eqn:E.
    + apply IH. unfold in_subject in *. simpl in *.
      symmetry. apply drop_step with (a := c). congruence.
    + intros [= <-]. exists p, (String c t), st. rewrite E. simpl. auto.
Qed.

End ReFacts.

(** ** Facts about the lookup compiler *)

Module LookupFacts.
Import Lookup.

(** The patterns written in [LookupCls.parse] are read by the model. *)
Lemma source_patterns_compile :
  Re.compile false pat <> None /\ Re.compile true vpat <> None
  /\ Re.compile true vpat1_ <> None /\ Re.compile true vpat2_ <> None
  /\ Re.compile true vpat3_ <> None
  /\ Re.compile false DLQuery.pattern <> None.
Proof. repeat split; vm_compute; discriminate. Qed.

(** A side with one directive: the flag [i] becomes the pattern-wide
    [(?i)], and the compiled side matches in any case. *)
Lemma itext_example :
  parse Re.PyRe "_itext(ABC)" = Ok (PatternStr "(?i)^ABC$")
  /\ search_side Re.PyRe (PatternStr "(?i)^ABC$") "abc" = Ok true
  /\ search_side Re.PyRe (PatternStr "(?i)^ABC$") "ABC" = Ok true
  /\ search_side Re.PyRe (PatternStr "(?i)^ABC$") "AbC" = Ok true
  /\ search_side Re.PyRe (PatternStr "(?i)^ABC$") "ABCD" = Ok false.
Proof. repeat split; vm_compute; reflexivity. Qed.

Lemma directive_examples :
  parse Re.PyRe "x_wildcard(a?c*)y" = Ok (PatternStr "^xa.c.*y$")
  /\ parse Re.PyRe "_regex(^ab+$)" = Ok (PatternStr "^ab+$")
  /\ parse Re.PyRe "a.b_text(c.d)" = Ok (PatternStr "^a\.bc\.d$")
  /\ parse Re.PyRe "abc" = Ok (PatternStr "^abc$").
Proof. repeat split; vm_compute; reflexivity. Qed.

(** C5. The side [_text(a$)] compiles to [^a\$]: the last character of
    the composed pattern is the escaped dollar of the text, [parse] takes
    it for an end anchor and adds none, and the compiled side accepts the
    label [a$b].  Two directives on one line are read as one directive
    whose payload runs to the last parenthesis: [_text(a)-_text(b)]
    compiles to [^a\)\-_text\(b$], which rejects the label [a-b]. *)
Theorem text_directive_not_matched_verbatim :
  parse Re.PyRe "_text(a$)" = Ok (PatternStr "^a\$")
  /\ search_side Re.PyRe (PatternStr "^a\$") "a$" = Ok true
  /\ search_side Re.PyRe (PatternStr "^a\$") "a$b" = Ok true
  /\ parse Re.PyRe "_text(a)-_text(b)" = Ok (PatternStr "^a\)\-_text\(b$")
  /\ search_side Re.PyRe (PatternStr "^a\)\-_text\(b$") "a-b" = Ok false
  /\ search_side Re.PyRe (PatternStr "^a\)\-_text\(b$") "a)-_text(b" = Ok true.
Proof. repeat split; vm_compute; reflexivity. Qed.

(** *** No side compiles to an empty pattern *)

Lemma vpat_shape :
  exists opts meth,
    Re.compile true vpat
    = Some (false,
            Re.Seq (Re.Chr "_")
              (Re.Seq (Re.Grp "options" opts)
                 (Re.Seq (Re.Grp "method" meth)
                    (Re.Seq (Re.Cls false [("("%char, "("%char)])
                       (Re.Seq (Re.Grp "pattern" (Re.Seq Re.Any (Re.Star Re.Any)))
                               (Re.Cls false [(")"%char, ")"%char)])))))).
Proof. vm_compute. eexists _, _. reflexivity. Qed.

(** The payload that [parse_] reads from a directive is not empty. *)
Lemma vpat_payload_nonempty text m g :
  Re.search_str true vpat text = Ok (Some m) ->
  Re.group "pattern" m = Some g -> g <> EmptyString.
Proof.
  unfold Re.search_str. destruct vpat_shape as (opts & meth & ->).
  intros [= Hs] Hg. unfold Re.search in Hs. cbn [fst snd] in Hs.
  apply ReFacts.search_at_run in Hs as (p & s & st & Hsub & Hin & ->);
    [|reflexivity].
  cbn [Re.run] in Hin.
  apply in_flat_map in Hin as (s1 & H1 & Hin).
  apply in_flat_map in Hin as (s2 & H2 & Hin).
  apply in_flat_map in Hin as (s3 & H3 & Hin).
  apply in_flat_map in Hin as (s4 & H4 & Hin).
  change (In s1 (Re.run false (Re.Chr "_") (Re.mkState p s []))) in H1.
  apply (ReFacts.run_in_subject text false _ _ _ Hsub) in H1 as [Hs1 _].
  change (In s2 (Re.run false (Re.Grp "options" opts) s1)) in H2.
  apply (ReFacts.run_in_subject text false _ _ _ Hs1) in H2 as [Hs2 _].
  change (In s3 (Re.run false (Re.Grp "method" meth) s2)) in H3.
  apply (ReFacts.run_in_subject text false _ _ _ Hs2) in H3 as [Hs3 _].
  apply (ReFacts.run_in_subject text false (Re.Cls false _) _ _ Hs3) in H4
    as [Hs4 _].
  destruct (ReFacts.dot_plus_group_nonempty text false "pattern"
              [(")"%char, ")"%char)] false s4 st Hs4)
    as (i & j & Hassoc & Hne).
  { exact Hin. }
  unfold Re.group in Hg. cbn [Re.m_caps Re.m_string] in Hg.
  rewrite Hassoc in Hg. injection Hg as <-. exact Hne.
Qed.

Lemma append_nonempty_l a b : a <> EmptyString -> String.append a b <> EmptyString.
Proof. destruct a; [congruence|discriminate]. Qed.

Lemma replace_nonempty old new s :
  new <> EmptyString -> s <> EmptyString -> Str.replace old new s <> EmptyString.
Proof.
  intros Hnew Hs. destruct s as [|c t]; [congruence|].
  unfold Str.replace. cbn [Str.replace_from].
  destruct (String.prefix old (String c t));
    [now apply append_nonempty_l|discriminate].
Qed.

Lemma wildcard_fragment_nonempty g closed :
  g <> EmptyString -> Utils.wildcard_fragment g closed <> EmptyString.
Proof.
  intros Hg. unfold Utils.wildcard_fragment.
  destruct closed; [discriminate|].
  repeat (apply replace_nonempty; [discriminate|]). exact Hg.
Qed.

Lemma re_escape_nonempty g : g <> EmptyString -> Str.re_escape g <> EmptyString.
Proof.
  destruct g as [|c t]; [congruence|]. intros _. simpl.
  destruct (Str.is_special c); discriminate.
Qed.

Lemma parse__nonempty re text r :
  parse_ re text = Ok r -> fst r <> EmptyString.
Proof.
  unfold parse_.
  destruct (Re.search_str true vpat text) as [[m|]|e] eqn:Hs; simpl;
    try discriminate.
  unfold group_of.
  destruct (Re.group "options" m) as [o|]; simpl; [|discriminate].
  destruct (Re.group "method" m) as [me|]; simpl; [|discriminate].
  destruct (Re.group "pattern" m) as [g|] eqn:Hg; simpl; [|discriminate].
  pose proof (vpat_payload_nonempty text m g Hs Hg) as Hne.
  destruct (String.eqb (Str.lower me) "wildcard").
  - unfold Utils.convert_wildcard_to_regex.
    destruct (Re.re_compile re _); cbn [mbind res_bind]; [|discriminate].
    intros [= <-]. exact (wildcard_fragment_nonempty g false Hne).
  - destruct (String.eqb (Str.lower me) "text"); intros [= <-]; simpl;
      [now apply re_escape_nonempty|exact Hne].
Qed.

Lemma parse_loop_keeps re text nodes : forall lst start ic lst' start' ic',
  has_nonempty lst ->
  parse_loop re text nodes (lst, start, ic) = Ok (lst', start', ic') ->
  has_nonempty lst'.
Proof.
  induction nodes as [|node nodes IH]; intros lst start ic lst' start' ic' Hne;
    simpl.
  - now intros [= <- _ _].
  - destruct (parse_ re (Re.group0 node)) as [r|e]; simpl; [|discriminate].
    apply IH. destruct Hne as (x & Hin & Hx). exists x. split; [|exact Hx].
    apply in_or_app. left. apply in_or_app. now left.
Qed.

Lemma parse_loop_cons re text node nodes st lst' start' ic' :
  parse_loop re text (node :: nodes) st = Ok (lst', start', ic') ->
  has_nonempty lst'.
Proof.
  destruct st as [[lst start] ic]. simpl.
  destruct (parse_ re (Re.group0 node)) as [r|e] eqn:Hr; simpl; [|discriminate].
  apply parse_loop_keeps. exists (fst r). split.
  - apply in_or_app. right. now left.
  - now apply parse__nonempty with (re := re) (text := Re.group0 node).
Qed.

Lemma join_nonempty lst : has_nonempty lst -> Str.join lst <> EmptyString.
Proof.
  unfold Str.join. intros (x & Hin & Hx).
  induction lst as [|y [|z r] IH]; [destruct Hin| |].
  - destruct Hin as [->|[]]. exact Hx.
  - destruct Hin as [->|Hin].
    + simpl. now apply append_nonempty_l.
    + specialize (IH Hin). change (String.append y (String.concat "" (z :: r)) <> "").
      destruct y; [exact IH|discriminate].
Qed.

Lemma finditer_first c s m :
  Re.search c s = Some m -> exists r, Re.finditer c s = m :: r.
Proof.
  unfold Re.finditer, Re.search. intros Hs. simpl.
  change (Str.drop 0 s) with s.
  replace (Str.drop 0 s) with s by (destruct s; reflexivity).
  rewrite Hs. eauto.
Qed.

Lemma parse_other__raises text e :
  parse_other_ text = Raise e -> e = re_error \/ e = AttributeError.
Proof.
  unfold parse_other_, Re.match_str, group_of.
  repeat (match goal with
          | |- context [match ?x with _ => _ end] => destruct x; simpl
          end; try discriminate);
    intros [= <-]; auto.
Qed.

(** [parse] never raises [LookupClsError]: with a directive in the side
    the joined pattern holds the directive's fragment, and without one the
    side goes through [parse_other_]. *)
Lemma parse_never_LookupClsError re text t :
  parse re text <> Raise (LookupClsError t).
Proof.
  unfold parse, Re.search_str, Re.finditer_str.
  destruct (Re.compile false pat) as [c|]; simpl; [|discriminate].
  destruct (Re.search c text) as [m|] eqn:Hs.
  - destruct (finditer_first c text m Hs) as [r ->].
    destruct (parse_loop re text (m :: r) ([], 0, false))
      as [[[lst start] ic]|e] eqn:Hloop; simpl.
    + pose proof (parse_loop_cons _ _ _ _ _ _ _ _ Hloop) as Hne.
      assert (Hne' : has_nonempty
                (match lst with
                 | [] => lst
                 | _ :: _ => lst ++ [Str.re_escape (Str.drop start text)]
                 end)).
      { destruct Hne as (x & Hin & Hx). destruct lst; [destruct Hin|].
        exists x. split; [|exact Hx]. apply in_or_app. now left. }
      apply join_nonempty in Hne'.
      destruct (Str.join _); [congruence|discriminate].
    + intros Heq. injection Heq as ->.
      revert Hloop. generalize ([] : list string), 0, false.
      induction (m :: r) as [|node nodes IH]; intros lst start ic; simpl;
        [discriminate|].
      destruct (parse_ re (Re.group0 node)) as [x|e] eqn:Hp; simpl.
      * apply IH.
      * intros [= ->]. revert Hp. unfold parse_, Re.search_str, group_of,
          Utils.convert_wildcard_to_regex.
        repeat (match goal with
                | |- context [match ?x with _ => _ end] => destruct x; simpl
                end; try discriminate).
  - intros Hp. apply parse_other__raises in Hp as [Hp|Hp]; discriminate.
Qed.

(** *** Splitting a lookup at the first [=] *)

Lemma split1_none c s : Str.count c s = 0 -> Str.split1 c s = [s].
Proof.
  induction s as [|a t IH]; simpl; [reflexivity|].
  destruct (Ascii.eqb a c); [discriminate|]. intros Hc.
  now rewrite (IH Hc).
Qed.

Lemma split1_first c l r :
  Str.count c l = 0 -> Str.split1 c (String.append l (String c r)) = [l; r].
Proof.
  induction l as [|a t IH]; simpl.
  - now rewrite Ascii.eqb_refl.
  - destruct (Ascii.eqb a c); [discriminate|]. intros Hc.
    now rewrite (IH Hc).
Qed.

Lemma process_no_equals re lookup :
  Str.count "=" lookup = 0 ->
  process re lookup
  = match parse re lookup with
    | Ok l => Ok (mkLookupCls lookup l None)
    | Raise e => Raise e
    end.
Proof.
  intros Hc. unfold process. rewrite (split1_none _ _ Hc).
  destruct (parse re lookup); reflexivity.
Qed.

Lemma process_first_equals re l r :
  Str.count "=" l = 0 ->
  process re (String.append l (String "=" r))
  = match parse re l with
    | Ok pl =>
        match parse re r with
        | Ok pr => Ok (mkLookupCls (String.append l (String "=" r)) pl (Some pr))
        | Raise e => Raise e
        end
    | Raise e => Raise e
    end.
Proof.
  intros Hc. unfold process. rewrite (split1_first _ _ _ Hc).
  destruct (parse re l); [|reflexivity]. simpl.
  destruct (parse re r); reflexivity.
Qed.

(** Counterexample to C8 as stated: the empty side has neither literal
    text nor a directive, and [parse] returns the pattern [^$] for it
    instead of failing. *)
Lemma empty_side_compiles :
  parse Re.PyRe "" = Ok (PatternStr "^$")
  /\ ~ exists t, parse Re.PyRe "" = Raise (LookupClsError t).
Proof.
  split; [vm_compute; reflexivity|].
  intros [t Ht]. vm_compute in Ht. discriminate.
Qed.

(** C8, amended.  No side makes [parse] raise [LookupClsError]: a side
    without directive, the empty one included, is compiled by
    [parse_other_], and with a directive the joined pattern is never
    empty.  Whatever [parse] raises on the left or the right side (a
    wildcard that does not convert, for one) is raised by [process]
    unchanged, and by [find] in turn. *)
Theorem pattern_compilation_failures_surface
    (re : Re.ReLib) (text : string) :
  (forall t, parse re text <> Raise (LookupClsError t))
  /\ (forall e r, Str.count "=" text = 0 -> parse re text = Raise e ->
        process re text = Raise e
        /\ process re (String.append text (String "=" r)) = Raise e)
  /\ (forall e l pl, Str.count "=" l = 0 -> parse re l = Ok pl ->
        parse re text = Raise e ->
        process re (String.append l (String "=" text)) = Raise e)
  /\ (forall e validate H self select_obj,
        process re text = Raise e ->
        Finder.find re validate H self text select_obj = Some (Raise e)).
Proof.
  split; [intros t; apply parse_never_LookupClsError|].
  split; [|split].
  - intros e r Hc He. rewrite (process_no_equals re text Hc).
    rewrite (process_first_equals re text r Hc), He. auto.
  - intros e l pl Hc Hl He.
    now rewrite (process_first_equals re l text Hc), Hl, He.
  - intros e validate H self select_obj He. unfold Finder.find.
    now rewrite He.
Qed.

Lemma wildcard_failure_surfaces :
  parse Re.PyRe "_wildcard([)" = Raise (RegexConversionError "[" "[")
  /\ process Re.PyRe "_wildcard([)=x" = Raise (RegexConversionError "[" "[")
  /\ process Re.PyRe "x=_wildcard([)" = Raise (RegexConversionError "[" "[").
Proof. repeat split; vm_compute; reflexivity. Qed.

End LookupFacts.

(** ** Facts about dictionaries and the projector *)

Module ProjectorFacts.
Import Tree Finder.

Lemma key_eqb_canon a b : PyDict.key_eqb a b = true <-> PyDict.canon a = PyDict.canon b.
Proof.
  destruct a as [|x|x|x], b as [|y|y|y]; simpl; split; intros E;
    try discriminate; try reflexivity.
  - destruct x, y; try discriminate; reflexivity.
  - destruct x, y; try discriminate; reflexivity.
  - apply Z.eqb_eq in E. now subst.
  - injection E as <-. apply Z.eqb_refl.
  - apply Z.eqb_eq in E. now subst.
  - injection E as ->. apply Z.eqb_refl.
  - apply Z.eqb_eq in E. now subst.
  - injection E as ->. apply Z.eqb_refl.
  - apply String.eqb_eq in E. now subst.
  - injection E as ->. apply String.eqb_refl.
Qed.

Lemma key_eqb_refl a : PyDict.key_eqb a a = true.
Proof. now apply key_eqb_canon. Qed.

Lemma key_eqb_congr a b c :
  PyDict.key_eqb a b = true -> PyDict.key_eqb c a = PyDict.key_eqb c b.
Proof.
  intros E. apply key_eqb_canon in E.
  destruct (PyDict.key_eqb c a) eqn:E1, (PyDict.key_eqb c b) eqn:E2;
    try reflexivity.
  - apply key_eqb_canon in E1. rewrite <- E2. symmetry.
    apply key_eqb_canon. congruence.
  - apply key_eqb_canon in E2. rewrite <- E1.
    apply key_eqb_canon. congruence.
Qed.

Lemma key_eqb_sym a b : PyDict.key_eqb a b = PyDict.key_eqb b a.
Proof.
  destruct (PyDict.key_eqb a b) eqn:E1, (PyDict.key_eqb b a) eqn:E2;
    try reflexivity.
  - apply key_eqb_canon in E1. rewrite <- E2. symmetry.
    apply key_eqb_canon. congruence.
  - apply key_eqb_canon in E2. rewrite <- E1. apply key_eqb_canon. congruence.
Qed.

Lemma get_congr a b d :
  PyDict.key_eqb a b = true -> PyDict.get a d = PyDict.get b d.
Proof.
  intros E. induction d as [|[k v] r IH]; simpl; [reflexivity|].
  rewrite (key_eqb_congr a b k E), IH. reflexivity.
Qed.

Lemma contains_congr a b d :
  PyDict.key_eqb a b = true -> PyDict.contains a d = PyDict.contains b d.
Proof. intros E. unfold PyDict.contains. now rewrite (get_congr a b d E). Qed.

Lemma get_app k d1 d2 :
  PyDict.get k (d1 ++ d2)
  = match PyDict.get k d1 with Some v => Some v | None => PyDict.get k d2 end.
Proof.
  induction d1 as [|[k' v] r IH]; simpl; [reflexivity|].
  destruct (PyDict.key_eqb k' k); [reflexivity|exact IH].
Qed.

Lemma set_app_absent k v d1 d2 :
  PyDict.contains k d1 = false ->
  PyDict.set k v (d1 ++ d2) = d1 ++ PyDict.set k v d2.
Proof.
  unfold PyDict.contains. induction d1 as [|[k' w] r IH]; simpl; [reflexivity|].
  destruct (PyDict.key_eqb k' k); [discriminate|]. intros E.
  now rewrite (IH E).
Qed.

Lemma set_absent k v d :
  PyDict.contains k d = false -> PyDict.set k v d = d ++ [(k, v)].
Proof.
  intros E. rewrite <- (app_nil_r d) at 1.
  now rewrite (set_app_absent k v d [] E).
Qed.

Lemma set_present_keys k v d :
  PyDict.contains k d = true -> PyDict.keys (PyDict.set k v d) = PyDict.keys d.
Proof.
  unfold PyDict.contains, PyDict.keys.
  induction d as [|[k' w] r IH]; simpl; [discriminate|].
  destruct (PyDict.key_eqb k' k); [reflexivity|]. intros E. simpl.
  now rewrite (IH E).
Qed.

Lemma contains_app k d1 d2 :
  PyDict.contains k (d1 ++ d2) = PyDict.contains k d1 || PyDict.contains k d2.
Proof.
  unfold PyDict.contains. rewrite get_app.
  destruct (PyDict.get k d1); reflexivity.
Qed.

Lemma uniq_snoc d k v :
  PyDict.uniq d -> PyDict.contains k d = false -> PyDict.uniq (d ++ [(k, v)]).
Proof.
  induction d as [|[k' w] r IH]; simpl.
  - intros _ _. split; [reflexivity|exact I].
  - intros [Hk Hr] Hc. unfold PyDict.contains in Hc. simpl in Hc.
    destruct (PyDict.key_eqb k' k) eqn:E; [discriminate|].
    split; [|now apply IH].
    rewrite contains_app, Hk. unfold PyDict.contains. simpl.
    rewrite key_eqb_sym, E. reflexivity.
Qed.

Lemma contains_set x k v d :
  PyDict.contains x (PyDict.set k v d)
  = PyDict.key_eqb k x || PyDict.contains x d.
Proof.
  unfold PyDict.contains. induction d as [|[k' w] r IH]; simpl.
  - destruct (PyDict.key_eqb k x); reflexivity.
  - destruct (PyDict.key_eqb k' k) eqn:E; simpl.
    + rewrite (key_eqb_sym k x), <- (key_eqb_congr k' k x E), (key_eqb_sym x k').
      destruct (PyDict.key_eqb k' x); reflexivity.
    + destruct (PyDict.key_eqb k' x); [now rewrite orb_true_r|exact IH].
Qed.

Lemma set_uniq k v d : PyDict.uniq d -> PyDict.uniq (PyDict.set k v d).
Proof.
  induction d as [|[k' w] r IH]; simpl.
  - intros _. split; [reflexivity|exact I].
  - intros [Hk Hr]. destruct (PyDict.key_eqb k' k) eqn:Ek; simpl.
    + split; assumption.
    + split; [|now apply IH].
      now rewrite contains_set, Hk, key_eqb_sym, Ek.
Qed.

Lemma fromkeys_from_uniq cols : forall d,
  PyDict.uniq d -> PyDict.uniq (fold_left (fun d k => PyDict.set k PNone d) cols d).
Proof.
  induction cols as [|k r IH]; intros d Hu; simpl; [exact Hu|].
  apply IH. now apply set_uniq.
Qed.

Lemma fromkeys_uniq cols : PyDict.uniq (PyDict.fromkeys cols).
Proof. apply fromkeys_from_uniq. exact I. Qed.

Lemma fromkeys_from_contains x cols : forall d,
  PyDict.contains x (fold_left (fun d k => PyDict.set k PNone d) cols d)
  = PyDict.contains x d || existsb (fun k => PyDict.key_eqb k x) cols.
Proof.
  induction cols as [|k r IH]; intros d; simpl; [now rewrite orb_false_r|].
  rewrite IH, contains_set.
  destruct (PyDict.key_eqb k x), (PyDict.contains x d); reflexivity.
Qed.

(** [dict.fromkeys(cols)] has exactly the keys of [cols]. *)
Lemma fromkeys_contains x cols :
  PyDict.contains x (PyDict.fromkeys cols)
  = existsb (fun k => PyDict.key_eqb k x) cols.
Proof. unfold PyDict.fromkeys. now rewrite fromkeys_from_contains. Qed.

Lemma absent_key_differs k d k' :
  PyDict.contains k d = false -> In k' (PyDict.keys d) ->
  PyDict.key_eqb k' k = false.
Proof.
  unfold PyDict.contains, PyDict.keys.
  induction d as [|[k2 w] r IH]; simpl; [intros _ []|].
  destruct (PyDict.key_eqb k2 k) eqn:E; [discriminate|].
  intros Hc [<-|Hin]; [exact E|now apply IH].
Qed.

Lemma key_contained k d : In k (PyDict.keys d) -> PyDict.contains k d = true.
Proof.
  unfold PyDict.contains, PyDict.keys.
  induction d as [|[k2 w] r IH]; simpl; [intros []|].
  intros [->|Hin]; [now rewrite key_eqb_refl|].
  destruct (PyDict.key_eqb k2 k); [reflexivity|now apply IH].
Qed.

Lemma contained_key k d :
  PyDict.contains k d = true ->
  exists k', In k' (PyDict.keys d) /\ PyDict.key_eqb k' k = true.
Proof.
  unfold PyDict.contains, PyDict.keys.
  induction d as [|[k2 w] r IH]; simpl; [discriminate|].
  destruct (PyDict.key_eqb k2 k) eqn:E.
  - intros _. exists k2. auto.
  - intros Hc. destruct (IH Hc) as (k' & Hin & Hk). exists k'. auto.
Qed.

(** The loop over the keys of [new_data] rebinds every key in place. *)
Lemma fill_columns_spec pdata : forall rest done b,
  PyDict.uniq rest ->
  (forall k, In k (PyDict.keys rest) -> PyDict.contains k done = false) ->
  fill_columns pdata (PyDict.keys rest) (done ++ rest, b)
  = (done ++ map (fun kv => (fst kv, PyDict.value_of pdata (fst kv))) rest,
     b && forallb (fun k => PyDict.contains k pdata) (PyDict.keys rest)).
Proof.
  induction rest as [|[k v] r IH]; intros done b Hu Hdone; simpl.
  - now rewrite andb_true_r.
  - destruct Hu as [Hk Hr].
    rewrite (set_app_absent k _ done _ (Hdone k (or_introl eq_refl))).
    simpl. rewrite key_eqb_refl. fold (PyDict.value_of pdata k).
    replace (done ++ (k, PyDict.value_of pdata k) :: r)
      with ((done ++ [(k, PyDict.value_of pdata k)]) ++ r)
      by (now rewrite <- app_assoc).
    rewrite IH.
    + rewrite <- app_assoc, andb_assoc. reflexivity.
    + exact Hr.
    + intros k' Hin. rewrite contains_app, (Hdone k' (or_intror Hin)).
      unfold PyDict.contains. simpl.
      rewrite key_eqb_sym, (absent_key_differs k r k' Hk Hin). reflexivity.
Qed.

Lemma forallb_fromkeys (f : pykey -> bool) cols :
  (forall a b, PyDict.key_eqb a b = true -> f a = f b) ->
  forallb f (PyDict.keys (PyDict.fromkeys cols)) = forallb f cols.
Proof.
  intros Hf. apply eq_iff_eq_true. rewrite !forallb_forall. split.
  - intros Hall k Hin.
    assert (Hc : PyDict.contains k (PyDict.fromkeys cols) = true).
    { rewrite fromkeys_contains. apply existsb_exists. exists k.
      split; [exact Hin|apply key_eqb_refl]. }
    destruct (contained_key _ _ Hc) as (k' & Hin' & Hk).
    rewrite <- (Hf k' k Hk). now apply Hall.
  - intros Hall k' Hin'. apply key_contained in Hin'.
    rewrite fromkeys_contains in Hin'.
    apply existsb_exists in Hin' as (k & Hin & Hk).
    rewrite <- (Hf k k' Hk). now apply Hall.
Qed.

Lemma select_columns_dict (H : heap) cols item items :
  parent_data H item = Ok (PDict items) ->
  select_columns H cols item = Ok (column_record cols items).
Proof.
  intros Hp. unfold select_columns. rewrite Hp. simpl.
  pose proof (fill_columns_spec items (PyDict.fromkeys cols) [] true
                (fromkeys_uniq cols) (fun _ _ => eq_refl)) as Hfill.
  simpl in Hfill. rewrite Hfill. simpl. unfold column_record.
  rewrite forallb_fromkeys
    by (intros a b E; apply (contains_congr a b items E)).
  destruct (forallb _ cols); [|reflexivity].
  unfold PyDict.keys. rewrite map_map. reflexivity.
Qed.

Lemma map_res_ok {A B} (f : A -> res B) (g : A -> B) l :
  (forall x, In x l -> f x = Ok (g x)) -> map_res f l = Ok (map g l).
Proof.
  induction l as [|a r IH]; intros Hall; simpl; [reflexivity|].
  rewrite (Hall a (or_introl eq_refl)). simpl.
  rewrite IH by (intros x Hx; apply Hall; now right). reflexivity.
Qed.

(** C7. In column-select mode (neither zero-select nor all-select), for
    the surviving matches [lst] (those whose parent record satisfies the
    filter predicate when there is one), the projector emits, match by
    match and in order, one new record holding exactly the named columns,
    each bound to the parent record's value for it, when the parent record
    has every requested column, and nothing for a match whose parent lacks
    one.  The keys of the emitted record are those of [columns]. *)
Theorem column_select_drops_partial_records
    (H : heap) (records : list nat) (select_obj : SelectParser)
    (lst : list nat) :
  is_zero_select select_obj = false ->
  is_all_select select_obj = false ->
  match predicate select_obj with
  | Some pred => filter_records H pred records
  | None => Ok records
  end = Ok lst ->
  (forall r, In r lst -> exists items, parent_data H r = Ok (PDict items)) ->
  filter_result H records select_obj
  = Ok (flat_map
          (fun r => column_record (columns select_obj) (parent_record H r)) lst)
  /\ (forall pdata,
        column_record (columns select_obj) pdata = []
        <-> exists k, In k (columns select_obj)
                      /\ PyDict.contains k pdata = false)
  /\ (forall x,
        PyDict.contains x (PyDict.fromkeys (columns select_obj))
        = existsb (fun k => PyDict.key_eqb k x) (columns select_obj)).
Proof.
  intros Hzero Hall Hlst Hdict. split; [|split].
  - unfold filter_result. rewrite Hlst, Hzero, Hall. simpl.
    rewrite (map_res_ok _
               (fun r => column_record (columns select_obj) (parent_record H r))).
    + simpl. now rewrite flat_map_concat_map.
    + intros r Hr. destruct (Hdict r Hr) as [items Hp].
      unfold parent_record. rewrite Hp.
      now apply select_columns_dict.
  - intros pdata. unfold column_record.
    destruct (forallb _ (columns select_obj)) eqn:E.
    + split; [discriminate|]. intros (k & Hin & Hk).
      rewrite forallb_forall in E. rewrite (E k Hin) in Hk. discriminate.
    + split; [|reflexivity]. intros _.
      assert (Hex : existsb (fun k => negb (PyDict.contains k pdata))
                            (columns select_obj) = true).
      { clear -E. induction (columns select_obj) as [|k r IH]; simpl in *;
          [discriminate|].
        destruct (PyDict.contains k pdata); simpl in *; [now apply IH|reflexivity]. }
      apply existsb_exists in Hex as (k & Hin & Hk). exists k.
      split; [exact Hin|]. now destruct (PyDict.contains k pdata).
  - intros x. apply fromkeys_contains.
Qed.

End ProjectorFacts.

(** ** Facts about the wildcard converter *)

Module UtilsFacts.
Import Utils.

Lemma prefix_cons a o b t :
  String.prefix (String a o) (String b t)
  = if Ascii.eqb a b then String.prefix o t else false.
Proof.
  simpl. destruct (ascii_dec a b) as [->|Hne].
  - now rewrite Ascii.eqb_refl.
  - destruct (Ascii.eqb a b) eqn:E; [|reflexivity].
    apply Ascii.eqb_eq in E. contradiction.
Qed.

Lemma prefix_nil t : String.prefix EmptyString t = true.
Proof. destruct t; reflexivity. Qed.

Lemma prefix_app_self o rest : String.prefix o (String.append o rest) = true.
Proof.
  induction o as [|c o IH]; [apply prefix_nil|].
  cbn [String.append]. now rewrite prefix_cons, Ascii.eqb_refl.
Qed.

Lemma replace_from_skip old new o rest :
  Str.replace_from old new (String.length o) (String.append o rest)
  = Str.replace_from old new 0 rest.
Proof. induction o as [|c o IH]; [reflexivity|exact IH]. Qed.

Lemma append_assoc a b c :
  String.append (String.append a b) c = String.append a (String.append b c).
Proof. induction a as [|x a IH]; simpl; [reflexivity|now rewrite IH]. Qed.

(** An occurrence at the head is replaced. *)
Lemma replace_head c o new rest :
  Str.replace (String c o) new (String.append (String c o) rest)
  = String.append new (Str.replace (String c o) new rest).
Proof.
  unfold Str.replace. cbn [String.append Str.replace_from].
  change (String c (String.append o rest))
    with (String.append (String c o) rest).
  rewrite prefix_app_self. cbn [String.length].
  rewrite Nat.sub_succ, Nat.sub_0_r. now rewrite replace_from_skip.
Qed.

(** A stretch in which no occurrence starts is copied. *)
Lemma replace_clean old new w rest :
  (forall i, i < String.length w ->
             String.prefix old (Str.drop i (String.append w rest)) = false) ->
  Str.replace old new (String.append w rest)
  = String.append w (Str.replace old new rest).
Proof.
  unfold Str.replace. induction w as [|c w IH]; intros Hno; [reflexivity|].
  cbn [String.append Str.replace_from].
  pose proof (Hno 0 ltac:(simpl; lia)) as H0. cbn [String.append Str.drop] in H0.
  rewrite H0. f_equal. apply IH. intros i Hi.
  apply (Hno (S i)). simpl. lia.
Qed.

Lemma flat_map_chr_app f a b :
  flat_map_chr f (String.append a b)
  = String.append (flat_map_chr f a) (flat_map_chr f b).
Proof.
  induction a as [|c a IH]; simpl; [reflexivity|].
  now rewrite IH, append_assoc.
Qed.

Lemma flat_map_chr_compose f g s :
  flat_map_chr g (flat_map_chr f s)
  = flat_map_chr (fun c => flat_map_chr g (f c)) s.
Proof.
  induction s as [|c s IH]; simpl; [reflexivity|].
  now rewrite flat_map_chr_app, IH.
Qed.

Lemma flat_map_chr_ext f g s :
  (forall c, f c = g c) -> flat_map_chr f s = flat_map_chr g s.
Proof.
  intros Hfg. induction s as [|c s IH]; simpl; [reflexivity|].
  now rewrite Hfg, IH.
Qed.

(** Replacing a single character is a character-wise map. *)
Lemma replace_chr c new s :
  Str.replace (String c EmptyString) new s
  = flat_map_chr (fun a => if Ascii.eqb a c then new else String a EmptyString) s.
Proof.
  unfold Str.replace. induction s as [|a t IH]; [reflexivity|].
  cbn [Str.replace_from flat_map_chr].
  rewrite prefix_cons, (Ascii.eqb_sym c a).
  destruct (Ascii.eqb a c).
  - rewrite prefix_nil. cbn [String.length Nat.sub]. now rewrite IH.
  - now rewrite IH.
Qed.

Lemma placeholders_in pattern :
  Str.replace "*" P2 (Str.replace "?" P1
    (Str.replace "+" "\+" (Str.replace "." "\." pattern)))
  = flat_map_chr blk4 pattern.
Proof.
  rewrite !replace_chr, !flat_map_chr_compose.
  apply flat_map_chr_ext. intros c. unfold blk4.
  destruct (Ascii.eqb c ".") eqn:E1.
  { apply Ascii.eqb_eq in E1. subst c. reflexivity. }
  destruct (Ascii.eqb c "+") eqn:E2.
  { apply Ascii.eqb_eq in E2. subst c. reflexivity. }
  destruct (Ascii.eqb c "?") eqn:E3.
  { apply Ascii.eqb_eq in E3. subst c. reflexivity. }
  destruct (Ascii.eqb c "*") eqn:E4.
  { apply Ascii.eqb_eq in E4. subst c. reflexivity. }
  simpl. rewrite E2. simpl. rewrite E3. simpl. rewrite E4. reflexivity.
Qed.

Lemma blk4_clear : clear_of_word blk4.
Proof.
  intros a. unfold blk4.
  destruct (Ascii.eqb a "."); [right; eexists _, _; split; reflexivity|].
  destruct (Ascii.eqb a "+"); [right; eexists _, _; split; reflexivity|].
  destruct (Ascii.eqb a "?"); [right; eexists _, _; split; reflexivity|].
  destruct (Ascii.eqb a "*"); [right; eexists _, _; split; reflexivity|].
  now left.
Qed.

Lemma blk5_clear : clear_of_word blk5.
Proof.
  intros a. unfold blk5.
  destruct (Ascii.eqb a "."); [right; eexists _, _; split; reflexivity|].
  destruct (Ascii.eqb a "+"); [right; eexists _, _; split; reflexivity|].
  destruct (Ascii.eqb a "?"); [right; eexists _, _; split; reflexivity|].
  destruct (Ascii.eqb a "*"); [right; eexists _, _; split; reflexivity|].
  now left.
Qed.

Lemma chr_in_cons c a w :
  Str.chr_in c (String a w) = Ascii.eqb c a || Str.chr_in c w.
Proof. reflexivity. Qed.

(** Letters of [word] read through the blocks are letters of the
    pattern. *)
Lemma prefix_through_blocks blk (Hblk : clear_of_word blk) x : forall w t,
  (forall c, Str.chr_in c w = true -> Str.chr_in c word = true) ->
  String.prefix (String.append w x) (flat_map_chr blk t) = true ->
  String.prefix w t = true.
Proof.
  induction w as [|c w IH]; intros t Hsub Hpre; [apply prefix_nil|].
  destruct t as [|a t]; [discriminate Hpre|].
  cbn [String.append flat_map_chr] in Hpre.
  assert (Hc : Str.chr_in c word = true).
  { apply Hsub. rewrite chr_in_cons, Ascii.eqb_refl. reflexivity. }
  assert (Hsub' : forall c', Str.chr_in c' w = true -> Str.chr_in c' word = true).
  { intros c' Hc'. apply Hsub. rewrite chr_in_cons, Hc'. apply orb_true_r. }
  rewrite prefix_cons.
  destruct (Hblk a) as [Ha|(h & tl & Ha & Hh)]; rewrite Ha in Hpre;
    cbn [String.append] in Hpre; rewrite prefix_cons in Hpre.
  - destruct (Ascii.eqb c a); [|discriminate]. now apply IH.
  - destruct (Ascii.eqb c h) eqn:E; [|discriminate].
    apply Ascii.eqb_eq in E. subst h. congruence.
Qed.

Lemma no_word_after blk (Hblk : clear_of_word blk) x t :
  String.prefix word t = false ->
  String.prefix (String.append word x) (flat_map_chr blk t) = false.
Proof.
  intros Hno.
  destruct (String.prefix (String.append word x) (flat_map_chr blk t)) eqn:E;
    [|reflexivity].
  apply (prefix_through_blocks blk Hblk x word t) in E; [congruence|auto].
Qed.

Lemma contains_cons sub c t :
  Str.contains sub (String c t) = false ->
  String.prefix sub (String c t) = false /\ Str.contains sub t = false.
Proof. simpl. intros E. now apply orb_false_elim in E. Qed.

Lemma contains_prefix sub t :
  Str.contains sub t = false -> String.prefix sub t = false.
Proof. destruct t; simpl; intros E; now apply orb_false_elim in E. Qed.

(** Line 73 turns every [?] placeholder, and nothing else, into [.]. *)
Lemma placeholder_dot pattern :
  Str.contains word pattern = false ->
  Str.replace P1 "." (flat_map_chr blk4 pattern) = flat_map_chr blk5 pattern.
Proof.
  induction pattern as [|c t IH]; intros Hno; [reflexivity|].
  apply contains_cons in Hno as [_ Hno].
  pose proof (contains_prefix _ _ Hno) as Hpre.
  specialize (IH Hno). cbn [flat_map_chr]. unfold blk4 at 1, blk5 at 1.
  assert (Hafter : forall (x : string),
            String.prefix (String.append word x) (flat_map_chr blk4 t) = false)
    by (intros x; now apply no_word_after; [apply blk4_clear|]).
  destruct (Ascii.eqb c ".");
    [|destruct (Ascii.eqb c "+");
      [|destruct (Ascii.eqb c "?");
        [|destruct (Ascii.eqb c "*")]]].
  - rewrite replace_clean, IH; [reflexivity|].
    intros i Hi. do 2 (destruct i as [|i]; [reflexivity|]). simpl in Hi. lia.
  - rewrite replace_clean, IH; [reflexivity|].
    intros i Hi. do 2 (destruct i as [|i]; [reflexivity|]). simpl in Hi. lia.
  - unfold P1. rewrite replace_head. fold P1. now rewrite IH.
  - rewrite replace_clean, IH; [reflexivity|].
    intros i Hi.
    do 21 (destruct i as [|i]; [reflexivity|]).
    destruct i as [|i]; [|simpl in Hi; lia].
    cbn [P2 String.append Str.drop]. unfold P1. rewrite prefix_cons.
    cbn [Ascii.eqb Bool.eqb]. apply (Hafter "_").
  - rewrite replace_clean, IH; [reflexivity|].
    intros i Hi. destruct i as [|i]; [|simpl in Hi; lia].
    cbn [String.append Str.drop]. unfold P1. rewrite prefix_cons.
    destruct (Ascii.eqb "_" c); [apply (Hafter "_")|reflexivity].
Qed.

(** Line 74 turns every [*] placeholder, and nothing else, into [.*]. *)
Lemma placeholder_dot_asterisk pattern :
  Str.contains word pattern = false ->
  Str.replace P2 ".*" (flat_map_chr blk5 pattern)
  = flat_map_chr translate_chr pattern.
Proof.
  induction pattern as [|c t IH]; intros Hno; [reflexivity|].
  apply contains_cons in Hno as [_ Hno].
  pose proof (contains_prefix _ _ Hno) as Hpre.
  specialize (IH Hno). cbn [flat_map_chr]. unfold blk5 at 1, translate_chr at 1.
  assert (Hafter : forall (x : string),
            String.prefix (String.append word x) (flat_map_chr blk5 t) = false)
    by (intros x; now apply no_word_after; [apply blk5_clear|]).
  destruct (Ascii.eqb c ".");
    [|destruct (Ascii.eqb c "+");
      [|destruct (Ascii.eqb c "?");
        [|destruct (Ascii.eqb c "*")]]].
  - rewrite replace_clean, IH; [reflexivity|].
    intros i Hi. do 2 (destruct i as [|i]; [reflexivity|]). simpl in Hi. lia.
  - rewrite replace_clean, IH; [reflexivity|].
    intros i Hi. do 2 (destruct i as [|i]; [reflexivity|]). simpl in Hi. lia.
  - rewrite replace_clean, IH; [reflexivity|].
    intros i Hi. destruct i as [|i]; [reflexivity|]. simpl in Hi. lia.
  - unfold P2. rewrite replace_head. fold P2. now rewrite IH.
  - rewrite replace_clean, IH; [reflexivity|].
    intros i Hi. destruct i as [|i]; [|simpl in Hi; lia].
    cbn [String.append Str.drop]. unfold P2. rewrite prefix_cons.
    destruct (Ascii.eqb "_" c); [apply (Hafter "asterisk_")|reflexivity].
Qed.

(** The placeholder detour computes the character-wise translation for
    every pattern in which the letters of the placeholders do not occur. *)
Lemma wildcard_fragment_translation pattern :
  Str.contains word pattern = false ->
  wildcard_fragment pattern false = wildcard_translation pattern.
Proof.
  intros Hno. unfold wildcard_fragment, wildcard_translation.
  fold P1 P2. rewrite placeholders_in.
  now rewrite placeholder_dot, placeholder_dot_asterisk.
Qed.

(** The converter returns the fragment when [re.compile] accepts it
    and raises [RegexConversionError] when it does not.  For every pattern
    in which the placeholder word [replacetodot] does not occur, the
    fragment is the character-wise translation: [.] and [+] escaped, [?]
    to [.], [*] to [.*] (the expansions are not escaped again), then [[!]
    to [[^]; with [closed] it is wrapped in [^] and [$].  The conversion
    of [a?c*] is [a.c.*], which matches [abc] and [abcxyz] and does not
    match [ac]. *)
Theorem wildcard_conversion (re : Re.ReLib) (pattern : string) (closed : bool) :
  (Re.re_compile re (wildcard_fragment pattern closed) = None ->
   convert_wildcard_to_regex re pattern closed
   = Raise (RegexConversionError pattern (wildcard_fragment pattern closed)))
  /\ (Re.re_compile re (wildcard_fragment pattern closed) <> None ->
      convert_wildcard_to_regex re pattern closed
      = Ok (wildcard_fragment pattern closed))
  /\ (Str.contains "replacetodot" pattern = false ->
      wildcard_fragment pattern closed
      = if closed
        then String.append "^" (String.append (wildcard_translation pattern) "$")
        else wildcard_translation pattern)
  /\ (translate_chr "?" = "." /\ translate_chr "*" = ".*"
      /\ translate_chr "." = "\." /\ translate_chr "+" = "\+"
      /\ wildcard_translation "[!a-c]?.+*" = "[^a-c].\.\+.*")
  /\ (convert_wildcard_to_regex Re.PyRe "a?c*" false = Ok "a.c.*"
      /\ Lookup.search_side Re.PyRe (Lookup.PatternStr "a.c.*") "abc" = Ok true
      /\ Lookup.search_side Re.PyRe (Lookup.PatternStr "a.c.*") "abcxyz" = Ok true
      /\ Lookup.search_side Re.PyRe (Lookup.PatternStr "a.c.*") "ac" = Ok false
      /\ convert_wildcard_to_regex Re.PyRe "a[" false
         = Raise (RegexConversionError "a[" "a[")).
Proof.
  split; [|split; [|split; [|split]]].
  - intros Hc. unfold convert_wildcard_to_regex. now rewrite Hc.
  - intros Hc. unfold convert_wildcard_to_regex.
    destruct (Re.re_compile re _); [reflexivity|congruence].
  - intros Hno. rewrite <- (wildcard_fragment_translation pattern Hno).
    destruct closed; reflexivity.
  - repeat split; vm_compute; reflexivity.
  - repeat split; vm_compute; reflexivity.
Qed.

(** C4. The converter writes [?] as the placeholder [_replacetodot_] and
    [*] as [_replacetodotasterisk_] and then replaces the placeholders by
    [.] and [.*]; a pattern that spells a placeholder, or completes one
    with the text around a wildcard, is rewritten in the wrong place.
    For [_replacetodot?] the fragment is [.replacetodot_] and not
    [_replacetodot.]: whatever [re.compile] accepts, the converter does
    not return the translation in which [?] stands for one character.
    The pattern that it returns rejects [_replacetodotx], which the
    wildcard matches, and accepts [xreplacetodot_], which the wildcard
    does not match.  The pattern [_replacetodot_], which has no wildcard
    at all, becomes [.] and no longer matches itself, and
    [a_replacetodotasterisk_b] becomes [a.*b]. *)
Theorem wildcard_placeholder_collision :
  wildcard_fragment "_replacetodot?" false = ".replacetodot_"
  /\ wildcard_translation "_replacetodot?" = "_replacetodot."
  /\ (forall (re : Re.ReLib) (closed : bool),
        convert_wildcard_to_regex re "_replacetodot?" closed
        <> Ok (if closed then "^_replacetodot.$" else "_replacetodot."))
  /\ convert_wildcard_to_regex Re.PyRe "_replacetodot?" true
     = Ok "^.replacetodot_$"
  /\ Lookup.search_side Re.PyRe (Lookup.PatternStr "^.replacetodot_$")
       "_replacetodotx" = Ok false
  /\ Lookup.search_side Re.PyRe (Lookup.PatternStr "^.replacetodot_$")
       "xreplacetodot_" = Ok true
  /\ Lookup.search_side Re.PyRe (Lookup.PatternStr "^_replacetodot.$")
       "_replacetodotx" = Ok true
  /\ Lookup.search_side Re.PyRe (Lookup.PatternStr "^_replacetodot.$")
       "xreplacetodot_" = Ok false
  /\ convert_wildcard_to_regex Re.PyRe "_replacetodot_" true = Ok "^.$"
  /\ Lookup.search_side Re.PyRe (Lookup.PatternStr "^.$") "_replacetodot_"
     = Ok false
  /\ wildcard_fragment "a_replacetodotasterisk_b" false = "a.*b".
Proof.
  split; [vm_compute; reflexivity|]. split; [vm_compute; reflexivity|].
  split.
  - intros re closed. unfold convert_wildcard_to_regex.
    destruct (Re.re_compile re _); [|discriminate].
    destruct closed; vm_compute; discriminate.
  - repeat split; vm_compute; reflexivity.
Qed.

End UtilsFacts.

(** ** The lookup and the finder together *)

Module QueryFacts.
Import Tree TreeFacts Lookup Finder FinderFacts LookupFacts Samples.

Lemma sample_lookup_processed : process Re.PyRe "a" = Ok sample_lookup.
Proof. vm_compute. reflexivity. Qed.

Lemma sample_left_total k :
  exists b, is_left_matched Re.PyRe sample_lookup k = Ok b.
Proof.
  destruct k as [| | |s]; eexists; reflexivity.
Defined.

Lemma sample_right_total v :
  exists b, is_right_matched Re.PyRe no_validators sample_lookup v = Ok b.
Proof. eexists. reflexivity. Defined.

Lemma sample_find_ :
  Finder.find_ Re.PyRe no_validators (snd (Element_new sample_data)) sample_lookup
               (length (snd (Element_new sample_data))) 0 (mkFstate [] [])
  = Some (mkFstate [1; 2; 6] [1; 2; 3; 4; 6], Returned).
Proof. vm_compute. reflexivity. Qed.

(** Counterexample to C6 as stated: in the tree over [["a"]] the element
    has the index label [__index__0], the lookup [__index__0] has no [=]
    and its compiled left pattern matches that label, yet [find_] returns
    no node. *)
Lemma sequence_element_matches_but_is_not_found :
  exists lk o,
    process Re.PyRe "__index__0" = Ok lk
    /\ right lk = None
    /\ snd (Element_new (PList [PStr "a"])) !! 1 = Some o
    /\ is_left_matched Re.PyRe lk (index o) = Ok true
    /\ Finder.find_ Re.PyRe no_validators (snd (Element_new (PList [PStr "a"])))
                    lk 2 0 (mkFstate [] [])
       = Some (mkFstate [] [], Returned).
Proof. eexists _, _. vm_compute. repeat split. Qed.

Lemma holds_Ok r : holds r = true <-> r = Ok true.
Proof.
  destruct r as [[|]|e]; simpl; split; intros E; try discriminate; reflexivity.
Qed.

(** C6, amended.  Only the first [=] separates the sides.  For a lookup
    without [=] whose left matcher does not raise, no right specification
    is built, [is_right_matched] is true of every value, and [find_]
    returns exactly the children of dict nodes whose key matches the
    compiled left pattern, whatever their value; elements of sequences and
    the root are not returned. *)
Theorem lookup_without_equals_finds_matching_keys
    (re : Re.ReLib) (validate : pfunc -> pyval -> res bool)
    (d : pyval) (lookup : string) (lk : LookupCls) :
  Str.count "=" lookup = 0 ->
  process re lookup = Ok lk ->
  (forall k, exists b, is_left_matched re lk k = Ok b) ->
  right lk = None
  /\ parse re lookup = Ok (left lk)
  /\ (forall v, is_right_matched re validate lk v = Ok true)
  /\ (exists st out,
        Finder.find_ re validate (snd (Element_new d)) lk
                     (length (snd (Element_new d))) (fst (Element_new d))
                     (mkFstate [] [])
        = Some (st, out)
        /\ forall c,
             In c (result st)
             <-> exists o p n,
                   snd (Element_new d) !! c = Some o
                   /\ parent o = Some p
                   /\ snd (Element_new d) !! p = Some n
                   /\ type_ n = "dict"
                   /\ is_left_matched re lk (index o) = Ok true)
  /\ (forall l r pl pr,
        Str.count "=" l = 0 -> parse re l = Ok pl -> parse re r = Ok pr ->
        process re (String.append l (String "=" r))
        = Ok (mkLookupCls (String.append l (String "=" r)) pl (Some pr))).
Proof.
  intros Hc Hproc Hleft.
  rewrite (process_no_equals re lookup Hc) in Hproc.
  destruct (parse re lookup) as [l|e] eqn:Hparse; [|discriminate].
  injection Hproc as <-. cbn [right left].
  split; [reflexivity|]. split; [reflexivity|].
  split; [intros v; reflexivity|]. split.
  - remember (snd (Element_new d)) as H eqn:HH. symmetry in HH.
    destruct (find__total re validate (mkLookupCls lookup l None) d H HH Hleft)
      as (st & out & Hrun & HR); [intros v; eexists; reflexivity|].
    destruct (built_root d H HH) as (-> & _ & _).
    exists st, out. split; [exact Hrun|]. intros c. rewrite HR, filter_In.
    unfold Finder.matches, Finder.accepts, is_dict. cbn [is_right right].
    split.
    + intros [_ Hm].
      destruct (H !! c) as [o|] eqn:Ho; [|discriminate].
      destruct (parent o) as [p|] eqn:Hp; [|discriminate].
      destruct (H !! p) as [n|] eqn:Hn; [|discriminate].
      apply andb_prop in Hm as [Hd Ha]. apply String.eqb_eq in Hd.
      cbn [negb orb] in Ha. rewrite andb_true_r in Ha.
      apply holds_Ok in Ha. exists o, p, n. auto.
    + intros (o & p & n & Ho & Hp & Hn & Hty & Hm). split.
      * apply in_seq. apply lookup_lt_Some in Ho. lia.
      * rewrite Ho, Hp, Hn, Hty, Hm. reflexivity.
  - intros l0 r pl pr Hl Hpl Hpr.
    now rewrite (process_first_equals re l0 r Hl), Hpl, Hpr.
Qed.

Lemma find__collects_every_match_in_preorder_witness :
  exists st out,
    Finder.find_ Re.PyRe no_validators (snd (Element_new sample_data))
                 sample_lookup (length (snd (Element_new sample_data)))
                 (fst (Element_new sample_data)) (mkFstate [] [])
    = Some (st, out)
    /\ result st
       = List.filter
           (Finder.matches Re.PyRe no_validators (snd (Element_new sample_data))
                           sample_lookup)
           (seq 0 (length (snd (Element_new sample_data))))
    /\ (forall c,
          Finder.matches Re.PyRe no_validators (snd (Element_new sample_data))
                         sample_lookup c = true ->
          In c (result st))
    /\ (forall a c, In a (result st) -> In c (result st) ->
          ancestor (snd (Element_new sample_data)) a c ->
          precedes (result st) a c)
    /\ (forall node n cs i j a b,
          snd (Element_new sample_data) !! node = Some n ->
          children n = Some cs ->
          cs !! i = Some a -> cs !! j = Some b -> i < j ->
          In a (result st) -> In b (result st) -> precedes (result st) a b).
Proof.
  apply (find__collects_every_match_in_preorder
           Re.PyRe no_validators sample_lookup sample_data).
  - intros k. destruct k; eexists; reflexivity.
  - intros v. eexists. reflexivity.
Defined.

Lemma lookup_without_equals_finds_matching_keys_witness :
  right sample_lookup = None
  /\ parse Re.PyRe "a" = Ok (left sample_lookup)
  /\ (forall v, is_right_matched Re.PyRe no_validators sample_lookup v = Ok true)
  /\ (exists st out,
        Finder.find_ Re.PyRe no_validators (snd (Element_new sample_data))
                     sample_lookup (length (snd (Element_new sample_data)))
                     (fst (Element_new sample_data)) (mkFstate [] [])
        = Some (st, out)
        /\ forall c,
             In c (result st)
             <-> exists o p n,
                   snd (Element_new sample_data) !! c = Some o
                   /\ parent o = Some p
                   /\ snd (Element_new sample_data) !! p = Some n
                   /\ type_ n = "dict"
                   /\ is_left_matched Re.PyRe sample_lookup (index o) = Ok true)
  /\ (forall l r pl pr,
        Str.count "=" l = 0 -> parse Re.PyRe l = Ok pl ->
        parse Re.PyRe r = Ok pr ->
        process Re.PyRe (String.append l (String "=" r))
        = Ok (mkLookupCls (String.append l (String "=" r)) pl (Some pr))).
Proof.
  apply (lookup_without_equals_finds_matching_keys
           Re.PyRe no_validators sample_data "a" sample_lookup).
  - reflexivity.
  - vm_compute. reflexivity.
  - intros k. destruct k; eexists; reflexivity.
Defined.

Lemma column_select_drops_partial_records_witness :
  filter_result (snd (Element_new sample_data)) [2; 6] sample_select
  = Ok (flat_map
          (fun r => column_record (columns sample_select)
                      (parent_record (snd (Element_new sample_data)) r))
          [2; 6])
  /\ (forall pdata,
        column_record (columns sample_select) pdata = []
        <-> exists k, In k (columns sample_select)
                      /\ PyDict.contains k pdata = false)
  /\ (forall x,
        PyDict.contains x (PyDict.fromkeys (columns sample_select))
        = existsb (fun k => PyDict.key_eqb k x) (columns sample_select)).
Proof.
  apply (ProjectorFacts.column_select_drops_partial_records
           (snd (Element_new sample_data)) [2; 6] sample_select [2; 6]).
  - reflexivity.
  - reflexivity.
  - reflexivity.
  - intros r [<-|[<-|[]]]; eexists; reflexivity.
Defined.

Lemma sample_projection :
  filter_result (snd (Element_new sample_data)) [2; 6] sample_select
  = Ok [PDict [(KStr "a", PInt 1); (KStr "b", PInt 2)]].
Proof. vm_compute. reflexivity. Qed.

End QueryFacts.

(** ** Facts about [List] and the accessors of [Element] *)

Module AccessFacts.
Import Tree Finder Access TreeFacts.

(** Every reference of the store built over [d] roots a constructed
    subtree. *)
Lemma built_subtree d (H : heap) i o :
  snd (Element_new d) = H -> H !! i = Some o ->
  exists d' idx' par', Subtree H d' idx' par' i /\ o = node_of d' idx' par' i.
Proof.
  intros HH Hlk.
  destruct (Element_new_nodes d H i o HH Hlk)
    as [[-> ->]|[_ (d' & idx' & p & _ & _ & _ & Hs & _)]].
  - destruct (Element_new_ok d) as (H' & Hrun & _ & Hsub).
    rewrite Hrun in HH. simpl in HH. subst H'. eauto.
  - pose proof (Subtree_lookup _ _ _ _ _ Hs) as Hn.
    rewrite Hlk in Hn. injection Hn as ->. eauto.
Qed.

(** The [j]-th child of a constructed run of children. *)
Lemma Subtrees_child (H : heap) p kvs c :
  Subtrees H p kvs c ->
  forall j k v, kvs !! j = Some (k, v) ->
    exists cj, child_ids kvs c !! j = Some cj
               /\ H !! cj = Some (node_of v k (Some p) cj).
Proof.
  induction 1 as [|p k v r c Hv Hr IH]; intros j k' v' Hj.
  - destruct j; discriminate Hj.
  - destruct j as [|j]; simpl in Hj.
    + injection Hj as <- <-. exists c. split; [reflexivity|].
      now apply Subtree_lookup.
    + destruct (IH j k' v' Hj) as (cj & Hcj & Hn).
      exists cj. split; [exact Hcj|exact Hn].
Qed.


Lemma enumerate_from_lookup l : forall i j v,
  l !! j = Some v -> enumerate_from i l !! j = Some (index_label (i + j), v).
Proof.
  induction l as [|x l IH]; intros i j v Hj; [destruct j; discriminate Hj|].
  destruct j as [|j]; simpl in *.
  - injection Hj as ->. now rewrite Nat.add_0_r.
  - rewrite (IH (S i) j v Hj). now replace (S i + j) with (i + S j) by lia.
Qed.

Lemma enumerate_from_length l : forall i, length (enumerate_from i l) = length l.
Proof. induction l as [|x l IH]; intros i; simpl; [reflexivity|now rewrite IH]. Qed.

(** The child built for the [j]-th item of the data of node [i]. *)
Lemma built_child d (H : heap) i o j k v :
  snd (Element_new d) = H -> H !! i = Some o ->
  children_of (data o) !! j = Some (k, v) ->
  exists cs c,
    children o = Some cs /\ length cs = length (children_of (data o))
    /\ cs !! j = Some c
    /\ H !! c = Some (node_of v k (Some i) c).
Proof.
  intros HH Hlk Hj.
  destruct (built_subtree d H i o HH Hlk) as (d' & idx' & par' & Hs & ->).
  inversion Hs as [? ? ? ? _ Hsubs]; subst.
  simpl in Hj.
  destruct (Subtrees_child _ _ _ _ Hsubs j k v Hj) as (c & Hc & Hn).
  exists (child_ids (children_of d') (S i)), c.
  split; [|split; [apply child_ids_length|split; [exact Hc|exact Hn]]].
  simpl. apply list_or_None_In with (x := c).
  now apply list_elem_of_In, list_elem_of_lookup_2 with (i := j).
Qed.

(** X1. In the tree built over any data, a node's children mirror the
    items of its data, in order: the child built for the item [(k, v)] of
    a dict carries index [k] and data [v]; the child built for the
    element [v] at position [j] of a list, tuple or set carries index
    ['__index__j'] and data [v]; each child names the node as its parent,
    and there are as many children as items. *)
Theorem children_mirror_data (d : pyval) (i : nat) (o : Element) :
  snd (Element_new d) !! i = Some o ->
  (match children o with
   | Some cs => length cs = length (children_of (data o))
   | None => children_of (data o) = []
   end)
  /\ (forall items j k v,
        data o = PDict items -> items !! j = Some (k, v) ->
        exists cs c child,
          children o = Some cs /\ length cs = length items /\ cs !! j = Some c
          /\ snd (Element_new d) !! c = Some child
          /\ index child = k /\ data child = v /\ parent child = Some i)
  /\ (forall l j v,
        data o = PList l \/ data o = PTuple l \/ data o = PSet l ->
        l !! j = Some v ->
        exists cs c child,
          children o = Some cs /\ length cs = length l /\ cs !! j = Some c
          /\ snd (Element_new d) !! c = Some child
          /\ index child = KStr (String.append "__index__" (string_of_nat j))
          /\ data child = v /\ parent child = Some i).
Proof.
  intros Hlk. split; [|split].
  - destruct (built_subtree d _ i o eq_refl Hlk) as (d' & idx' & par' & _ & ->).
    simpl. destruct (children_of d') eqn:Hk; simpl; [reflexivity|].
    f_equal. apply child_ids_length.
  - intros items j k v Hd Hj.
    destruct (built_child d _ i o j k v eq_refl Hlk) as (cs & c & Hcs & Hlen & Hc & Hn).
    { now rewrite Hd. }
    exists cs, c, (node_of v k (Some i) c).
    rewrite Hd in Hlen. simpl in Hlen. repeat (split; [assumption || reflexivity|]).
    reflexivity.
  - intros l j v Hd Hj.
    assert (Hk : children_of (data o) = enumerate_from 0 l).
    { destruct Hd as [->|[->| ->]]; reflexivity. }
    destruct (built_child d _ i o j (index_label j) v eq_refl Hlk)
      as (cs & c & Hcs & Hlen & Hc & Hn).
    { rewrite Hk. now apply (enumerate_from_lookup l 0 j v). }
    exists cs, c, (node_of v (index_label j) (Some i) c).
    rewrite Hk, enumerate_from_length in Hlen.
    repeat (split; [assumption || reflexivity|]). reflexivity.
Qed.

Lemma children_mirror_data_witness :
  let d := PDict [(KStr "a", PList [PInt 1; PInt 2])] in
  let o := mkElement (PList [PInt 1; PInt 2]) (KStr "a") (Some 0) "list"
                     (Some [2; 3]) None in
  (match children o with
   | Some cs => length cs = length (children_of (data o))
   | None => children_of (data o) = []
   end)
  /\ (forall items j k v,
        data o = PDict items -> items !! j = Some (k, v) ->
        exists cs c child,
          children o = Some cs /\ length cs = length items /\ cs !! j = Some c
          /\ snd (Element_new d) !! c = Some child
          /\ index child = k /\ data child = v /\ parent child = Some 1)
  /\ (forall l j v,
        data o = PList l \/ data o = PTuple l \/ data o = PSet l ->
        l !! j = Some v ->
        exists cs c child,
          children o = Some cs /\ length cs = length l /\ cs !! j = Some c
          /\ snd (Element_new d) !! c = Some child
          /\ index child = KStr (String.append "__index__" (string_of_nat j))
          /\ data child = v /\ parent child = Some 1).
Proof.
  intros d o. apply (children_mirror_data d 1 o). reflexivity.
Defined.


Lemma get_uniq_lookup items : forall j k v,
  PyDict.uniq items -> items !! j = Some (k, v) -> PyDict.get k items = Some v.
Proof.
  induction items as [|[k0 v0] r IH]; intros j k v Hu Hj; [destruct j; discriminate Hj|].
  destruct Hu as [Hk0 Hu]. destruct j as [|j]; simpl in Hj.
  - injection Hj as -> ->. simpl. now rewrite ProjectorFacts.key_eqb_refl.
  - simpl.
    assert (Hin : In k (PyDict.keys r)).
    { apply list_elem_of_In. unfold PyDict.keys.
      apply (list_elem_of_lookup_2 _ j). now rewrite list_lookup_fmap, Hj. }
    pose proof (ProjectorFacts.absent_key_differs k0 r k Hk0 Hin) as Hd.
    rewrite ProjectorFacts.key_eqb_sym, Hd. now apply (IH j).
Qed.

Lemma range_lookup n j k :
  range n !! j = Some k -> j < n /\ k = KInt (Z.of_nat j).
Proof.
  unfold range. rewrite list_lookup_fmap.
  destruct (seq 0 n !! j) as [x|] eqn:Hx; [|discriminate].
  apply lookup_seq in Hx. destruct Hx as [-> Hlt]. simpl.
  intros [= <-]. now split.
Qed.

Lemma nth_error_lookup {A} (l : list A) : forall j, nth_error l j = l !! j.
Proof. induction l as [|x l IH]; intros [|j]; simpl; auto. Qed.

Lemma getitem_lookup {A} (l : list A) j v :
  l !! j = Some v -> getitem l (Z.of_nat j) = Ok v.
Proof.
  intros Hj. pose proof (lookup_lt_Some _ _ _ Hj) as Hlt.
  unfold getitem.
  replace (Z.of_nat j <? 0)%Z with false by (symmetry; apply Z.ltb_ge; lia).
  replace (Z.of_nat j <? 0)%Z with false by (symmetry; apply Z.ltb_ge; lia).
  replace (Z.of_nat (length l) <=? Z.of_nat j)%Z with false
    by (symmetry; apply Z.leb_gt; lia).
  simpl. rewrite Nat2Z.id, nth_error_lookup. now rewrite Hj.
Qed.

(** X2. Iteration and subscription of a node of a built tree agree with
    its children on dict, list and tuple data: [__iter__] yields the
    keys of a dict and the positions of a sequence, and [__getitem__] at
    the [j]-th yielded key returns the data of the [j]-th child; the
    index label ['__index__j'] that a child of a list or tuple carries is
    itself no valid subscript ([TypeError]).  Over a set, [__iter__] yields the positions but [__getitem__] raises
    [TypeError] at every index; over any other data both raise
    [TypeError]. *)
Theorem iter_and_getitem_follow_children (d : pyval) (i : nat) (o : Element) :
  snd (Element_new d) !! i = Some o ->
  match data o with
  | PDict items =>
      iter o = Ok (PyDict.keys items)
      /\ (PyDict.uniq items ->
          forall j k, PyDict.keys items !! j = Some k ->
            exists cs c child,
              children o = Some cs /\ cs !! j = Some c
              /\ snd (Element_new d) !! c = Some child
              /\ index child = k
              /\ getitem_ o k = Ok (data child))
  | PList l | PTuple l =>
      iter o = Ok (range (length l))
      /\ (forall j k, range (length l) !! j = Some k ->
            exists cs c child,
              children o = Some cs /\ cs !! j = Some c
              /\ snd (Element_new d) !! c = Some child
              /\ index child = index_label j
              /\ getitem_ o k = Ok (data child)
              /\ getitem_ o (index child) = Raise TypeError)
  | PSet l =>
      iter o = Ok (range (length l))
      /\ (forall k, getitem_ o k = Raise TypeError)
  | _ =>
      iter o = Raise TypeError
      /\ (forall k, getitem_ o k = Raise TypeError)
  end.
Proof.
  intros Hlk.
  destruct (built_subtree d _ i o eq_refl Hlk) as (d' & idx' & par' & _ & Ho).
  assert (Hseq : forall l, data o = PList l \/ data o = PTuple l ->
            iter o = Ok (range (length l))
            /\ (forall j k, range (length l) !! j = Some k ->
                  exists cs c child,
                    children o = Some cs /\ cs !! j = Some c
                    /\ snd (Element_new d) !! c = Some child
                    /\ index child = index_label j
                    /\ getitem_ o k = Ok (data child)
                    /\ getitem_ o (index child) = Raise TypeError)).
  { intros l Hd. split.
    { subst o. simpl in Hd. destruct Hd as [->| ->]; reflexivity. }
    intros j k Hr. apply range_lookup in Hr. destruct Hr as [Hlt ->].
    destruct (lookup_lt_is_Some_2 l j Hlt) as [v Hv].
    destruct (built_child d _ i o j (index_label j) v eq_refl Hlk)
      as (cs & c & Hcs & _ & Hc & Hn).
    { replace (children_of (data o)) with (enumerate_from 0 l)
        by (destruct Hd as [->| ->]; reflexivity).
      now apply (enumerate_from_lookup l 0 j v). }
    exists cs, c, (node_of v (index_label j) (Some i) c).
    repeat (split; [assumption || reflexivity|]).
    subst o. simpl in Hd. unfold getitem_.
    destruct Hd as [->| ->]; simpl; (split; [now apply getitem_lookup|reflexivity]). }
  destruct (data o) eqn:Hd;
    try (subst o; simpl in Hd; subst d'; split; [reflexivity|intros k; reflexivity]).
  - (* dict *)
    split; [subst o; simpl in Hd; now subst d'|].
    intros Hu j k Hj.
    unfold PyDict.keys in Hj. rewrite list_lookup_fmap in Hj.
    destruct (items !! j) as [[k' v]|] eqn:Hkv; [|discriminate Hj].
    simpl in Hj. injection Hj as ->.
    destruct (built_child d _ i o j k v eq_refl Hlk) as (cs & c & Hcs & _ & Hc & Hn).
    { now rewrite Hd. }
    exists cs, c, (node_of v k (Some i) c).
    repeat (split; [assumption || reflexivity|]).
    unfold getitem_. rewrite Hd.
    replace (type_ o) with "dict" by (subst o; simpl in Hd; now subst d').
    simpl. now rewrite (get_uniq_lookup items j k v Hu Hkv).
  - apply Hseq. now left.
  - apply Hseq. now right.
Qed.

Lemma iter_and_getitem_follow_children_witness :
  let d := PDict [(KStr "a", PTuple [PInt 7])] in
  let o := mkElement (PTuple [PInt 7]) (KStr "a") (Some 0) "list" (Some [2]) None in
  iter o = Ok (range 1)
  /\ (forall j k, range 1 !! j = Some k ->
        exists cs c child,
          children o = Some cs /\ cs !! j = Some c
          /\ snd (Element_new d) !! c = Some child
          /\ index child = index_label j
          /\ getitem_ o k = Ok (data child)
          /\ getitem_ o (index child) = Raise TypeError).
Proof.
  intros d o. apply (iter_and_getitem_follow_children d 1 o). reflexivity.
Defined.

(** X3. [is_scalar] never returns [False]: it is [True] on [int],
    [float], [bool] and [str] data, and on any other data, [None]
    included, the [None] in the class tuple makes [isinstance] raise
    [TypeError]. *)
Theorem is_scalar_is_True_or_raises (o : Element) :
  is_scalar o <> Ok false
  /\ is_scalar o
     = match data o with
       | PBool _ | PInt _ | PFloat _ | PStr _ => Ok true
       | _ => Raise TypeError
       end.
Proof.
  unfold is_scalar. destruct (data o); simpl; split; (discriminate || reflexivity).
Qed.

(** X4. In a built tree the flags of a node follow its data: [is_dict]
    holds exactly on dict data, [is_list] exactly on list, tuple and set
    data, and [is_leaf] exactly where the data is not a container or is
    an empty one; a node that is not a leaf is a dict or a list node. *)
Theorem node_flags_follow_data (d : pyval) (i : nat) (o : Element) :
  snd (Element_new d) !! i = Some o ->
  is_dict o = match data o with PDict _ => true | _ => false end
  /\ is_list o
     = match data o with PList _ | PTuple _ | PSet _ => true | _ => false end
  /\ is_leaf o
     = match data o with
       | PDict (_ :: _) | PList (_ :: _) | PTuple (_ :: _) | PSet (_ :: _) => false
       | _ => true
       end
  /\ is_element o = negb (is_leaf o)
  /\ (is_leaf o = false -> is_dict o || is_list o = true).
Proof.
  intros Hlk.
  destruct (built_subtree d _ i o eq_refl Hlk) as (d' & idx' & par' & _ & ->).
  unfold is_leaf, is_element, has_children, is_dict, is_list. simpl.
  destruct d' as [| | | | |[|kv r]|[|x l]|[|x l]|[|x l]|]; simpl;
    repeat split; try reflexivity; try discriminate.
Qed.

Lemma node_flags_follow_data_witness :
  let o := mkElement (PDict []) (KStr "") None "dict" None None in
  is_dict o = true /\ is_list o = false /\ is_leaf o = true
  /\ is_element o = negb (is_leaf o)
  /\ (is_leaf o = false -> is_dict o || is_list o = true).
Proof.
  intros o. apply (node_flags_follow_data (PDict []) 0 o). reflexivity.
Defined.

(** X5. [List.first] and [List.last] raise [ListIndexError], never
    [IndexError], on the empty list; on a list that is not empty they
    return its first and its last element.  [is_empty] holds exactly on
    the empty list. *)
Theorem List_first_and_last {A : Type} (self : list A) (x : A) :
  first (@nil A) = Raise ListIndexError
  /\ last (@nil A) = Raise ListIndexError
  /\ first (x :: self) = Ok x
  /\ last (self ++ [x]) = Ok x
  /\ (is_empty self = true <-> self = [])
  /\ total (self ++ [x]) = S (total self).
Proof.
  split; [reflexivity|]. split; [reflexivity|]. split; [reflexivity|].
  split; [|split].
  - unfold last, is_empty, total, getitem. rewrite length_app. simpl.
    replace (Nat.eqb (length self + 1) 0) with false by (symmetry; apply Nat.eqb_neq; lia).
    simpl.
    replace (-1 + Z.of_nat (length self + 1))%Z with (Z.of_nat (length self)) by lia.
    replace (Z.of_nat (length self) <? 0)%Z with false by (symmetry; apply Z.ltb_ge; lia).
    replace (Z.of_nat (length self + 1) <=? Z.of_nat (length self))%Z with false
      by (symmetry; apply Z.leb_gt; lia).
    simpl. rewrite Nat2Z.id, nth_error_lookup.
    now rewrite list_lookup_middle.
  - unfold is_empty, total. destruct self; simpl; split; congruence.
  - unfold total. rewrite length_app. simpl. lia.
Qed.

End AccessFacts.

(** ** Facts about [Element.find] on a built tree *)

Module SearchFacts.
Import Tree Lookup Finder TreeFacts FinderFacts.

Section WithLookup.
Variable re : Re.ReLib.
Variable validate : pfunc -> pyval -> res bool.
Variable H : heap.
Variable lk : LookupCls.

(** A visit appends at most the visited reference, and only when the
    object there is tested and accepted. *)
Lemma visit_sound c st :
  exists rs,
    result (fst (Finder.visit re validate H lk c st)) = result st ++ rs
    /\ (rs = []
        \/ (rs = [c] /\ exists child,
              H !! c = Some child /\ Finder.tested H c = true
              /\ Finder.accepts re validate lk child = true)).
Proof.
  unfold Finder.visit, Finder.tested.
  assert (Hnone : exists rs : list nat,
             result st = result st ++ rs
             /\ (rs = [] \/ (rs = [c] /\ exists child : Element,
                   H !! c = Some child /\ false = true
                   /\ Finder.accepts re validate lk child = true))).
  { exists []. rewrite app_nil_r. auto. }
  destruct (H !! c) as [child|] eqn:Hc; [|exact Hnone].
  destruct (parent child) as [p|]; [|exact Hnone].
  destruct (H !! p) as [n|]; [|exact Hnone].
  destruct (is_list n); [exact Hnone|]. simpl negb.
  destruct (probe_spec re validate lk c child st) as (o & -> & Ho & _). simpl.
  exists (if o then [c] else []). split; [reflexivity|].
  destruct o; [right|now left]. split; [reflexivity|].
  exists child. auto.
Qed.

(** Every reference that a sweep appends is tested and accepted. *)
Lemma sweep_sound ids : forall st,
  exists rs,
    result (fst (Finder.sweep re validate H lk ids st)) = result st ++ rs
    /\ forall c, In c rs ->
         exists child, H !! c = Some child /\ Finder.tested H c = true
                       /\ Finder.accepts re validate lk child = true.
Proof.
  induction ids as [|c r IH]; intros st; simpl.
  - exists []. rewrite app_nil_r. split; [reflexivity|intros c []].
  - destruct (visit_sound c st) as (rs1 & Hst & Hrs).
    destruct (Finder.visit re validate H lk c st) as [st1 [|e]]; simpl in Hst.
    + destruct (IH st1) as (rs2 & Hst2 & Hin2).
      exists (rs1 ++ rs2). rewrite Hst2, Hst, <- app_assoc.
      split; [reflexivity|].
      intros c' Hc'. apply in_app_or in Hc' as [Hc'|Hc']; [|now apply Hin2].
      destruct Hrs as [->|[-> Hch]]; [destruct Hc'|].
      destruct Hc' as [<-|[]]. exact Hch.
    + exists rs1. simpl. split; [exact Hst|].
      intros c' Hc'. destruct Hrs as [->|[-> Hch]]; [destruct Hc'|].
      destruct Hc' as [<-|[]]. exact Hch.
Qed.

End WithLookup.

(** The records found on a built tree: each is a tested and accepted
    child of a node whose data is a dict. *)
Lemma found_sound re validate lk d (H : heap) :
  snd (Element_new d) = H ->
  exists st out,
    Finder.find_ re validate H lk (length H) 0 (mkFstate [] []) = Some (st, out)
    /\ forall c, In c (result st) ->
         exists child p n items,
           H !! c = Some child /\ parent child = Some p /\ H !! p = Some n
           /\ data n = PDict items
           /\ Finder.accepts re validate lk child = true.
Proof.
  intros HH. rewrite (find__built re validate lk d H _ HH).
  destruct (is_container d && _).
  - exists (mkFstate [] []), (Raised TypeError). split; [reflexivity|intros c []].
  - destruct (sweep_sound re validate H lk (seq 1 (size d - 1)) (mkFstate [] []))
      as (rs & Hst & Hrs).
    destruct (Finder.sweep _ _ _ _ _ _) as [st out]. simpl in Hst.
    exists st, out. split; [reflexivity|].
    intros c Hc. rewrite Hst in Hc.
    destruct (Hrs c Hc) as (child & Hch & Ht & Ha).
    destruct (built_tested d H c HH Ht) as (o & p & n & items & Ho & Hp & Hn & _ & Hd).
    rewrite Hch in Ho. injection Ho as <-.
    exists child, p, n, items. auto.
Qed.

Lemma filter_result_nil (H : heap) select_obj :
  filter_result H [] select_obj = Ok [].
Proof.
  unfold filter_result.
  destruct (predicate select_obj); simpl;
    destruct (is_zero_select select_obj), (is_all_select select_obj); reflexivity.
Qed.

(** X6. [find] on a tree whose root has no children: over scalar or
    opaque data it returns the empty list for every lookup that
    compiles; over an empty dict, list, tuple or set it raises
    [TypeError], because [find_] iterates over [children], which is
    [None]. *)
Theorem find_on_childless_root
    (re : Re.ReLib) (validate : pfunc -> pyval -> res bool)
    (d : pyval) (lookup : string) (lk : LookupCls) (select_obj : SelectParser) :
  process re lookup = Ok lk ->
  (is_container d = false ->
   Finder.find re validate (snd (Element_new d)) (fst (Element_new d))
               lookup select_obj
   = Some (Ok []))
  /\ (d = PDict [] \/ d = PList [] \/ d = PTuple [] \/ d = PSet [] ->
      Finder.find re validate (snd (Element_new d)) (fst (Element_new d))
                  lookup select_obj
      = Some (Raise TypeError)).
Proof.
  intros Hp. unfold Finder.find. rewrite Hp.
  destruct (built_root d _ eq_refl) as (-> & _ & _).
  rewrite (find__built re validate lk d _ _ eq_refl).
  split.
  - intros Hc. rewrite Hc. simpl.
    replace (size d) with 1 by (destruct d; try discriminate Hc; reflexivity).
    simpl. now rewrite filter_result_nil.
  - intros [->|[->|[->| ->]]]; reflexivity.
Qed.

Lemma find_on_childless_root_witness :
  (is_container (PInt 3) = false ->
   Finder.find Re.PyRe Samples.no_validators (snd (Element_new (PInt 3)))
               (fst (Element_new (PInt 3))) "a" Samples.sample_select
   = Some (Ok []))
  /\ (PInt 3 = PDict [] \/ PInt 3 = PList [] \/ PInt 3 = PTuple []
      \/ PInt 3 = PSet [] ->
      Finder.find Re.PyRe Samples.no_validators (snd (Element_new (PInt 3)))
                  (fst (Element_new (PInt 3))) "a" Samples.sample_select
      = Some (Raise TypeError)).
Proof.
  apply (find_on_childless_root Re.PyRe Samples.no_validators (PInt 3) "a"
           Samples.sample_lookup Samples.sample_select).
  vm_compute. reflexivity.
Defined.


Lemma holds_true r : holds r = true -> r = Ok true.
Proof. destruct r as [[|]|e]; simpl; congruence. Qed.

(** X7. Every record that [find_] collects on a built tree satisfies the
    lookup, also when a matcher raised later in the run: its index is a
    string that the left pattern matches, and when the lookup has a right
    side, its data passes it.  With a pattern on the right the data is a
    string: a child whose value is a number, [None], a dict or a list is
    never found by a [key=pattern] lookup. *)
Theorem found_records_satisfy_lookup
    (re : Re.ReLib) (validate : pfunc -> pyval -> res bool)
    (lk : LookupCls) (d : pyval) :
  exists st out,
    Finder.find_ re validate (snd (Element_new d)) lk
                 (length (snd (Element_new d))) (fst (Element_new d))
                 (mkFstate [] [])
    = Some (st, out)
    /\ forall c, In c (result st) ->
         exists child s,
           snd (Element_new d) !! c = Some child
           /\ index child = KStr s
           /\ search_side re (left lk) s = Ok true
           /\ (is_right lk = true ->
               is_right_matched re validate lk (data child) = Ok true)
           /\ (forall p, right lk = Some (PatternStr p) -> p <> EmptyString ->
                 exists v, data child = PStr v
                           /\ search_side re (PatternStr p) v = Ok true)
           /\ (forall f, right lk = Some (Callable f) ->
                 validate f (data child) = Ok true).
Proof.
  destruct (built_root d _ eq_refl) as (-> & _ & _).
  destruct (found_sound re validate lk d _ eq_refl) as (st & out & Hrun & Hall).
  exists st, out. split; [exact Hrun|].
  intros c Hc. destruct (Hall c Hc) as (child & p & n & items & Hch & _ & _ & _ & Ha).
  unfold Finder.accepts in Ha. apply andb_prop in Ha as [Hl Hr].
  apply holds_true in Hl.
  assert (Hright : is_right lk = true ->
            is_right_matched re validate lk (data child) = Ok true).
  { intros Hir. rewrite Hir in Hr. simpl in Hr. now apply holds_true. }
  unfold is_left_matched in Hl.
  destruct (index child) as [| | |s] eqn:Hidx; try discriminate Hl.
  exists child, s. repeat (split; [assumption || reflexivity|]).
  split.
  - intros pt Hp Hne.
    assert (Hir : is_right lk = true).
    { unfold is_right. rewrite Hp. destruct pt; [congruence|reflexivity]. }
    specialize (Hright Hir). unfold is_right_matched in Hright.
    rewrite Hir, Hp in Hright. simpl in Hright.
    destruct (data child); try discriminate Hright. eauto.
  - intros f Hf.
    assert (Hir : is_right lk = true) by (unfold is_right; now rewrite Hf).
    specialize (Hright Hir). unfold is_right_matched in Hright.
    now rewrite Hir, Hf in Hright.
Qed.

Lemma map_res_length {A B} (f : A -> res B) l rows :
  map_res f l = Ok rows -> length rows = length l.
Proof.
  revert rows; induction l as [|a r IH]; intros rows; simpl.
  - now intros [= <-].
  - destruct (f a) as [b|e]; simpl; [|discriminate].
    destruct (map_res f r) as [bs|e]; simpl; [|discriminate].
    intros [= <-]. simpl. now rewrite (IH bs).
Qed.

Lemma concat_column_rows cols (rs : list (list (pykey * pyval))) :
  length (concat (map (column_record cols) rs)) <= length rs.
Proof.
  induction rs as [|r rs IH]; simpl; [lia|].
  rewrite length_app. unfold column_record at 1.
  destruct (forallb _ cols); simpl; lia.
Qed.

(** X8. Without a filter predicate, projecting the records that [find_]
    collected on a built tree never raises.  Zero-select returns the data
    of each record and all-select the dict of each record's parent, one
    row per record in the order of the records (zero-select wins when both
    flags are set); column-select returns at most one row per record. *)
Theorem projection_of_found_records
    (re : Re.ReLib) (validate : pfunc -> pyval -> res bool)
    (lk : LookupCls) (d : pyval) (select_obj : SelectParser) :
  predicate select_obj = None ->
  exists st out rows,
    Finder.find_ re validate (snd (Element_new d)) lk
                 (length (snd (Element_new d))) (fst (Element_new d))
                 (mkFstate [] [])
    = Some (st, out)
    /\ filter_result (snd (Element_new d)) (result st) select_obj = Ok rows
    /\ length rows <= length (result st)
    /\ (is_zero_select select_obj = true ->
        length rows = length (result st)
        /\ forall j c, result st !! j = Some c ->
             exists child, snd (Element_new d) !! c = Some child
                           /\ rows !! j = Some (data child))
    /\ (is_zero_select select_obj = false -> is_all_select select_obj = true ->
        length rows = length (result st)
        /\ forall j c, result st !! j = Some c ->
             exists child p n items,
               snd (Element_new d) !! c = Some child /\ parent child = Some p
               /\ snd (Element_new d) !! p = Some n /\ data n = PDict items
               /\ rows !! j = Some (PDict items)).
Proof.
  intros Hpred.
  destruct (built_root d _ eq_refl) as (-> & _ & _).
  destruct (found_sound re validate lk d _ eq_refl) as (st & out & Hrun & Hall).
  set (H := snd (Element_new d)) in *.
  assert (Hzero : map_res (record_data H) (result st)
                  = Ok (map (fun c => match H !! c with
                                      | Some o => data o
                                      | None => PNone
                                      end) (result st))).
  { apply ProjectorFacts.map_res_ok. intros c Hc.
    destruct (Hall c Hc) as (child & _ & _ & _ & Hch & _).
    unfold record_data. now rewrite Hch. }
  assert (Hall' : map_res (parent_data H) (result st)
                  = Ok (map (fun c => PDict (parent_record H c)) (result st))).
  { apply ProjectorFacts.map_res_ok. intros c Hc.
    destruct (Hall c Hc) as (child & p & n & items & Hch & Hp & Hn & Hd & _).
    unfold parent_record, parent_data. now rewrite Hch, Hp, Hn, Hd. }
  assert (Hcols : map_res (select_columns H (columns select_obj)) (result st)
                  = Ok (map (fun c => column_record (columns select_obj)
                                        (parent_record H c)) (result st))).
  { apply ProjectorFacts.map_res_ok. intros c Hc.
    destruct (Hall c Hc) as (child & p & n & items & Hch & Hp & Hn & Hd & _).
    assert (Hpd : parent_data H c = Ok (PDict items)).
    { unfold parent_data. now rewrite Hch, Hp, Hn, Hd. }
    rewrite (ProjectorFacts.select_columns_dict H _ c items Hpd).
    unfold parent_record. now rewrite Hpd. }
  destruct (is_zero_select select_obj) eqn:Hz;
    [|destruct (is_all_select select_obj) eqn:Ha].
  - exists st, out, (map (fun c => match H !! c with
                                   | Some o => data o
                                   | None => PNone
                                   end) (result st)).
    split; [exact Hrun|].
    split; [unfold filter_result; rewrite Hpred; simpl; now rewrite Hz|].
    rewrite length_map. split; [lia|].
    split; [|discriminate]. intros _. split; [reflexivity|].
    intros j c Hj.
    assert (Hc : In c (result st)).
    { apply list_elem_of_In. now apply (list_elem_of_lookup_2 _ j). }
    destruct (Hall c Hc) as (child & _ & _ & _ & Hch & _).
    exists child. split; [exact Hch|].
    rewrite list_lookup_fmap, Hj. simpl. now rewrite Hch.
  - exists st, out, (map (fun c => PDict (parent_record H c)) (result st)).
    split; [exact Hrun|].
    split; [unfold filter_result; rewrite Hpred; simpl; now rewrite Hz, Ha|].
    rewrite length_map. split; [lia|].
    split; [discriminate|]. intros _ _. split; [reflexivity|].
    intros j c Hj.
    assert (Hc : In c (result st)).
    { apply list_elem_of_In. now apply (list_elem_of_lookup_2 _ j). }
    destruct (Hall c Hc) as (child & p & n & items & Hch & Hp & Hn & Hd & _).
    exists child, p, n, items. repeat (split; [assumption|]).
    rewrite list_lookup_fmap, Hj. simpl.
    unfold parent_record, parent_data. now rewrite Hch, Hp, Hn, Hd.
  - exists st, out,
      (concat (map (fun c => column_record (columns select_obj)
                               (parent_record H c)) (result st))).
    split; [exact Hrun|].
    split; [unfold filter_result; rewrite Hpred; simpl; rewrite Hz, Ha, Hcols;
            reflexivity|].
    split; [|split; discriminate].
    rewrite <- (length_map (parent_record H) (result st)).
    rewrite <- (map_map (parent_record H)
                  (column_record (columns select_obj)) (result st)).
    apply concat_column_rows.
Qed.

Lemma projection_of_found_records_witness :
  exists st out rows,
    Finder.find_ Re.PyRe Samples.no_validators
                 (snd (Element_new Samples.sample_data)) Samples.sample_lookup
                 (length (snd (Element_new Samples.sample_data)))
                 (fst (Element_new Samples.sample_data)) (mkFstate [] [])
    = Some (st, out)
    /\ filter_result (snd (Element_new Samples.sample_data)) (result st)
                     (mkSelectParser None false true []) = Ok rows
    /\ length rows <= length (result st)
    /\ (false = true ->
        length rows = length (result st)
        /\ forall j c, result st !! j = Some c ->
             exists child, snd (Element_new Samples.sample_data) !! c = Some child
                           /\ rows !! j = Some (data child))
    /\ (false = false -> true = true ->
        length rows = length (result st)
        /\ forall j c, result st !! j = Some c ->
             exists child p n items,
               snd (Element_new Samples.sample_data) !! c = Some child
               /\ parent child = Some p
               /\ snd (Element_new Samples.sample_data) !! p = Some n
               /\ data n = PDict items
               /\ rows !! j = Some (PDict items)).
Proof.
  apply (projection_of_found_records Re.PyRe Samples.no_validators
           Samples.sample_lookup Samples.sample_data
           (mkSelectParser None false true [])).
  reflexivity.
Defined.

Lemma filter_records_ext (H : heap) pred pred' records :
  (forall c, In c records -> exists items, parent_data H c = Ok (PDict items)) ->
  (forall items, pred (PDict items) = pred' (PDict items)) ->
  filter_records H pred records = filter_records H pred' records.
Proof.
  intros Hrec Heq. induction records as [|c r IH]; [reflexivity|].
  simpl. destruct (Hrec c) as [items ->]; [now left|]. simpl.
  rewrite Heq, IH; [reflexivity|]. intros c' Hc'. apply Hrec. now right.
Qed.

Lemma filter_records_total (H : heap) pred records :
  (forall c, In c records -> exists items, parent_data H c = Ok (PDict items)) ->
  (forall items, exists b, pred (PDict items) = Ok b) ->
  filter_records H pred records
  = Ok (List.filter (fun c => holds (pred (PDict (parent_record H c)))) records).
Proof.
  intros Hrec Htot. induction records as [|c r IH]; [reflexivity|].
  simpl. destruct (Hrec c) as [items Hpd]; [now left|].
  unfold parent_record. rewrite Hpd. simpl.
  destruct (Htot items) as [b Hb]. rewrite Hb. simpl.
  rewrite IH by (intros c' Hc'; apply Hrec; now right). simpl.
  now destruct b.
Qed.

(** X9. The filter predicate of a select statement is only ever applied
    to dicts: on the records that [find_] collected on a built tree, two
    predicates that agree on every dict give the same projection.  A
    predicate that does not raise on dicts keeps, in order, the records
    whose parent dict satisfies it. *)
Theorem select_predicate_sees_only_dicts
    (re : Re.ReLib) (validate : pfunc -> pyval -> res bool)
    (lk : LookupCls) (d : pyval) (pred pred' : pyval -> res bool) :
  (forall items, pred (PDict items) = pred' (PDict items)) ->
  exists st out,
    Finder.find_ re validate (snd (Element_new d)) lk
                 (length (snd (Element_new d))) (fst (Element_new d))
                 (mkFstate [] [])
    = Some (st, out)
    /\ (forall zero all cols,
          filter_result (snd (Element_new d)) (result st)
                        (mkSelectParser (Some pred) zero all cols)
          = filter_result (snd (Element_new d)) (result st)
                          (mkSelectParser (Some pred') zero all cols))
    /\ ((forall items, exists b, pred (PDict items) = Ok b) ->
        filter_records (snd (Element_new d)) pred (result st)
        = Ok (List.filter
                (fun c => holds (pred (PDict (parent_record (snd (Element_new d)) c))))
                (result st))).
Proof.
  intros Heq.
  destruct (built_root d _ eq_refl) as (-> & _ & _).
  destruct (found_sound re validate lk d _ eq_refl) as (st & out & Hrun & Hall).
  set (H := snd (Element_new d)) in *.
  assert (Hrec : forall c, In c (result st) ->
            exists items, parent_data H c = Ok (PDict items)).
  { intros c Hc.
    destruct (Hall c Hc) as (child & p & n & items & Hch & Hp & Hn & Hd & _).
    exists items. unfold parent_data. now rewrite Hch, Hp, Hn, Hd. }
  exists st, out. split; [exact Hrun|]. split.
  - intros zero all cols. unfold filter_result. simpl.
    now rewrite (filter_records_ext H pred pred' (result st) Hrec Heq).
  - intros Htot. now apply filter_records_total.
Qed.

Lemma select_predicate_sees_only_dicts_witness :
  let pred := fun _ : pyval => Ok true in
  let pred' := fun v => match v with PDict _ => Ok true | _ => Raise TypeError end in
  exists st out,
    Finder.find_ Re.PyRe Samples.no_validators
                 (snd (Element_new Samples.sample_data)) Samples.sample_lookup
                 (length (snd (Element_new Samples.sample_data)))
                 (fst (Element_new Samples.sample_data)) (mkFstate [] [])
    = Some (st, out)
    /\ (forall zero all cols,
          filter_result (snd (Element_new Samples.sample_data)) (result st)
                        (mkSelectParser (Some pred) zero all cols)
          = filter_result (snd (Element_new Samples.sample_data)) (result st)
                          (mkSelectParser (Some pred') zero all cols))
    /\ ((forall items, exists b, pred (PDict items) = Ok b) ->
        filter_records (snd (Element_new Samples.sample_data)) pred (result st)
        = Ok (List.filter
                (fun c => holds (pred (PDict (parent_record
                                                (snd (Element_new Samples.sample_data)) c))))
                (result st))).
Proof.
  intros pred pred'.
  apply (select_predicate_sees_only_dicts Re.PyRe Samples.no_validators
           Samples.sample_lookup Samples.sample_data pred pred').
  intros items. reflexivity.
Defined.

End SearchFacts.

(** ** Facts about lookup sides without directive *)

Module LiteralFacts.
Import Str Re Lookup Literal.

(** *** Reading an escaped text *)

Lemma special_not_alnum c : is_special c = true -> is_alnum c = false.
Proof.
  destruct c as [[] [] [] [] [] [] [] []]; vm_compute; congruence.
Qed.

Lemma parse_atom_escaped f vb c rest :
  is_special c = true ->
  parse_atom (S f) vb (String "\" (String c rest)) = Some (Chr c, rest).
Proof. intros Hs. simpl. now rewrite (special_not_alnum c Hs). Qed.

Lemma parse_atom_plain f vb c rest :
  is_special c = false ->
  parse_atom (S f) vb (String c rest) = Some (Chr c, rest).
Proof.
  destruct c as [[] [] [] [] [] [] [] []]; intros Hs;
    try (vm_compute in Hs; discriminate Hs); reflexivity.
Qed.


Lemma escaped_unquantified text :
  unquantified (String.append (re_escape text) "$").
Proof.
  destruct text as [|c t]; simpl; [reflexivity|].
  destruct (is_special c) eqn:Hs; simpl; [reflexivity|].
  destruct c as [[] [] [] [] [] [] [] []]; try reflexivity;
    vm_compute in Hs; discriminate Hs.
Qed.

Lemma read_quantifier_none a s :
  unquantified s -> read_quantifier false a s = Some (a, s).
Proof.
  unfold read_quantifier, skip. destruct s as [|c t]; simpl; [reflexivity|].
  now intros ->.
Qed.

Lemma chain_not_Eps text : chain text <> Eps.
Proof. destruct text; discriminate. Qed.

Lemma plain_not_anchor c : is_special c = false -> is_anchor c = false.
Proof.
  destruct c as [[] [] [] [] [] [] [] []]; intros Hs; try reflexivity;
    vm_compute in Hs; discriminate Hs.
Qed.

Lemma unquantified_not_repeated s : unquantified s -> repeated false s = false.
Proof. destruct s as [|c t]; [reflexivity|]. exact (fun H => H). Qed.

(** One step of [parse_seq] at a character that is no anchor. *)
Lemma parse_seq_step f c rest :
  is_anchor c = false ->
  parse_seq (S f) false (String c rest)
  = if Ascii.eqb c "|" || Ascii.eqb c ")" then Some (Eps, String c rest)
    else
      match parse_atom f false (String c rest) with
      | Some (a, t1) =>
          match read_quantifier false a t1 with
          | Some (a', t2) =>
              match parse_seq f false t2 with
              | Some (Eps, t3) => Some (a', t3)
              | Some (r, t3) => Some (Seq a' r, t3)
              | None => None
              end
          | None => None
          end
      | None => None
      end.
Proof.
  intros Hc.
  change (parse_seq (S f) false (String c rest))
    with (if Ascii.eqb c "|" || Ascii.eqb c ")" then Some (Eps, String c rest)
          else
            match parse_atom f false (String c rest) with
            | Some (a, t1) =>
                if is_anchor c && repeated false t1 then None
                else
                  match read_quantifier false a t1 with
                  | Some (a', t2) =>
                      match parse_seq f false t2 with
                      | Some (Eps, t3) => Some (a', t3)
                      | Some (r, t3) => Some (Seq a' r, t3)
                      | None => None
                      end
                  | None => None
                  end
            | None => None
            end).
  now rewrite Hc.
Qed.

(** One step of [parse_seq] at the start anchor, when no repetition sign
    follows. *)
Lemma parse_seq_bol f rest :
  unquantified rest ->
  parse_seq (S (S f)) false (String "^" rest)
  = match parse_seq (S f) false rest with
    | Some (Eps, t3) => Some (Bol, t3)
    | Some (r, t3) => Some (Seq Bol r, t3)
    | None => None
    end.
Proof.
  intros Hq.
  change (parse_seq (S (S f)) false (String "^" rest))
    with (if repeated false rest then None
          else
            match read_quantifier false Bol rest with
            | Some (a', t2) =>
                match parse_seq (S f) false t2 with
                | Some (Eps, t3) => Some (a', t3)
                | Some (r, t3) => Some (Seq a' r, t3)
                | None => None
                end
            | None => None
            end).
  now rewrite (unquantified_not_repeated _ Hq), (read_quantifier_none _ _ Hq).
Qed.

(** [parse_seq] reads the escaped text followed by the end anchor. *)
Lemma parse_seq_escaped text : forall fuel,
  String.length text + 2 <= fuel ->
  parse_seq fuel false (String.append (re_escape text) "$")
  = Some (chain text, EmptyString).
Proof.
  induction text as [|c t IH]; intros fuel Hf.
  - destruct fuel as [|[|f]]; simpl in Hf; try lia. reflexivity.
  - destruct fuel as [|[|f]]; simpl in Hf; try lia.
    assert (Hrest : parse_seq (S f) false (String.append (re_escape t) "$")
                    = Some (chain t, EmptyString)) by (apply IH; lia).
    pose proof (escaped_unquantified t) as Hq.
    cbn [re_escape].
    destruct (is_special c) eqn:Hs; cbn [String.append];
      rewrite parse_seq_step by (reflexivity || now apply plain_not_anchor).
    + cbn [Ascii.eqb Bool.eqb orb].
      rewrite (parse_atom_escaped f false c _ Hs).
      rewrite (read_quantifier_none _ _ Hq), Hrest.
      cbn [chain]. destruct (chain t) eqn:Hc; try reflexivity.
      now destruct (chain_not_Eps t).
    + assert (Hbar : (Ascii.eqb c "|" || Ascii.eqb c ")") = false).
      { destruct c as [[] [] [] [] [] [] [] []]; try reflexivity;
          vm_compute in Hs; discriminate Hs. }
      rewrite Hbar, (parse_atom_plain f false c _ Hs).
      rewrite (read_quantifier_none _ _ Hq), Hrest.
      cbn [chain]. destruct (chain t) eqn:Hc; try reflexivity.
      now destruct (chain_not_Eps t).
Qed.


Lemma length_append a b :
  String.length (String.append a b) = String.length a + String.length b.
Proof. induction a as [|c a IH]; simpl; [reflexivity|now rewrite IH]. Qed.

Lemma re_escape_length text : String.length text <= String.length (re_escape text).
Proof.
  induction text as [|c t IH]; simpl; [lia|].
  destruct (is_special c); simpl; lia.
Qed.

(** The pattern ['^' + re.escape(text) + '$'] compiles to [literal text]. *)
Lemma compile_literal text :
  compile false (String "^" (String.append (re_escape text) "$"))
  = Some (false, literal text).
Proof.
  assert (Hp : String.prefix "(?i)" (String "^" (String.append (re_escape text) "$"))
               = false) by reflexivity.
  cbv beta iota zeta delta [compile skip]. rewrite Hp.
  remember (String.length (String "^" (String.append (re_escape text) "$"))) as n
    eqn:Hn.
  assert (Hlen : String.length text + 2 <= n).
  { subst n. simpl. rewrite length_append. simpl.
    pose proof (re_escape_length text). lia. }
  replace (4 * n + 8) with (S (S (S (4 * n + 5)))) by lia.
  cbn [parse_alt]. rewrite (parse_seq_bol _ _ (escaped_unquantified text)).
  rewrite parse_seq_escaped by lia.
  unfold literal. destruct (chain text) eqn:Hc; try reflexivity.
  now destruct (chain_not_Eps text).
Qed.

(** *** Matching a literal *)

Lemma run_chain text : forall p s caps,
  run false (chain text) (mkState p s caps)
  = if is_text_or_line text s
    then [mkState (p + String.length text) (drop (String.length text) s) caps]
    else [].
Proof.
  unfold is_text_or_line, line.
  induction text as [|c t IH]; intros p s caps.
  - cbn [chain run Re.rest String.length drop String.append].
    rewrite Nat.add_0_r.
    destruct s as [|a [|b s]]; try reflexivity.
    + cbn [String.eqb orb]. unfold newline.
      destruct (Ascii.eqb a "010"); reflexivity.
    + cbn [String.eqb orb]. simpl.
      destruct (Ascii.eqb a newline); reflexivity.
  - cbn [chain run]. unfold one_chr. cbn [Re.rest].
    destruct s as [|a s]; [reflexivity|].
    unfold chr_eq. cbn [String.eqb String.append String.length drop].
    rewrite (Ascii.eqb_sym c a).
    destruct (Ascii.eqb a c); [|reflexivity].
    cbn [flat_map]. unfold advance. cbn [Re.pos Re.caps].
    rewrite IH, app_nil_r. cbn [andb].
    now replace (S p + String.length t) with (p + S (String.length t)) by lia.
Qed.

Lemma search_at_literal_later text whole : forall s p,
  0 < p -> search_at false (literal text) whole p s = None.
Proof.
  induction s as [|a s IH]; intros p Hp; cbn [search_at literal run Re.pos];
    replace (Nat.eqb p 0) with false by (symmetry; apply Nat.eqb_neq; lia);
    cbn [flat_map]; [reflexivity|].
  apply IH. lia.
Qed.

(** [re.search] with the compiled literal succeeds on [text] and on
    [text] followed by a newline, and on nothing else. *)
Lemma search_literal text s :
  match search (false, literal text) s with
  | Some _ => true
  | None => false
  end = is_text_or_line text s.
Proof.
  unfold search. cbn [fst snd].
  destruct s as [|a s]; cbn [search_at literal run Re.pos Nat.eqb flat_map];
    rewrite app_nil_r, run_chain;
    destruct (is_text_or_line text _); try reflexivity.
  now rewrite search_at_literal_later by lia.
Qed.

Lemma search_side_literal text s :
  search_side PyRe
    (PatternStr (String "^" (String.append (re_escape text) "$"))) s
  = Ok (is_text_or_line text s).
Proof.
  unfold search_side. cbn [re_compile re_search PyRe].
  rewrite compile_literal. now rewrite search_literal.
Qed.


(** *** Patterns that need an opening parenthesis *)

Lemma chr_eq_paren ic a : chr_eq ic "(" a = Ascii.eqb a "(".
Proof. destruct ic, a as [[] [] [] [] [] [] [] []]; reflexivity. Qed.

Lemma in_class_paren ic a :
  in_class ic [("("%char, "("%char)] a = Ascii.eqb a "(".
Proof. destruct ic, a as [[] [] [] [] [] [] [] []]; reflexivity. Qed.

Lemma drop_pad n s : drop n (pad n s) = s.
Proof. induction n as [|n IH]; simpl; [now destruct s|exact IH]. Qed.

Lemma drop_pad_ge n s : forall m, n <= m -> drop m (pad n s) = drop (m - n) s.
Proof.
  induction n as [|n IH]; intros m Hm; simpl.
  - now rewrite Nat.sub_0_r.
  - destruct m as [|m]; [lia|]. simpl. apply IH. lia.
Qed.

Lemma count_drop c s : forall k, count c s = 0 -> count c (drop k s) = 0.
Proof.
  induction s as [|a s IH]; intros k Hc; [now destruct k|].
  destruct k as [|k]; [exact Hc|]. simpl in *. apply IH.
  destruct (Ascii.eqb a c); [discriminate|exact Hc].
Qed.

(** What is left of the subject after a match is a suffix of what was
    left before. *)
Lemma run_rest_suffix ic r s s' :
  In s' (run ic r s) -> exists k, Re.rest s' = drop k (Re.rest s).
Proof.
  intros Hin.
  destruct (ReFacts.run_in_subject (pad (Re.pos s) (Re.rest s)) ic r s s')
    as [Hs' Hle]; [|exact Hin|].
  - unfold in_subject. now rewrite drop_pad.
  - exists (Re.pos s' - Re.pos s). unfold in_subject in Hs'.
    now rewrite Hs', drop_pad_ge.
Qed.

Lemma flat_map_nil {A B} (f : A -> list B) l :
  (forall x, In x l -> f x = []) -> flat_map f l = [].
Proof.
  induction l as [|x l IH]; intros Hf; simpl; [reflexivity|].
  rewrite (Hf x) by now left. apply IH. intros y Hy. apply Hf. now right.
Qed.

Lemma one_chr_paren test s :
  (forall a, test a = Ascii.eqb a "(") ->
  count "(" (Re.rest s) = 0 -> one_chr test s = [].
Proof.
  intros Ht Hc. unfold one_chr. destruct (Re.rest s) as [|a t]; [reflexivity|].
  rewrite Ht. simpl in Hc. destruct (Ascii.eqb a "("); [discriminate|reflexivity].
Qed.

(** A pattern that needs an opening parenthesis does not match where
    none is left. *)
Lemma run_needs_paren ic r :
  needs_paren r = true ->
  forall s, count "(" (Re.rest s) = 0 -> run ic r s = [].
Proof.
  induction r as [|c| |neg rs| | |r1 IH1 r2 IH2|r1 IH1 r2 IH2|r IH|name r IH];
    intros Hn s Hc; try discriminate Hn.
  - simpl in Hn. apply Ascii.eqb_eq in Hn. subst c. simpl.
    apply one_chr_paren; [|exact Hc]. intros a. apply chr_eq_paren.
  - simpl in Hn. destruct neg; [discriminate|].
    destruct rs as [|[lo hi] [|]]; try discriminate Hn.
    apply andb_prop in Hn as [Hlo Hhi].
    apply Ascii.eqb_eq in Hlo, Hhi. subst lo hi. simpl.
    apply one_chr_paren; [|exact Hc]. intros a. apply in_class_paren.
  - simpl in Hn. simpl. apply orb_prop in Hn as [Hn|Hn].
    + now rewrite (IH1 Hn s Hc).
    + apply flat_map_nil. intros s' Hs'. apply (IH2 Hn).
      destruct (run_rest_suffix ic r1 s s' Hs') as [k ->]. now apply count_drop.
  - simpl in Hn. apply andb_prop in Hn as [Hn1 Hn2]. simpl.
    now rewrite (IH1 Hn1 s Hc), (IH2 Hn2 s Hc).
  - simpl in Hn. simpl. now rewrite (IH Hn s Hc).
Qed.

Lemma count_tail c a s : count c (String a s) = 0 -> count c s = 0.
Proof. simpl. destruct (Ascii.eqb a c); [discriminate|auto]. Qed.

Lemma search_at_needs_paren ic r whole :
  needs_paren r = true ->
  forall s p, count "(" s = 0 -> search_at ic r whole p s = None.
Proof.
  intros Hn. induction s as [|a s IH]; intros p Hc; simpl;
    rewrite (run_needs_paren ic r Hn) by exact Hc; [reflexivity|].
  apply IH. now apply count_tail in Hc.
Qed.

Lemma search_str_needs_paren vb p c s :
  compile vb p = Some c -> needs_paren (snd c) = true ->
  count "(" s = 0 -> search_str vb p s = Ok None.
Proof.
  intros Hp Hn Hc. unfold search_str, search. rewrite Hp.
  now rewrite (search_at_needs_paren _ _ _ Hn).
Qed.

Lemma match_str_needs_paren vb p c s :
  compile vb p = Some c -> needs_paren (snd c) = true ->
  count "(" s = 0 -> match_str vb p s = Ok None.
Proof.
  intros Hp Hn Hc. unfold match_str, match_. rewrite Hp.
  now rewrite (run_needs_paren _ _ Hn) by exact Hc.
Qed.

Lemma lower_keeps_paren_count s : count "(" (lower s) = count "(" s.
Proof.
  unfold lower. induction s as [|a s IH]; simpl; [reflexivity|]. rewrite IH. f_equal.
  destruct a as [[] [] [] [] [] [] [] []]; reflexivity.
Qed.

(** The fixed patterns of [LookupCls.parse] all need an opening
    parenthesis. *)
Lemma source_patterns_need_paren :
  (exists c, compile false pat = Some c /\ needs_paren (snd c) = true)
  /\ (exists c, compile true vpat1_ = Some c /\ needs_paren (snd c) = true)
  /\ (exists c, compile true vpat2_ = Some c /\ needs_paren (snd c) = true)
  /\ (exists c, compile true vpat3_ = Some c /\ needs_paren (snd c) = true).
Proof.
  repeat split; eexists; (split; [vm_compute; reflexivity|reflexivity]).
Qed.

(** A side without opening parenthesis is compiled by the fallback of
    [parse_other_]. *)
Lemma parse_plain re text :
  count "(" text = 0 ->
  parse re text
  = Ok (PatternStr (String "^" (String.append (re_escape text) "$"))).
Proof.
  intros Hc.
  destruct source_patterns_need_paren
    as ((c0 & Hc0 & Hn0) & (c1 & Hc1 & Hn1) & (c2 & Hc2 & Hn2) & (c3 & Hc3 & Hn3)).
  assert (Hl : count "(" (lower text) = 0) by now rewrite lower_keeps_paren_count.
  unfold parse. rewrite (search_str_needs_paren _ _ _ _ Hc0 Hn0 Hc).
  cbn [mbind res_bind]. unfold parse_other_.
  rewrite (match_str_needs_paren _ _ _ _ Hc1 Hn1 Hl). cbn [mbind res_bind].
  rewrite (match_str_needs_paren _ _ _ _ Hc2 Hn2 Hl). cbn [mbind res_bind].
  rewrite (match_str_needs_paren _ _ _ _ Hc3 Hn3 Hl). reflexivity.
Qed.

(** X10. A lookup side without opening parenthesis is a literal key:
    [LookupCls.parse] compiles it to ['^' + re.escape(text) + '$'], and
    [re.search] with that pattern accepts exactly [text] itself and
    [text] followed by one newline. *)
Theorem plain_side_matches_itself (re : ReLib) (text : string) :
  Str.count "(" text = 0 ->
  parse re text
  = Ok (PatternStr (String.append "^" (String.append (re_escape text) "$")))
  /\ forall s,
       search_side PyRe
         (PatternStr (String.append "^" (String.append (re_escape text) "$"))) s
       = Ok (String.eqb s text
             || String.eqb s (String.append text (String newline EmptyString))).
Proof.
  intros Hc. split; [now apply parse_plain|].
  intros s. apply search_side_literal.
Qed.

Lemma plain_side_matches_itself_witness :
  parse PyRe "a.b" = Ok (PatternStr "^a\.b$")
  /\ forall s,
       search_side PyRe (PatternStr "^a\.b$") s
       = Ok (String.eqb s "a.b"
             || String.eqb s (String.append "a.b" (String newline EmptyString))).
Proof.
  apply (plain_side_matches_itself PyRe "a.b"). reflexivity.
Defined.

End LiteralFacts.

(** ** Facts about searching by a literal key *)

Module KeyFacts.
Import Tree Str Lookup Finder Literal TreeFacts FinderFacts LiteralFacts.

Lemma literal_left_matched lk text k :
  left lk = PatternStr (String "^" (String.append (re_escape text) "$")) ->
  is_left_matched Re.PyRe lk k
  = Ok (match k with
        | KStr s => is_text_or_line text s
        | _ => false
        end).
Proof.
  intros Hl. unfold is_left_matched. destruct k; try reflexivity.
  rewrite Hl. apply search_side_literal.
Qed.

Lemma eqb_text_or_line text s :
  is_text_or_line text s = true <-> s = text \/ s = line text.
Proof.
  unfold is_text_or_line. rewrite orb_true_iff, !String.eqb_eq. tauto.
Qed.

(** X11. [find_] with a key that holds neither [(] nor [=] collects, on
    the tree built over any data, exactly the children of dict nodes
    whose key is that string (or that string followed by one newline),
    whatever their value; it returns unless the root is an empty
    container. *)
Theorem find_by_plain_key
    (validate : pfunc -> pyval -> res bool) (d : pyval) (key : string) :
  Str.count "(" key = 0 -> Str.count "=" key = 0 ->
  exists lk st out,
    process Re.PyRe key = Ok lk
    /\ Finder.find_ Re.PyRe validate (snd (Element_new d)) lk
                    (length (snd (Element_new d))) (fst (Element_new d))
                    (mkFstate [] [])
       = Some (st, out)
    /\ (children_of d <> [] -> out = Returned)
    /\ forall c,
         In c (result st)
         <-> exists child p n items s,
               snd (Element_new d) !! c = Some child
               /\ parent child = Some p
               /\ snd (Element_new d) !! p = Some n
               /\ data n = PDict items
               /\ index child = KStr s
               /\ (s = key \/ s = String.append key (String newline EmptyString)).
Proof.
  intros Hparen Heq.
  set (lk := mkLookupCls key
               (PatternStr (String "^" (String.append (re_escape key) "$"))) None).
  assert (Hproc : process Re.PyRe key = Ok lk).
  { rewrite (LookupFacts.process_no_equals Re.PyRe key Heq).
    now rewrite (parse_plain Re.PyRe key Hparen). }
  assert (Hleft : forall k, exists b, is_left_matched Re.PyRe lk k = Ok b).
  { intros k. rewrite (literal_left_matched lk key k eq_refl). eauto. }
  assert (Hright : forall v, exists b,
             is_right_matched Re.PyRe validate lk v = Ok b).
  { intros v. exists true. reflexivity. }
  exists lk.
  destruct (built_root d _ eq_refl) as (-> & Hlen & _).
  set (H := snd (Element_new d)) in *.
  rewrite (find__built Re.PyRe validate lk d H _ eq_refl).
  destruct (children_of d) as [|kv kvs] eqn:Hk.
  - (* no children: nothing is collected, and nothing has a parent *)
    assert (Hsize : size d = 1).
    { rewrite size_children, Hk. reflexivity. }
    exists (mkFstate [] []),
      (if is_container d then Raised TypeError else Returned).
    split; [exact Hproc|]. split.
    { destruct (is_container d); simpl; [reflexivity|].
      now rewrite Hsize. }
    split; [congruence|].
    intros c. split; [intros []|].
    intros (child & p & n & items & s & Hc & Hp & Hn & _).
    destruct (built_parent d H c child p eq_refl Hc Hp) as (_ & _ & _ & _ & _ & Hlt & _).
    apply lookup_lt_Some in Hc. lia.
  - rewrite andb_false_r.
    rewrite (sweep_total Re.PyRe validate H lk Hleft Hright).
    eexists _, Returned. split; [exact Hproc|]. split; [reflexivity|].
    split; [reflexivity|]. cbn [result app].
    intros c. rewrite filter_In, in_seq.
    rewrite (built_selects Re.PyRe validate lk d H c eq_refl).
    unfold Finder.matches, Finder.accepts.
    split.
    + intros [_ Hm].
      destruct (H !! c) as [child|] eqn:Hc; [|discriminate].
      destruct (parent child) as [p|] eqn:Hp; [|discriminate].
      destruct (H !! p) as [n|] eqn:Hn; [|discriminate].
      apply andb_prop in Hm as [Hd Ha]. apply andb_prop in Ha as [Ha _].
      rewrite (literal_left_matched lk key _ eq_refl) in Ha. simpl in Ha.
      destruct (index child) as [| | |s] eqn:Hi; try discriminate Ha.
      destruct (is_text_or_line key s) eqn:Hs; [|discriminate Ha].
      apply eqb_text_or_line in Hs.
      destruct (built_parent d H c child p eq_refl Hc Hp)
        as (dp & idxp & parp & Hn' & Hkp & _ & _).
      rewrite Hn in Hn'. injection Hn' as ->.
      destruct (container_kind dp idxp parp p Hkp) as [_ Hdict].
      destruct (Hdict Hd) as [_ [items Hitems]].
      exists child, p, (node_of dp idxp parp p), items, s.
      repeat (split; [assumption || reflexivity|]). exact Hs.
    + intros (child & p & n & items & s & Hc & Hp & Hn & Hd & Hi & Hs).
      split.
      * destruct (built_parent d H c child p eq_refl Hc Hp) as (_ & _ & _ & _ & _ & Hlt & _).
        apply lookup_lt_Some in Hc. lia.
      * rewrite Hc, Hp, Hn.
        rewrite (literal_left_matched lk key _ eq_refl), Hi. simpl.
        apply eqb_text_or_line in Hs. rewrite Hs. simpl.
        destruct (built_node_shape d H p n eq_refl Hn) as (d' & idx' & par' & ->).
        simpl in Hd. subst d'. reflexivity.
Qed.

Lemma find_by_plain_key_witness :
  exists lk st out,
    process Re.PyRe "a" = Ok lk
    /\ Finder.find_ Re.PyRe Samples.no_validators
                    (snd (Element_new Samples.sample_data)) lk
                    (length (snd (Element_new Samples.sample_data)))
                    (fst (Element_new Samples.sample_data)) (mkFstate [] [])
       = Some (st, out)
    /\ (children_of Samples.sample_data <> [] -> out = Returned)
    /\ forall c,
         In c (result st)
         <-> exists child p n items s,
               snd (Element_new Samples.sample_data) !! c = Some child
               /\ parent child = Some p
               /\ snd (Element_new Samples.sample_data) !! p = Some n
               /\ data n = PDict items
               /\ index child = KStr s
               /\ (s = "a" \/ s = String.append "a" (String newline EmptyString)).
Proof.
  apply (find_by_plain_key Samples.no_validators Samples.sample_data "a");
    reflexivity.
Defined.

(** X12. In a lookup [key=value] whose two sides hold no [(] (and whose
    key holds no [=]), both sides are literals: the left side accepts
    the index [key] (or [key] and a newline) and no index that is not a
    string; the right side is present, also when it is empty, and accepts
    the string [value] (or [value] and a newline) and no data that is not
    a string. *)
Theorem key_value_lookup_is_literal
    (validate : pfunc -> pyval -> res bool) (key value : string) :
  Str.count "(" key = 0 -> Str.count "=" key = 0 -> Str.count "(" value = 0 ->
  exists lk,
    process Re.PyRe (String.append key (String "=" value)) = Ok lk
    /\ is_right lk = true
    /\ (forall k,
          is_left_matched Re.PyRe lk k
          = Ok (match k with
                | KStr s =>
                    String.eqb s key
                    || String.eqb s (String.append key (String newline EmptyString))
                | _ => false
                end))
    /\ (forall v,
          is_right_matched Re.PyRe validate lk v
          = Ok (match v with
                | PStr s =>
                    String.eqb s value
                    || String.eqb s (String.append value (String newline EmptyString))
                | _ => false
                end)).
Proof.
  intros Hk He Hv.
  exists (mkLookupCls (String.append key (String "=" value))
            (PatternStr (String "^" (String.append (re_escape key) "$")))
            (Some (PatternStr (String "^" (String.append (re_escape value) "$"))))).
  split.
  { rewrite (LookupFacts.process_first_equals Re.PyRe key value He).
    rewrite (parse_plain Re.PyRe key Hk), (parse_plain Re.PyRe value Hv).
    reflexivity. }
  split; [reflexivity|]. split.
  - intros k. apply (literal_left_matched _ key k). reflexivity.
  - intros v. unfold is_right_matched. cbn [is_right right negb].
    destruct v; try reflexivity. apply search_side_literal.
Qed.

Lemma key_value_lookup_is_literal_witness :
  exists lk,
    process Re.PyRe "a=" = Ok lk
    /\ is_right lk = true
    /\ (forall k,
          is_left_matched Re.PyRe lk k
          = Ok (match k with
                | KStr s =>
                    String.eqb s "a"
                    || String.eqb s (String.append "a" (String newline EmptyString))
                | _ => false
                end))
    /\ (forall v,
          is_right_matched Re.PyRe Samples.no_validators lk v
          = Ok (match v with
                | PStr s =>
                    String.eqb s ""
                    || String.eqb s (String.append "" (String newline EmptyString))
                | _ => false
                end)).
Proof.
  apply (key_value_lookup_is_literal Samples.no_validators "a" ""); reflexivity.
Defined.

End KeyFacts.

(** ** Facts about [DLQuery.get] on lists *)

Module IndexFacts.
Import Str Re DLQuery Index.

Lemma compile_int_pattern : compile false pattern = Some (false, int_pattern).
Proof. vm_compute. reflexivity. Qed.

Lemma run_digit s :
  run false digit s
  = match Re.rest s with
    | String a t => if is_digit a then [advance s t] else []
    | EmptyString => []
    end.
Proof.
  unfold digit. cbn [run]. unfold one_chr.
  destruct (Re.rest s) as [|a t]; [reflexivity|].
  replace (xorb false (in_class false [("0"%char, "9"%char)] a)) with (is_digit a);
    [reflexivity|].
  unfold in_class, in_range, is_digit. simpl. now rewrite orb_false_r.
Qed.

Lemma run_Seq ic r1 r2 s :
  run ic (Seq r1 r2) s = flat_map (run ic r2) (run ic r1 s).
Proof. reflexivity. Qed.

Lemma run_Star ic r s :
  run ic (Star r) s = star (run ic r) (S (String.length (Re.rest s))) s.
Proof. reflexivity. Qed.

(** *** What the pattern accepts *)

(** Greedy repetition over digits reaches the end of a run of digits. *)
Lemma star_reaches ds : forall n p e caps,
  all_digits ds = true -> String.length ds < n ->
  In (mkState (p + String.length ds) e caps)
     (star (run false digit) n (mkState p (String.append ds e) caps)).
Proof.
  induction ds as [|d ds IH]; intros n p e caps Hd Hn.
  - destruct n as [|n]; [simpl in Hn; lia|]. cbn [star String.append String.length].
    rewrite Nat.add_0_r. apply in_or_app. right. now left.
  - destruct n as [|n]; [simpl in Hn; lia|]. simpl in Hd, Hn.
    apply andb_prop in Hd as [Hd Hds].
    cbn [star String.append]. apply in_or_app. left.
    rewrite run_digit. cbn [Re.rest]. rewrite Hd. cbn [flat_map].
    unfold advance. cbn [Re.pos Re.caps].
    replace (Nat.ltb p (S p)) with true by (symmetry; apply Nat.ltb_lt; lia).
    rewrite app_nil_r.
    replace (p + String.length (String d ds)) with (S p + String.length ds)
      by (simpl; lia).
    apply IH; [exact Hds|lia].
Qed.

Lemma run_Eol_end p e caps :
  e = EmptyString \/ e = String newline EmptyString ->
  run false Eol (mkState p e caps) = [mkState p e caps].
Proof. intros [->| ->]; reflexivity. Qed.

Lemma digits_end_split s :
  digits_end s = true ->
  exists ds e, s = String.append ds e /\ all_digits ds = true
               /\ (e = EmptyString \/ e = String newline EmptyString).
Proof.
  induction s as [|c t IH]; intros H.
  - exists EmptyString, EmptyString. auto.
  - simpl in H. destruct (is_digit c) eqn:Hc.
    + destruct (IH H) as (ds & e & -> & Hds & He).
      exists (String c ds), e. simpl. rewrite Hc, Hds. auto.
    + apply andb_prop in H as [Hn Ht].
      apply Ascii.eqb_eq in Hn. apply String.eqb_eq in Ht. subst.
      exists EmptyString, (String newline EmptyString). auto.
Qed.

(** One digit or more up to the end: the rest of the pattern matches. *)
Lemma run_digits1_end s p caps :
  digits1_end s = true ->
  run false (Seq (Seq digit (Star digit)) Eol) (mkState p s caps) <> [].
Proof.
  destruct s as [|d t]; [discriminate|]. unfold digits1_end. intros H.
  apply andb_prop in H as [Hd Ht].
  destruct (digits_end_split t Ht) as (ds & e & -> & Hds & He).
  assert (Hin : In (mkState (S p + String.length ds) e caps)
                   (flat_map (run false Eol)
                      (flat_map (run false (Star digit))
                         (run false digit
                            (mkState p (String d (String.append ds e)) caps))))).
  { apply in_flat_map. exists (mkState (S p + String.length ds) e caps).
    split; [|rewrite (run_Eol_end _ _ _ He); now left].
    rewrite run_digit. cbn [Re.rest]. rewrite Hd. cbn [flat_map].
    rewrite app_nil_r. unfold advance. rewrite run_Star. cbn [Re.rest Re.pos Re.caps].
    apply star_reaches; [exact Hds|]. rewrite LiteralFacts.length_append. lia. }
  intros E. rewrite !run_Seq in E. rewrite E in Hin. destruct Hin.
Qed.

(** Where the end anchor holds after a repetition over digits, digits
    lead up to the end. *)
Lemma star_digits_sound n : forall s s',
  In s' (star (run false digit) n s) -> run false Eol s' <> [] ->
  digits_end (Re.rest s) = true.
Proof.
  assert (Hbase : forall s, run false Eol s <> [] -> digits_end (Re.rest s) = true).
  { intros s Hs. cbn [run] in Hs.
    destruct (Re.rest s) as [|a [|b t]]; try reflexivity; [|now destruct Hs].
    simpl. destruct (Ascii.eqb a newline) eqn:Ha; [|now destruct Hs].
    apply Ascii.eqb_eq in Ha. subst a. reflexivity. }
  induction n as [|n IH]; intros s s' Hin Heol.
  - destruct Hin as [<-|[]]. now apply Hbase.
  - cbn [star] in Hin. apply in_app_or in Hin as [Hin|[<-|[]]];
      [|now apply Hbase].
    apply in_flat_map in Hin as (s1 & Hs1 & Hin).
    rewrite run_digit in Hs1.
    destruct (Re.rest s) as [|a t] eqn:Hr; [destruct Hs1|].
    destruct (is_digit a) eqn:Ha; [|destruct Hs1].
    destruct Hs1 as [<-|[]].
    destruct (Nat.ltb _ _); [|destruct Hin].
    simpl. rewrite Ha. exact (IH (advance s t) s' Hin Heol).
Qed.

Lemma run_digits1_sound s :
  run false (Seq (Seq digit (Star digit)) Eol) s <> [] ->
  digits1_end (Re.rest s) = true.
Proof.
  intros Hne.
  destruct (run false (Seq (Seq digit (Star digit)) Eol) s) as [|m ms] eqn:Hrun;
    [now destruct Hne|].
  assert (Hin : In m (run false (Seq (Seq digit (Star digit)) Eol) s))
    by (rewrite Hrun; now left).
  rewrite !run_Seq in Hin.
  apply in_flat_map in Hin as (s2 & Hs2 & Hm).
  apply in_flat_map in Hs2 as (s1 & Hs1 & Hs2).
  rewrite run_digit in Hs1.
  destruct (Re.rest s) as [|a t] eqn:Hr; [destruct Hs1|].
  destruct (is_digit a) eqn:Ha; [|destruct Hs1].
  destruct Hs1 as [<-|[]]. simpl. rewrite Ha. simpl.
  rewrite run_Star in Hs2.
  apply (star_digits_sound _ (advance s t) s2 Hs2).
  intros E. rewrite E in Hm. destruct Hm.
Qed.

Lemma run_digits1_iff s p caps :
  match run false (Seq (Seq digit (Star digit)) Eol) (mkState p s caps) with
  | [] => false
  | _ :: _ => true
  end = digits1_end s.
Proof.
  destruct (digits1_end s) eqn:Hs.
  - pose proof (run_digits1_end s p caps Hs) as Hne.
    destruct (run false _ _); [now destruct Hne|reflexivity].
  - destruct (run false _ _) eqn:E; [reflexivity|].
    assert (Hne : run false (Seq (Seq digit (Star digit)) Eol) (mkState p s caps)
                  <> []) by congruence.
    apply run_digits1_sound in Hne. simpl in Hne. congruence.
Qed.

(** [re.match('-?[0-9]+$', s)] succeeds exactly on the accepted strings. *)
Lemma match_int_pattern s :
  match match_ (false, int_pattern) s with
  | Some _ => true
  | None => false
  end = accepted s.
Proof.
  unfold match_, int_pattern. cbn [fst snd]. rewrite run_Seq.
  assert (Hpre : run false (Alt (Chr "-") Eps) (mkState 0 s [])
                 = match s with
                   | String c t =>
                       if Ascii.eqb c "-" then [mkState 1 t []; mkState 0 s []]
                       else [mkState 0 s []]
                   | EmptyString => [mkState 0 s []]
                   end).
  { cbn [run]. unfold one_chr, chr_eq. cbn [Re.rest].
    destruct s as [|c t]; [reflexivity|].
    rewrite (Ascii.eqb_sym "-" c). now destruct (Ascii.eqb c "-"). }
  rewrite Hpre. unfold accepted.
  destruct s as [|c t].
  - cbn [flat_map]. rewrite app_nil_r.
    pose proof (run_digits1_iff "" 0 []) as H0. simpl digits1_end in H0.
    now destruct (run false _ _).
  - destruct (Ascii.eqb c "-") eqn:Hc.
    + apply Ascii.eqb_eq in Hc. subst c. cbn [flat_map]. rewrite app_nil_r.
      rewrite <- (run_digits1_iff t 1 []).
      destruct (run false _ (mkState 1 t [])) eqn:E1; [|reflexivity].
      cbn [app].
      pose proof (run_digits1_iff (String "-" t) 0 []) as H0.
      simpl digits1_end in H0.
      now destruct (run false _ (mkState 0 (String "-" t) [])).
    + cbn [flat_map]. rewrite app_nil_r.
      rewrite <- (run_digits1_iff (String c t) 0 []).
      now destruct (run false (Seq (Seq digit (Star digit)) Eol)
                        (mkState 0 (String c t) [])).
Qed.

Lemma match_str_pattern s :
  exists m, match_str false pattern s = Ok m
            /\ match m with Some _ => true | None => false end = accepted s.
Proof.
  unfold match_str. rewrite compile_int_pattern.
  eexists. split; [reflexivity|apply match_int_pattern].
Qed.


(** *** Integer literals *)

Lemma all_digits_end t : all_digits t = true -> digits_end t = true.
Proof.
  induction t as [|c t IH]; simpl; [reflexivity|].
  intros H. apply andb_prop in H as [-> Ht]. now apply IH.
Qed.

Lemma all_digits1_end t :
  t <> EmptyString -> all_digits t = true -> digits1_end t = true.
Proof.
  destruct t as [|c t]; [congruence|]. simpl. intros _ H.
  apply andb_prop in H as [-> Ht]. now apply all_digits_end.
Qed.

Lemma literal_accepted s : is_int_literal s = true -> accepted s = true.
Proof.
  destruct s as [|c t]; [discriminate|]. unfold is_int_literal, accepted.
  destruct (Ascii.eqb c "-").
  - intros H. apply andb_prop in H as [Hne Hd].
    apply all_digits1_end; [|exact Hd].
    intros ->. discriminate Hne.
  - intros H. now apply all_digits1_end.
Qed.

Lemma rstrip_last t :
  match last_chr (rstrip t) with
  | Some a => is_space a = false
  | None => True
  end.
Proof.
  induction t as [|c t IH]; simpl; [exact I|].
  destruct (rstrip t) as [|a r] eqn:Hr.
  - destruct (is_space c) eqn:Hc; simpl; [exact I|exact Hc].
  - exact IH.
Qed.

Lemma digits_end_all y :
  match last_chr y with
  | Some a => is_space a = false
  | None => True
  end ->
  digits_end y = true -> all_digits y = true.
Proof.
  induction y as [|c t IH]; intros Hlast H; [reflexivity|].
  simpl in H. simpl. destruct (is_digit c) eqn:Hc.
  - simpl. apply IH; [|exact H]. destruct t; [exact I|exact Hlast].
  - apply andb_prop in H as [Hn Ht].
    apply Ascii.eqb_eq in Hn. apply String.eqb_eq in Ht. subst.
    simpl in Hlast. discriminate Hlast.
Qed.

Lemma last_chr_tail c t :
  t <> EmptyString -> last_chr (String c t) = last_chr t.
Proof. destruct t; [congruence|reflexivity]. Qed.

(** A stripped string that the pattern accepts is an integer literal:
    the one newline that [$] would let pass has been stripped. *)
Lemma accepted_strip s : accepted (strip s) = is_int_literal (strip s).
Proof.
  destruct (is_int_literal (strip s)) eqn:Hl; [now apply literal_accepted|].
  destruct (accepted (strip s)) eqn:Ha; [|reflexivity].
  pose proof (rstrip_last (lstrip s)) as Hlast. fold (strip s) in Hlast.
  destruct (strip s) as [|c t]; [discriminate Ha|].
  unfold accepted in Ha. unfold is_int_literal in Hl.
  assert (Hd1 : forall y,
            match last_chr y with
            | Some a => is_space a = false
            | None => True
            end ->
            digits1_end y = true -> y <> EmptyString /\ all_digits y = true).
  { intros y Hy H1. destruct y as [|d y]; [discriminate H1|].
    split; [discriminate|]. apply digits_end_all; [exact Hy|].
    simpl in H1. simpl. apply andb_prop in H1 as [-> H1]. exact H1. }
  destruct (Ascii.eqb c "-").
  - destruct t as [|d t]; [discriminate Ha|].
    destruct (Hd1 (String d t)) as [_ Hall]; [exact Hlast|exact Ha|].
    rewrite Hall in Hl. discriminate Hl.
  - destruct (Hd1 (String c t) Hlast Ha) as [_ Hall]. congruence.
Qed.

Lemma int_digits_all t : forall acc,
  all_digits t = true -> int_digits acc false t = Some (digits_value acc t).
Proof.
  induction t as [|c t IH]; intros acc H; [reflexivity|].
  simpl in H. apply andb_prop in H as [Hc Ht].
  simpl. rewrite Hc. now apply IH.
Qed.

Lemma int_unsigned_all t :
  t <> EmptyString -> all_digits t = true ->
  int_unsigned t = Some (digits_value 0 t).
Proof.
  destruct t as [|c t]; [congruence|]. intros _ H.
  simpl in H. apply andb_prop in H as [Hc Ht].
  unfold int_unsigned. rewrite Hc. cbn [digits_value].
  replace (10 * 0 + digit_val c)%Z with (digit_val c) by lia.
  now apply int_digits_all.
Qed.

Lemma digit_chr c :
  is_digit c = true -> is_space c = false /\ Ascii.eqb c ":" = false.
Proof.
  destruct c as [[] [] [] [] [] [] [] []]; intros H; try discriminate H;
    split; reflexivity.
Qed.

(** *** What [int] strips and what [strip] strips *)

Lemma int_space_is_space c : is_int_space c = true -> is_space c = true.
Proof.
  destruct c as [[] [] [] [] [] [] [] []]; intros H; try discriminate H;
    reflexivity.
Qed.

Lemma lstrip_int_lstrip s : lstrip (int_lstrip s) = lstrip s.
Proof.
  induction s as [|c t IH]; [reflexivity|]. cbn [int_lstrip].
  destruct (is_int_space c) eqn:Hc; [|reflexivity].
  cbn [lstrip]. now rewrite (int_space_is_space c Hc).
Qed.

Lemma rstrip_int_rstrip s : rstrip (int_rstrip s) = rstrip s.
Proof.
  induction s as [|c t IH]; [reflexivity|]. cbn [int_rstrip].
  destruct (int_rstrip t) as [|a r] eqn:Hr.
  - cbn [rstrip] in IH. cbn [rstrip]. rewrite <- IH.
    destruct (is_int_space c) eqn:Hc.
    + now rewrite (int_space_is_space c Hc).
    + reflexivity.
  - change (rstrip (String c (String a r)))
      with (match rstrip (String a r) with
            | EmptyString => if is_space c then EmptyString else String c EmptyString
            | t' => String c t'
            end).
    rewrite IH. reflexivity.
Qed.

Lemma lstrip_int_rstrip s : lstrip (int_rstrip s) = int_rstrip (lstrip s).
Proof.
  induction s as [|c t IH]; [reflexivity|].
  cbn [lstrip]. destruct (is_space c) eqn:Hc.
  - rewrite <- IH. cbn [int_rstrip].
    destruct (int_rstrip t) as [|a r] eqn:Hr.
    + destruct (is_int_space c); [reflexivity|]. cbn [lstrip]. now rewrite Hc.
    + cbn [lstrip]. now rewrite Hc.
  - assert (Hi : is_int_space c = false).
    { destruct (is_int_space c) eqn:E; [|reflexivity].
      apply int_space_is_space in E. congruence. }
    cbn [int_rstrip]. destruct (int_rstrip t) as [|a r];
      [rewrite Hi|]; cbn [lstrip]; now rewrite Hc.
Qed.

(** [strip] removes what [int] passes over, and possibly more. *)
Lemma strip_int_strip s : strip (int_strip s) = strip s.
Proof.
  unfold strip, int_strip.
  now rewrite lstrip_int_rstrip, rstrip_int_rstrip, lstrip_int_lstrip.
Qed.

Lemma int_lstrip_no_space s : no_space s = true -> int_lstrip s = s.
Proof.
  destruct s as [|c t]; [reflexivity|]. simpl. intros H.
  apply andb_prop in H as [Hc _].
  destruct (is_int_space c) eqn:E; [|reflexivity].
  apply int_space_is_space in E. rewrite E in Hc. discriminate Hc.
Qed.

Lemma int_rstrip_no_space s : no_space s = true -> int_rstrip s = s.
Proof.
  induction s as [|c t IH]; [reflexivity|]. simpl. intros H.
  apply andb_prop in H as [Hc Ht]. rewrite (IH Ht).
  destruct t; [|reflexivity].
  destruct (is_int_space c) eqn:E; [|reflexivity].
  apply int_space_is_space in E. rewrite E in Hc. discriminate Hc.
Qed.

Lemma int_strip_no_space s : no_space s = true -> int_strip s = s.
Proof.
  intros H. unfold int_strip. rewrite (int_lstrip_no_space s H).
  now apply int_rstrip_no_space.
Qed.

Lemma rstrip_keep b :
  match last_chr b with
  | Some a => is_space a = false
  | None => True
  end ->
  rstrip b = b.
Proof.
  induction b as [|c t IH]; [reflexivity|]. intros H.
  destruct t as [|d t].
  - simpl in H. simpl. now rewrite H.
  - change (last_chr (String c (String d t))) with (last_chr (String d t)) in H.
    change (rstrip (String c (String d t)))
      with (match rstrip (String d t) with
            | EmptyString => if is_space c then EmptyString else String c EmptyString
            | t' => String c t'
            end).
    now rewrite (IH H).
Qed.

(** *** What [int] reads *)

Lemma int_digits_last t : forall acc u z,
  int_digits acc u t = Some z ->
  (t = EmptyString /\ u = false)
  \/ exists a, last_chr t = Some a /\ is_digit a = true.
Proof.
  induction t as [|c t IH]; intros acc u z H.
  - left. split; [reflexivity|]. simpl in H. now destruct u.
  - right. cbn [int_digits] in H. destruct (is_digit c) eqn:Hc.
    + destruct (IH _ _ _ H) as [[-> _]|(a & Ha & Hd)].
      * exists c. now split.
      * exists a. split; [|exact Hd].
        rewrite last_chr_tail; [exact Ha|]. intros ->. discriminate Ha.
    + destruct (Ascii.eqb c "_"); [|discriminate H].
      destruct u; [discriminate H|].
      destruct (IH _ _ _ H) as [[_ E]|(a & Ha & Hd)]; [discriminate E|].
      exists a. split; [|exact Hd].
      rewrite last_chr_tail; [exact Ha|]. intros ->. discriminate Ha.
Qed.

Lemma int_unsigned_edges t z :
  int_unsigned t = Some z ->
  lstrip t = t
  /\ t <> EmptyString
  /\ exists a, last_chr t = Some a /\ is_digit a = true.
Proof.
  destruct t as [|c t]; [discriminate|]. unfold int_unsigned.
  destruct (is_digit c) eqn:Hc; [|discriminate]. intros H.
  split; [|split; [discriminate|]].
  - cbn [lstrip]. now rewrite (proj1 (digit_chr c Hc)).
  - destruct (int_digits_last _ _ _ _ H) as [[-> _]|(a & Ha & Hd)].
    + exists c. now split.
    + exists a. split; [|exact Hd].
      rewrite last_chr_tail; [exact Ha|]. intros ->. discriminate Ha.
Qed.

Lemma py_int_signed s :
  py_int s
  = match signed (int_strip s) with
    | Some z => if short (int_strip s) then Ok z else Raise ValueError
    | None => Raise ValueError
    end.
Proof.
  unfold py_int, signed, short. destruct (int_strip s) as [|c t]; [reflexivity|].
  destruct c as [[] [] [] [] [] [] [] []]; reflexivity.
Qed.

Lemma py_int_raises s e : py_int s = Raise e -> e = ValueError.
Proof.
  rewrite py_int_signed. destruct (signed _); [destruct (short _)|]; congruence.
Qed.

Lemma signed_edges body z : signed body = Some z -> strip body = body.
Proof.
  assert (Hlast : forall t a,
            last_chr t = Some a -> is_digit a = true ->
            match last_chr t with
            | Some a => is_space a = false
            | None => True
            end).
  { intros t a -> Hd. exact (proj1 (digit_chr a Hd)). }
  assert (Hsign : forall c t z',
            is_space c = false -> int_unsigned t = Some z' ->
            strip (String c t) = String c t).
  { intros c t z' Hc Hu. unfold strip. cbn [lstrip]. rewrite Hc.
    destruct (int_unsigned_edges t z' Hu) as (_ & Hne & a & Ha & Hd).
    apply rstrip_keep. rewrite (last_chr_tail c t Hne). exact (Hlast t a Ha Hd). }
  destruct body as [|c t]; [discriminate|]. unfold signed.
  destruct (Ascii.eqb c "-") eqn:Hm.
  - apply Ascii.eqb_eq in Hm. subst c.
    destruct (int_unsigned t) as [z'|] eqn:Hu; [|discriminate].
    intros _. now apply (Hsign _ _ z').
  - destruct (Ascii.eqb c "+") eqn:Hp.
    + apply Ascii.eqb_eq in Hp. subst c. intros Hu. now apply (Hsign _ _ z).
    + intros Hu.
      destruct (int_unsigned_edges _ z Hu) as (Hl & _ & a & Ha & Hd).
      unfold strip. rewrite Hl. apply rstrip_keep. exact (Hlast _ a Ha Hd).
Qed.

(** What [int] reads has no white space of [strip] left at its ends. *)
Lemma py_int_ok_strip s z : py_int s = Ok z -> int_strip s = strip s.
Proof.
  rewrite py_int_signed. destruct (signed (int_strip s)) as [z'|] eqn:Hs;
    [|discriminate].
  intros _. rewrite <- (strip_int_strip s). symmetry. exact (signed_edges _ _ Hs).
Qed.

Lemma signed_literal b :
  is_int_literal b = true -> signed b = Some (literal_value b).
Proof.
  destruct b as [|c t]; [discriminate|].
  unfold is_int_literal, literal_value, signed.
  destruct (Ascii.eqb c "-") eqn:Hc.
  - intros H. apply andb_prop in H as [Hne Hd].
    rewrite int_unsigned_all; [reflexivity| |exact Hd].
    intros ->. discriminate Hne.
  - intros H.
    assert (Hu : int_unsigned (String c t) = Some (digits_value 0 (String c t)))
      by (apply int_unsigned_all; [discriminate|exact H]).
    simpl in H. apply andb_prop in H as [Hd _].
    destruct (Ascii.eqb c "+") eqn:Hp; [|exact Hu].
    apply Ascii.eqb_eq in Hp. subst c. discriminate Hd.
Qed.

(** [int()] on a string that [strip] turns into an integer literal: the
    number that the literal denotes where [int] reads the string, and
    [ValueError] where it does not. *)
Lemma py_int_cases s :
  is_int_literal (strip s) = true ->
  py_int s = if int_reads s then Ok (literal_value (strip s)) else Raise ValueError.
Proof.
  intros Hl. unfold int_reads.
  destruct (String.eqb (int_strip s) (strip s)) eqn:E.
  - apply String.eqb_eq in E. rewrite py_int_signed, E, (signed_literal _ Hl).
    reflexivity.
  - cbn [andb]. destruct (py_int s) as [z|e] eqn:P.
    + apply py_int_ok_strip in P. rewrite P, String.eqb_refl in E. discriminate E.
    + now rewrite (py_int_raises s e P).
Qed.

(** [int()] reads an integer literal as the number it denotes. *)
Lemma py_int_literal s :
  is_int_literal (strip s) = true -> int_reads s = true ->
  py_int s = Ok (literal_value (strip s)).
Proof. intros Hl Hr. now rewrite (py_int_cases s Hl), Hr. Qed.

(** The string branch of [get] on a list, by what the pattern accepts. *)
Lemma get_list_string wrap l index default on_exception :
  get_list wrap l (KStr index) default on_exception
  = if is_int_literal (strip index) then z ← py_int index; getitem l z
    else
      if Nat.eqb (count ":" index) 1 || Nat.eqb (count ":" index) 2 then
        chks ← Finder.map_res chk (map strip (split ":" index));
        if existsb (fun b => b) chks
        then slice_of wrap l (map strip (split ":" index))
        else if on_exception then Raise TypeError else Ok default
      else if on_exception then Raise TypeError else Ok default.
Proof.
  unfold get_list.
  destruct (match_str_pattern (strip index)) as (m & -> & Hm).
  rewrite accepted_strip in Hm. cbn [mbind res_bind].
  destruct m; simpl in Hm; now rewrite <- Hm.
Qed.

(** X13. A string index that is, after stripping white space, an
    optional minus sign and decimal digits is a position where [int]
    reads the string: [get] returns what it returns for the integer that
    the string denotes, under both settings of [on_exception].  Where
    [int] does not read it (a separator 28 to 31 at an end, which
    [strip] removes and [int] refuses, or more than 4300 digits), [int]
    raises [ValueError] and [get] returns the default, or raises
    [ValueError] under [on_exception]. *)
Theorem integer_string_is_position
    (l : list pyval) (s : string) (default : pyval) (on_exception : bool) :
  is_int_literal (strip s) = true ->
  (int_reads s = true ->
   py_int s = Ok (literal_value (strip s))
   /\ get (PList l) (KStr s) default on_exception
      = get (PList l) (KInt (literal_value (strip s))) default on_exception
   /\ get (PTuple l) (KStr s) default on_exception
      = get (PTuple l) (KInt (literal_value (strip s))) default on_exception)
  /\ (int_reads s = false ->
      py_int s = Raise ValueError
      /\ get (PList l) (KStr s) default on_exception
         = (if on_exception then Raise ValueError else Ok default)
      /\ get (PTuple l) (KStr s) default on_exception
         = (if on_exception then Raise ValueError else Ok default)).
Proof.
  intros Hl. pose proof (py_int_cases s Hl) as Hp.
  split; intros Hr; rewrite Hr in Hp; (split; [exact Hp|]);
    unfold get, get_body; rewrite !get_list_string, Hl, Hp;
    split; reflexivity.
Qed.

Lemma integer_string_is_position_witness :
  let l := [PInt 7; PInt 8; PInt 9] in
  (int_reads " -2 " = true ->
   py_int " -2 " = Ok (-2)%Z
   /\ get (PList l) (KStr " -2 ") PNone false = get (PList l) (KInt (-2)) PNone false
   /\ get (PTuple l) (KStr " -2 ") PNone false
      = get (PTuple l) (KInt (-2)) PNone false)
  /\ (int_reads " -2 " = false ->
      py_int " -2 " = Raise ValueError
      /\ get (PList l) (KStr " -2 ") PNone false = Ok PNone
      /\ get (PTuple l) (KStr " -2 ") PNone false = Ok PNone).
Proof.
  intros l.
  apply (integer_string_is_position l " -2 " PNone false).
  reflexivity.
Defined.

(** The separator 28 before a digit: [strip] removes it and the pattern
    accepts the rest, [int] refuses the string, and [get] returns the
    default. *)
Lemma separator_is_not_read :
  let s := String (ascii_of_nat 28) "1" in
  is_int_literal (strip s) = true
  /\ int_reads s = false
  /\ py_int s = Raise ValueError
  /\ get (PList [PInt 7; PInt 8]) (KStr s) PNone false = Ok PNone
  /\ get (PList [PInt 7; PInt 8]) (KStr s) PNone true = Raise ValueError.
Proof. vm_compute. repeat split. Qed.



(** *** Integer positions *)

Lemma getitem_nat l n v : l !! n = Some v -> getitem l (Z.of_nat n) = Ok v.
Proof.
  intros Hn. pose proof (lookup_lt_Some _ _ _ Hn) as Hlt.
  unfold getitem, len.
  replace (Z.of_nat n <? 0)%Z with false by (symmetry; apply Z.ltb_ge; lia).
  replace (Z.of_nat n <? 0)%Z with false by (symmetry; apply Z.ltb_ge; lia).
  replace (Z.of_nat (length l) <=? Z.of_nat n)%Z with false
    by (symmetry; apply Z.leb_gt; lia).
  simpl. now rewrite Nat2Z.id, AccessFacts.nth_error_lookup, Hn.
Qed.

Lemma getitem_from_end l n v :
  l !! n = Some v -> getitem l (Z.of_nat n - len l) = Ok v.
Proof.
  intros Hn. pose proof (lookup_lt_Some _ _ _ Hn) as Hlt.
  unfold getitem, len.
  replace (Z.of_nat n - Z.of_nat (length l) <? 0)%Z with true
    by (symmetry; apply Z.ltb_lt; lia).
  replace (Z.of_nat n - Z.of_nat (length l) + Z.of_nat (length l))%Z
    with (Z.of_nat n) by lia.
  replace (Z.of_nat n <? 0)%Z with false by (symmetry; apply Z.ltb_ge; lia).
  replace (Z.of_nat (length l) <=? Z.of_nat n)%Z with false
    by (symmetry; apply Z.leb_gt; lia).
  simpl. now rewrite Nat2Z.id, AccessFacts.nth_error_lookup, Hn.
Qed.

(** X14. An integer index on a list counts from the front when it is
    not negative and from the end when it is negative; an index outside
    [-len, len) gives the default, or [IndexError] under [on_exception];
    a [bool] index is the position 0 or 1; the index [None] gives the
    default under both settings. *)
Theorem integer_index_bounds (l : list pyval) (default : pyval) :
  (forall n v on_exception,
     l !! n = Some v ->
     get (PList l) (KInt (Z.of_nat n)) default on_exception = Ok v
     /\ get (PList l) (KInt (Z.of_nat n - Z.of_nat (length l))) default on_exception
        = Ok v)
  /\ (forall z,
        (z < - Z.of_nat (length l) \/ Z.of_nat (length l) <= z)%Z ->
        get (PList l) (KInt z) default false = Ok default
        /\ get (PList l) (KInt z) default true = Raise IndexError)
  /\ (forall b on_exception,
        get (PList l) (KBool b) default on_exception
        = get (PList l) (KInt (if b then 1 else 0)) default on_exception)
  /\ (forall on_exception, get (PList l) KNone default on_exception = Ok default).
Proof.
  split; [|split; [|split]].
  - intros n v b Hn. unfold get, get_body, get_list.
    rewrite (getitem_nat l n v Hn).
    pose proof (getitem_from_end l n v Hn) as Hend. unfold len in Hend.
    rewrite Hend. now split.
  - intros z Hz. unfold get, get_body, get_list.
    rewrite (DLQueryFacts.getitem_out_of_range l z Hz). now split.
  - intros b e. reflexivity.
  - intros e. unfold get, get_body, get_list. now destruct e.
Qed.

(** *** Slices over the whole list *)

Lemma take_range_forward l : forall k,
  k <= length l ->
  take_range (length l - k) l (Z.of_nat k) (Z.of_nat (length l)) 1 = skipn k l.
Proof.
  intros k. remember (length l - k) as f eqn:Hf. revert k Hf.
  induction f as [|f IH]; intros k Hf Hk.
  - simpl. rewrite drop_ge by lia. reflexivity.
  - cbn [take_range].
    replace (0 <? 1)%Z with true by reflexivity.
    replace (Z.of_nat k <? Z.of_nat (length l))%Z with true
      by (symmetry; apply Z.ltb_lt; lia).
    rewrite Nat2Z.id, AccessFacts.nth_error_lookup.
    destruct (lookup_lt_is_Some_2 l k) as [v Hv]; [lia|].
    rewrite Hv, (drop_S l v k Hv). f_equal.
    replace (Z.of_nat k + 1)%Z with (Z.of_nat (S k)) by lia.
    apply IH; lia.
Qed.

Lemma take_range_backward l : forall k,
  k <= length l ->
  take_range k l (Z.of_nat k - 1) (-1) (-1) = rev (firstn k l).
Proof.
  induction k as [|k IH]; intros Hk; [reflexivity|].
  cbn [take_range].
  replace (0 <? -1)%Z with false by reflexivity.
  replace (-1 <? Z.of_nat (S k) - 1)%Z with true
    by (symmetry; apply Z.ltb_lt; lia).
  replace (Z.of_nat (S k) - 1)%Z with (Z.of_nat k) by lia.
  rewrite Nat2Z.id, AccessFacts.nth_error_lookup.
  destruct (lookup_lt_is_Some_2 l k) as [v Hv]; [lia|].
  rewrite Hv, (take_S_r l k v Hv), rev_app_distr. simpl. f_equal.
  replace (Z.of_nat k + -1)%Z with (Z.of_nat k - 1)%Z by lia.
  apply IH. lia.
Qed.

Lemma getslice_all l : getslice l None None None = Ok l.
Proof.
  unfold getslice, slice_indices, len. simpl.
  pose proof (take_range_forward l 0) as H.
  change (Z.of_nat 0) with 0%Z in H. rewrite Nat.sub_0_r in H.
  rewrite H by lia. reflexivity.
Qed.

Lemma getslice_all_step l : getslice l None None (Some 1%Z) = Ok l.
Proof.
  unfold getslice, slice_indices, len. simpl.
  pose proof (take_range_forward l 0) as H.
  change (Z.of_nat 0) with 0%Z in H. rewrite Nat.sub_0_r in H.
  rewrite H by lia. reflexivity.
Qed.

Lemma getslice_reverse l : getslice l None None (Some (-1)%Z) = Ok (rev l).
Proof.
  unfold getslice, slice_indices, len. simpl.
  rewrite (take_range_backward l (length l)) by lia.
  now rewrite firstn_all.
Qed.

(** The slice branch of [get] on a list. *)
Lemma get_list_slice wrap l index default on_exception parts chks bounds :
  is_int_literal (strip index) = false ->
  Nat.eqb (count ":" index) 1 || Nat.eqb (count ":" index) 2 = true ->
  map strip (split ":" index) = parts ->
  Finder.map_res chk parts = Ok chks ->
  existsb (fun b => b) chks = true ->
  Finder.map_res int_or_None parts = Ok bounds ->
  get_list wrap l (KStr index) default on_exception
  = match bounds with
    | [i; j] => r ← getslice l i j None; Ok (wrap r)
    | [i; j; k] => r ← getslice l i j k; Ok (wrap r)
    | _ => Raise ValueError
    end.
Proof.
  intros Hl Hc Hp Hchk Hany Hb.
  rewrite get_list_string, Hl, Hc, Hp, Hchk. cbn [mbind res_bind].
  rewrite Hany. unfold slice_of. rewrite Hb. reflexivity.
Qed.

(** X16. On a list or a tuple, the indices [':'] and ['::'] return a
    copy of the whole sequence and ['::-1'] returns it reversed, of the
    same kind as the data, under both settings of [on_exception]. *)
Theorem whole_slices (l : list pyval) (default : pyval) (on_exception : bool) :
  get (PList l) (KStr ":") default on_exception = Ok (PList l)
  /\ get (PList l) (KStr "::") default on_exception = Ok (PList l)
  /\ get (PList l) (KStr "::-1") default on_exception = Ok (PList (rev l))
  /\ get (PTuple l) (KStr ":") default on_exception = Ok (PTuple l)
  /\ get (PTuple l) (KStr "::") default on_exception = Ok (PTuple l)
  /\ get (PTuple l) (KStr "::-1") default on_exception = Ok (PTuple (rev l)).
Proof.
  assert (H2 : forall wrap,
            get_list wrap l (KStr ":") default on_exception = Ok (wrap l)).
  { intros wrap.
    rewrite (get_list_slice wrap l ":" default on_exception
               [""; ""] [true; true] [None; None]); try reflexivity.
    now rewrite getslice_all. }
  assert (H3 : forall wrap,
            get_list wrap l (KStr "::") default on_exception = Ok (wrap l)).
  { intros wrap.
    rewrite (get_list_slice wrap l "::" default on_exception
               [""; ""; ""] [true; true; true] [None; None; None]);
      try reflexivity.
    now rewrite getslice_all. }
  assert (Hr : forall wrap,
            get_list wrap l (KStr "::-1") default on_exception = Ok (wrap (rev l))).
  { intros wrap.
    rewrite (get_list_slice wrap l "::-1" default on_exception
               [""; ""; "-1"] [true; true; true] [None; None; Some (-1)%Z]);
      try reflexivity.
    now rewrite getslice_reverse. }
  unfold get, get_body. rewrite !H2, !H3, !Hr. repeat split.
Qed.


(** *** Slice strings with integer components *)

Lemma chk_spec p :
  chk p = Ok (is_int_literal (strip p) || String.eqb p EmptyString).
Proof.
  unfold chk. destruct (match_str_pattern (strip p)) as (m & -> & Hm).
  rewrite accepted_strip in Hm. cbn [mbind res_bind].
  destruct m; simpl in Hm; rewrite <- Hm; reflexivity.
Qed.

Lemma all_digits_chrs t :
  all_digits t = true -> no_space t = true /\ count ":" t = 0.
Proof.
  induction t as [|c t IH]; intros H; [split; reflexivity|].
  simpl in H. apply andb_prop in H as [Hc Ht].
  destruct (digit_chr c Hc) as [Hs Hcol]. destruct (IH Ht) as [Hn Hcount].
  simpl. rewrite Hs, Hcol, Hn, Hcount. split; reflexivity.
Qed.

Lemma slice_part_chrs p :
  is_slice_part p = true -> no_space p = true /\ count ":" p = 0.
Proof.
  unfold is_slice_part. intros H. apply orb_prop in H as [H|H].
  - apply String.eqb_eq in H. subst p. split; reflexivity.
  - destruct p as [|c t]; [discriminate H|]. unfold is_int_literal in H.
    destruct (Ascii.eqb c "-") eqn:Hc.
    + apply Ascii.eqb_eq in Hc. subst c. apply andb_prop in H as [_ H].
      destruct (all_digits_chrs t H) as [Hn Hcount].
      simpl. rewrite Hn, Hcount. split; reflexivity.
    + now apply all_digits_chrs.
Qed.

Lemma lstrip_no_space s : no_space s = true -> lstrip s = s.
Proof.
  destruct s as [|c t]; [reflexivity|]. simpl. intros H.
  apply andb_prop in H as [Hc _]. now destruct (is_space c).
Qed.

Lemma rstrip_no_space s : no_space s = true -> rstrip s = s.
Proof.
  induction s as [|c t IH]; [reflexivity|]. simpl. intros H.
  apply andb_prop in H as [Hc Ht]. rewrite (IH Ht).
  destruct t; [|reflexivity]. now destruct (is_space c).
Qed.

Lemma strip_no_space s : no_space s = true -> strip s = s.
Proof.
  intros H. unfold strip. rewrite (lstrip_no_space s H). now apply rstrip_no_space.
Qed.

Lemma no_space_colon i j :
  no_space i = true -> no_space j = true -> no_space (colon i j) = true.
Proof.
  intros Hi Hj. unfold colon. induction i as [|c t IH]; simpl.
  - exact Hj.
  - simpl in Hi. apply andb_prop in Hi as [-> Ht]. now apply IH.
Qed.

Lemma count_colon i j :
  count ":" (colon i j) = count ":" i + S (count ":" j).
Proof.
  unfold colon. induction i as [|c t IH]; simpl; [reflexivity|].
  rewrite IH. lia.
Qed.

Lemma split_none c s : count c s = 0 -> split c s = [s].
Proof.
  induction s as [|a t IH]; [reflexivity|]. simpl.
  destruct (Ascii.eqb a c); [discriminate|]. intros H. now rewrite (IH H).
Qed.

Lemma split_colon i j :
  count ":" i = 0 -> split ":" (colon i j) = i :: split ":" j.
Proof.
  unfold colon. induction i as [|a t IH]; [reflexivity|]. simpl.
  destruct (Ascii.eqb a ":"); [discriminate|]. intros H. now rewrite (IH H).
Qed.

Lemma literal_no_colon s : is_int_literal s = true -> count ":" s = 0.
Proof.
  intros H. apply (slice_part_chrs s). unfold is_slice_part.
  rewrite H. apply orb_true_r.
Qed.

Lemma chk_slice_part p : is_slice_part p = true -> chk p = Ok true.
Proof.
  intros H. rewrite chk_spec.
  destruct (slice_part_chrs p H) as [Hn _]. rewrite (strip_no_space p Hn).
  unfold is_slice_part in H. now rewrite orb_comm, H.
Qed.

Lemma int_or_None_slice_part p :
  is_slice_part p = true ->
  int_or_None p = if short p then Ok (part_value p) else Raise ValueError.
Proof.
  intros H. unfold int_or_None, part_value.
  destruct p as [|c t]; [reflexivity|]. cbn [String.eqb].
  destruct (slice_part_chrs _ H) as [Hn _].
  unfold is_slice_part in H. cbn [String.eqb orb] in H.
  rewrite <- (strip_no_space _ Hn) in H.
  rewrite (py_int_cases _ H). unfold int_reads.
  rewrite (strip_no_space _ Hn), (int_strip_no_space _ Hn), String.eqb_refl.
  cbn [andb]. now destruct (short (String c t)).
Qed.

(** The slice branch of [get] on a string whose components hold no white
    space and no colon. *)
Lemma get_list_parts wrap l index default on_exception parts :
  is_int_literal (strip index) = false ->
  Nat.eqb (count ":" index) 1 || Nat.eqb (count ":" index) 2 = true ->
  map strip (split ":" index) = parts ->
  Forall (fun p => is_slice_part p = true) parts ->
  parts <> [] ->
  get_list wrap l (KStr index) default on_exception = slice_of wrap l parts.
Proof.
  intros Hl Hc Hp Hall Hne.
  rewrite get_list_string, Hl, Hc, Hp.
  assert (Hchk : exists chks, Finder.map_res chk parts = Ok chks
                              /\ existsb (fun b => b) chks = true).
  { destruct parts as [|p parts]; [congruence|].
    apply Forall_cons in Hall as [Hp1 Hall]. clear Hp Hne.
    cbn [Finder.map_res]. rewrite (chk_slice_part p Hp1). cbn [mbind res_bind].
    assert (Hrest : exists cs, Finder.map_res chk parts = Ok cs).
    { induction Hall as [|q qs Hq _ IH]; [now exists []|].
      destruct IH as [cs Hcs]. cbn [Finder.map_res].
      rewrite (chk_slice_part q Hq), Hcs. cbn [mbind res_bind]. now eexists. }
    destruct Hrest as [cs ->]. cbn [mbind res_bind]. now eexists. }
  destruct Hchk as (chks & -> & Hany). cbn [mbind res_bind]. now rewrite Hany.
Qed.

Lemma take_range_In l x : forall fuel cur stop step,
  In x (take_range fuel l cur stop step) -> In x l.
Proof.
  induction fuel as [|f IH]; intros cur stop step Hin; [destruct Hin|].
  cbn [take_range] in Hin.
  destruct (if (0 <? step)%Z then (cur <? stop)%Z else (stop <? cur)%Z);
    [|destruct Hin].
  destruct (nth_error l (Z.to_nat cur)) as [v|] eqn:Hv; [|destruct Hin].
  destruct Hin as [<-|Hin]; [now apply nth_error_In in Hv|now apply IH in Hin].
Qed.

(** A slice over a step that is not zero succeeds with elements of the
    list. *)
Lemma getslice_ok l i j k :
  k <> Some 0%Z ->
  exists r, getslice l i j k = Ok r /\ forall x, In x r -> In x l.
Proof.
  intros Hk. unfold getslice, slice_indices.
  destruct (match k with Some s => s | None => 1%Z end =? 0)%Z eqn:Hz.
  - apply Z.eqb_eq in Hz. destruct k as [z|]; [congruence|discriminate Hz].
  - cbn [mbind res_bind]. eexists. split; [reflexivity|].
    intros x. apply take_range_In.
Qed.

Lemma getslice_zero_step l i j : getslice l i j (Some 0%Z) = Raise ValueError.
Proof. reflexivity. Qed.

(** X15. A slice string whose components are integer literals or empty
    is a Python slice: where no component has more than 4300 digits,
    [get] on a list returns [data[slice(i, j)]] or
    [data[slice(i, j, k)]] for the bounds that the components denote, a
    list of elements of the data, and never the default, whatever the
    bounds; a step that denotes zero gives the default, or [ValueError]
    under [on_exception], and so does a component of more than 4300
    digits, which [int] refuses. *)
Theorem slice_string_of_integers
    (l : list pyval) (i j k : string) (default : pyval) (on_exception : bool) :
  is_slice_part i = true -> is_slice_part j = true -> is_slice_part k = true ->
  (short i && short j = true ->
   exists r,
     getslice l (part_value i) (part_value j) None = Ok r
     /\ get (PList l) (KStr (colon i j)) default on_exception = Ok (PList r)
     /\ forall x, In x r -> In x l)
  /\ (short i && short j && short k = true ->
      part_value k <> Some 0%Z ->
      exists r,
        getslice l (part_value i) (part_value j) (part_value k) = Ok r
        /\ get (PList l) (KStr (colon i (colon j k))) default on_exception
           = Ok (PList r)
        /\ forall x, In x r -> In x l)
  /\ (short i && short j && short k = true ->
      part_value k = Some 0%Z ->
      get (PList l) (KStr (colon i (colon j k))) default on_exception
      = if on_exception then Raise ValueError else Ok default)
  /\ (short i && short j = false ->
      get (PList l) (KStr (colon i j)) default on_exception
      = if on_exception then Raise ValueError else Ok default)
  /\ (short i && short j && short k = false ->
      get (PList l) (KStr (colon i (colon j k))) default on_exception
      = if on_exception then Raise ValueError else Ok default).
Proof.
  intros Hi Hj Hk.
  destruct (slice_part_chrs i Hi) as [Hni Hci].
  destruct (slice_part_chrs j Hj) as [Hnj Hcj].
  destruct (slice_part_chrs k Hk) as [Hnk Hck].
  assert (H2 : get_list PList l (KStr (colon i j)) default on_exception
               = slice_of PList l [i; j]).
  { apply get_list_parts.
    - rewrite (strip_no_space _ (no_space_colon i j Hni Hnj)).
      destruct (is_int_literal (colon i j)) eqn:E; [|reflexivity].
      apply literal_no_colon in E. rewrite count_colon in E. lia.
    - rewrite count_colon, Hci, Hcj. reflexivity.
    - rewrite (split_colon i j Hci), (split_none _ j Hcj). simpl.
      now rewrite (strip_no_space i Hni), (strip_no_space j Hnj).
    - repeat constructor; assumption.
    - discriminate. }
  assert (H3 : get_list PList l (KStr (colon i (colon j k))) default on_exception
               = slice_of PList l [i; j; k]).
  { apply get_list_parts.
    - rewrite (strip_no_space _
                 (no_space_colon i _ Hni (no_space_colon j k Hnj Hnk))).
      destruct (is_int_literal (colon i (colon j k))) eqn:E; [|reflexivity].
      apply literal_no_colon in E. rewrite count_colon in E. lia.
    - rewrite !count_colon, Hci, Hcj, Hck. reflexivity.
    - rewrite (split_colon i _ Hci), (split_colon j k Hcj), (split_none _ k Hck).
      simpl.
      now rewrite (strip_no_space i Hni), (strip_no_space j Hnj),
        (strip_no_space k Hnk).
    - repeat constructor; assumption.
    - discriminate. }
  unfold get, get_body. rewrite H2, H3. unfold slice_of.
  cbn [Finder.map_res].
  rewrite (int_or_None_slice_part i Hi), (int_or_None_slice_part j Hj),
    (int_or_None_slice_part k Hk).
  split; [|split; [|split; [|split]]].
  - intros Hs. apply andb_prop in Hs as [-> ->]. cbn [mbind res_bind].
    destruct (getslice_ok l (part_value i) (part_value j) None) as (r & Hr & Hin);
      [discriminate|].
    exists r. rewrite Hr. auto.
  - intros Hs Hnz. apply andb_prop in Hs as [Hs ->].
    apply andb_prop in Hs as [-> ->]. cbn [mbind res_bind].
    destruct (getslice_ok l (part_value i) (part_value j) (part_value k) Hnz)
      as (r & Hr & Hin).
    exists r. rewrite Hr. auto.
  - intros Hs Hz. apply andb_prop in Hs as [Hs ->].
    apply andb_prop in Hs as [-> ->]. cbn [mbind res_bind].
    rewrite Hz, getslice_zero_step. reflexivity.
  - intros Hs. destruct (short i); [destruct (short j); [discriminate Hs|]|];
      reflexivity.
  - intros Hs.
    destruct (short i);
      [destruct (short j); [destruct (short k); [discriminate Hs|]|]|];
      reflexivity.
Qed.

Lemma slice_string_of_integers_witness :
  let l := [PInt 7; PInt 8; PInt 9] in
  (short "-2" && short "" = true ->
   exists r,
     getslice l (part_value "-2") (part_value "") None = Ok r
     /\ get (PList l) (KStr (colon "-2" "")) PNone false = Ok (PList r)
     /\ forall x, In x r -> In x l)
  /\ (short "-2" && short "" && short "00" = true ->
      part_value "00" <> Some 0%Z ->
      exists r,
        getslice l (part_value "-2") (part_value "") (part_value "00") = Ok r
        /\ get (PList l) (KStr (colon "-2" (colon "" "00"))) PNone false
           = Ok (PList r)
        /\ forall x, In x r -> In x l)
  /\ (short "-2" && short "" && short "00" = true ->
      part_value "00" = Some 0%Z ->
      get (PList l) (KStr (colon "-2" (colon "" "00"))) PNone false
      = Ok PNone)
  /\ (short "-2" && short "" = false ->
      get (PList l) (KStr (colon "-2" "")) PNone false = Ok PNone)
  /\ (short "-2" && short "" && short "00" = false ->
      get (PList l) (KStr (colon "-2" (colon "" "00"))) PNone false = Ok PNone).
Proof.
  intros l.
  apply (slice_string_of_integers l "-2" "" "00" PNone false); reflexivity.
Defined.

End IndexFacts.

(** ** Facts about [utils.Printer] *)

Module PrinterFacts.
Import Printer.

Lemma length_times c n : String.length (times c n) = n.
Proof. induction n as [|n IH]; simpl; [reflexivity|now rewrite IH]. Qed.

Lemma length_border width : String.length (border width) = width + 4.
Proof.
  unfold border. rewrite !LiteralFacts.length_append, length_times. simpl. lia.
Qed.

Lemma length_row width item :
  String.length item <= width -> String.length (row width item) = width + 4.
Proof.
  intros H. unfold row, ljust.
  rewrite !LiteralFacts.length_append, length_times. simpl. lia.
Qed.

Lemma max_len_ge lines width :
  max_len lines = Ok width -> forall x, In x lines -> String.length x <= width.
Proof.
  unfold max_len. destruct lines as [|y ys] eqn:E; [discriminate|].
  rewrite <- E. clear E y ys. intros [= <-].
  induction lines as [|y ys IH]; intros x Hx; [destruct Hx|].
  simpl. destruct Hx as [->|Hx]; [lia|]. specialize (IH x Hx). lia.
Qed.

Lemma max_len_attained lines width :
  max_len lines = Ok width -> exists x, In x lines /\ String.length x = width.
Proof.
  unfold max_len. destruct lines as [|y ys] eqn:E; [discriminate|].
  rewrite <- E. assert (Hne : lines <> []) by (rewrite E; discriminate).
  clear E y ys. intros [= <-].
  induction lines as [|y ys IH]; [congruence|].
  destruct ys as [|z zs].
  - exists y. simpl. split; [now left|lia].
  - destruct IH as (x & Hx & Hlen); [discriminate|].
    cbn [fold_right] in *.
    destruct (Nat.max_spec (String.length y)
                (Nat.max (String.length z)
                   (fold_right (fun s m => Nat.max (String.length s) m) 0 zs)))
      as [[_ ->]|[_ ->]].
    + exists x. split; [now right|exact Hlen].
    + exists y. split; [now left|reflexivity].
Qed.

Lemma splitlines_nil s : splitlines s = [] <-> s = EmptyString.
Proof.
  split; [|now intros ->].
  destruct s as [|c t]; [reflexivity|]. simpl.
  destruct (is_linebreak c); [discriminate|].
  destruct (splitlines t); discriminate.
Qed.

Lemma flat_map_splitlines_nil data :
  flat_map splitlines data = [] <-> forall item, In item data -> item = EmptyString.
Proof.
  induction data as [|x xs IH]; simpl.
  - split; [intros _ item []|reflexivity].
  - split.
    + intros H. apply app_eq_nil in H as [Hx Hxs].
      apply splitlines_nil in Hx. intros item [<-|Hin]; [exact Hx|].
      now apply IH.
    + intros H. rewrite (proj2 (splitlines_nil x)) by (apply H; now left).
      apply IH. intros item Hin. apply H. now right.
Qed.

(** X17. The box that [Printer.print] draws is rectangular: whenever it
    prints, every printed line but the failure message has the same
    length, four more than the longest line among the lines of the data,
    the header and the footer; the failure message, if any, is printed
    last and as it is. *)
Theorem printed_box_is_rectangular
    (data : list string) (header footer failure_msg : string)
    (out : list string) :
  print data header footer failure_msg = Ok out ->
  exists width lines,
    out = lines ++ (if truthy failure_msg then [failure_msg] else [])
    /\ (forall x, In x lines -> String.length x = width + 4)
    /\ (forall x,
          In x (flat_map splitlines data ++ splitlines header ++ splitlines footer) ->
          String.length x <= width)
    /\ (exists x,
          In x (flat_map splitlines data ++ splitlines header ++ splitlines footer)
          /\ String.length x = width)
    /\ length lines
       = 2 + length (flat_map splitlines data)
         + (if truthy header then S (length (splitlines header)) else 0)
         + (if truthy footer then S (length (splitlines footer)) else 0).
Proof.
  unfold print.
  destruct (max_len (flat_map splitlines data ++ splitlines header
                       ++ splitlines footer)) as [width|e] eqn:Hmax;
    [|discriminate].
  cbn [mbind res_bind]. intros [= <-].
  pose proof (max_len_ge _ _ Hmax) as Hge.
  exists width,
    (box width (flat_map splitlines data) (splitlines header) (splitlines footer)
       header footer).
  split; [unfold box; now rewrite <- !app_assoc|].
  split; [|split; [exact Hge|split; [now apply max_len_attained|]]].
  - assert (Hrows : forall ls x,
              (forall y, In y ls -> String.length y <= width) ->
              In x (map (row width) ls) -> String.length x = width + 4).
    { intros ls x Hls Hx. apply in_map_iff in Hx as (y & <- & Hy).
      apply length_row. now apply Hls. }
    intros x Hx. unfold box in Hx.
    repeat (apply in_app_or in Hx as [Hx|Hx]).
    + destruct Hx as [<-|[]]. apply length_border.
    + destruct (truthy header); [|destruct Hx].
      apply in_app_or in Hx as [Hx|[<-|[]]]; [|apply length_border].
      apply (Hrows (splitlines header)); [|exact Hx].
      intros y Hy. apply Hge. apply in_or_app. right. apply in_or_app. now left.
    + apply (Hrows (flat_map splitlines data)); [|exact Hx].
      intros y Hy. apply Hge. apply in_or_app. now left.
    + destruct Hx as [<-|[]]. apply length_border.
    + destruct (truthy footer); [|destruct Hx].
      apply in_app_or in Hx as [Hx|[<-|[]]]; [|apply length_border].
      apply (Hrows (splitlines footer)); [|exact Hx].
      intros y Hy. apply Hge. apply in_or_app. right. apply in_or_app. now right.
  - unfold box. rewrite !length_app, !length_map. simpl.
    destruct (truthy header), (truthy footer);
      rewrite ?length_app, ?length_map; simpl; lia.
Qed.

Lemma printed_box_is_rectangular_witness :
  exists width lines,
    ["+-----+"; "| ab  |"; "| cde |"; "+-----+"; "failed"]
    = lines ++ (if truthy "failed" then ["failed"] else [])
    /\ (forall x, In x lines -> String.length x = width + 4)
    /\ (forall x,
          In x (flat_map splitlines ["ab"; "cde"] ++ splitlines "" ++ splitlines "") ->
          String.length x <= width)
    /\ (exists x,
          In x (flat_map splitlines ["ab"; "cde"] ++ splitlines "" ++ splitlines "")
          /\ String.length x = width)
    /\ length lines
       = 2 + length (flat_map splitlines ["ab"; "cde"])
         + (if truthy "" then S (length (splitlines "")) else 0)
         + (if truthy "" then S (length (splitlines "")) else 0).
Proof.
  apply (printed_box_is_rectangular ["ab"; "cde"] "" "" "failed"). reflexivity.
Defined.

(** X18. [Printer.print] raises [ValueError], before printing anything,
    exactly when there is no line to measure: the header and the footer
    are empty and every item of the data prints as the empty string (no
    item at all included).  A failure message does not prevent it. *)
Theorem print_without_lines_raises
    (data : list string) (header footer failure_msg : string) :
  (print data header footer failure_msg = Raise ValueError
   <-> header = EmptyString /\ footer = EmptyString
       /\ forall item, In item data -> item = EmptyString)
  /\ (forall e, print data header footer failure_msg = Raise e -> e = ValueError)
  /\ print [] "" "" failure_msg = Raise ValueError
  /\ print [""] "" "" failure_msg = Raise ValueError.
Proof.
  assert (Hraise : forall e, print data header footer failure_msg = Raise e ->
            e = ValueError
            /\ flat_map splitlines data ++ splitlines header ++ splitlines footer
               = []).
  { unfold print, max_len. intros e.
    destruct (flat_map splitlines data ++ splitlines header ++ splitlines footer);
      [now intros [= <-]|discriminate]. }
  split; [|split; [intros e He; exact (proj1 (Hraise e He))|split; reflexivity]].
  split.
  - intros H. destruct (Hraise _ H) as [_ Hnil].
    apply app_eq_nil in Hnil as [Hd Hhf]. apply app_eq_nil in Hhf as [Hh Hf].
    apply splitlines_nil in Hh, Hf.
    pose proof (proj1 (flat_map_splitlines_nil data) Hd) as Hd'. auto.
  - intros (-> & -> & Hd). unfold print.
    rewrite (proj2 (flat_map_splitlines_nil data) Hd). reflexivity.
Qed.

End PrinterFacts.

(** ** Facts about [ObjectDict] *)

Module ObjectDictFacts.
Import ObjectDict.

(** Induction over a value and the values it holds. *)
Lemma oval_nested_ind (P : oval -> Prop) :
  P ONone -> (forall b, P (OBool b)) -> (forall z, P (OInt z)) ->
  (forall f, P (OFloat f)) -> (forall s, P (OStr s)) -> (forall r, P (OObject r)) ->
  (forall items, Forall (fun kv => P (snd kv)) items -> P (OObjectDict items)) ->
  (forall items, Forall (fun kv => P (snd kv)) items -> P (ODict items)) ->
  (forall l, Forall P l -> P (OList l)) ->
  (forall l, Forall P l -> P (OSet l)) ->
  (forall l, P (OTuple l)) ->
  (forall b l, P (OGenerator b l)) ->
  forall v, P v.
Proof.
  intros HN HB HI HF HS HO HOD HD HL HSet HT HG.
  fix IH 1. intros v.
  destruct v as [| | | | | |items|items|l|l|l|b l];
    [apply HN|apply HB|apply HI|apply HF|apply HS|apply HO| | | | |apply HT|apply HG].
  - apply HOD. induction items as [|[k x] r IHr]; constructor; [apply IH|exact IHr].
  - apply HD. induction items as [|[k x] r IHr]; constructor; [apply IH|exact IHr].
  - apply HL. induction l as [|x r IHr]; constructor; [apply IH|exact IHr].
  - apply HSet. induction l as [|x r IHr]; constructor; [apply IH|exact IHr].
Qed.

Lemma list_max_map_le {A} (f g : A -> nat) l :
  Forall (fun x => f x <= g x) l -> list_max (map f l) <= list_max (map g l).
Proof.
  induction 1 as [|x r Hx _ IH]; simpl; [lia|]. lia.
Qed.

Lemma list_max_In {A} (f : A -> nat) l x :
  In x l -> f x <= list_max (map f l).
Proof.
  induction l as [|y r IH]; intros Hin; [destruct Hin|].
  simpl. destruct Hin as [->|Hin]; [lia|]. specialize (IH Hin). lia.
Qed.

(** The conversion does not deepen a value. *)
Lemma convert_depth forward v : depth (convert forward v) <= depth v.
Proof.
  induction v as [| | | | | |items IH|items IH|l IH|l IH|l|b l]
    using oval_nested_ind; simpl; try lia.
  - destruct forward; simpl; [lia|]. rewrite map_map. simpl.
    apply le_n_S. now apply list_max_map_le.
  - destruct forward; simpl; rewrite map_map; simpl;
      apply le_n_S; now apply list_max_map_le.
  - rewrite map_map. apply le_n_S. now apply list_max_map_le.
  - rewrite map_map. apply le_n_S. now apply list_max_map_le.
Qed.

Lemma map_ext_Forall {A B} (f g : A -> B) l :
  Forall (fun x => f x = g x) l -> map f l = map g l.
Proof. induction 1 as [|x r Hx _ IH]; simpl; [reflexivity|now rewrite Hx, IH]. Qed.

(** Building a built value once more changes nothing. *)
Lemma convert_idem v : convert true (convert true v) = convert true v.
Proof.
  induction v as [| | | | | |items IH|items IH|l IH|l IH|l|b l]
    using oval_nested_ind; simpl; try reflexivity.
  - f_equal. rewrite map_map. now apply map_ext_Forall.
  - f_equal. rewrite map_map. now apply map_ext_Forall.
Qed.

Lemma map_opt_Some {A B} (f : A -> option B) (g : A -> B) l :
  (forall x, In x l -> f x = Some (g x)) -> map_opt f l = Some (map g l).
Proof.
  induction l as [|x r IH]; intros H; [reflexivity|].
  simpl. rewrite (H x) by now left.
  rewrite IH; [reflexivity|]. intros y Hy. apply H. now right.
Qed.

Lemma map_items_Some (f : oval -> option oval) (g : oval -> oval) items :
  (forall kv, In kv items -> f (snd kv) = Some (g (snd kv))) ->
  map_items f items = Some (map (fun kv => (fst kv, g (snd kv))) items).
Proof.
  intros H. unfold map_items. apply map_opt_Some.
  intros kv Hkv. now rewrite (H kv Hkv).
Qed.

(** With fuel beyond the depth of the value, [_build] returns the
    one-pass conversion. *)
Lemma build_convert fuel : forall forward v,
  depth v < fuel -> build fuel forward v = Some (convert forward v).
Proof.
  induction fuel as [|f IH]; intros forward v Hd; [lia|].
  destruct v as [| | | | | |items|items|l|l|l|b l]; try reflexivity.
  - (* ObjectDict *)
    simpl. destruct forward; [reflexivity|].
    rewrite (map_items_Some _ (convert false)); [reflexivity|].
    intros kv Hkv. apply IH. cbn [depth] in Hd.
    pose proof (list_max_In (fun kv => depth (snd kv)) items kv Hkv). lia.
  - (* dict *)
    assert (Hitems : forall kv, In kv items -> depth (snd kv) < f).
    { intros kv Hkv. cbn [depth] in Hd.
      pose proof (list_max_In (fun kv => depth (snd kv)) items kv Hkv). lia. }
    cbn [build].
    rewrite (map_items_Some _ (convert forward))
      by (intros kv Hkv; apply IH; now apply Hitems).
    destruct forward; [|reflexivity].
    rewrite (map_items_Some _ (convert true)).
    + cbn [option_map convert]. do 2 f_equal. rewrite map_map. simpl.
      apply map_ext. intros kv. now rewrite convert_idem.
    + intros kv Hkv. apply in_map_iff in Hkv as (kv0 & <- & Hkv0). simpl.
      apply IH. pose proof (convert_depth true (snd kv0)).
      specialize (Hitems kv0 Hkv0). lia.
  - simpl. rewrite (map_opt_Some _ (convert forward)); [reflexivity|].
    intros x Hx. apply IH. cbn [depth] in Hd.
    pose proof (list_max_In depth l x Hx). lia.
  - simpl. rewrite (map_opt_Some _ (convert forward)); [reflexivity|].
    intros x Hx. apply IH. cbn [depth] in Hd.
    pose proof (list_max_In depth l x Hx). lia.
Qed.

(** X19. [_build] terminates with the one-pass conversion of the value:
    with [forward] every dict reached through dicts, lists and sets
    becomes an [ObjectDict], without it every [ObjectDict] becomes a
    dict; the second build that [ObjectDict(lst)] runs on the values
    changes nothing.  An [ObjectDict] met with [forward] set is returned
    as it is, and a tuple is replaced by a generator over its items,
    which are not built. *)
Theorem build_is_one_pass_conversion (forward : bool) (v : oval) (fuel : nat) :
  depth v < fuel ->
  build fuel forward v = Some (convert forward v)
  /\ build fuel true (convert true v) = Some (convert true v)
  /\ (forall items, v = ODict items ->
        ObjectDict_new fuel items = build fuel true v)
  /\ (forall items, v = OObjectDict items -> build fuel true v = Some v)
  /\ (forall l, v = OTuple l -> build fuel forward v = Some (OGenerator forward l)).
Proof.
  intros Hd. split; [now apply build_convert|]. split; [|split; [|split]].
  - rewrite build_convert by (pose proof (convert_depth true v); lia).
    now rewrite convert_idem.
  - intros items ->. rewrite build_convert by exact Hd.
    unfold ObjectDict_new. rewrite (map_items_Some _ (convert true)); [reflexivity|].
    intros kv Hkv. apply build_convert. cbn [depth] in Hd.
    pose proof (list_max_In (fun kv => depth (snd kv)) items kv Hkv). lia.
  - intros items ->. now rewrite build_convert.
  - intros l ->. now rewrite build_convert.
Qed.

Lemma build_is_one_pass_conversion_witness :
  let v := ODict [(KStr "a", ODict [(KStr "b", OTuple [OInt 1])]);
                  (KStr "c", OList [ODict []])] in
  build 4 true v
  = Some (OObjectDict
            [(KStr "a", OObjectDict [(KStr "b", OGenerator true [OInt 1])]);
             (KStr "c", OList [OObjectDict []])])
  /\ build 4 true (convert true v) = Some (convert true v)
  /\ (forall items, v = ODict items -> ObjectDict_new 4 items = build 4 true v)
  /\ (forall items, v = OObjectDict items -> build 4 true v = Some v)
  /\ (forall l, v = OTuple l -> build 4 true v = Some (OGenerator true l)).
Proof.
  intros v. apply (build_is_one_pass_conversion true v 4). vm_compute. lia.
Defined.

Lemma map_id_Forall {A} (f : A -> A) l :
  map f l = l <-> Forall (fun x => f x = x) l.
Proof.
  induction l as [|x r IH]; simpl.
  - split; [constructor|reflexivity].
  - split.
    + intros [= Hx Hr]. constructor; [exact Hx|now apply IH].
    + intros H. inversion H as [|? ? Hx Hr]; subst. rewrite Hx.
      f_equal. now apply IH.
Qed.

Lemma map_items_id (f : oval -> oval) (items : list (pykey * oval)) :
  map (fun kv => (fst kv, f (snd kv))) items = items
  <-> Forall (fun kv => f (snd kv) = snd kv) items.
Proof.
  rewrite map_id_Forall. apply Forall_iff. intros [k x]. simpl.
  split; [now intros [= ->]|now intros ->].
Qed.

(** Converting forth and back gives the value again exactly when it is
    plain. *)
Lemma convert_round_trip v :
  convert false (convert true v) = v <-> plain v = true.
Proof.
  induction v as [| | | | | |items IH|items IH|l IH|l IH|l|b l]
    using oval_nested_ind; simpl; try (split; [reflexivity|reflexivity]);
    try (split; discriminate).
  - rewrite map_map, forallb_forall. simpl.
    split.
    + intros [= H].
      apply (proj1 (map_items_id (fun x => convert false (convert true x)) items))
        in H.
      rewrite Forall_forall in IH, H.
      intros kv Hkv. apply list_elem_of_In in Hkv. apply (IH kv Hkv), (H kv Hkv).
    + intros H. f_equal.
      apply (proj2 (map_items_id (fun x => convert false (convert true x)) items)).
      rewrite Forall_forall in IH |- *.
      intros kv Hkv. apply (IH kv Hkv), H. now apply list_elem_of_In.
  - rewrite map_map, forallb_forall.
    split.
    + intros [= H].
      apply (proj1 (map_id_Forall (fun x => convert false (convert true x)) l)) in H.
      rewrite Forall_forall in IH, H.
      intros x Hx. apply list_elem_of_In in Hx. apply (IH x Hx), (H x Hx).
    + intros H. f_equal.
      apply (proj2 (map_id_Forall (fun x => convert false (convert true x)) l)).
      rewrite Forall_forall in IH |- *.
      intros x Hx. apply (IH x Hx), H. now apply list_elem_of_In.
  - rewrite map_map, forallb_forall.
    split.
    + intros [= H].
      apply (proj1 (map_id_Forall (fun x => convert false (convert true x)) l)) in H.
      rewrite Forall_forall in IH, H.
      intros x Hx. apply list_elem_of_In in Hx. apply (IH x Hx), (H x Hx).
    + intros H. f_equal.
      apply (proj2 (map_id_Forall (fun x => convert false (convert true x)) l)).
      rewrite Forall_forall in IH |- *.
      intros x Hx. apply (IH x Hx), H. now apply list_elem_of_In.
Qed.

(** X20. [ObjectDict(d).to_dict()] gives the dict [d] again, with the
    same values of the same types, exactly when no tuple and no
    [ObjectDict] is reached in [d] through dicts, lists and sets: a
    tuple comes back as a generator, an [ObjectDict] as a dict. *)
Theorem to_dict_round_trip (items : list (pykey * oval)) (fuel : nat) :
  depth (ODict items) < fuel ->
  exists od,
    ObjectDict_new fuel items = Some od
    /\ to_dict fuel od = Some (convert false od)
    /\ (to_dict fuel od = Some (ODict items) <-> plain (ODict items) = true).
Proof.
  intros Hd.
  pose proof (build_convert fuel true (ODict items) Hd) as Hb.
  exists (convert true (ODict items)).
  assert (Hnew : ObjectDict_new fuel items = Some (convert true (ODict items))).
  { unfold ObjectDict_new. rewrite (map_items_Some _ (convert true)); [reflexivity|].
    intros kv Hkv. apply build_convert. cbn [depth] in Hd.
    pose proof (list_max_In (fun kv => depth (snd kv)) items kv Hkv). lia. }
  assert (Hto : to_dict fuel (convert true (ODict items))
                = Some (convert false (convert true (ODict items)))).
  { cbn [convert to_dict].
    rewrite build_convert.
    - reflexivity.
    - pose proof (convert_depth true (ODict items)) as Hle.
      cbn [convert depth] in Hle. cbn [depth]. cbn [depth] in Hd. lia. }
  split; [exact Hnew|]. split; [exact Hto|].
  rewrite Hto, <- convert_round_trip.
  split; [|intros H; now f_equal].
  intros H.
  exact (f_equal (fun o => match o with Some x => x | None => ONone end) H).
Qed.

Lemma to_dict_round_trip_witness :
  let items := [(KStr "a", ODict [(KStr "b", OInt 1)]); (KStr "c", OTuple [OInt 2])] in
  exists od,
    ObjectDict_new 3 items = Some od
    /\ to_dict 3 od = Some (convert false od)
    /\ (to_dict 3 od = Some (ODict items) <-> plain (ODict items) = true).
Proof.
  intros items. apply (to_dict_round_trip items 3). vm_compute. lia.
Defined.

End ObjectDictFacts.

(** ** Facts about the anchors of a compiled lookup side *)

Module AnchorFacts.
Import Str Lookup.

Lemma last_chr_app a b :
  b <> EmptyString -> last_chr (String.append a b) = last_chr b.
Proof.
  intros Hb. induction a as [|c a IH]; [reflexivity|].
  simpl. rewrite IH.
  destruct (String.append a b) eqn:E; [|reflexivity].
  destruct a; simpl in E; [congruence|discriminate].
Qed.

Lemma first_chr_app a b :
  a <> EmptyString -> first_chr (String.append a b) = first_chr a.
Proof. destruct a; [congruence|reflexivity]. Qed.

Lemma option_eqb_chr_true o c : option_eqb_chr o c = true -> o = Some c.
Proof.
  destruct o as [a|]; simpl; [|discriminate].
  intros H. apply Ascii.eqb_eq in H. now subst.
Qed.

(** The assembly of lines 566-571 on a pattern that is not empty. *)
Lemma anchored pattern :
  pattern <> EmptyString ->
  let ss := if option_eqb_chr (first_chr pattern) "^"%char then "" else "^" in
  let es := if option_eqb_chr (last_chr pattern) "$"%char then "" else "$" in
  first_chr (String.append ss (String.append pattern es)) = Some "^"%char
  /\ last_chr (String.append ss (String.append pattern es)) = Some "$"%char.
Proof.
  intros Hne. cbv zeta.
  assert (Hlast : last_chr
            (String.append pattern
               (if option_eqb_chr (last_chr pattern) "$"%char then "" else "$"))
            = Some "$"%char).
  { destruct (option_eqb_chr (last_chr pattern) "$") eqn:El.
    - apply option_eqb_chr_true in El.
      replace (String.append pattern "") with pattern; [exact El|].
      clear. induction pattern as [|c p IH]; simpl; [reflexivity|now rewrite <- IH].
    - now rewrite last_chr_app. }
  assert (Hne' : String.append pattern
                   (if option_eqb_chr (last_chr pattern) "$"%char then "" else "$")
                 <> EmptyString).
  { destruct pattern; [congruence|discriminate]. }
  split.
  - destruct (option_eqb_chr (first_chr pattern) "^") eqn:Ef; [|reflexivity].
    apply option_eqb_chr_true in Ef. simpl.
    now rewrite first_chr_app.
  - now rewrite last_chr_app.
Qed.

(** The pattern of the fallback branch is anchored. *)
Lemma parse_other__anchored text p :
  parse_other_ text = Ok (PatternStr p) ->
  first_chr p = Some "^"%char /\ last_chr p = Some "$"%char.
Proof.
  unfold parse_other_.
  destruct (Re.match_str true vpat1_ (lower text)) as [[m1|]|e];
    cbn [mbind res_bind]; [| |discriminate].
  { destruct (group_of "custom_name" m1); cbn [mbind res_bind]; discriminate. }
  destruct (Re.match_str true vpat2_ (lower text)) as [[m2|]|e2];
    cbn [mbind res_bind]; [| |discriminate].
  { destruct (group_of "op" m2); cbn [mbind res_bind]; [|discriminate].
    destruct (group_of "other" m2); cbn [mbind res_bind]; discriminate. }
  destruct (Re.match_str true vpat3_ (lower text)) as [[m3|]|e3];
    cbn [mbind res_bind]; [| |discriminate].
  { destruct (group_of "op" m3); cbn [mbind res_bind]; [|discriminate].
    destruct (group_of "other" m3); cbn [mbind res_bind]; discriminate. }
  intros [= <-]. split; [reflexivity|].
  change (String "^" (String.append (re_escape text) "$"))
    with (String.append "^" (String.append (re_escape text) "$")).
  rewrite !last_chr_app; [reflexivity|discriminate|].
  destruct (re_escape text); discriminate.
Qed.

(** X21. Every pattern that [LookupCls.parse] returns is anchored in
    its text: after the optional prefix [(?i)], its first character is
    [^] and its last character is [$], whether it comes from the
    directives or from the fallback. *)
Theorem parsed_pattern_is_anchored (re : Re.ReLib) (text p : string) :
  parse re text = Ok (PatternStr p) ->
  exists body,
    (p = body \/ p = String.append "(?i)" body)
    /\ first_chr body = Some "^"%char
    /\ last_chr body = Some "$"%char.
Proof.
  unfold parse.
  destruct (Re.search_str false pat text) as [[m|]|e]; cbn [mbind res_bind];
    [| |discriminate].
  - destruct (Re.finditer_str false pat text) as [nodes|e]; cbn [mbind res_bind];
      [|discriminate].
    destruct (parse_loop re text nodes ([], 0, false)) as [[[lst start] ic]|e];
      cbn [mbind res_bind]; [|discriminate].
    set (pattern := join match lst with
                         | [] => lst
                         | _ :: _ => lst ++ [re_escape (drop start text)]
                         end).
    destruct pattern as [|c t] eqn:Ep; [discriminate|].
    intros [= <-].
    destruct (anchored (String c t)) as [Hf Hl]; [discriminate|].
    cbv zeta in Hf, Hl.
    eexists. split; [|split; [exact Hf|exact Hl]].
    destruct ic; [now right|now left].
  - intros H. exists p. split; [now left|]. exact (parse_other__anchored text p H).
Qed.

Lemma parsed_pattern_is_anchored_witness :
  exists body,
    ("(?i)^ABC$" = body \/ "(?i)^ABC$" = String.append "(?i)" body)
    /\ first_chr body = Some "^"%char
    /\ last_chr body = Some "$"%char.
Proof.
  apply (parsed_pattern_is_anchored Re.PyRe "_itext(ABC)" "(?i)^ABC$").
  vm_compute. reflexivity.
Defined.

End AnchorFacts.

(** ** Facts about wildcards as glob patterns *)

Module GlobFacts.
Import Str Re Utils Glob Literal LiteralFacts.

(** *** Reading the converted pattern *)

Lemma parse_atom_passive f c rest :
  is_active c = false -> is_quantifier c = false -> Ascii.eqb c "." = false ->
  parse_atom (S f) false (String c rest) = Some (Chr c, rest).
Proof.
  destruct c as [[] [] [] [] [] [] [] []]; intros Ha Hq Hd;
    try (vm_compute in Ha; discriminate Ha);
    try (vm_compute in Hq; discriminate Hq);
    try (vm_compute in Hd; discriminate Hd); reflexivity.
Qed.

Lemma passive_not_anchor c : is_active c = false -> is_anchor c = false.
Proof.
  destruct c as [[] [] [] [] [] [] [] []]; intros Ha; try reflexivity;
    vm_compute in Ha; discriminate Ha.
Qed.

Lemma passive_not_bar c :
  is_active c = false -> Ascii.eqb c "|" || Ascii.eqb c ")" = false.
Proof.
  destruct c as [[] [] [] [] [] [] [] []]; intros Ha; try reflexivity;
    vm_compute in Ha; discriminate Ha.
Qed.

Lemma translated_unquantified p :
  passive p = true ->
  unquantified (String.append (flat_map_chr translate_chr p) "$").
Proof.
  destruct p as [|c t]; [reflexivity|]. simpl. intros H.
  apply andb_prop in H as [Hc _]. unfold translate_chr.
  destruct (Ascii.eqb c ".") eqn:E1; [reflexivity|].
  destruct (Ascii.eqb c "+") eqn:E2; [reflexivity|].
  destruct (Ascii.eqb c "?") eqn:E3; [reflexivity|].
  destruct (Ascii.eqb c "*") eqn:E4; [reflexivity|].
  simpl.
  destruct c as [[] [] [] [] [] [] [] []]; try reflexivity;
    try discriminate E2; try discriminate E3; try discriminate E4;
    vm_compute in Hc; discriminate Hc.
Qed.

Lemma gchain_not_Eps p : gchain p <> Eps.
Proof. destruct p; discriminate. Qed.

(** [parse_seq] reads the converted pattern followed by the end anchor. *)
Lemma parse_seq_translated p : forall fuel,
  passive p = true -> String.length p + 2 <= fuel ->
  parse_seq fuel false (String.append (flat_map_chr translate_chr p) "$")
  = Some (gchain p, EmptyString).
Proof.
  induction p as [|c t IH]; intros fuel Hp Hf.
  - destruct fuel as [|[|f]]; simpl in Hf; try lia. reflexivity.
  - destruct fuel as [|[|f]]; simpl in Hf; try lia.
    simpl in Hp. apply andb_prop in Hp as [Hc Ht].
    apply negb_true_iff in Hc.
    assert (Hrest : parse_seq (S f) false
                      (String.append (flat_map_chr translate_chr t) "$")
                    = Some (gchain t, EmptyString)) by (apply IH; [exact Ht|lia]).
    pose proof (translated_unquantified t Ht) as Hq.
    assert (Hfin : forall a,
              match parse_seq (S f) false
                      (String.append (flat_map_chr translate_chr t) "$") with
              | Some (Eps, t3) => Some (a, t3)
              | Some (r, t3) => Some (Seq a r, t3)
              | None => None
              end = Some (Seq a (gchain t), EmptyString)).
    { intros a. rewrite Hrest. destruct (gchain t) eqn:Hg; try reflexivity.
      now destruct (gchain_not_Eps t). }
    cbn [flat_map_chr gchain]. rewrite UtilsFacts.append_assoc.
    unfold atom. unfold translate_chr at 1.
    destruct (Ascii.eqb c ".") eqn:E1.
    { apply Ascii.eqb_eq in E1. subst c. cbn [String.append].
      rewrite parse_seq_step by reflexivity. cbn [Ascii.eqb Bool.eqb orb].
      rewrite (parse_atom_escaped f false "." _ eq_refl).
      rewrite (read_quantifier_none _ _ Hq). apply Hfin. }
    destruct (Ascii.eqb c "+") eqn:E2.
    { apply Ascii.eqb_eq in E2. subst c. cbn [String.append].
      rewrite parse_seq_step by reflexivity. cbn [Ascii.eqb Bool.eqb orb].
      rewrite (parse_atom_escaped f false "+" _ eq_refl).
      rewrite (read_quantifier_none _ _ Hq). apply Hfin. }
    destruct (Ascii.eqb c "?") eqn:E3.
    { cbn [String.append]. rewrite parse_seq_step by reflexivity. cbn [Ascii.eqb Bool.eqb orb].
      cbn [parse_atom].
      rewrite (read_quantifier_none _ _ Hq). apply Hfin. }
    destruct (Ascii.eqb c "*") eqn:E4.
    { cbn [String.append]. rewrite parse_seq_step by reflexivity. cbn [Ascii.eqb Bool.eqb orb].
      cbn [parse_atom].
      assert (Hrq : read_quantifier false Any
                      (String "*" (String.append (flat_map_chr translate_chr t) "$"))
                    = Some (Star Any,
                            String.append (flat_map_chr translate_chr t) "$")).
      { unfold read_quantifier, skip.
        change (is_quantifier "*") with true. cbv iota.
        destruct (String.append (flat_map_chr translate_chr t) "$") as [|c' r];
          [reflexivity|].
        simpl in Hq. cbn [first_chr]. now rewrite Hq. }
      rewrite Hrq. apply Hfin. }
    cbn [String.append]. rewrite parse_seq_step by (now apply passive_not_anchor).
    rewrite (passive_not_bar c Hc).
    assert (Hnq : is_quantifier c = false).
    { destruct c as [[] [] [] [] [] [] [] []]; try reflexivity;
        try discriminate E2; try discriminate E3; try discriminate E4;
        vm_compute in Hc; discriminate Hc. }
    rewrite (parse_atom_passive f c _ Hc Hnq E1).
    rewrite (read_quantifier_none _ _ Hq). apply Hfin.
Qed.

Lemma translate_chr_length c : 1 <= String.length (translate_chr c).
Proof.
  unfold translate_chr.
  destruct (Ascii.eqb c "."), (Ascii.eqb c "+"), (Ascii.eqb c "?"),
    (Ascii.eqb c "*"); simpl; lia.
Qed.

Lemma translation_length p :
  String.length p <= String.length (flat_map_chr translate_chr p).
Proof.
  induction p as [|c t IH]; simpl; [lia|].
  rewrite LiteralFacts.length_append. pose proof (translate_chr_length c). lia.
Qed.

(** The closed conversion of a passive pattern compiles. *)
Lemma compile_translated p :
  passive p = true ->
  compile false (String "^" (String.append (flat_map_chr translate_chr p) "$"))
  = Some (false, Seq Bol (gchain p)).
Proof.
  intros Hp.
  assert (Hpre : String.prefix "(?i)"
                   (String "^" (String.append (flat_map_chr translate_chr p) "$"))
                 = false) by reflexivity.
  cbv beta iota zeta delta [compile skip]. rewrite Hpre.
  remember (String.length
              (String "^" (String.append (flat_map_chr translate_chr p) "$")))
    as n eqn:Hn.
  assert (Hlen : String.length p + 2 <= n).
  { subst n. simpl. rewrite LiteralFacts.length_append. simpl.
    pose proof (translation_length p). lia. }
  replace (4 * n + 8) with (S (S (S (4 * n + 5)))) by lia.
  cbn [parse_alt].
  rewrite (LiteralFacts.parse_seq_bol _ _ (translated_unquantified p Hp)).
  rewrite parse_seq_translated by (assumption || lia).
  destruct (gchain p) eqn:Hc; try reflexivity.
  now destruct (gchain_not_Eps p).
Qed.


(** *** Matching the converted pattern *)

Lemma inhabited_app {A} (l1 l2 : list A) :
  inhabited (l1 ++ l2) = inhabited l1 || inhabited l2.
Proof. destruct l1; reflexivity. Qed.

Lemma inhabited_flat_map {A B} (f : A -> list B) l :
  inhabited (flat_map f l) = existsb (fun x => inhabited (f x)) l.
Proof.
  induction l as [|x l IH]; [reflexivity|].
  simpl. now rewrite inhabited_app, IH.
Qed.

Lemma glob_star t s : glob (String "*" t) s = glob_any (glob t) s.
Proof. induction s as [|a s IH]; simpl; [reflexivity|now rewrite <- IH]. Qed.

Lemma run_Any s :
  run false Any s
  = match Re.rest s with
    | String a t => if negb (Ascii.eqb a newline) then [advance s t] else []
    | EmptyString => []
    end.
Proof. reflexivity. Qed.

(** Greedy repetition of [.] followed by [r]: some number of characters
    is passed over, then [r] matches. *)
Lemma star_any_then r (accept : string -> bool) :
  (forall s, inhabited (run false r s) = accept (Re.rest s)) ->
  forall n s,
    String.length (Re.rest s) < n ->
    existsb (fun s' => inhabited (run false r s')) (star (run false Any) n s)
    = glob_any accept (Re.rest s).
Proof.
  intros Hr. induction n as [|n IH]; intros s Hn; [lia|].
  cbn [star]. rewrite existsb_app. cbn [existsb]. rewrite orb_false_r, Hr.
  rewrite run_Any.
  destruct s as [p rs cs]. cbn [Re.rest Re.pos] in *.
  destruct rs as [|a t]; cbn [glob_any flat_map existsb].
  - now rewrite orb_false_r.
  - destruct (Ascii.eqb a newline); cbn [negb flat_map existsb andb].
    + now rewrite orb_false_r.
    + unfold advance. cbn [Re.pos Re.rest Re.caps].
      replace (Nat.ltb p (S p)) with true by (symmetry; apply Nat.ltb_lt; lia).
      rewrite app_nil_r, IH by (simpl in Hn; cbn [Re.rest]; lia).
      cbn [Re.rest]. apply orb_comm.
Qed.

(** The converted pattern matches from a state exactly when the glob
    pattern matches what is left of the subject. *)
Lemma run_gchain p : forall s,
  inhabited (run false (gchain p) s) = glob p (Re.rest s).
Proof.
  induction p as [|c t IH]; intros s.
  - cbn [gchain run glob]. destruct (Re.rest s) as [|a [|b r]]; try reflexivity.
    + cbn [String.eqb orb]. unfold newline.
      destruct (Ascii.eqb a "010"); reflexivity.
    + cbn [String.eqb orb]. destruct (Ascii.eqb a newline); reflexivity.
  - cbn [gchain].
    change (run false (Seq (atom c) (gchain t)) s)
      with (flat_map (run false (gchain t)) (run false (atom c) s)).
    rewrite inhabited_flat_map. unfold atom.
    destruct (Ascii.eqb c "?") eqn:E3.
    { rewrite run_Any. cbn [glob]. rewrite E3.
      destruct (Re.rest s) as [|a r]; [reflexivity|].
      destruct (Ascii.eqb a newline); cbn [negb existsb andb]; [reflexivity|].
      now rewrite IH, orb_false_r. }
    destruct (Ascii.eqb c "*") eqn:E4.
    { apply Ascii.eqb_eq in E4. subst c. rewrite glob_star.
      change (run false (Star Any) s)
        with (star (run false Any) (S (String.length (Re.rest s))) s).
      apply (star_any_then (gchain t) (glob t) IH). lia. }
    cbn [run glob]. rewrite E3, E4. unfold one_chr, chr_eq.
    destruct (Re.rest s) as [|a r]; [reflexivity|].
    rewrite (Ascii.eqb_sym c a).
    destruct (Ascii.eqb a c); cbn [existsb andb]; [|reflexivity].
    now rewrite IH, orb_false_r.
Qed.

Lemma search_at_Bol_later r whole : forall s p,
  0 < p -> search_at false (Seq Bol r) whole p s = None.
Proof.
  induction s as [|a s IH]; intros p Hp; cbn [search_at run Re.pos];
    replace (Nat.eqb p 0) with false by (symmetry; apply Nat.eqb_neq; lia);
    cbn [flat_map]; [reflexivity|].
  apply IH. lia.
Qed.

Lemma search_glob p s :
  match search (false, Seq Bol (gchain p)) s with
  | Some _ => true
  | None => false
  end = glob p s.
Proof.
  unfold search. cbn [fst snd].
  pose proof (run_gchain p (mkState 0 s [])) as Hrun. cbn [Re.rest] in Hrun.
  rewrite <- Hrun. clear Hrun.
  destruct s as [|a s]; cbn [search_at run Re.pos Nat.eqb flat_map];
    rewrite app_nil_r;
    destruct (run false (gchain p) _); try reflexivity.
  now rewrite search_at_Bol_later by lia.
Qed.

(** *** The conversion *)

Lemma prefix_bracket c t :
  Ascii.eqb c "[" = false -> String.prefix "[!" (String c t) = false.
Proof.
  intros H. rewrite UtilsFacts.prefix_cons.
  rewrite Ascii.eqb_sym, H. reflexivity.
Qed.

Lemma replace_no_bracket x :
  count "[" x = 0 -> replace "[!" "[^" x = x.
Proof.
  unfold replace. induction x as [|c t IH]; [reflexivity|].
  intros H. cbn [replace_from].
  assert (Hc : Ascii.eqb c "[" = false).
  { simpl in H. destruct (Ascii.eqb c "["); [discriminate|reflexivity]. }
  rewrite (prefix_bracket c t Hc).
  rewrite IH; [reflexivity|]. now apply LiteralFacts.count_tail in H.
Qed.

Lemma count_append c a b : count c (String.append a b) = count c a + count c b.
Proof. induction a as [|x a IH]; simpl; [reflexivity|]. rewrite IH. lia. Qed.

Lemma translation_no_bracket p :
  passive p = true -> count "[" (flat_map_chr translate_chr p) = 0.
Proof.
  induction p as [|c t IH]; [reflexivity|]. simpl. intros H.
  apply andb_prop in H as [Hc Ht]. rewrite count_append, (IH Ht).
  unfold translate_chr.
  destruct (Ascii.eqb c ".") eqn:E1; [reflexivity|].
  destruct (Ascii.eqb c "+") eqn:E2; [reflexivity|].
  destruct (Ascii.eqb c "?") eqn:E3; [reflexivity|].
  destruct (Ascii.eqb c "*") eqn:E4; [reflexivity|].
  simpl. apply negb_true_iff in Hc.
  destruct c as [[] [] [] [] [] [] [] []]; try reflexivity;
    vm_compute in Hc; discriminate Hc.
Qed.

(** The closed fragment of a passive pattern. *)
Lemma wildcard_fragment_passive p :
  passive p = true -> contains word p = false ->
  wildcard_fragment p true
  = String "^" (String.append (flat_map_chr translate_chr p) "$").
Proof.
  intros Hp Hw.
  change (wildcard_fragment p true)
    with (String.append "^" (String.append (wildcard_fragment p false) "$")).
  rewrite (UtilsFacts.wildcard_fragment_translation p Hw).
  unfold wildcard_translation.
  now rewrite (replace_no_bracket _ (translation_no_bracket p Hp)).
Qed.

(** X22. On a wildcard pattern without the signs [( ) [ { | ^ $ \] (and
    without the placeholder word), the closed conversion is glob
    matching: it compiles, and [re.search] with the converted pattern
    accepts a string exactly when [?] stands for one character, [*] for
    any number of characters and every other character for itself, where
    a character matched by [?] or [*] is never a newline and one final
    newline is tolerated. *)
Theorem closed_wildcard_is_glob (p : string) :
  passive p = true -> contains "replacetodot" p = false ->
  convert_wildcard_to_regex PyRe p true
  = Ok (String.append "^" (String.append (flat_map_chr translate_chr p) "$"))
  /\ forall s,
       Lookup.search_side PyRe
         (Lookup.PatternStr
            (String.append "^" (String.append (flat_map_chr translate_chr p) "$")))
         s
       = Ok (glob p s).
Proof.
  intros Hp Hw.
  pose proof (compile_translated p Hp) as Hc.
  split.
  - unfold convert_wildcard_to_regex.
    rewrite (wildcard_fragment_passive p Hp Hw).
    cbn [re_compile PyRe]. now rewrite Hc.
  - intros s. unfold Lookup.search_side. cbn [re_compile re_search PyRe].
    change (String.append "^" (String.append (flat_map_chr translate_chr p) "$"))
      with (String "^" (String.append (flat_map_chr translate_chr p) "$")).
    rewrite Hc. now rewrite search_glob.
Qed.

Lemma closed_wildcard_is_glob_witness :
  convert_wildcard_to_regex PyRe "a?c*.x" true = Ok "^a.c.*\.x$"
  /\ forall s,
       Lookup.search_side PyRe (Lookup.PatternStr "^a.c.*\.x$") s
       = Ok (glob "a?c*.x" s).
Proof.
  apply (closed_wildcard_is_glob "a?c*.x"); reflexivity.
Defined.

End GlobFacts.

(** ** Facts about the directives of a lookup side *)

Module DirectiveFacts.
Import Str Re Utils Lookup Literal Glob Directive.

Lemma compile_pat : compile false pat = Some (false, pat_regex).
Proof. vm_compute. reflexivity. Qed.

Lemma compile_vpat : compile true vpat = Some (false, vpat_regex).
Proof. vm_compute. reflexivity. Qed.

Lemma in_range_paren : in_range "(" ("("%char, "("%char) = true.
Proof. reflexivity. Qed.

(** The head of a directive, up to its opening parenthesis, is read in
    one way. *)
Lemma pat_head options method rest :
  is_head options method ->
  run false pat_regex (mkState 0 (directive options method rest) [])
  = run false pat_tail
      (mkState (String.length options + String.length method + 2)
               (String.append rest ")")
               [("", (S (String.length options),
                      S (String.length options + String.length method)))]).
Proof.
  intros [[-> | ->] [-> | [-> | ->]]];
    unfold pat_regex, method_alt, directive;
    cbn [run one_chr chr_eq Re.rest Re.pos Re.caps advance flat_map app map
         String.append Ascii.eqb Bool.eqb in_class existsb xorb fst snd Nat.eqb
         String.length Nat.add];
    rewrite in_range_paren;
    cbn [orb flat_map advance Re.pos Re.caps Re.rest];
    now rewrite !app_nil_r.
Qed.

Lemma vpat_head options method rest :
  is_head options method ->
  run false vpat_regex (mkState 0 (directive options method rest) [])
  = run false vpat_tail
      (mkState (String.length options + String.length method + 2)
               (String.append rest ")")
               [("method", (S (String.length options),
                            S (String.length options + String.length method)));
                ("options", (1, S (String.length options)))]).
Proof.
  intros [[-> | ->] [-> | [-> | ->]]];
    unfold vpat_regex, method_alt, directive;
    cbn [run one_chr chr_eq Re.rest Re.pos Re.caps advance flat_map app map
         String.append Ascii.eqb Bool.eqb in_class existsb xorb fst snd Nat.eqb
         String.length Nat.add];
    rewrite in_range_paren;
    cbn [orb flat_map advance Re.pos Re.caps Re.rest];
    now rewrite !app_nil_r.
Qed.


(** *** The payload *)

Lemma run_Any_step p a t caps :
  Ascii.eqb a newline = false ->
  run false Any (mkState p (String a t) caps) = [mkState (S p) t caps].
Proof. intros H. cbn [run one_chr Re.rest]. now rewrite H. Qed.

(** Greedy repetition of [.] over a line tries first the whole line,
    then all but its last character. *)
Lemma star_first_two w : forall x p caps n,
  no_newline w = true -> Ascii.eqb x newline = false ->
  String.length w + 1 < n ->
  exists l,
    star (run false Any) n (mkState p (String.append w (String x "")) caps)
    = mkState (p + String.length w + 1) "" caps
      :: mkState (p + String.length w) (String x "") caps :: l.
Proof.
  induction w as [|a w IH]; intros x p caps n Hw Hx Hn.
  - destruct n as [|[|n]]; simpl in Hn; try lia.
    exists []. cbn [star String.append String.length].
    rewrite (run_Any_step p x "" caps Hx). cbn [flat_map Re.pos].
    replace (Nat.ltb p (S p)) with true by (symmetry; apply Nat.ltb_lt; lia).
    cbn [star run one_chr Re.rest flat_map app].
    now rewrite !Nat.add_0_r, Nat.add_1_r.
  - destruct n as [|n]; simpl in Hn; [lia|].
    simpl in Hw. apply andb_prop in Hw as [Ha Hw]. apply negb_true_iff in Ha.
    destruct (IH x (S p) caps n Hw Hx) as [l Hl]; [lia|].
    exists (l ++ [mkState p (String a (String.append w (String x ""))) caps]).
    cbn [star String.append String.length].
    rewrite (run_Any_step p a _ caps Ha). cbn [flat_map Re.pos].
    replace (Nat.ltb p (S p)) with true by (symmetry; apply Nat.ltb_lt; lia).
    rewrite app_nil_r, Hl. cbn [app].
    now replace (p + S (String.length w) + 1) with (S p + String.length w + 1)
      by lia;
      replace (p + S (String.length w)) with (S p + String.length w) by lia.
Qed.

Lemma length_snoc w x :
  String.length (String.append w (String x "")) = S (String.length w).
Proof. rewrite LiteralFacts.length_append. simpl. lia. Qed.

(** [.+] over a payload that is one line, as far as the last [)]. *)
Lemma run_some_chrs payload p caps :
  payload <> EmptyString -> no_newline payload = true ->
  exists l,
    run false some_chrs (mkState p (String.append payload ")") caps)
    = mkState (p + String.length payload + 1) "" caps
      :: mkState (p + String.length payload) ")" caps :: l.
Proof.
  intros Hne Hnl. destruct payload as [|c w]; [congruence|].
  simpl in Hnl. apply andb_prop in Hnl as [Hc Hw]. apply negb_true_iff in Hc.
  destruct (star_first_two w ")" (S p) caps
              (S (String.length (String.append w ")"))) Hw eq_refl) as [l Hl].
  { rewrite length_snoc. lia. }
  exists l. unfold some_chrs.
  change (run false (Seq Any (Star Any))
            (mkState p (String.append (String c w) ")") caps))
    with (flat_map (run false (Star Any))
            (run false Any (mkState p (String c (String.append w ")")) caps))).
  rewrite (run_Any_step p c _ caps Hc). cbn [flat_map].
  change (run false (Star Any) (mkState (S p) (String.append w ")") caps))
    with (star (run false Any) (S (String.length (String.append w ")")))
            (mkState (S p) (String.append w ")") caps)).
  rewrite app_nil_r, Hl. cbn [String.length].
  now replace (p + S (String.length w) + 1) with (S p + String.length w + 1)
    by lia;
    replace (p + S (String.length w)) with (S p + String.length w) by lia.
Qed.

Lemma run_closing_end p caps : run false closing (mkState p "" caps) = [].
Proof. reflexivity. Qed.

Lemma run_closing_paren p caps :
  run false closing (mkState p ")" caps) = [mkState (S p) "" caps].
Proof. reflexivity. Qed.

(** The first way in which the tail of [pat] matches ends at the last
    [)]. *)
Lemma run_pat_tail payload p caps :
  payload <> EmptyString -> no_newline payload = true ->
  exists l,
    run false pat_tail (mkState p (String.append payload ")") caps)
    = mkState (p + String.length payload + 1) "" caps :: l.
Proof.
  intros Hne Hnl. destruct (run_some_chrs payload p caps Hne Hnl) as [l Hl].
  unfold pat_tail.
  change (run false (Seq some_chrs closing)
            (mkState p (String.append payload ")") caps))
    with (flat_map (run false closing)
            (run false some_chrs (mkState p (String.append payload ")") caps))).
  rewrite Hl. cbn [flat_map]. rewrite run_closing_end, run_closing_paren.
  cbn [app]. eexists. f_equal. f_equal. lia.
Qed.

Lemma run_vpat_tail payload p caps :
  payload <> EmptyString -> no_newline payload = true ->
  exists l,
    run false vpat_tail (mkState p (String.append payload ")") caps)
    = mkState (p + String.length payload + 1) ""
              (("pattern", (p, p + String.length payload)) :: caps) :: l.
Proof.
  intros Hne Hnl. destruct (run_some_chrs payload p caps Hne Hnl) as [l Hl].
  unfold vpat_tail.
  change (run false (Seq (Grp "pattern" some_chrs) closing)
            (mkState p (String.append payload ")") caps))
    with (flat_map (run false closing)
            (map (fun s' => mkState (Re.pos s') (Re.rest s')
                              (("pattern", (p, Re.pos s')) :: Re.caps s'))
               (run false some_chrs
                  (mkState p (String.append payload ")") caps)))).
  rewrite Hl. cbn [map flat_map Re.pos Re.rest Re.caps].
  rewrite run_closing_end, run_closing_paren.
  cbn [app]. eexists. f_equal. f_equal. lia.
Qed.

(** *** A side that is one directive *)

Lemma length_directive o m p :
  String.length (directive o m p)
  = String.length o + String.length m + String.length p + 3.
Proof.
  unfold directive. cbn [String.append String.length].
  rewrite !LiteralFacts.length_append. cbn [String.length].
  rewrite LiteralFacts.length_append. cbn [String.length]. lia.
Qed.

Lemma search_at_hit ic r whole p s m l :
  run ic r (mkState p s []) = m :: l ->
  search_at ic r whole p s = Some (mkMatch whole p (Re.pos m) (Re.caps m)).
Proof. intros H. destruct s; simpl; now rewrite H. Qed.

Lemma drop_whole s : drop (String.length s) s = EmptyString.
Proof. induction s as [|c s IH]; [reflexivity|exact IH]. Qed.

Lemma drop_none s : drop 0 s = s.
Proof. now destruct s. Qed.

Lemma append_empty_r s : String.append s "" = s.
Proof. induction s as [|c s IH]; simpl; [reflexivity|now rewrite IH]. Qed.

Lemma substring_head b : forall c,
  String.substring 0 (String.length b) (String.append b c) = b.
Proof.
  induction b as [|x b IH]; intros c; simpl; [now destruct c|now rewrite IH].
Qed.

(** [(a + b + c)[len(a):len(a) + len(b)] == b] *)
Lemma slice_mid a b c :
  slice (String.length a) (String.length a + String.length b)
        (String.append a (String.append b c)) = b.
Proof.
  unfold slice. replace (String.length a + String.length b - String.length a)
    with (String.length b) by lia.
  induction a as [|x a IH]; simpl; [apply substring_head|exact IH].
Qed.

Lemma slice_whole s : slice 0 (String.length s) s = s.
Proof.
  unfold slice. rewrite Nat.sub_0_r. rewrite <- (append_empty_r s) at 2.
  apply substring_head.
Qed.

Lemma slice_empty s : slice 0 0 s = EmptyString.
Proof. now destruct s. Qed.

(** On a side that is one directive with a one-line payload, [pat]
    matches the whole side. *)
Lemma run_pat_directive o m p :
  is_head o m -> p <> EmptyString -> no_newline p = true ->
  exists caps l,
    run false pat_regex (mkState 0 (directive o m p) [])
    = mkState (String.length (directive o m p)) "" caps :: l.
Proof.
  intros Hh Hne Hnl. rewrite (pat_head o m p Hh).
  destruct (run_pat_tail p (String.length o + String.length m + 2)
              [("", (S (String.length o),
                     S (String.length o + String.length m)))] Hne Hnl)
    as [l Hl].
  rewrite Hl. eexists _, l. f_equal. f_equal. rewrite length_directive. lia.
Qed.

Lemma run_vpat_directive o m p :
  is_head o m -> p <> EmptyString -> no_newline p = true ->
  exists l,
    run false vpat_regex (mkState 0 (directive o m p) [])
    = mkState (String.length (directive o m p)) ""
        [("pattern", (String.length o + String.length m + 2,
                      String.length o + String.length m + 2 + String.length p));
         ("method", (S (String.length o),
                     S (String.length o + String.length m)));
         ("options", (1, S (String.length o)))] :: l.
Proof.
  intros Hh Hne Hnl. rewrite (vpat_head o m p Hh).
  destruct (run_vpat_tail p (String.length o + String.length m + 2)
              [("method", (S (String.length o),
                           S (String.length o + String.length m)));
               ("options", (1, S (String.length o)))] Hne Hnl)
    as [l Hl].
  rewrite Hl. exists l. f_equal. f_equal. rewrite length_directive. lia.
Qed.

Lemma run_pat_regex_end p : run false pat_regex (mkState p "" []) = [].
Proof. reflexivity. Qed.

Lemma finditer_from_end f whole :
  finditer_from f (false, pat_regex) whole (String.length whole) = [].
Proof.
  destruct f as [|f]; [reflexivity|]. cbn [finditer_from fst snd].
  rewrite Nat.ltb_irrefl, drop_whole. reflexivity.
Qed.

Lemma search_pat_directive o m p :
  is_head o m -> p <> EmptyString -> no_newline p = true ->
  exists caps,
    search_str false pat (directive o m p)
    = Ok (Some (mkMatch (directive o m p) 0
                  (String.length (directive o m p)) caps)).
Proof.
  intros Hh Hne Hnl. destruct (run_pat_directive o m p Hh Hne Hnl) as (caps & l & Hl).
  exists caps. unfold search_str, search. rewrite compile_pat. cbn [fst snd].
  now rewrite (search_at_hit _ _ _ _ _ _ _ Hl).
Qed.

Lemma finditer_pat_directive o m p :
  is_head o m -> p <> EmptyString -> no_newline p = true ->
  exists caps,
    finditer_str false pat (directive o m p)
    = Ok [mkMatch (directive o m p) 0 (String.length (directive o m p)) caps].
Proof.
  intros Hh Hne Hnl. destruct (run_pat_directive o m p Hh Hne Hnl) as (caps & l & Hl).
  exists caps. unfold finditer_str, finditer. rewrite compile_pat.
  cbn [finditer_from fst snd]. rewrite drop_none.
  rewrite (search_at_hit _ _ _ _ _ _ _ Hl). cbn [m_start m_end Re.pos Re.caps].
  replace (Nat.ltb (String.length (directive o m p)) 0) with false
    by (symmetry; apply Nat.ltb_ge; lia).
  replace (Nat.ltb 0 (String.length (directive o m p))) with true
    by (symmetry; apply Nat.ltb_lt; rewrite length_directive; lia).
  now rewrite finditer_from_end.
Qed.

(** The three named groups of [vpat] on such a side. *)
Lemma groups_directive o m p n :
  is_head o m ->
  let found :=
    mkMatch (directive o m p) 0 n
      [("pattern", (String.length o + String.length m + 2,
                    String.length o + String.length m + 2 + String.length p));
       ("method", (S (String.length o),
                   S (String.length o + String.length m)));
       ("options", (1, S (String.length o)))] in
  group "options" found = Some o
  /\ group "method" found = Some m
  /\ group "pattern" found = Some p.
Proof.
  intros [[-> | ->] [-> | [-> | ->]]] found; subst found;
    (split; [reflexivity|split; [reflexivity|]]).
  - exact (f_equal Some (slice_mid "_text(" p ")")).
  - exact (f_equal Some (slice_mid "_wildcard(" p ")")).
  - exact (f_equal Some (slice_mid "_regex(" p ")")).
  - exact (f_equal Some (slice_mid "_itext(" p ")")).
  - exact (f_equal Some (slice_mid "_iwildcard(" p ")")).
  - exact (f_equal Some (slice_mid "_iregex(" p ")")).
Qed.

(** What [parse_] reads from such a side. *)
Lemma parse__directive re o m p :
  is_head o m -> p <> EmptyString -> no_newline p = true ->
  parse_ re (directive o m p)
  = if String.eqb m "wildcard"
    then pattern_ ← Utils.convert_wildcard_to_regex re p false;
         Ok (pattern_, String.eqb o "i")
    else if String.eqb m "text" then Ok (re_escape p, String.eqb o "i")
    else Ok (p, String.eqb o "i").
Proof.
  intros Hh Hne Hnl. destruct (run_vpat_directive o m p Hh Hne Hnl) as (l & Hl).
  unfold parse_, search_str, search. rewrite compile_vpat. cbn [fst snd].
  rewrite (search_at_hit _ _ _ _ _ _ _ Hl). cbn [mbind res_bind Re.pos Re.caps].
  destruct (groups_directive o m p (String.length (directive o m p)) Hh)
    as (Ho & Hm & Hp).
  unfold group_of. rewrite Ho, Hm, Hp. cbn [mbind res_bind].
  destruct Hh as [[-> | ->] [-> | [-> | ->]]]; reflexivity.
Qed.

(** [LookupCls.parse] on such a side: the fragment of the directive
    between the anchors that are missing. *)
Lemma parse_directive re o m p :
  is_head o m -> p <> EmptyString -> no_newline p = true ->
  parse re (directive o m p)
  = match parse_ re (directive o m p) with
    | Ok (EmptyString, _) => Raise (LookupClsError (directive o m p))
    | Ok (frag, ic) => Ok (PatternStr (format_pattern ic frag))
    | Raise e => Raise e
    end.
Proof.
  intros Hh Hne Hnl.
  destruct (search_pat_directive o m p Hh Hne Hnl) as (caps & Hs).
  destruct (finditer_pat_directive o m p Hh Hne Hnl) as (caps' & Hf).
  unfold parse. rewrite Hs, Hf. cbn [mbind res_bind parse_loop].
  unfold group0. cbn [m_start m_end m_string].
  rewrite slice_empty, slice_whole. cbn [re_escape app].
  destruct (parse_ re (directive o m p)) as [[frag ic]|e];
    cbn [mbind res_bind parse_loop fst snd orb app]; [|reflexivity].
  rewrite drop_whole. cbn [re_escape]. unfold join.
  cbn [String.concat String.append]. rewrite append_empty_r.
  reflexivity.
Qed.

(** *** The text directive *)

Lemma first_chr_re_escape p :
  option_eqb_chr (first_chr (re_escape p)) "^" = false.
Proof.
  destruct p as [|c t]; [reflexivity|]. simpl.
  destruct (is_special c) eqn:Hs; [reflexivity|]. simpl.
  destruct (Ascii.eqb c "^") eqn:E; [|reflexivity].
  apply Ascii.eqb_eq in E. subst c. discriminate Hs.
Qed.

Lemma last_chr_cons c s :
  s <> EmptyString -> last_chr (String c s) = last_chr s.
Proof. destruct s; [congruence|reflexivity]. Qed.

Lemma last_chr_re_escape p : last_chr (re_escape p) = last_chr p.
Proof.
  induction p as [|c t IH]; [reflexivity|].
  destruct t as [|c' t'].
  - simpl. destruct (is_special c); reflexivity.
  - assert (Hne : re_escape (String c' t') <> EmptyString)
      by (apply LookupFacts.re_escape_nonempty; discriminate).
    rewrite (last_chr_cons c (String c' t')) by discriminate.
    rewrite <- IH.
    change (re_escape (String c (String c' t')))
      with (if is_special c
            then String "\" (String c (re_escape (String c' t')))
            else String c (re_escape (String c' t'))).
    destruct (is_special c).
    + rewrite last_chr_cons by discriminate. now apply last_chr_cons.
    + now apply last_chr_cons.
Qed.

(** The pattern ['(?i)^' + re.escape(text) + '$'] compiles to
    [literal text] under [IGNORECASE]. *)
Lemma compile_literal_ic text :
  compile false (String.append "(?i)^" (String.append (re_escape text) "$"))
  = Some (true, literal text).
Proof.
  assert (Hp : String.prefix "(?i)"
                 (String.append "(?i)^" (String.append (re_escape text) "$"))
               = true) by reflexivity.
  cbv beta iota zeta delta [compile skip]. rewrite Hp.
  change (drop 4 (String.append "(?i)^" (String.append (re_escape text) "$")))
    with (String "^" (String.append (re_escape text) "$")).
  remember (String.length (String "^" (String.append (re_escape text) "$"))) as n
    eqn:Hn.
  assert (Hlen : String.length text + 2 <= n).
  { subst n. simpl. rewrite LiteralFacts.length_append. simpl.
    pose proof (LiteralFacts.re_escape_length text). lia. }
  replace (4 * n + 8) with (S (S (S (4 * n + 5)))) by lia.
  cbn [parse_alt].
  rewrite (LiteralFacts.parse_seq_bol _ _ (LiteralFacts.escaped_unquantified text)).
  rewrite LiteralFacts.parse_seq_escaped by lia.
  unfold literal. destruct (chain text) eqn:Hc; try reflexivity.
  now destruct (LiteralFacts.chain_not_Eps text).
Qed.

Lemma lower_chr_newline a :
  Ascii.eqb (lower_chr a) newline = Ascii.eqb a newline.
Proof. destruct a as [[] [] [] [] [] [] [] []]; reflexivity. Qed.

(** Under [IGNORECASE] the literal is compared in lower case. *)
Lemma run_chain_ic text : forall p s caps,
  run true (chain text) (mkState p s caps)
  = if is_text_or_line (lower text) (lower s)
    then [mkState (p + String.length text) (drop (String.length text) s) caps]
    else [].
Proof.
  unfold is_text_or_line, line, lower.
  induction text as [|c t IH]; intros p s caps.
  - cbn [chain run Re.rest String.length drop String.append map_chr].
    rewrite Nat.add_0_r.
    destruct s as [|a [|b s]]; try reflexivity.
    + cbn [map_chr String.eqb orb]. rewrite lower_chr_newline.
      destruct (Ascii.eqb a newline); reflexivity.
    + cbn [map_chr String.eqb orb]. rewrite lower_chr_newline.
      destruct (Ascii.eqb a newline); reflexivity.
  - cbn [chain run]. unfold one_chr. cbn [Re.rest].
    destruct s as [|a s]; [reflexivity|].
    unfold chr_eq. cbn [map_chr String.eqb String.append String.length drop].
    rewrite (Ascii.eqb_sym (lower_chr c) (lower_chr a)).
    destruct (Ascii.eqb (lower_chr a) (lower_chr c)); [|reflexivity].
    cbn [flat_map]. unfold advance. cbn [Re.pos Re.caps].
    rewrite IH, app_nil_r. cbn [andb].
    now replace (S p + String.length t) with (p + S (String.length t)) by lia.
Qed.

Lemma search_at_after_start ic r whole : forall s p,
  0 < p -> search_at ic (Seq Bol r) whole p s = None.
Proof.
  induction s as [|a s IH]; intros p Hp; cbn [search_at run Re.pos];
    replace (Nat.eqb p 0) with false by (symmetry; apply Nat.eqb_neq; lia);
    cbn [flat_map]; [reflexivity|].
  apply IH. lia.
Qed.

Lemma search_literal_ic text s :
  match search (true, literal text) s with
  | Some _ => true
  | None => false
  end = is_text_or_line (lower text) (lower s).
Proof.
  unfold search. cbn [fst snd].
  destruct s as [|a s]; cbn [search_at literal run Re.pos Nat.eqb flat_map];
    rewrite app_nil_r, run_chain_ic;
    destruct (is_text_or_line (lower text) _); try reflexivity.
  unfold literal. now rewrite search_at_after_start by lia.
Qed.

(** X23. A side that is one text directive [_text(payload)] or
    [_itext(payload)], with a payload of one line that does not end in
    [$], is the literal [payload]: [parse] returns
    ['^' + re.escape(payload) + '$'], after ['(?i)'] for the option [i],
    and [re.search] with it accepts exactly [payload] and [payload]
    followed by one newline, compared in lower case for the option
    [i]. *)
Theorem text_directive_is_literal (re : ReLib) (options payload : string) :
  options = "" \/ options = "i" ->
  payload <> EmptyString ->
  no_newline payload = true ->
  option_eqb_chr (last_chr payload) "$" = false ->
  parse re (directive options "text" payload)
  = Ok (PatternStr
          (String.append (if String.eqb options "i" then "(?i)" else "")
             (String.append "^" (String.append (re_escape payload) "$"))))
  /\ forall s,
       search_side PyRe
         (PatternStr
            (String.append (if String.eqb options "i" then "(?i)" else "")
               (String.append "^" (String.append (re_escape payload) "$")))) s
       = Ok (if String.eqb options "i"
             then is_text_or_line (lower payload) (lower s)
             else is_text_or_line payload s).
Proof.
  intros Ho Hne Hnl Hlast. split.
  - rewrite parse_directive, parse__directive by (auto || (split; auto)).
    cbn [String.eqb Ascii.eqb Bool.eqb].
    pose proof (LookupFacts.re_escape_nonempty payload Hne) as Hesc.
    destruct (re_escape payload) as [|x r] eqn:E; [congruence|].
    rewrite <- E. unfold format_pattern.
    now rewrite first_chr_re_escape, last_chr_re_escape, Hlast.
  - intros s. unfold search_side. cbn [re_compile re_search PyRe].
    destruct Ho as [-> | ->]; cbn [String.eqb Ascii.eqb Bool.eqb].
    + change (String.append "" (String.append "^" (String.append (re_escape payload) "$")))
        with (String "^" (String.append (re_escape payload) "$")).
      rewrite LiteralFacts.compile_literal. now rewrite LiteralFacts.search_literal.
    + change (String.append "(?i)" (String.append "^" (String.append (re_escape payload) "$")))
        with (String.append "(?i)^" (String.append (re_escape payload) "$")).
      rewrite compile_literal_ic. now rewrite search_literal_ic.
Qed.

Lemma text_directive_is_literal_witness :
  parse PyRe (directive "i" "text" "a.(b)") = Ok (PatternStr "(?i)^a\.\(b\)$")
  /\ forall s,
       search_side PyRe (PatternStr "(?i)^a\.\(b\)$") s
       = Ok (is_text_or_line (lower "a.(b)") (lower s)).
Proof.
  apply (text_directive_is_literal PyRe "i" "a.(b)");
    [now right|discriminate|reflexivity|reflexivity].
Defined.

(** Case beyond ASCII: the capital 201 and its small letter 233 are one
    letter for [str.lower] and under [(?i)]; 215 and 223 have no other
    case, and the capital of 255 lies beyond the characters. *)
Lemma ignore_case_latin1 :
  lower_chr (ascii_of_nat 201) = ascii_of_nat 233
  /\ lower_chr (ascii_of_nat 215) = ascii_of_nat 215
  /\ lower_chr (ascii_of_nat 223) = ascii_of_nat 223
  /\ upper_chr (ascii_of_nat 233) = ascii_of_nat 201
  /\ upper_chr (ascii_of_nat 255) = ascii_of_nat 255
  /\ search_side PyRe
       (PatternStr (String.append "(?i)^" (String (ascii_of_nat 233) "$")))
       (String (ascii_of_nat 201) "") = Ok true.
Proof. vm_compute. repeat split. Qed.


(** *** The wildcard directive *)

Lemma fragment_unquantified p :
  passive p = true -> unquantified (flat_map_chr translate_chr p).
Proof.
  destruct p as [|c t]; [reflexivity|]. simpl. intros H.
  apply andb_prop in H as [Hc _]. unfold translate_chr.
  destruct (Ascii.eqb c ".") eqn:E1; [reflexivity|].
  destruct (Ascii.eqb c "+") eqn:E2; [reflexivity|].
  destruct (Ascii.eqb c "?") eqn:E3; [reflexivity|].
  destruct (Ascii.eqb c "*") eqn:E4; [reflexivity|].
  simpl.
  destruct c as [[] [] [] [] [] [] [] []]; try reflexivity;
    try discriminate E2; try discriminate E3; try discriminate E4;
    vm_compute in Hc; discriminate Hc.
Qed.

(** [parse_seq] reads the whole converted pattern, also without the
    anchors. *)
Lemma parse_seq_fragment p : forall fuel,
  passive p = true -> String.length p + 2 <= fuel ->
  exists r,
    parse_seq fuel false (flat_map_chr translate_chr p) = Some (r, EmptyString).
Proof.
  induction p as [|c t IH]; intros fuel Hp Hf.
  - destruct fuel as [|f]; simpl in Hf; [lia|]. exists Eps. reflexivity.
  - destruct fuel as [|[|f]]; simpl in Hf; try lia.
    simpl in Hp. apply andb_prop in Hp as [Hc Ht].
    apply negb_true_iff in Hc.
    destruct (IH (S f) Ht) as [r Hrest]; [lia|].
    pose proof (fragment_unquantified t Ht) as Hq.
    assert (Hfin : forall a, exists r',
              match parse_seq (S f) false (flat_map_chr translate_chr t) with
              | Some (Eps, t3) => Some (a, t3)
              | Some (r, t3) => Some (Seq a r, t3)
              | None => None
              end = Some (r', EmptyString)).
    { intros a. rewrite Hrest. destruct r; eauto. }
    cbn [flat_map_chr]. unfold translate_chr at 1.
    destruct (Ascii.eqb c ".") eqn:E1.
    { cbn [String.append].
      rewrite LiteralFacts.parse_seq_step by reflexivity.
      cbn [Ascii.eqb Bool.eqb orb].
      rewrite (LiteralFacts.parse_atom_escaped f false "." _ eq_refl).
      rewrite (LiteralFacts.read_quantifier_none _ _ Hq). apply Hfin. }
    destruct (Ascii.eqb c "+") eqn:E2.
    { cbn [String.append].
      rewrite LiteralFacts.parse_seq_step by reflexivity.
      cbn [Ascii.eqb Bool.eqb orb].
      rewrite (LiteralFacts.parse_atom_escaped f false "+" _ eq_refl).
      rewrite (LiteralFacts.read_quantifier_none _ _ Hq). apply Hfin. }
    destruct (Ascii.eqb c "?") eqn:E3.
    { cbn [String.append]. rewrite LiteralFacts.parse_seq_step by reflexivity.
      cbn [Ascii.eqb Bool.eqb orb]. cbn [parse_atom].
      rewrite (LiteralFacts.read_quantifier_none _ _ Hq). apply Hfin. }
    destruct (Ascii.eqb c "*") eqn:E4.
    { cbn [String.append]. rewrite LiteralFacts.parse_seq_step by reflexivity.
      cbn [Ascii.eqb Bool.eqb orb]. cbn [parse_atom].
      assert (Hrq : read_quantifier false Any
                      (String "*" (flat_map_chr translate_chr t))
                    = Some (Star Any, flat_map_chr translate_chr t)).
      { unfold read_quantifier, skip.
        change (is_quantifier "*") with true. cbv iota.
        destruct (flat_map_chr translate_chr t) as [|c' r'];
          [reflexivity|].
        simpl in Hq. cbn [first_chr]. now rewrite Hq. }
      rewrite Hrq. apply Hfin. }
    cbn [String.append].
    rewrite LiteralFacts.parse_seq_step by (now apply GlobFacts.passive_not_anchor).
    rewrite (GlobFacts.passive_not_bar c Hc).
    assert (Hnq : is_quantifier c = false).
    { destruct c as [[] [] [] [] [] [] [] []]; try reflexivity;
        try discriminate E2; try discriminate E3; try discriminate E4;
        vm_compute in Hc; discriminate Hc. }
    rewrite (GlobFacts.parse_atom_passive f c _ Hc Hnq E1).
    rewrite (LiteralFacts.read_quantifier_none _ _ Hq). apply Hfin.
Qed.

Lemma prefix_flag_passive p :
  passive p = true ->
  String.prefix "(?i)" (flat_map_chr translate_chr p) = false.
Proof.
  destruct p as [|c t]; [reflexivity|]. simpl. intros H.
  apply andb_prop in H as [Hc _]. unfold translate_chr.
  destruct (Ascii.eqb c ".") eqn:E1; [reflexivity|].
  destruct (Ascii.eqb c "+") eqn:E2; [reflexivity|].
  destruct (Ascii.eqb c "?") eqn:E3; [reflexivity|].
  destruct (Ascii.eqb c "*") eqn:E4; [reflexivity|].
  cbn [String.append]. rewrite UtilsFacts.prefix_cons.
  destruct (Ascii.eqb "(" c) eqn:E; [|reflexivity].
  apply Ascii.eqb_eq in E. subst c. discriminate Hc.
Qed.

(** The open conversion of a passive pattern compiles. *)
Lemma compile_fragment p :
  passive p = true ->
  exists c, compile false (flat_map_chr translate_chr p) = Some c.
Proof.
  intros Hp. cbv beta iota zeta delta [compile skip].
  rewrite (prefix_flag_passive p Hp).
  remember (String.length (flat_map_chr translate_chr p)) as n eqn:Hn.
  assert (Hlen : String.length p <= n)
    by (subst n; apply GlobFacts.translation_length).
  replace (4 * n + 8) with (S (4 * n + 7)) by lia.
  cbn [parse_alt].
  destruct (parse_seq_fragment p (4 * n + 7) Hp) as [r Hr]; [lia|].
  rewrite Hr. eauto.
Qed.

Lemma open_fragment_passive p :
  passive p = true -> contains word p = false ->
  wildcard_fragment p false = flat_map_chr translate_chr p.
Proof.
  intros Hp Hw. rewrite (UtilsFacts.wildcard_fragment_translation p Hw).
  unfold wildcard_translation.
  now rewrite (GlobFacts.replace_no_bracket _ (GlobFacts.translation_no_bracket p Hp)).
Qed.

Lemma translate_chr_edges c :
  is_active c = false ->
  option_eqb_chr (first_chr (translate_chr c)) "^" = false
  /\ option_eqb_chr (last_chr (translate_chr c)) "$" = false
  /\ translate_chr c <> EmptyString.
Proof.
  destruct c as [[] [] [] [] [] [] [] []]; intros Ha;
    try (vm_compute in Ha; discriminate Ha);
    (split; [reflexivity|split; [reflexivity|discriminate]]).
Qed.

Lemma fragment_nonempty p :
  p <> EmptyString -> flat_map_chr translate_chr p <> EmptyString.
Proof.
  destruct p as [|c t]; [congruence|]. intros _ H.
  apply (f_equal String.length) in H. cbn [flat_map_chr] in H.
  rewrite LiteralFacts.length_append in H.
  pose proof (GlobFacts.translate_chr_length c). simpl in H. lia.
Qed.

(** The converted pattern carries no anchor of its own. *)
Lemma fragment_edges p :
  passive p = true ->
  option_eqb_chr (first_chr (flat_map_chr translate_chr p)) "^" = false
  /\ option_eqb_chr (last_chr (flat_map_chr translate_chr p)) "$" = false.
Proof.
  induction p as [|c t IH]; [now split|]. simpl. intros H.
  apply andb_prop in H as [Hc Ht]. apply negb_true_iff in Hc.
  destruct (translate_chr_edges c Hc) as (Hf & Hl & Hne).
  destruct (IH Ht) as [_ IHl]. split.
  - now rewrite AnchorFacts.first_chr_app.
  - destruct t as [|c' t'].
    + cbn [flat_map_chr]. now rewrite append_empty_r.
    + rewrite AnchorFacts.last_chr_app; [exact IHl|].
      apply fragment_nonempty. discriminate.
Qed.

Lemma count_equals_directive o m p :
  is_head o m -> count "=" (directive o m p) = count "=" p.
Proof.
  intros [[-> | ->] [-> | [-> | ->]]]; unfold directive;
    cbn [String.append count Ascii.eqb Bool.eqb Nat.add];
    rewrite GlobFacts.count_append; simpl; lia.
Qed.

(** X24. The lookup [_wildcard(payload)], for a payload of one line
    without the signs [( ) [ { | ^ $ \ =] (and without the placeholder
    word), finds keys by glob matching: the lookup object is built, it
    has no right side, its left pattern is the closed conversion
    ['^' + converted + '$'], and [is_left_matched] accepts a string key
    exactly when [glob] does, and no key that is not a string. *)
Theorem wildcard_directive_is_glob (payload : string) :
  payload <> EmptyString ->
  passive payload = true ->
  no_newline payload = true ->
  contains "replacetodot" payload = false ->
  count "=" payload = 0 ->
  exists lk,
    process PyRe (directive "" "wildcard" payload) = Ok lk
    /\ left lk
       = PatternStr
           (String.append "^"
              (String.append (flat_map_chr translate_chr payload) "$"))
    /\ is_right lk = false
    /\ forall k,
         is_left_matched PyRe lk k
         = Ok (match k with
               | KStr s => glob payload s
               | _ => false
               end).
Proof.
  intros Hne Hp Hnl Hw Heq.
  assert (Hh : is_head "" "wildcard") by (split; auto).
  exists (mkLookupCls (directive "" "wildcard" payload)
            (PatternStr
               (String.append "^"
                  (String.append (flat_map_chr translate_chr payload) "$")))
            None).
  split.
  { rewrite LookupFacts.process_no_equals
      by (now rewrite (count_equals_directive _ _ _ Hh)).
    rewrite (parse_directive PyRe _ _ _ Hh Hne Hnl).
    rewrite (parse__directive PyRe _ _ _ Hh Hne Hnl).
    cbn [String.eqb Ascii.eqb Bool.eqb].
    unfold convert_wildcard_to_regex.
    rewrite (open_fragment_passive payload Hp Hw).
    destruct (compile_fragment payload Hp) as [c Hc].
    cbn [re_compile PyRe]. rewrite Hc. cbn [mbind res_bind].
    pose proof (fragment_nonempty payload Hne) as Hfne.
    destruct (fragment_edges payload Hp) as [Hf Hl].
    destruct (flat_map_chr translate_chr payload) as [|x r] eqn:E; [congruence|].
    unfold format_pattern. now rewrite Hf, Hl. }
  split; [reflexivity|]. split; [reflexivity|].
  intros k. unfold is_left_matched. destruct k; try reflexivity.
  cbn [left]. unfold search_side. cbn [re_compile re_search PyRe].
  change (String.append "^"
            (String.append (flat_map_chr translate_chr payload) "$"))
    with (String "^" (String.append (flat_map_chr translate_chr payload) "$")).
  rewrite (GlobFacts.compile_translated payload Hp).
  now rewrite GlobFacts.search_glob.
Qed.

Lemma wildcard_directive_is_glob_witness :
  exists lk,
    process PyRe (directive "" "wildcard" "a?c*.x") = Ok lk
    /\ left lk = PatternStr "^a.c.*\.x$"
    /\ is_right lk = false
    /\ forall k,
         is_left_matched PyRe lk k
         = Ok (match k with
               | KStr s => glob "a?c*.x" s
               | _ => false
               end).
Proof.
  apply (wildcard_directive_is_glob "a?c*.x");
    [discriminate|reflexivity|reflexivity|reflexivity|reflexivity].
Defined.

(** *** The regex directive *)

(** X25. A regex directive is not validated when the lookup is built:
    for every one-line payload without [=], [LookupCls('_regex(payload)')]
    (and [_iregex]) is built, without a right side, with the payload
    itself as left pattern between the anchors that it lacks (after
    ['(?i)'] for the option [i]).  The pattern first reaches [re] in
    [is_left_matched], on a string key: a pattern that [re] rejects
    raises [re.error] there, at every string key; a key that is not a
    string gives [False] without touching the pattern. *)
Theorem regex_directive_is_not_validated
    (re : ReLib) (options payload : string) :
  options = "" \/ options = "i" ->
  payload <> EmptyString ->
  no_newline payload = true ->
  count "=" payload = 0 ->
  exists lk,
    process re (directive options "regex" payload) = Ok lk
    /\ left lk = PatternStr (format_pattern (String.eqb options "i") payload)
    /\ right lk = None
    /\ forall k,
         is_left_matched re lk k
         = match k with
           | KStr s =>
               match re_compile re
                       (format_pattern (String.eqb options "i") payload) with
               | Some c => Ok (re_search re c s)
               | None => Raise re_error
               end
           | _ => Ok false
           end.
Proof.
  intros Ho Hne Hnl Heq.
  assert (Hh : is_head options "regex") by (split; auto).
  exists (mkLookupCls (directive options "regex" payload)
            (PatternStr (format_pattern (String.eqb options "i") payload)) None).
  split.
  { rewrite LookupFacts.process_no_equals
      by (now rewrite (count_equals_directive _ _ _ Hh)).
    rewrite (parse_directive re _ _ _ Hh Hne Hnl).
    rewrite (parse__directive re _ _ _ Hh Hne Hnl).
    cbn [String.eqb Ascii.eqb Bool.eqb].
    destruct payload as [|x r]; [congruence|]. reflexivity. }
  split; [reflexivity|]. split; [reflexivity|].
  intros k. destruct k; reflexivity.
Qed.

Lemma regex_directive_is_not_validated_witness :
  exists lk,
    process PyRe (directive "" "regex" "a(") = Ok lk
    /\ left lk = PatternStr "^a($"
    /\ right lk = None
    /\ forall k,
         is_left_matched PyRe lk k
         = match k with
           | KStr _ => Raise re_error
           | _ => Ok false
           end.
Proof.
  apply (regex_directive_is_not_validated PyRe "" "a(");
    [now left|discriminate|reflexivity|reflexivity].
Defined.

End DirectiveFacts.

(** ** Facts about operators on a lookup side *)

Module OperatorFacts.
Import Str Re Lookup Literal Directive Operator.

Lemma compile_vpat2 : compile true vpat2_ = Some (true, vpat2_regex).
Proof. vm_compute. reflexivity. Qed.

Lemma compile_vpat3 : compile true vpat3_ = Some (true, vpat3_regex).
Proof. vm_compute. reflexivity. Qed.

(** *** What the matcher reads *)

Lemma reads_refl s : reads "" [] s s.
Proof. unfold reads. simpl. rewrite Nat.add_0_r. auto. Qed.

Lemma reads_trans u1 n1 u2 n2 s1 s2 s3 :
  reads u1 n1 s1 s2 -> reads u2 n2 s2 s3 ->
  reads (String.append u1 u2) (n2 ++ n1) s1 s3.
Proof.
  intros (Hr1 & Hp1 & Hc1) (Hr2 & Hp2 & Hc2). unfold reads.
  rewrite Hr1, Hr2, Hp2, Hp1, Hc2, Hc1, LiteralFacts.length_append.
  rewrite UtilsFacts.append_assoc, <- app_assoc. repeat split; lia.
Qed.

Lemma reads_one_chr test s s' :
  In s' (one_chr test s) ->
  exists a, test a = true /\ reads (String a "") [] s s'.
Proof.
  unfold one_chr. destruct (Re.rest s) as [|a t] eqn:E; [intros []|].
  destruct (test a) eqn:Ht; [|intros []]. intros [<-|[]].
  exists a. split; [exact Ht|]. unfold reads, advance. simpl.
  rewrite E. repeat split. lia.
Qed.

(** Whatever the pattern, the matcher reads a piece of the subject and
    records groups of the pattern only. *)
Lemma run_reads ic r : forall s s',
  In s' (run ic r s) ->
  exists u new, reads u new s s' /\ Forall (fun e => In (fst e) (names r)) new.
Proof.
  induction r as [|c| |neg rs| | |r1 IH1 r2 IH2|r1 IH1 r2 IH2|r IH|name r IH];
    intros s s' Hin; cbn [run] in Hin.
  - destruct Hin as [<-|[]]. exists "", []. split; [apply reads_refl|constructor].
  - apply reads_one_chr in Hin as (a & _ & Hr). eauto.
  - apply reads_one_chr in Hin as (a & _ & Hr). eauto.
  - apply reads_one_chr in Hin as (a & _ & Hr). eauto.
  - destruct (Nat.eqb (Re.pos s) 0); [|destruct Hin].
    destruct Hin as [<-|[]]. exists "", []. split; [apply reads_refl|constructor].
  - assert (s' = s) as ->.
    { destruct (Re.rest s) as [|a [|b t]]; try destruct (Ascii.eqb a newline);
        try destruct Hin as [<-|[]]; try destruct Hin; reflexivity. }
    exists "", []. split; [apply reads_refl|constructor].
  - apply in_flat_map in Hin as (s1 & H1 & H2).
    destruct (IH1 _ _ H1) as (u1 & n1 & Hr1 & Hn1).
    destruct (IH2 _ _ H2) as (u2 & n2 & Hr2 & Hn2).
    exists (String.append u1 u2), (n2 ++ n1).
    split; [eapply reads_trans; eassumption|].
    cbn [names]. apply Forall_app. split.
    + eapply Forall_impl; [exact Hn2|]. cbv beta. intros e He. apply in_or_app. now right.
    + eapply Forall_impl; [exact Hn1|]. cbv beta. intros e He. apply in_or_app. now left.
  - cbn [names]. apply in_app_or in Hin as [Hin|Hin].
    + destruct (IH1 _ _ Hin) as (u & n & Hr & Hn). exists u, n. split; [exact Hr|].
      eapply Forall_impl; [exact Hn|]. cbv beta. intros e He. apply in_or_app. now left.
    + destruct (IH2 _ _ Hin) as (u & n & Hr & Hn). exists u, n. split; [exact Hr|].
      eapply Forall_impl; [exact Hn|]. cbv beta. intros e He. apply in_or_app. now right.
  - cbn [names]. remember (S (String.length (Re.rest s))) as n eqn:Hn. clear Hn.
    revert s Hin. induction n as [|n IHn]; intros s Hin; cbn [star] in Hin.
    + destruct Hin as [<-|[]]. exists "", []. split; [apply reads_refl|constructor].
    + apply in_app_or in Hin as [Hin|[<-|[]]].
      * apply in_flat_map in Hin as (s1 & H1 & H2).
        destruct (Nat.ltb (Re.pos s) (Re.pos s1)); [|destruct H2].
        destruct (IH _ _ H1) as (u1 & n1 & Hr1 & Hn1).
        destruct (IHn _ H2) as (u2 & n2 & Hr2 & Hn2).
        exists (String.append u1 u2), (n2 ++ n1).
        split; [eapply reads_trans; eassumption|].
        apply Forall_app. now split.
      * exists "", []. split; [apply reads_refl|constructor].
  - apply in_map_iff in Hin as (s1 & <- & H1).
    destruct (IH _ _ H1) as (u & n & (Hr & Hp & Hc) & Hn).
    exists u, ((name, (Re.pos s, Re.pos s1)) :: n). split.
    + unfold reads. cbn [Re.rest Re.pos Re.caps]. rewrite Hc. auto.
    + cbn [names]. constructor; [now left|].
      eapply Forall_impl; [exact Hn|]. cbv beta. intros e He. now right.
Qed.

(** *** Classes of one character *)

Lemma in_class_digit ic a : in_class ic [("0"%char, "9"%char)] a = is_digit a.
Proof. destruct ic, a as [[] [] [] [] [] [] [] []]; reflexivity. Qed.

Lemma in_class_close ic a : in_class ic [(")"%char, ")"%char)] a = Ascii.eqb a ")".
Proof. destruct ic, a as [[] [] [] [] [] [] [] []]; reflexivity. Qed.

Lemma in_class_dot ic a : in_class ic [("."%char, "."%char)] a = Ascii.eqb a ".".
Proof. destruct ic, a as [[] [] [] [] [] [] [] []]; reflexivity. Qed.

Lemma every_ext f g s : (forall a, f a = g a) -> every f s = every g s.
Proof.
  intros H. induction s as [|c t IH]; [reflexivity|]. simpl. now rewrite H, IH.
Qed.

Lemma every_app f a b : every f (String.append a b) = every f a && every f b.
Proof.
  induction a as [|c t IH]; [reflexivity|]. simpl. now rewrite IH, andb_assoc.
Qed.

(** Greedy repetition of one class reads characters of the class. *)
Lemma star_test_reads test n : forall s s',
  In s' (star (one_chr test) n s) ->
  exists u, reads u [] s s' /\ every test u = true.
Proof.
  induction n as [|n IH]; intros s s' Hin; cbn [star] in Hin.
  - destruct Hin as [<-|[]]. exists "". split; [apply reads_refl|reflexivity].
  - apply in_app_or in Hin as [Hin|[<-|[]]].
    + apply in_flat_map in Hin as (s1 & H1 & H2).
      destruct (Nat.ltb (Re.pos s) (Re.pos s1)); [|destruct H2].
      apply reads_one_chr in H1 as (a & Ha & Hr1).
      destruct (IH _ _ H2) as (u & Hr2 & Hu).
      exists (String a u). split.
      * exact (reads_trans _ _ _ _ _ _ _ Hr1 Hr2).
      * simpl. now rewrite Ha, Hu.
    + exists "". split; [apply reads_refl|reflexivity].
Qed.

(** It can stop after any run of characters of the class. *)
Lemma star_test_reaches test u : forall n p e caps,
  every test u = true -> String.length u < n ->
  In (mkState (p + String.length u) e caps)
     (star (one_chr test) n (mkState p (String.append u e) caps)).
Proof.
  induction u as [|a u IH]; intros n p e caps Hu Hn.
  - destruct n as [|n]; [simpl in Hn; lia|].
    cbn [star String.append String.length]. rewrite Nat.add_0_r.
    apply in_or_app. right. now left.
  - destruct n as [|n]; [simpl in Hn; lia|]. simpl in Hu, Hn.
    apply andb_prop in Hu as [Ha Hu].
    cbn [star String.append]. apply in_or_app. left.
    unfold one_chr at 2. cbn [Re.rest]. rewrite Ha. cbn [flat_map].
    unfold advance. cbn [Re.pos Re.caps].
    replace (Nat.ltb p (S p)) with true by (symmetry; apply Nat.ltb_lt; lia).
    rewrite app_nil_r. cbn [String.length].
    replace (p + S (String.length u)) with (S p + String.length u) by lia.
    apply IH; [exact Hu|lia].
Qed.

(** *** Runs of digits *)

Lemma digits1_reads ic s s' :
  In s' (run ic digits1 s) ->
  exists u, reads u [] s s' /\ every is_digit u = true /\ u <> EmptyString.
Proof.
  unfold digits1, Index.digit. intros Hin.
  change (In s' (flat_map
                   (fun s1 => star (one_chr (fun a => xorb false
                                  (in_class ic [("0"%char, "9"%char)] a)))
                                (S (String.length (Re.rest s1))) s1)
                   (one_chr (fun a => xorb false
                                  (in_class ic [("0"%char, "9"%char)] a)) s)))
    in Hin.
  apply in_flat_map in Hin as (s1 & H1 & H2).
  apply reads_one_chr in H1 as (a & Ha & Hr1).
  apply star_test_reads in H2 as (u & Hr2 & Hu).
  exists (String a u). split; [exact (reads_trans _ _ _ _ _ _ _ Hr1 Hr2)|].
  split; [|discriminate]. simpl.
  rewrite in_class_digit in Ha. simpl in Ha. rewrite Ha. simpl.
  erewrite every_ext; [exact Hu|]. intros c. cbv beta.
  now rewrite in_class_digit.
Qed.

Lemma digits1_reaches ic u p e caps :
  every is_digit u = true -> u <> EmptyString ->
  In (mkState (p + String.length u) e caps)
     (run ic digits1 (mkState p (String.append u e) caps)).
Proof.
  intros Hu Hne. destruct u as [|a u]; [congruence|].
  simpl in Hu. apply andb_prop in Hu as [Ha Hu].
  unfold digits1, Index.digit.
  change (In (mkState (p + String.length (String a u)) e caps)
             (flat_map
                (fun s1 => star (one_chr (fun a => xorb false
                               (in_class ic [("0"%char, "9"%char)] a)))
                             (S (String.length (Re.rest s1))) s1)
                (one_chr (fun a => xorb false
                               (in_class ic [("0"%char, "9"%char)] a))
                   (mkState p (String a (String.append u e)) caps)))).
  unfold one_chr at 2. cbn [Re.rest]. rewrite in_class_digit. simpl xorb.
  rewrite Ha. cbn [flat_map]. rewrite app_nil_r.
  unfold advance. cbn [Re.pos Re.caps Re.rest String.length].
  replace (p + S (String.length u)) with (S p + String.length u) by lia.
  apply star_test_reaches.
  - erewrite every_ext; [exact Hu|]. intros c. cbv beta.
    now rewrite in_class_digit.
  - rewrite LiteralFacts.length_append. lia.
Qed.

(** *** Numbers *)

Lemma digits_number b :
  every is_digit b = true -> b <> EmptyString -> is_number b = true.
Proof.
  induction b as [|c t IH]; [congruence|]. simpl. intros H _.
  apply andb_prop in H as [Hc Ht]. rewrite Hc.
  destruct t as [|c' t']; [reflexivity|].
  rewrite IH by (assumption || discriminate). apply orb_true_r.
Qed.

Lemma number_of_parts a d b :
  every is_digit a = true -> d = EmptyString \/ d = "." ->
  every is_digit b = true -> b <> EmptyString ->
  is_number (String.append a (String.append d b)) = true.
Proof.
  intros Ha Hd Hb Hne. induction a as [|c a IH].
  - destruct Hd as [-> | ->]; cbn [String.append].
    + now apply digits_number.
    + cbn [is_number]. change (is_digit ".") with false. cbv iota.
      rewrite Hb. destruct b; [congruence|reflexivity].
  - simpl in Ha. apply andb_prop in Ha as [Hc Ha].
    cbn [String.append is_number]. rewrite Hc, (IH Ha). apply orb_true_r.
Qed.

Lemma number_parts s :
  is_number s = true ->
  (every is_digit s = true /\ s <> EmptyString)
  \/ exists a b, s = String.append a (String "." b)
                 /\ every is_digit a = true /\ every is_digit b = true
                 /\ b <> EmptyString.
Proof.
  induction s as [|c t IH]; [discriminate|]. cbn [is_number].
  destruct (is_digit c) eqn:Hc.
  - intros H. apply orb_prop in H as [H|H].
    + apply String.eqb_eq in H. subst t. left. simpl. rewrite Hc.
      split; [reflexivity|discriminate].
    + destruct (IH H) as [[Ht _]|(a & b & -> & Ha & Hb & Hne)].
      * left. simpl. rewrite Hc, Ht. split; [reflexivity|discriminate].
      * right. exists (String c a), b. simpl. rewrite Hc, Ha. auto.
  - intros H. apply andb_prop in H as [H Ht]. apply andb_prop in H as [Hd Hne].
    apply Ascii.eqb_eq in Hd. subst c. right. exists "", t.
    repeat split; [exact Ht|]. intros ->. discriminate.
Qed.

(** The pattern of numbers reads numbers only. *)
Lemma number_reads ic s s' :
  In s' (run ic number s) ->
  exists u new, reads u new s s' /\ is_number u = true.
Proof.
  unfold number. intros Hin.
  change (In s' (flat_map
                   (fun s1 =>
                      flat_map (run ic digits1)
                        (run ic (Alt (Cls false [("."%char, "."%char)]) Eps) s1))
                   (run ic (Alt (Grp "" digits1) Eps) s))) in Hin.
  apply in_flat_map in Hin as (s1 & H1 & H2).
  apply in_flat_map in H2 as (s2 & H2 & H3).
  apply digits1_reads in H3 as (b & Hb & Hdb & Hne).
  assert (Ha : exists a na, reads a na s s1 /\ every is_digit a = true).
  { cbn [run] in H1. apply in_app_or in H1 as [H1|[<-|[]]].
    - apply in_map_iff in H1 as (s0 & <- & H0).
      apply digits1_reads in H0 as (a & (Hr & Hp & Hc) & Hda & _).
      exists a, [("", (Re.pos s, Re.pos s0))]. split; [|exact Hda].
      unfold reads. cbn [Re.rest Re.pos Re.caps]. rewrite Hc. auto.
    - exists "", []. split; [apply reads_refl|reflexivity]. }
  destruct Ha as (a & na & Hra & Hda).
  assert (Hd : exists d, reads d [] s1 s2 /\ (d = EmptyString \/ d = ".")).
  { cbn [run] in H2. apply in_app_or in H2 as [H2|[<-|[]]].
    - apply reads_one_chr in H2 as (x & Hx & Hr).
      rewrite in_class_dot in Hx. simpl in Hx. apply Ascii.eqb_eq in Hx.
      subst x. exists ".". auto.
    - exists "". split; [apply reads_refl|now left]. }
  destruct Hd as (d & Hrd & Hd).
  exists (String.append a (String.append d b)), (([] ++ []) ++ na). split.
  - eapply reads_trans; [exact Hra|]. eapply reads_trans; eassumption.
  - now apply number_of_parts.
Qed.

(** It can read any number. *)
Lemma number_reaches ic u p e caps :
  is_number u = true ->
  exists new,
    In (mkState (p + String.length u) e (new ++ caps))
       (run ic number (mkState p (String.append u e) caps)).
Proof.
  intros Hu. unfold number.
  change (run ic
            (Seq (Alt (Grp "" digits1) Eps)
               (Seq (Alt (Cls false [("."%char, "."%char)]) Eps) digits1))
            (mkState p (String.append u e) caps))
    with (flat_map
            (fun s1 =>
               flat_map (run ic digits1)
                 (run ic (Alt (Cls false [("."%char, "."%char)]) Eps) s1))
            (run ic (Alt (Grp "" digits1) Eps)
               (mkState p (String.append u e) caps))).
  destruct (number_parts u Hu) as [[Hd Hne]|(a & b & -> & Ha & Hb & Hne)].
  - (* digits only: both options are skipped *)
    exists []. apply in_flat_map. exists (mkState p (String.append u e) caps).
    split; [cbn [run]; apply in_or_app; right; now left|].
    apply in_flat_map. exists (mkState p (String.append u e) caps).
    split; [cbn [run]; apply in_or_app; right; now left|].
    now apply digits1_reaches.
  - rewrite UtilsFacts.append_assoc. cbn [String.append].
    destruct a as [|c a].
    + (* a dot first *)
      exists []. apply in_flat_map.
      exists (mkState p (String "." (String.append b e)) caps).
      split; [cbn [run]; apply in_or_app; right; now left|].
      apply in_flat_map. exists (mkState (S p) (String.append b e) caps).
      split.
      * cbn [run]. apply in_or_app. left. unfold one_chr. cbn [Re.rest].
        rewrite in_class_dot. simpl. now left.
      * cbn [String.append String.length].
        replace (p + S (String.length b)) with (S p + String.length b) by lia.
        now apply digits1_reaches.
    + (* digits, a dot, digits *)
      exists [("", (p, p + String.length (String c a)))]. apply in_flat_map.
      exists (mkState (p + String.length (String c a))
                (String "." (String.append b e))
                (("", (p, p + String.length (String c a))) :: caps)).
      split.
      * cbn [run]. apply in_or_app. left. apply in_map_iff.
        exists (mkState (p + String.length (String c a))
                  (String "." (String.append b e)) caps).
        split; [reflexivity|].
        apply (digits1_reaches ic (String c a) p
                 (String "." (String.append b e)) caps Ha). discriminate.
      * apply in_flat_map.
        exists (mkState (S (p + String.length (String c a)))
                  (String.append b e)
                  (("", (p, p + String.length (String c a))) :: caps)).
        split.
        -- cbn [run]. apply in_or_app. left. unfold one_chr. cbn [Re.rest].
           rewrite in_class_dot. simpl. now left.
        -- rewrite LiteralFacts.length_append. cbn [String.length app].
           replace (p + (S (String.length a) + S (String.length b)))
             with (S (p + S (String.length a)) + String.length b) by lia.
           now apply digits1_reaches.
Qed.

(** *** The operand between the parentheses *)

Lemma append_snoc_inj c : forall a b,
  String.append a (String c "") = String.append b (String c "") -> a = b.
Proof.
  induction a as [|x a IH]; intros [|y b] H; simpl in H.
  - reflexivity.
  - injection H as _ H. destruct b; discriminate H.
  - injection H as _ H. destruct a; discriminate H.
  - injection H as -> H. f_equal. now apply IH.
Qed.

Lemma append_inv_head a : forall x y,
  String.append a x = String.append a y -> x = y.
Proof.
  induction a as [|c a IH]; intros x y H; [exact H|].
  simpl in H. injection H as H. now apply IH.
Qed.

(** What stands before a closing parenthesis at the end of
    [other + ')'] is [other]. *)
Lemma operand_end other u t :
  String.append other ")" = String.append u (String ")" t) ->
  t = EmptyString \/ t = String newline EmptyString ->
  u = other /\ t = EmptyString.
Proof.
  intros H [-> | ->].
  - split; [|reflexivity]. symmetry. now apply (append_snoc_inj ")").
  - apply (f_equal last_chr) in H.
    rewrite !AnchorFacts.last_chr_app in H by discriminate.
    discriminate H.
Qed.

Lemma in_run_Eol ic s s' :
  In s' (run ic Eol s) ->
  s' = s /\ (Re.rest s = EmptyString \/ Re.rest s = String newline EmptyString).
Proof.
  cbn [run]. destruct (Re.rest s) as [|a [|b t]].
  - intros [<-|[]]. auto.
  - destruct (Ascii.eqb a newline) eqn:E; [|intros []].
    apply Ascii.eqb_eq in E. subst a. intros [<-|[]]. auto.
  - intros [].
Qed.

(** Every way in which [(?P<other>body)[)]$] matches [other + ')'] ends
    at the end, with the whole of [other] in the group. *)
Lemma operand_results ic body st other s' :
  Re.rest st = String.append other ")" ->
  In s' (run ic (operand body) st) ->
  exists new,
    Forall (fun e => In (fst e) (names body)) new
    /\ s' = mkState (Re.pos st + String.length other + 1) ""
              (("other", (Re.pos st, Re.pos st + String.length other))
               :: new ++ Re.caps st).
Proof.
  intros Hst Hin. unfold operand in Hin.
  change (In s' (flat_map
                   (fun s2 => flat_map (run ic Eol) (run ic closing s2))
                   (map (fun s2 =>
                           mkState (Re.pos s2) (Re.rest s2)
                             (("other", (Re.pos st, Re.pos s2)) :: Re.caps s2))
                      (run ic body st)))) in Hin.
  apply in_flat_map in Hin as (s2w & Hmap & H3).
  apply in_map_iff in Hmap as (s2 & <- & H2).
  apply in_flat_map in H3 as (s3 & Hcl & He).
  destruct (run_reads ic body _ _ H2) as (u & new & (Hr & Hp & Hc) & Hn).
  unfold closing in Hcl. cbn [run] in Hcl.
  apply reads_one_chr in Hcl as (a & Ha & (Hr3 & Hp3 & Hc3)).
  rewrite in_class_close in Ha. simpl in Ha. apply Ascii.eqb_eq in Ha. subst a.
  cbn [Re.rest Re.pos Re.caps String.append] in Hr3, Hp3, Hc3.
  apply in_run_Eol in He as [-> Hend].
  rewrite Hst, Hr3 in Hr.
  destruct (operand_end other u (Re.rest s3) Hr Hend) as [-> Hrest].
  exists new. split; [exact Hn|].
  destruct s3 as [p3 r3 c3]. cbn [Re.rest Re.pos Re.caps] in *.
  subst. cbn [String.length app]. rewrite Hp, Hc. reflexivity.
Qed.

(** If [body] can read [other], the operand pattern matches. *)
Lemma operand_matches ic body st other new :
  Re.rest st = String.append other ")" ->
  In (mkState (Re.pos st + String.length other) ")" (new ++ Re.caps st))
     (run ic body st) ->
  exists new' l,
    Forall (fun e => In (fst e) (names body)) new'
    /\ run ic (operand body) st
       = mkState (Re.pos st + String.length other + 1) ""
           (("other", (Re.pos st, Re.pos st + String.length other))
            :: new' ++ Re.caps st) :: l.
Proof.
  intros Hst Hin.
  assert (Hex : exists s', In s' (run ic (operand body) st)).
  { eexists. unfold operand.
    change (run ic (Seq (Grp "other" body) (Seq closing Eol)) st)
      with (flat_map
              (fun s2 => flat_map (run ic Eol) (run ic closing s2))
              (map (fun s2 =>
                      mkState (Re.pos s2) (Re.rest s2)
                        (("other", (Re.pos st, Re.pos s2)) :: Re.caps s2))
                 (run ic body st))).
    apply in_flat_map. eexists. split.
    - apply in_map_iff. eexists. split; [reflexivity|exact Hin].
    - cbn [Re.pos Re.rest Re.caps]. unfold closing. cbn [run].
      unfold one_chr. cbn [Re.rest]. rewrite in_class_close. simpl.
      left. reflexivity. }
  destruct Hex as [s' Hs'].
  destruct (run ic (operand body) st) as [|m l] eqn:E; [destruct Hs'|].
  assert (Hm : In m (run ic (operand body) st)) by (rewrite E; now left).
  destruct (operand_results ic body st other m Hst Hm) as (new' & Hn & ->).
  exists new', l. auto.
Qed.

(** If [body] reads no string that is [other], it does not match. *)
Lemma operand_fails ic body st other :
  Re.rest st = String.append other ")" ->
  (forall s2 new, In s2 (run ic body st) -> ~ reads other new st s2) ->
  run ic (operand body) st = [].
Proof.
  intros Hst Hno.
  destruct (run ic (operand body) st) as [|m l] eqn:E; [reflexivity|].
  assert (Hin : In m (run ic (operand body) st)) by (rewrite E; now left).
  exfalso. unfold operand in Hin.
  change (In m (flat_map
                  (fun s2 => flat_map (run ic Eol) (run ic closing s2))
                  (map (fun s2 =>
                          mkState (Re.pos s2) (Re.rest s2)
                            (("other", (Re.pos st, Re.pos s2)) :: Re.caps s2))
                     (run ic body st)))) in Hin.
  apply in_flat_map in Hin as (s2w & Hmap & H3).
  apply in_map_iff in Hmap as (s2 & <- & H2).
  apply in_flat_map in H3 as (s3 & Hcl & He).
  destruct (run_reads ic body _ _ H2) as (u & new & (Hr & Hp & Hc) & Hn).
  unfold closing in Hcl. cbn [run] in Hcl.
  apply reads_one_chr in Hcl as (a & Ha & (Hr3 & Hp3 & Hc3)).
  rewrite in_class_close in Ha. simpl in Ha. apply Ascii.eqb_eq in Ha. subst a.
  cbn [Re.rest Re.pos Re.caps String.append] in Hr3, Hp3, Hc3.
  apply in_run_Eol in He as [-> Hend].
  pose proof Hr as Hr'. rewrite Hst, Hr3 in Hr'.
  destruct (operand_end other u (Re.rest s3) Hr' Hend) as [-> Hrest].
  apply (Hno s2 new H2). repeat split; assumption.
Qed.

(** *** The operator in front *)

Lemma is_op_cases op :
  is_op op = true ->
  op = "lt" \/ op = "le" \/ op = "gt" \/ op = "ge" \/ op = "eq" \/ op = "ne".
Proof.
  unfold is_op. cbn [existsb]. rewrite !orb_true_iff, !String.eqb_eq.
  intuition discriminate.
Qed.

Lemma run_Seq_single ic r1 r2 s s1 :
  run ic r1 s = [s1] -> run ic (Seq r1 r2) s = run ic r2 s1.
Proof. intros H. cbn [run]. rewrite H. cbn [flat_map]. apply app_nil_r. Qed.

Lemma vpat2_head op x :
  is_op op = true ->
  run true vpat2_regex (mkState 0 (call op x) [])
  = run true (operand number)
      (mkState 3 (String.append x ")") [("op", (0, 2))]).
Proof.
  intros H. apply is_op_cases in H. unfold vpat2_regex.
  destruct H as [-> | [-> | [-> | [-> | [-> | ->]]]]];
    rewrite (run_Seq_single true _ _ _
               (mkState 2 (String "(" (String.append x ")")) [("op", (0, 2))]))
      by reflexivity;
    rewrite (run_Seq_single true _ _ _
               (mkState 3 (String.append x ")") [("op", (0, 2))]))
      by reflexivity;
    reflexivity.
Qed.

Lemma vpat3_head op x :
  is_eq_op op = true ->
  run true vpat3_regex (mkState 0 (call op x) [])
  = run true (operand not_number)
      (mkState 3 (String.append x ")") [("op", (0, 2))]).
Proof.
  unfold is_eq_op. rewrite orb_true_iff, !String.eqb_eq. unfold vpat3_regex.
  intros [-> | ->];
    rewrite (run_Seq_single true _ _ _
               (mkState 2 (String "(" (String.append x ")")) [("op", (0, 2))]))
      by reflexivity;
    rewrite (run_Seq_single true _ _ _
               (mkState 3 (String.append x ")") [("op", (0, 2))]))
      by reflexivity;
    reflexivity.
Qed.

Lemma vpat3_other op x :
  is_op op = true -> is_eq_op op = false ->
  match_str true vpat3_ (call op x) = Ok None.
Proof.
  intros H Hne. unfold match_str, match_. rewrite compile_vpat3. cbn [fst snd].
  apply is_op_cases in H.
  destruct H as [-> | [-> | [-> | [-> | [-> | ->]]]]];
    try discriminate Hne; reflexivity.
Qed.

Lemma vpat1_op op x :
  is_op op = true -> match_str true vpat1_ (call op x) = Ok None.
Proof.
  intros H. apply is_op_cases in H.
  destruct H as [-> | [-> | [-> | [-> | [-> | ->]]]]];
    vm_compute; reflexivity.
Qed.

(** *** Sides without directive *)

Lemma run_pat_other_start c t p caps :
  Ascii.eqb c "_" = false ->
  run false pat_regex (mkState p (String c t) caps) = [].
Proof.
  intros H. unfold pat_regex. rewrite IndexFacts.run_Seq.
  assert (Hone : run false (Chr "_") (mkState p (String c t) caps) = []).
  { cbn [run]. unfold one_chr, chr_eq. cbn [Re.rest].
    now rewrite Ascii.eqb_sym, H. }
  now rewrite Hone.
Qed.

(** [pat] finds no directive in a text made of a part without [_] and a
    part without [(]. *)
Lemma search_at_split pre : forall post whole p,
  count "_" pre = 0 -> count "(" post = 0 ->
  search_at false pat_regex whole p (String.append pre post) = None.
Proof.
  induction pre as [|c pre IH]; intros post whole p Hpre Hpost.
  - now apply LiteralFacts.search_at_needs_paren.
  - cbn [String.append search_at].
    assert (Hc : Ascii.eqb c "_" = false).
    { simpl in Hpre. destruct (Ascii.eqb c "_"); [discriminate|reflexivity]. }
    rewrite (run_pat_other_start c _ p [] Hc).
    apply IH; [|exact Hpost]. now apply LiteralFacts.count_tail in Hpre.
Qed.

Lemma no_directive op other :
  count "_" op = 0 ->
  count "_" other = 0 \/ count "(" other = 0 ->
  search_str false pat (call op other) = Ok None.
Proof.
  intros Hop Hother. unfold search_str, search.
  rewrite DirectiveFacts.compile_pat. cbn [fst snd]. f_equal.
  destruct Hother as [H|H].
  - rewrite <- (DirectiveFacts.append_empty_r (call op other)).
    apply search_at_split; [|reflexivity].
    unfold call. rewrite GlobFacts.count_append. cbn [count Ascii.eqb Bool.eqb].
    rewrite GlobFacts.count_append, Hop, H. reflexivity.
  - change (call op other)
      with (String.append op (String.append "(" (String.append other ")"))).
    rewrite <- UtilsFacts.append_assoc.
    apply search_at_split.
    + now rewrite GlobFacts.count_append, Hop.
    + now rewrite GlobFacts.count_append, H.
Qed.

(** *** Lower case *)

Lemma lower_append a b :
  lower (String.append a b) = String.append (lower a) (lower b).
Proof.
  unfold lower. induction a as [|c a IH]; [reflexivity|].
  simpl. now rewrite IH.
Qed.

Lemma lower_call op other : lower (call op other) = call (lower op) (lower other).
Proof.
  unfold call. rewrite lower_append. f_equal.
  change (lower (String "(" (String.append other ")")))
    with (String "(" (lower (String.append other ")"))).
  now rewrite lower_append.
Qed.

Lemma lower_keeps_underscores s : count "_" (lower s) = count "_" s.
Proof.
  unfold lower. induction s as [|a s IH]; simpl; [reflexivity|]. rewrite IH.
  f_equal. destruct a as [[] [] [] [] [] [] [] []]; reflexivity.
Qed.

Lemma op_no_underscore op : is_op (lower op) = true -> count "_" op = 0.
Proof.
  intros H. rewrite <- lower_keeps_underscores. apply is_op_cases in H.
  destruct H as [-> | [-> | [-> | [-> | [-> | ->]]]]]; reflexivity.
Qed.

Lemma lower_chr_digit c : is_digit (lower_chr c) = is_digit c.
Proof. destruct c as [[] [] [] [] [] [] [] []]; reflexivity. Qed.

Lemma lower_chr_dot c : Ascii.eqb (lower_chr c) "." = Ascii.eqb c ".".
Proof. destruct c as [[] [] [] [] [] [] [] []]; reflexivity. Qed.

Lemma lower_chr_of_digit c : is_digit c = true -> lower_chr c = c.
Proof.
  destruct c as [[] [] [] [] [] [] [] []]; intros H; try reflexivity;
    vm_compute in H; discriminate H.
Qed.

Lemma every_digit_lower s : every is_digit (lower s) = every is_digit s.
Proof.
  unfold lower. induction s as [|c t IH]; [reflexivity|].
  simpl. now rewrite lower_chr_digit, IH.
Qed.

Lemma is_number_lower s : is_number (lower s) = is_number s.
Proof.
  unfold lower. induction s as [|c t IH]; [reflexivity|].
  cbn [map_chr is_number]. rewrite lower_chr_digit, lower_chr_dot, IH.
  fold (lower t). rewrite every_digit_lower.
  now destruct t.
Qed.

Lemma lower_digits s : every is_digit s = true -> lower s = s.
Proof.
  unfold lower. induction s as [|c t IH]; [reflexivity|]. simpl. intros H.
  apply andb_prop in H as [Hc Ht]. now rewrite (lower_chr_of_digit c Hc), IH.
Qed.

Lemma lower_number s : is_number s = true -> lower s = s.
Proof.
  intros H.
  destruct (number_parts s H) as [[Hd _]|(a & b & -> & Ha & Hb & _)].
  - now apply lower_digits.
  - rewrite lower_append. change (lower (String "." b)) with (String "." (lower b)).
    now rewrite (lower_digits a Ha), (lower_digits b Hb).
Qed.

Lemma digit_not_underscore c : is_digit c = true -> Ascii.eqb c "_" = false.
Proof.
  destruct c as [[] [] [] [] [] [] [] []]; intros H; try reflexivity;
    vm_compute in H; discriminate H.
Qed.

Lemma digits_no_underscore s : every is_digit s = true -> count "_" s = 0.
Proof.
  induction s as [|c t IH]; [reflexivity|]. simpl. intros H.
  apply andb_prop in H as [Hc Ht].
  now rewrite (digit_not_underscore c Hc), (IH Ht).
Qed.

Lemma number_no_underscore s : is_number s = true -> count "_" s = 0.
Proof.
  intros H.
  destruct (number_parts s H) as [[Hd _]|(a & b & -> & Ha & Hb & _)].
  - now apply digits_no_underscore.
  - rewrite GlobFacts.count_append. cbn [count Ascii.eqb Bool.eqb].
    now rewrite (digits_no_underscore a Ha), (digits_no_underscore b Hb).
Qed.

(** *** The groups of a match *)

Lemma assoc_new name new l :
  Forall (fun e : string * (nat * nat) => fst e <> name) new ->
  assoc name (new ++ l) = assoc name l.
Proof.
  induction 1 as [|[n span] new Hn _ IH]; [reflexivity|].
  cbn [app assoc]. simpl in Hn.
  destruct (String.eqb n name) eqn:E; [|exact IH].
  apply String.eqb_eq in E. congruence.
Qed.

(** The groups [op] and [other] of a match of [vpat2_] or [vpat3_] on
    [op(other)]. *)
Lemma operator_groups body op other n new :
  is_op op = true ->
  Forall (fun e => In (fst e) (names body)) new ->
  ~ In "op" (names body) ->
  let found :=
    mkMatch (call op other) 0 n
      (("other", (3, 3 + String.length other)) :: new ++ [("op", (0, 2))]) in
  group "op" found = Some op /\ group "other" found = Some other.
Proof.
  intros Hop Hnew Hno found. subst found. unfold group. cbn [m_caps m_string].
  assert (Hskip : assoc "op" (new ++ [("op", (0, 2))]) = Some (0, 2)).
  { rewrite assoc_new; [reflexivity|].
    eapply Forall_impl; [exact Hnew|]. cbv beta.
    intros e He Heq. rewrite Heq in He. contradiction. }
  cbn [assoc]. change (String.eqb "other" "op") with false.
  change (String.eqb "other" "other") with true. cbv iota. rewrite Hskip.
  apply is_op_cases in Hop.
  destruct Hop as [-> | [-> | [-> | [-> | [-> | ->]]]]];
    (split; [reflexivity|]).
  - exact (f_equal Some (DirectiveFacts.slice_mid "lt(" other ")")).
  - exact (f_equal Some (DirectiveFacts.slice_mid "le(" other ")")).
  - exact (f_equal Some (DirectiveFacts.slice_mid "gt(" other ")")).
  - exact (f_equal Some (DirectiveFacts.slice_mid "ge(" other ")")).
  - exact (f_equal Some (DirectiveFacts.slice_mid "eq(" other ")")).
  - exact (f_equal Some (DirectiveFacts.slice_mid "ne(" other ")")).
Qed.

(** *** Operands that are not numbers *)

Lemma append_inv_tail c : forall a b,
  String.append a c = String.append b c -> a = b.
Proof.
  assert (Hlen : forall a, String.append a c = c -> a = EmptyString).
  { intros a H. apply (f_equal String.length) in H.
    rewrite LiteralFacts.length_append in H. destruct a; [reflexivity|].
    simpl in H. lia. }
  induction a as [|x a IH]; intros b H.
  - symmetry. apply Hlen. now rewrite <- H.
  - destruct b as [|y b].
    + now apply Hlen in H.
    + simpl in H. injection H as -> H. f_equal. now apply IH.
Qed.

Lemma reads_same u n u' n' s s' : reads u n s s' -> reads u' n' s s' -> u = u'.
Proof.
  intros (H & _) (H' & _). rewrite H in H'. now apply append_inv_tail in H'.
Qed.

(** On an operand that is not a number, the pattern of numbers fails. *)
Lemma number_operand_fails other p caps :
  is_number other = false ->
  run true (operand number)
      (mkState p (String.append (lower other) ")") caps) = [].
Proof.
  intros Hno.
  apply (operand_fails true number
           (mkState p (String.append (lower other) ")") caps) (lower other)
           eq_refl).
  intros s2 new H2 Hr.
  destruct (number_reads true _ _ H2) as (u & new' & Hr' & Hu).
  rewrite (reads_same _ _ _ _ _ _ Hr' Hr), is_number_lower in Hu. congruence.
Qed.

Lemma no_newline_every s :
  no_newline s = every (fun a => negb (Ascii.eqb a newline)) s.
Proof. induction s as [|c t IH]; [reflexivity|]. simpl. now rewrite IH. Qed.

Lemma no_newline_lower s : no_newline (lower s) = no_newline s.
Proof.
  unfold lower. induction s as [|c t IH]; [reflexivity|].
  simpl. now rewrite DirectiveFacts.lower_chr_newline, IH.
Qed.

Lemma every_false_split test s :
  every test s = false ->
  exists w1 x w2, s = String.append w1 (String x w2) /\ test x = false.
Proof.
  induction s as [|c t IH]; [discriminate|]. simpl.
  destruct (test c) eqn:Hc.
  - intros H. destruct (IH H) as (w1 & x & w2 & -> & Hx).
    exists (String c w1), x, w2. auto.
  - intros _. exists "", c, t. auto.
Qed.

(** [.*[^0-9].*] reads every line that holds a character other than a
    digit. *)
Lemma not_number_reaches w1 x w2 p e caps :
  no_newline (String.append w1 (String x w2)) = true ->
  is_digit x = false ->
  In (mkState (p + String.length (String.append w1 (String x w2))) e caps)
     (run true not_number
        (mkState p (String.append (String.append w1 (String x w2)) e) caps)).
Proof.
  intros Hnl Hx. rewrite no_newline_every, every_app in Hnl.
  apply andb_prop in Hnl as [H1 H2]. simpl in H2.
  apply andb_prop in H2 as [_ H2].
  unfold not_number.
  change (run true (Seq (Star Any) (Seq (Cls true [("0"%char, "9"%char)]) (Star Any)))
            (mkState p (String.append (String.append w1 (String x w2)) e) caps))
    with (flat_map
            (fun s1 =>
               flat_map
                 (fun s2 =>
                    star (one_chr (fun a => negb (Ascii.eqb a newline)))
                      (S (String.length (Re.rest s2))) s2)
                 (one_chr (fun a => xorb true
                                      (in_class true [("0"%char, "9"%char)] a))
                    s1))
            (star (one_chr (fun a => negb (Ascii.eqb a newline)))
               (S (String.length
                     (String.append (String.append w1 (String x w2)) e)))
               (mkState p (String.append (String.append w1 (String x w2)) e)
                  caps))).
  rewrite UtilsFacts.append_assoc. cbn [String.append].
  apply in_flat_map.
  exists (mkState (p + String.length w1) (String x (String.append w2 e)) caps).
  split.
  - apply star_test_reaches; [exact H1|].
    rewrite LiteralFacts.length_append. lia.
  - unfold one_chr at 2. cbn [Re.rest]. rewrite in_class_digit, Hx.
    cbn [xorb flat_map]. rewrite app_nil_r.
    unfold advance. cbn [Re.pos Re.caps Re.rest].
    rewrite LiteralFacts.length_append. cbn [String.length].
    replace (p + (String.length w1 + S (String.length w2)))
      with (S (p + String.length w1) + String.length w2) by lia.
    apply star_test_reaches; [exact H2|].
    rewrite LiteralFacts.length_append. lia.
Qed.

Lemma names_number : ~ In "op" (names number).
Proof. simpl. intuition discriminate. Qed.

Lemma names_not_number : ~ In "op" (names not_number).
Proof. simpl. tauto. Qed.

(** *** What [parse] makes of an operator *)

Lemma match_str_vpat2 s :
  match_str true vpat2_ s
  = Ok (match run true vpat2_regex (mkState 0 s []) with
        | m :: _ => Some (mkMatch s 0 (Re.pos m) (Re.caps m))
        | [] => None
        end).
Proof. unfold match_str, match_. now rewrite compile_vpat2. Qed.

Lemma match_str_vpat3 s :
  match_str true vpat3_ s
  = Ok (match run true vpat3_regex (mkState 0 s []) with
        | m :: _ => Some (mkMatch s 0 (Re.pos m) (Re.caps m))
        | [] => None
        end).
Proof. unfold match_str, match_. now rewrite compile_vpat3. Qed.

Lemma parse_without_directive re text :
  search_str false pat text = Ok None -> parse re text = parse_other_ text.
Proof. intros H. unfold parse. now rewrite H. Qed.

(** X26. A side [op(other)] whose operator is one of [lt le gt ge eq ne],
    in any case of its letters, and whose operand is a number (decimal
    digits with at most one dot, not at the end) parses to the validator
    [OpValidation.compare_number] for the operator in lower case and the
    operand as written. *)
Theorem number_operand_is_compared_as_number
    (re : ReLib) (op other : string) :
  is_op (lower op) = true ->
  is_number other = true ->
  parse re (call op other)
  = Ok (Callable (compare_number_partial (lower op) other)).
Proof.
  intros Hop Hnum.
  rewrite parse_without_directive
    by (apply no_directive;
        [now apply op_no_underscore|left; now apply number_no_underscore]).
  unfold parse_other_. rewrite lower_call, (lower_number other Hnum).
  rewrite (vpat1_op (lower op) other Hop). cbn [mbind res_bind].
  rewrite match_str_vpat2, (vpat2_head (lower op) other Hop).
  destruct (number_reaches true other 3 ")" [("op", (0, 2))] Hnum) as [new Hin].
  destruct (operand_matches true number
              (mkState 3 (String.append other ")") [("op", (0, 2))])
              other new eq_refl Hin) as (new' & l & Hn & ->).
  cbn [mbind res_bind Re.pos Re.caps].
  destruct (operator_groups number (lower op) other
              (3 + String.length other + 1) new' Hop Hn names_number)
    as [Ho Hoth].
  unfold group_of. rewrite Ho, Hoth. reflexivity.
Qed.

Lemma number_operand_is_compared_as_number_witness :
  parse PyRe (call "GT" "1.5")
  = Ok (Callable (compare_number_partial "gt" "1.5")).
Proof.
  apply (number_operand_is_compared_as_number PyRe "GT" "1.5"); reflexivity.
Defined.

(** X27. A side [eq(other)] or [ne(other)], in any case of the letters
    of the operator, whose operand is one line, not empty, not a number
    and free of [_] or of [(], parses to the validator
    [OpValidation.compare] for the operator and the operand in lower
    case: the case of the operand is lost before the validator sees
    it. *)
Theorem text_operand_is_compared_in_lower_case
    (re : ReLib) (op other : string) :
  is_eq_op (lower op) = true ->
  other <> EmptyString ->
  is_number other = false ->
  no_newline other = true ->
  count "_" other = 0 \/ count "(" other = 0 ->
  parse re (call op other)
  = Ok (Callable (compare_partial (lower op) (lower other))).
Proof.
  intros Heq Hne Hnum Hnl Hfree.
  assert (Hop : is_op (lower op) = true).
  { unfold is_eq_op in Heq. apply orb_prop in Heq as [H|H];
      apply String.eqb_eq in H; rewrite H; reflexivity. }
  rewrite parse_without_directive
    by (apply no_directive; [now apply op_no_underscore|exact Hfree]).
  unfold parse_other_. rewrite lower_call.
  rewrite (vpat1_op (lower op) (lower other) Hop). cbn [mbind res_bind].
  rewrite match_str_vpat2, (vpat2_head (lower op) (lower other) Hop).
  rewrite (number_operand_fails other 3 [("op", (0, 2))] Hnum). cbn [mbind res_bind].
  rewrite match_str_vpat3, (vpat3_head (lower op) (lower other) Heq).
  assert (Hd : every is_digit (lower other) = false).
  { destruct (every is_digit (lower other)) eqn:E; [|reflexivity].
    rewrite every_digit_lower in E.
    rewrite (digits_number other E Hne) in Hnum. discriminate. }
  destruct (every_false_split _ _ Hd) as (w1 & x & w2 & Hlo & Hx).
  assert (Hin : In (mkState (3 + String.length (lower other)) ")"
                      ([] ++ [("op", (0, 2))]))
                   (run true not_number
                      (mkState 3 (String.append (lower other) ")")
                         [("op", (0, 2))]))).
  { rewrite Hlo. apply not_number_reaches; [|exact Hx].
    rewrite <- Hlo. now rewrite no_newline_lower. }
  destruct (operand_matches true not_number
              (mkState 3 (String.append (lower other) ")") [("op", (0, 2))])
              (lower other) [] eq_refl Hin) as (new' & l & Hn & ->).
  cbn [mbind res_bind Re.pos Re.caps].
  destruct (operator_groups not_number (lower op) (lower other)
              (3 + String.length (lower other) + 1) new' Hop Hn
              names_not_number)
    as [Ho Hoth].
  unfold group_of. rewrite Ho, Hoth. reflexivity.
Qed.

Lemma text_operand_is_compared_in_lower_case_witness :
  parse PyRe (call "eq" "Alice B") = Ok (Callable (compare_partial "eq" "alice b")).
Proof.
  apply (text_operand_is_compared_in_lower_case PyRe "eq" "Alice B");
    [reflexivity|discriminate|reflexivity|reflexivity|now left].
Defined.

(** The operand of one capital 201 reaches the validator as 233. *)
Lemma operand_latin1 :
  parse PyRe (call "eq" (String (ascii_of_nat 201) ""))
  = Ok (Callable (compare_partial "eq" (String (ascii_of_nat 233) ""))).
Proof. vm_compute. reflexivity. Qed.


(** X28. An ordering operator [lt le gt ge] with an operand that is not
    a number is no comparison: the side, if it holds no directive, is
    the literal that stands for itself, and [re.search] with it accepts
    exactly the text [op(other)] as written (and that text followed by
    one newline). *)
Theorem ordering_of_text_is_a_literal (re : ReLib) (op other : string) :
  is_op (lower op) = true ->
  is_eq_op (lower op) = false ->
  is_number other = false ->
  count "_" other = 0 \/ count "(" other = 0 ->
  parse re (call op other)
  = Ok (PatternStr
          (String.append "^"
             (String.append (re_escape (call op other)) "$")))
  /\ forall s,
       search_side PyRe
         (PatternStr
            (String.append "^"
               (String.append (re_escape (call op other)) "$"))) s
       = Ok (is_text_or_line (call op other) s).
Proof.
  intros Hop Hneq Hnum Hfree. split.
  - rewrite parse_without_directive
      by (apply no_directive; [now apply op_no_underscore|exact Hfree]).
    unfold parse_other_. rewrite lower_call.
    rewrite (vpat1_op (lower op) (lower other) Hop). cbn [mbind res_bind].
    rewrite match_str_vpat2, (vpat2_head (lower op) (lower other) Hop).
    rewrite (number_operand_fails other 3 [("op", (0, 2))] Hnum). cbn [mbind res_bind].
    now rewrite (vpat3_other (lower op) (lower other) Hop Hneq).
  - intros s. apply LiteralFacts.search_side_literal.
Qed.

Lemma ordering_of_text_is_a_literal_witness :
  parse PyRe (call "gt" "abc") = Ok (PatternStr "^gt\(abc\)$")
  /\ forall s,
       search_side PyRe (PatternStr "^gt\(abc\)$") s
       = Ok (is_text_or_line (call "gt" "abc") s).
Proof.
  apply (ordering_of_text_is_a_literal PyRe "gt" "abc");
    [reflexivity|reflexivity|reflexivity|now left].
Defined.

End OperatorFacts.

(** ** Facts about the separator inside a directive *)

Module SeparatorFacts.
Import Str Re Lookup Literal Directive Operator.

Lemma count_append_le c a b : count c b <= count c (String.append a b).
Proof. rewrite GlobFacts.count_append. lia. Qed.

(** The matcher does not create characters. *)
Lemma run_count ic r s s' c :
  In s' (run ic r s) -> count c (Re.rest s') <= count c (Re.rest s).
Proof.
  intros Hin.
  destruct (OperatorFacts.run_reads ic r s s' Hin) as (u & new & (Hr & _) & _).
  rewrite Hr. apply count_append_le.
Qed.

(** [pat] needs a closing parenthesis. *)
Lemma pat_needs_close st :
  count ")" (Re.rest st) = 0 -> run false pat_regex st = [].
Proof.
  intros Hc. destruct (run false pat_regex st) as [|m l] eqn:E; [reflexivity|].
  assert (Hin : In m (run false pat_regex st)) by (rewrite E; now left).
  exfalso. unfold pat_regex, pat_tail in Hin.
  rewrite !IndexFacts.run_Seq in Hin.
  apply in_flat_map in Hin as (s1 & H1 & Hin).
  apply in_flat_map in Hin as (s2 & H2 & Hin).
  apply in_flat_map in Hin as (s3 & H3 & Hin).
  apply in_flat_map in Hin as (s4 & H4 & Hin).
  apply in_flat_map in Hin as (s5 & H5 & Hin).
  apply (run_count false (Chr "_") _ _ ")") in H1.
  apply (run_count false (Alt (Chr "i") Eps) _ _ ")") in H2.
  apply (run_count false (Grp "" method_alt) _ _ ")") in H3.
  apply (run_count false (Cls false [("("%char, "("%char)]) _ _ ")") in H4.
  apply (run_count false some_chrs _ _ ")") in H5.
  unfold closing in Hin. cbn [run] in Hin.
  apply OperatorFacts.reads_one_chr in Hin as (a & Ha & (Hr & _)).
  rewrite OperatorFacts.in_class_close in Ha. simpl in Ha.
  apply Ascii.eqb_eq in Ha. subst a.
  rewrite Hr in H5. simpl in H5. lia.
Qed.

Lemma search_pat_no_close whole : forall s p,
  count ")" s = 0 -> search_at false pat_regex whole p s = None.
Proof.
  induction s as [|a s IH]; intros p Hc; cbn [search_at];
    rewrite (pat_needs_close (mkState p _ [])) by exact Hc; [reflexivity|].
  apply IH. now apply LiteralFacts.count_tail in Hc.
Qed.

(** A side that starts with [_] and holds no directive is a literal. *)
Lemma parse_other_underscore x :
  parse_other_ (String "_" x)
  = Ok (PatternStr
          (String.append "^" (String.append (re_escape (String "_" x)) "$"))).
Proof.
  unfold parse_other_.
  change (lower (String "_" x)) with (String "_" (lower x)).
  assert (H1 : match_str true vpat1_ (String "_" (lower x)) = Ok None)
    by (vm_compute; reflexivity).
  assert (H2 : match_str true vpat2_ (String "_" (lower x)) = Ok None)
    by (vm_compute; reflexivity).
  assert (H3 : match_str true vpat3_ (String "_" (lower x)) = Ok None)
    by (vm_compute; reflexivity).
  rewrite H1. cbn [mbind res_bind]. rewrite H2. cbn [mbind res_bind].
  rewrite H3. reflexivity.
Qed.

Lemma count_opened c o m start :
  is_head o m -> c = "="%char \/ c = ")"%char ->
  count c (opened o m start) = count c start.
Proof.
  intros [[-> | ->] [-> | [-> | ->]]] [-> | ->]; reflexivity.
Qed.

Lemma directive_split o m a b :
  directive o m (String.append a (String "=" b))
  = String.append (opened o m a) (String "=" (String.append b ")")).
Proof.
  unfold directive, opened. cbn [String.append]. f_equal.
  rewrite !UtilsFacts.append_assoc. reflexivity.
Qed.

(** X29. A directive whose payload holds [=] is not a directive: the
    lookup is cut at the first [=] before either side is parsed.  With a
    payload [start=end] whose [start] holds neither [=] nor [)] and whose
    [end] holds no [(], the lookup [_method(start=end)] is the literal
    key [_method(start] with the literal value [end)]. *)
Theorem equals_sign_splits_a_directive
    (validate : pfunc -> pyval -> res bool) (options method start stop : string) :
  is_head options method ->
  count "=" start = 0 -> count ")" start = 0 -> count "(" stop = 0 ->
  exists lk,
    process PyRe
      (directive options method (String.append start (String "=" stop)))
    = Ok lk
    /\ (forall k,
          is_left_matched PyRe lk k
          = Ok (match k with
                | KStr s => is_text_or_line (opened options method start) s
                | _ => false
                end))
    /\ is_right lk = true
    /\ (forall v,
          is_right_matched PyRe validate lk v
          = Ok (match v with
                | PStr s => is_text_or_line (String.append stop ")") s
                | _ => false
                end)).
Proof.
  intros Hh Heq Hclose Hopen.
  exists (mkLookupCls
            (directive options method (String.append start (String "=" stop)))
            (PatternStr
               (String "^"
                  (String.append (re_escape (opened options method start)) "$")))
            (Some (PatternStr
                     (String "^"
                        (String.append (re_escape (String.append stop ")"))
                           "$"))))).
  split.
  { rewrite directive_split.
    rewrite (LookupFacts.process_first_equals PyRe)
      by (now rewrite (count_opened "=" _ _ _ Hh (or_introl eq_refl))).
    rewrite <- directive_split.
    assert (Hl : parse PyRe (opened options method start)
                 = Ok (PatternStr
                         (String "^"
                            (String.append
                               (re_escape (opened options method start)) "$")))).
    { rewrite OperatorFacts.parse_without_directive.
      - apply parse_other_underscore.
      - unfold search_str, search. rewrite DirectiveFacts.compile_pat.
        cbn [fst snd]. f_equal. apply search_pat_no_close.
        now rewrite (count_opened ")" _ _ _ Hh (or_intror eq_refl)). }
    rewrite Hl.
    rewrite (LiteralFacts.parse_plain PyRe (String.append stop ")"))
      by (now rewrite GlobFacts.count_append, Hopen).
    reflexivity. }
  split.
  { intros k. apply (KeyFacts.literal_left_matched _ _ k). reflexivity. }
  split; [reflexivity|].
  intros v. unfold is_right_matched. cbn [is_right right negb].
  destruct v; try reflexivity. apply LiteralFacts.search_side_literal.
Qed.

Lemma equals_sign_splits_a_directive_witness :
  exists lk,
    process PyRe (directive "" "regex" (String.append "a" (String "=" "b")))
    = Ok lk
    /\ (forall k,
          is_left_matched PyRe lk k
          = Ok (match k with
                | KStr s => is_text_or_line (opened "" "regex" "a") s
                | _ => false
                end))
    /\ is_right lk = true
    /\ (forall v,
          is_right_matched PyRe Samples.no_validators lk v
          = Ok (match v with
                | PStr s => is_text_or_line (String.append "b" ")") s
                | _ => false
                end)).
Proof.
  apply (equals_sign_splits_a_directive Samples.no_validators "" "regex" "a" "b");
    [split; auto|reflexivity|reflexivity|reflexivity].
Defined.

End SeparatorFacts.
